(** * Hybrid retrieval and answer synthesis: a shallow embedding of kb.py / app.py

    The development follows the Python sources function by function.

    Modelling conventions.
    - A Python [str] is a Rocq [string]; one [ascii] is one character, and
      a character that is not ASCII is the bytes of its UTF-8 encoding.  The
      character classes ([\w], [\s], [str.lower], [str.isspace],
      [str.splitlines]) are those of Python on ASCII text: the development
      is about ASCII text, with the few other characters the sources name
      (the bullet, the ellipsis) handled where they occur.
    - A Python [float] is a real number of [R]: the arithmetic of the scorers
      is exact.  Every comparison proved below has a margin, or is an
      equality between terms the code computes identically.
    - A Python [re] pattern is a value of [regex], matched by [rmatch] with
      the priority (greedy, leftmost, backtracking) semantics of [re].
    - The libraries the sources import are interfaces: rapidfuzz is the class
      [Fuzz], the chat completion endpoint is the class [Llm], and a parsed
      BeautifulSoup document is a tree of [node]s.
    - A raised exception is [None]. *)

From Stdlib Require Import String Ascii List Bool Arith PeanoNat ZArith Lia.
From Stdlib Require Import Reals Lra DecimalString Sorted Permutation.
Import ListNotations.

Local Open Scope string_scope.
Local Open Scope list_scope.
Local Open Scope nat_scope.

(* ================================================================== *)
(** ** Characters and strings, as Python's [str] methods see them *)
(* ================================================================== *)

Module Py.

Definition code (c : ascii) : nat := nat_of_ascii c.

Definition is_upper (c : ascii) : bool := (65 <=? code c) && (code c <=? 90).
Definition is_lower (c : ascii) : bool := (97 <=? code c) && (code c <=? 122).
Definition is_digit (c : ascii) : bool := (48 <=? code c) && (code c <=? 57).
Definition is_alpha (c : ascii) : bool := is_upper c || is_lower c.

(** [\w]: letters, digits and the underscore. *)
Definition is_word (c : ascii) : bool := is_alpha c || is_digit c || (code c =? 95).

(** [\s] and [str.isspace]: tab, newline, vertical tab, form feed, carriage
    return, the four separators 0x1c..0x1f and the space. *)
Definition is_space (c : ascii) : bool :=
  ((9 <=? code c) && (code c <=? 13)) || ((28 <=? code c) && (code c <=? 32)).

(** The line boundaries of [str.splitlines]. *)
Definition is_linebreak (c : ascii) : bool :=
  ((10 <=? code c) && (code c <=? 13)) || ((28 <=? code c) && (code c <=? 30)).

Definition nl : ascii := ascii_of_nat 10.
Definition cr : ascii := ascii_of_nat 13.
Definition tab : ascii := ascii_of_nat 9.
Definition dquote : ascii := ascii_of_nat 34.
Definition NL : string := String nl EmptyString.

Definition to_lower (c : ascii) : ascii :=
  if is_upper c then ascii_of_nat (code c + 32) else c.

Fixpoint smap (f : ascii -> ascii) (s : string) : string :=
  match s with
  | EmptyString => EmptyString
  | String c s' => String (f c) (smap f s')
  end.

(** [s.lower()] *)
Definition lower (s : string) : string := smap to_lower s.

Definition is_empty (s : string) : bool :=
  match s with EmptyString => true | _ => false end.

(** Truthiness of a string: [if s:]. *)
Definition truthy (s : string) : bool := negb (is_empty s).

(** [s.startswith(p)] *)
Definition startswith (s p : string) : bool := String.prefix p s.

(** [p in s] *)
Fixpoint contains (p s : string) : bool :=
  String.prefix p s ||
  match s with
  | EmptyString => false
  | String _ s' => contains p s'
  end.

(** [w in xs] for a set or list of strings. *)
Definition mem (w : string) (xs : list string) : bool := existsb (String.eqb w) xs.

(** [any(p in s for p in ps)] *)
Definition any_in (ps : list string) (s : string) : bool :=
  existsb (fun p => contains p s) ps.

Fixpoint drop_while (p : ascii -> bool) (s : string) : string :=
  match s with
  | EmptyString => EmptyString
  | String c s' => if p c then drop_while p s' else s
  end.

Fixpoint drop_while_end (p : ascii -> bool) (s : string) : string :=
  match s with
  | EmptyString => EmptyString
  | String c s' =>
      let r := drop_while_end p s' in
      if is_empty r && p c then EmptyString else String c r
  end.

(** [s.lstrip()], [s.rstrip()], [s.strip()] *)
Definition lstrip (s : string) : string := drop_while is_space s.
Definition rstrip (s : string) : string := drop_while_end is_space s.
Definition strip (s : string) : string := lstrip (rstrip s).

Fixpoint in_chars (c : ascii) (cs : string) : bool :=
  match cs with
  | EmptyString => false
  | String d cs' => Ascii.eqb c d || in_chars c cs'
  end.

(** [s.strip(chars)] *)
Definition strip_chars (chars s : string) : string :=
  drop_while (fun c => in_chars c chars) (drop_while_end (fun c => in_chars c chars) s).

(** [s.strip(chars)] when [chars] holds a character that is not ASCII: the
    set is given as the list of its characters, each the string of its
    bytes, and a character is removed whole. *)
Fixpoint skip_chars (n : nat) (s : string) : string :=
  match n, s with
  | S n', String _ s' => skip_chars n' s'
  | _, _ => s
  end.

Fixpoint lstrip_set_go (fuel : nat) (cs : list string) (s : string) : string :=
  match fuel with
  | 0 => s
  | S f =>
      match List.find (fun c => truthy c && String.prefix c s) cs with
      | Some c => lstrip_set_go f cs (skip_chars (String.length c) s)
      | None => s
      end
  end.

Fixpoint rstrip_set (cs : list string) (s : string) : string :=
  match s with
  | EmptyString => EmptyString
  | String c s' =>
      let r := rstrip_set cs s' in
      if mem (String c r) cs then EmptyString else String c r
  end.

Definition strip_set (cs : list string) (s : string) : string :=
  let r := rstrip_set cs s in
  lstrip_set_go (String.length r) cs r.

Definition flush (cur : string) : list string :=
  if is_empty cur then [] else [cur].

Definition snoc (s : string) (c : ascii) : string := (s ++ String c EmptyString)%string.

(** [s.split()]: the maximal runs of characters that are not white space. *)
Fixpoint split_go (cur s : string) : list string :=
  match s with
  | EmptyString => flush cur
  | String c s' =>
      if is_space c then flush cur ++ split_go EmptyString s'
      else split_go (snoc cur c) s'
  end.
Definition split (s : string) : list string := split_go EmptyString s.

(** [s.splitlines()]: a carriage return followed by a newline is one boundary;
    a final boundary opens no empty last line. *)
Fixpoint splitlines_go (cur s : string) : list string :=
  match s with
  | EmptyString => flush cur
  | String c s' =>
      if is_linebreak c then
        if Ascii.eqb c cr then
          match s' with
          | String d s'' =>
              if Ascii.eqb d nl then cur :: splitlines_go EmptyString s''
              else cur :: splitlines_go EmptyString s'
          | EmptyString => [cur]
          end
        else cur :: splitlines_go EmptyString s'
      else splitlines_go (snoc cur c) s'
  end.
Definition splitlines (s : string) : list string := splitlines_go EmptyString s.

(** [sep.join(xs)] *)
Fixpoint join (sep : string) (xs : list string) : string :=
  match xs with
  | [] => EmptyString
  | [x] => x
  | x :: rest => (x ++ sep ++ join sep rest)%string
  end.

(** [s.split(sep)] for a separator of one character. *)
Fixpoint split_on_go (sep : ascii) (cur s : string) : list string :=
  match s with
  | EmptyString => [cur]
  | String c s' =>
      if Ascii.eqb c sep then cur :: split_on_go sep EmptyString s'
      else split_on_go sep (snoc cur c) s'
  end.
Definition split_on (sep : ascii) (s : string) : list string :=
  split_on_go sep EmptyString s.

(** [s[:n]] for [n >= 0]. *)
Definition take (n : nat) (s : string) : string := substring 0 n s.

(** [xs[:n]] for any integer [n]: a negative [n] counts from the end. *)
Definition slice_to {A} (n : Z) (xs : list A) : list A :=
  if (n <? 0)%Z then firstn (length xs - Z.to_nat (- n)) xs
  else firstn (Z.to_nat n) xs.

(** [str(n)] for a natural number. *)
Definition str_of_nat (n : nat) : string :=
  NilZero.string_of_uint (Nat.to_uint n).

End Py.

(* ================================================================== *)
(** ** The fragment of Python's [re] the sources use *)
(* ================================================================== *)

Module Re.
Import Py.

(** A position in the subject is the character before it ([None] at the
    start) and the rest of the string. *)
Inductive regex : Type :=
| Chr (p : ascii -> bool)                       (* one character of a class *)
| Eps                                           (* the empty pattern *)
| Seq (r1 r2 : regex)                           (* r1 r2 *)
| Alt (r1 r2 : regex)                           (* r1|r2, r1 tried first *)
| Rep (p : ascii -> bool) (lo : nat) (hi : option nat)  (* class{lo,hi}, greedy *)
| Plus (r : regex)                              (* (?:r)+, greedy *)
| Bol                                           (* ^ *)
| Eol                                           (* $ *)
| WordB                                         (* \b *)
| Ahead (r : regex)                             (* (?=r) *)
| Behind (p : ascii -> bool).                   (* (?<=[class]) *)

Definition word_at (o : option ascii) : bool :=
  match o with Some c => is_word c | None => false end.

Definition head (s : string) : option ascii :=
  match s with String c _ => Some c | EmptyString => None end.

Definition at_wordb (prev : option ascii) (s : string) : bool :=
  xorb (word_at prev) (word_at (head s)).

Definition below (n : nat) (hi : option nat) : bool :=
  match hi with None => true | Some h => n <? h end.

(** Greedy repetition of a character class: the longest run first, then
    shorter ones, down to [lo] characters. *)
Fixpoint rep_go {A : Type} (p : ascii -> bool) (lo : nat) (hi : option nat)
    (n : nat) (prev : option ascii) (s : string)
    (k : option ascii -> string -> option A) : option A :=
  let stop := if lo <=? n then k prev s else None in
  match s with
  | String c s' =>
      if p c && below n hi then
        match rep_go p lo hi (S n) (Some c) s' k with
        | Some x => Some x
        | None => stop
        end
      else stop
  | EmptyString => stop
  end.

(** [rmatch r prev s k]: the first way, in [re]'s priority order, to match
    [r] at the position [(prev, s)] such that the continuation [k] accepts
    the position reached. *)
Fixpoint rmatch (r : regex) {A : Type} (prev : option ascii) (s : string)
    (k : option ascii -> string -> option A) {struct r} : option A :=
  match r with
  | Chr p =>
      match s with
      | String c s' => if p c then k (Some c) s' else None
      | EmptyString => None
      end
  | Eps => k prev s
  | Seq r1 r2 => rmatch r1 prev s (fun p' s' => rmatch r2 p' s' k)
  | Alt r1 r2 =>
      match rmatch r1 prev s k with
      | Some x => Some x
      | None => rmatch r2 prev s k
      end
  | Rep p lo hi => rep_go p lo hi 0 prev s k
  | Plus r1 =>
      (fix iter (fuel : nat) (prev : option ascii) (s : string) {struct fuel} : option A :=
         match fuel with
         | 0 => None
         | S f =>
             rmatch r1 prev s (fun p' s' =>
               if String.length s' <? String.length s then
                 match iter f p' s' with
                 | Some x => Some x
                 | None => k p' s'
                 end
               else k p' s')
         end) (S (String.length s)) prev s
  | Bol => match prev with None => k prev s | Some _ => None end
  | Eol => if is_empty s || String.eqb s NL then k prev s else None
  | WordB => if at_wordb prev s then k prev s else None
  | Ahead r1 =>
      match rmatch r1 prev s (fun _ _ => Some tt) with
      | Some _ => k prev s
      | None => None
      end
  | Behind p =>
      match prev with
      | Some c => if p c then k prev s else None
      | None => None
      end
  end.

(** The number of characters of the match of [r] at a position. *)
Definition match_len (r : regex) (prev : option ascii) (s : string) : option nat :=
  match rmatch r prev s (fun _ rest => Some rest) with
  | Some rest => Some (String.length s - String.length rest)
  | None => None
  end.

(** [re.match(r, s)]: the matched text. *)
Definition re_match (r : regex) (s : string) : option string :=
  match match_len r None s with
  | Some n => Some (take n s)
  | None => None
  end.

(** [re.search(r, s)]: the text before the leftmost match, the match, and
    the text after it. *)
Fixpoint search_go (r : regex) (prev : option ascii) (before s : string)
    : option (string * string * string) :=
  match rmatch r prev s (fun _ rest => Some rest) with
  | Some rest => Some (before, take (String.length s - String.length rest) s, rest)
  | None =>
      match s with
      | String c s' => search_go r (Some c) (snoc before c) s'
      | EmptyString => None
      end
  end.
Definition search (r : regex) (s : string) : option (string * string * string) :=
  search_go r None EmptyString s.

(** [bool(re.match(r, s))] and [bool(re.search(r, s))] *)
Definition matches (r : regex) (s : string) : bool :=
  match match_len r None s with Some _ => true | None => false end.
Definition found (r : regex) (s : string) : bool :=
  match search r s with Some _ => true | None => false end.

(** [m.group(0)] of [re.search(r, s)] *)
Definition group0 (r : regex) (s : string) : option string :=
  match search r s with Some (_, m, _) => Some m | None => None end.

(** The scanners below walk the subject once; after a match of [n]
    characters they skip [n - 1] further characters.  They are used with
    patterns that match no empty string. *)

(** [re.split(r, s)] *)
Fixpoint split_go (r : regex) (skip : nat) (cur : string) (prev : option ascii)
    (s : string) : list string :=
  match s with
  | EmptyString => [cur]
  | String c s' =>
      match skip with
      | S n => split_go r n cur (Some c) s'
      | 0 =>
          match match_len r prev s with
          | Some (S n) => cur :: split_go r n EmptyString (Some c) s'
          | _ => split_go r 0 (snoc cur c) (Some c) s'
          end
      end
  end.
Definition split (r : regex) (s : string) : list string :=
  split_go r 0 EmptyString None s.

(** [re.sub(r, f, s)] where the replacement [f] is computed from the match;
    [sub] is the case of a constant replacement. *)
Fixpoint sub_go (r : regex) (f : string -> string) (skip : nat)
    (prev : option ascii) (s : string) : string :=
  match s with
  | EmptyString => EmptyString
  | String c s' =>
      match skip with
      | S n => sub_go r f n (Some c) s'
      | 0 =>
          match match_len r prev s with
          | Some (S n) => (f (take (S n) s) ++ sub_go r f n (Some c) s')%string
          | _ => String c (sub_go r f 0 (Some c) s')
          end
      end
  end.
Definition sub_with (r : regex) (f : string -> string) (s : string) : string :=
  sub_go r f 0 None s.
Definition sub (r : regex) (repl s : string) : string :=
  sub_with r (fun _ => repl) s.

(** [re.findall(r, s)] for a pattern without groups: the matched texts. *)
Fixpoint findall_go (r : regex) (skip : nat) (prev : option ascii) (s : string)
    : list string :=
  match s with
  | EmptyString => []
  | String c s' =>
      match skip with
      | S n => findall_go r n (Some c) s'
      | 0 =>
          match match_len r prev s with
          | Some (S n) => take (S n) s :: findall_go r n (Some c) s'
          | _ => findall_go r 0 (Some c) s'
          end
      end
  end.
Definition findall (r : regex) (s : string) : list string :=
  findall_go r 0 None s.

(** *** Pattern constructors *)

Definition is_char (c : ascii) : ascii -> bool := fun x => Ascii.eqb x c.
Definition is_char_ci (c : ascii) : ascii -> bool :=
  fun x => Ascii.eqb (to_lower x) (to_lower c).
Definition one_of (cs : string) : ascii -> bool := fun x => in_chars x cs.
Definition nonec (p : ascii -> bool) : ascii -> bool := fun x => negb (p x).
Definition orc (p q : ascii -> bool) : ascii -> bool := fun x => p x || q x.

(** A literal, and a literal under [re.I]. *)
Fixpoint lit (s : string) : regex :=
  match s with
  | EmptyString => Eps
  | String c s' => Seq (Chr (is_char c)) (lit s')
  end.
Fixpoint lit_ci (s : string) : regex :=
  match s with
  | EmptyString => Eps
  | String c s' => Seq (Chr (is_char_ci c)) (lit_ci s')
  end.

Fixpoint seqs (rs : list regex) : regex :=
  match rs with
  | [] => Eps
  | [r] => r
  | r :: rs' => Seq r (seqs rs')
  end.

(** [r1|r2|...|rn]; the empty alternation matches nothing. *)
Fixpoint alts (rs : list regex) : regex :=
  match rs with
  | [] => Chr (fun _ => false)
  | [r] => r
  | r :: rs' => Alt r (alts rs')
  end.

Definition opt (r : regex) : regex := Alt r Eps.           (* (?:r)? *)
Definition star (p : ascii -> bool) : regex := Rep p 0 None.   (* class* *)
Definition plus (p : ascii -> bool) : regex := Rep p 1 None.   (* class+ *)
Definition between (p : ascii -> bool) (lo hi : nat) : regex := Rep p lo (Some hi).
Definition at_least (p : ascii -> bool) (lo : nat) : regex := Rep p lo None.

(** Words separated by [\s+], under [re.I]: ["check\s+for\s+typos"]. *)
Fixpoint words_ci (ws : list string) : regex :=
  match ws with
  | [] => Eps
  | [w] => lit_ci w
  | w :: ws' => Seq (lit_ci w) (Seq (plus is_space) (words_ci ws'))
  end.

End Re.

(* ================================================================== *)
(** ** Tokenization *)
(* ================================================================== *)

Import Py.

Definition STOP : list string :=
  ["the";"and";"for";"that";"with";"this";"from";"into";"your";"you";"are";"was";"were";"have";"has";"had";"but";"not";
   "any";"can";"could";"should";"would";"will";"shall";"about";"also";"then";"than";"when";"what";"which";"how";"why";
   "use";"used";"using";"via";"into";"out";"over";"under";"on";"in";"of";"to";"a";"an";"is";"it";"be";"as";"at";"by";
   "or";"if";"we";"our";"their";"they";"them";"he";"she";"his";"her";"its"].

(** [[^\w\s-]] *)
Definition not_word_space_hyphen : ascii -> bool :=
  Re.nonec (Re.orc is_word (Re.orc is_space (Re.is_char "-"))).

Definition tokenize (s : string) : list string :=
  let s := lower s in
  let s := Re.sub (Re.Chr not_word_space_hyphen) " " s in
  filter (fun w => (2 <? String.length w) && negb (mem w STOP)) (Py.split s).

(* ================================================================== *)
(** ** BM25 *)
(* ================================================================== *)

(** [collections.Counter] over strings, keys in insertion order. *)
Module Counter.

Definition t : Type := list (string * nat).

(** [c[k]] and [c.get(k, 0)] *)
Fixpoint get (c : t) (k : string) : nat :=
  match c with
  | [] => 0
  | (k', n) :: c' => if String.eqb k k' then n else get c' k
  end.

(** [k in c] *)
Definition has (c : t) (k : string) : bool :=
  existsb (fun kv => String.eqb k (fst kv)) c.

(** [c[k] += 1] *)
Fixpoint incr (k : string) (c : t) : t :=
  match c with
  | [] => [(k, 1)]
  | (k', n) :: c' =>
      if String.eqb k k' then (k', S n) :: c' else (k', n) :: incr k c'
  end.

(** [c.update(xs)] *)
Definition update (c : t) (xs : list string) : t :=
  fold_left (fun c k => incr k c) xs c.

(** [Counter(xs)] *)
Definition of_list (xs : list string) : t := update [] xs.

End Counter.

(** [set(d)], listed without repetition. *)
Definition set_of (d : list string) : list string := nodup string_dec d.

Definition sum_nat (xs : list nat) : nat := fold_right Nat.add 0 xs.

(** [x or d] on numbers. *)
Definition nat_or (x d : nat) : nat := if x =? 0 then d else x.
Definition R_or (x d : R) : R := if Req_dec_T x 0 then d else x.

Record BM25 : Type := {
  k1 : R;
  b : R;
  docs_tokens : list (list string);
  N : nat;
  df : Counter.t;
  doc_len : list nat;
  avgdl : R
}.

(** [BM25.__init__] *)
Definition BM25_init (docs : list (list string)) (k1 b : R) : BM25 :=
  let n := length docs in
  let lens := map (@length string) docs in
  {| k1 := k1;
     b := b;
     docs_tokens := docs;
     N := n;
     df := fold_left (fun df d => Counter.update df (set_of d)) docs [];
     doc_len := lens;
     avgdl := if n =? 0 then 0%R else (INR (sum_nat lens) / INR n)%R |}.

(** [BM25(docs_tokens)], with the default [k1 = 1.5] and [b = 0.75]. *)
Definition BM25_new (docs : list (list string)) : BM25 :=
  BM25_init docs 1.5%R 0.75%R.

(** The value of [idf] for a corpus of [n] documents and a term found in
    [n_qi] of them. *)
Definition idf_value (n n_qi : nat) : R :=
  if n =? 0 then 0%R
  else ln (1 + (INR n - INR n_qi + 0.5) / (INR n_qi + 0.5))%R.

(** [BM25.idf] *)
Definition idf (bm : BM25) (term : string) : R :=
  let n_qi := Counter.get (df bm) term in
  idf_value (N bm) n_qi.

(** The denominator of one term of the sum. *)
Definition bm25_denom (bm : BM25) (dl f : R) : R :=
  (f + k1 bm * (1 - b bm + b bm * dl / R_or (avgdl bm) 1))%R.

(** The body of the loop over the query tokens. *)
Definition score_step (bm : BM25) (dl : R) (tf : Counter.t) (score : R) (t : string) : R :=
  if negb (Counter.has tf t) then score
  else
    let idf_t := idf bm t in
    let f := INR (Counter.get tf t) in
    let denom := bm25_denom bm dl f in
    (score + idf_t * ((f * (k1 bm + 1)) / denom))%R.

(** [BM25.score]; [None] is the [IndexError] of a document index out of
    range. *)
Definition score (bm : BM25) (q_tokens : list string) (doc_idx : nat) : option R :=
  match nth_error (doc_len bm) doc_idx, nth_error (docs_tokens bm) doc_idx with
  | Some l, Some d =>
      let dl := INR (nat_or l 1) in
      let tf := Counter.of_list d in
      Some (fold_left (score_step bm dl tf) q_tokens 0%R)
  | _, _ => None
  end.

(* ================================================================== *)
(** ** Table parsing (error catalog) *)
(* ================================================================== *)

(** The tree BeautifulSoup builds from the markup: text nodes and tags. *)
#[warnings="-register-all"]
Inductive node : Type :=
| Text (s : string)
| Elem (tag : string) (kids : list node).

Module Soup.

(** [el.descendants]: the nodes below [el], in document order. *)
Fixpoint descendants (n : node) : list node :=
  match n with
  | Text _ => []
  | Elem _ kids =>
      (fix go (ks : list node) : list node :=
         match ks with
         | [] => []
         | k :: ks' => (k :: descendants k) ++ go ks'
         end) kids
  end.

Definition has_tag (names : list string) (n : node) : bool :=
  match n with
  | Text _ => false
  | Elem tag _ => mem tag names
  end.

(** [el.find_all(names)] *)
Definition find_all (names : list string) (el : node) : list node :=
  filter (has_tag names) (descendants el).

(** [el.find(name)] *)
Definition find (name : string) (el : node) : option node :=
  hd_error (find_all [name] el).

Definition strings_of (n : node) : list string :=
  match n with
  | Text s => [s]
  | Elem _ _ => []
  end.

(** [el.get_text(separator=sep)]: the strings below [el], joined. *)
Definition get_text (sep : string) (el : node) : string :=
  join sep (flat_map strings_of (descendants el)).

End Soup.

(** A [dict] with string keys, in insertion order. *)
Module Dict.

Definition t : Type := list (string * string).

(** [d.get(k, default)] *)
Fixpoint get (d : t) (k default : string) : string :=
  match d with
  | [] => default
  | (k', v) :: d' => if String.eqb k k' then v else get d' k default
  end.

(** [d[k] = v] *)
Fixpoint set (d : t) (k v : string) : t :=
  match d with
  | [] => [(k, v)]
  | (k', v') :: d' =>
      if String.eqb k k' then (k', v) :: d' else (k', v') :: set d' k v
  end.

(** [{k: v for k, v in kvs}] *)
Definition of_pairs (kvs : list (string * string)) : t :=
  fold_left (fun d kv => set d (fst kv) (snd kv)) kvs [].

End Dict.

Definition HEADER_ALIASES : list (string * list string) :=
  [("error", ["error"; "errors"; "message"; "error message"; "problem"]);
   ("cause", ["cause"; "causes"; "root cause"]);
   ("remedy", ["remedy"; "solution"; "fix"; "resolution"]);
   ("suggestions", ["suggestion"; "suggestions"; "note"; "notes"; "hint"; "hints"; "tip"; "tips"])].

Definition _clean_cell_text (el : node) : string :=
  strip (join " " (Py.split (Soup.get_text " " el))).

Definition _normalize_header (h : string) : string :=
  let h := lower (strip h) in
  match List.find (fun ka => mem h (snd ka)) HEADER_ALIASES with
  | Some (key, _) => key
  | None =>
      if contains "error" h || contains "message" h || contains "problem" h then "error"
      else if contains "cause" h then "cause"
      else if contains "remedy" h || contains "solution" h || contains "fix" h
              || contains "resolution" h then "remedy"
      else if contains "suggest" h || contains "note" h || contains "tip" h then "suggestions"
      else if truthy h then h else "col"
  end.

(** A catalog row: the [dict] with the keys [error], [cause], [remedy],
    [suggestions], [raw] and [text]. *)
Record Row : Type := {
  error : string;
  cause : string;
  remedy : string;
  suggestions : string;
  raw : Dict.t;
  text : string
}.

(** [enumerate(xs)] *)
Fixpoint enumerate_from {A : Type} (i : nat) (xs : list A) : list (nat * A) :=
  match xs with
  | [] => []
  | x :: xs' => (i, x) :: enumerate_from (S i) xs'
  end.
Definition enumerate {A : Type} (xs : list A) : list (nat * A) := enumerate_from 0 xs.

(** The headers of one table: those of the [thead] when it has [th] cells,
    otherwise the cells of the first row. *)
Definition table_headers (table : node) : list string :=
  let headers :=
    match Soup.find "thead" table with
    | Some thead =>
        map (fun th => _normalize_header (_clean_cell_text th)) (Soup.find_all ["th"] thead)
    | None => []
    end in
  match headers with
  | _ :: _ => headers
  | [] =>
      match Soup.find "tr" table with
      | Some first_tr =>
          map (fun th => _normalize_header (_clean_cell_text th))
              (Soup.find_all ["th"; "td"] first_tr)
      | None => []
      end
  end.

(** The body of the loop over the rows of a table: the row it appends, if
    any. *)
Definition table_row (headers : list string) (tr : node) : option Row :=
  match Soup.find_all ["td"] tr with
  | [] => None
  | tds =>
      let cells :=
        Dict.of_pairs
          (map (fun itd =>
                  (nth (fst itd) headers ("col" ++ str_of_nat (fst itd))%string,
                   _clean_cell_text (snd itd)))
               (enumerate tds)) in
      let e := strip (Dict.get cells "error" "") in
      let c := strip (Dict.get cells "cause" "") in
      let r := strip (Dict.get cells "remedy" "") in
      let s := strip (Dict.get cells "suggestions" "") in
      if 3 <=? String.length e then
        Some {| error := e; cause := c; remedy := r; suggestions := s; raw := cells;
                text := join " " (filter truthy [e; c; r; s]) |}
      else None
  end.

Definition filter_some {A : Type} (xs : list (option A)) : list A :=
  flat_map (fun o => match o with Some x => [x] | None => [] end) xs.

(** [extract_table_rows_from_html], on the parsed document. *)
Definition extract_table_rows_from_html (soup : node) : list Row :=
  flat_map
    (fun table =>
       let headers := table_headers table in
       filter_some (map (table_row headers) (Soup.find_all ["tr"] table)))
    (Soup.find_all ["table"] soup).

(* ================================================================== *)
(** ** Configuration *)
(* ================================================================== *)

(** The module-level settings read from the environment. *)
Record Config : Type := {
  USE_LLM : bool;
  OPENAI_API_KEY : string;
  MAX_SECTIONS : Z;
  MAX_ANSWER_CHARS : Z;
  PINPOINT_MAX_STEPS : Z;
  ROW_SCORE_MIN : R;
  MAX_SOURCES_PER_ANSWER : Z;
  ERROR_TITLE_HINTS : list string;
  ERROR_PAGE_BIAS : R;
  ERROR_ROW_HARDMATCH : bool;
  STRICT_REMEDY_ONLY : bool;
  FORBIDDEN_PHRASES : list string
}.

(** The defaults of kb.py. *)
Definition default_config : Config := {|
  USE_LLM := true;
  OPENAI_API_KEY := "";
  MAX_SECTIONS := 1;
  MAX_ANSWER_CHARS := -1;
  PINPOINT_MAX_STEPS := 5;
  ROW_SCORE_MIN := 0.92%R;
  MAX_SOURCES_PER_ANSWER := 1;
  ERROR_TITLE_HINTS := ["error"; "errors"; "solution"; "solutions"; "catalog"];
  ERROR_PAGE_BIAS := 0.18%R;
  ERROR_ROW_HARDMATCH := true;
  STRICT_REMEDY_ONLY := true;
  FORBIDDEN_PHRASES :=
    ["contact support"; "contact administrator"; "system administrator"; "open a ticket";
     "reach out to support"; "consult support"; "consult administrator"]
|}.

(** The defaults of app.py, which has no strict mode and no phrase list. *)
Definition app_default_config : Config := {|
  USE_LLM := true;
  OPENAI_API_KEY := "";
  MAX_SECTIONS := 1;
  MAX_ANSWER_CHARS := -1;
  PINPOINT_MAX_STEPS := 8;
  ROW_SCORE_MIN := 0.90%R;
  MAX_SOURCES_PER_ANSWER := 1;
  ERROR_TITLE_HINTS := ["error"; "errors"; "solution"; "solutions"; "catalog"];
  ERROR_PAGE_BIAS := 0.18%R;
  ERROR_ROW_HARDMATCH := true;
  STRICT_REMEDY_ONLY := false;
  FORBIDDEN_PHRASES := []
|}.

Definition MAX_STEP_LINES : Z := 12.

(* ================================================================== *)
(** ** Answer formatting (strict remedy-only) *)
(* ================================================================== *)

Import Re.

(** At the start: an optional [\$] with blanks after it, one of the command
    words followed by [\b], then [(?:\s|$)]; flags [ix]. *)
Definition SHELL_CMD_PAT : regex :=
  seqs [Bol;
        opt (Seq (Chr (is_char "$")) (star is_space));
        alts (map (fun w => Seq (lit_ci w) WordB)
                ["sudo";
                 "ls"; "cat"; "tail"; "head"; "grep"; "awk"; "sed"; "find";
                 "chmod"; "chown"; "chgrp"; "cp"; "mv"; "rm"; "mkdir"; "rmdir"; "ln"; "touch";
                 "systemctl"; "service"; "journalctl";
                 "ssh"; "scp"; "sftp";
                 "kubectl"; "helm"; "docker"; "podman"; "compose";
                 "psql"; "mysql"; "mongo"; "redis-cli";
                 "curl"; "wget"; "tar"; "zip"; "unzip"; "gzip"; "gunzip"]);
        Alt (Chr is_space) Eol].

(** [\b(check\s+for\s+typos|consult\s+documentation|...)\b], flags [ix] *)
Definition GENERIC_FILLER_PAT : regex :=
  seqs [WordB;
        alts [words_ci ["check"; "for"; "typos"];
              words_ci ["consult"; "documentation"];
              words_ci ["refer"; "to"; "documentation"];
              words_ci ["make"; "sure"; "to"; "double"; "check"];
              words_ci ["ensure"; "that"; "everything"; "is"; "correct"]];
        WordB].

(** [\b(or|alternatively|optionally|another way|if that doesn’t|if that
    does not|if the issue persists)\b], flag [I] *)
Definition ALT_PAT : regex :=
  seqs [WordB;
        alts (map lit_ci
                ["or"; "alternatively"; "optionally"; "another way"; "if that doesn’t";
                 "if that does not"; "if the issue persists"]);
        WordB].

(** [(contact|reach out|open a ticket|administrator|support)], flag [I] *)
Definition ESCALATE_PAT : regex :=
  alts (map lit_ci ["contact"; "reach out"; "open a ticket"; "administrator"; "support"]).

(** [^\d+\.\s] *)
Definition NUMBERED_PAT : regex :=
  seqs [Bol; plus is_digit; Chr (is_char "."); Chr is_space].

(** [\n(?=\d+\.\s)] *)
Definition LIST_BREAK_PAT : regex :=
  Seq (Chr (is_char nl)) (Ahead (seqs [plus is_digit; Chr (is_char "."); Chr is_space])).

(** The test of the loop of [sanitize_output]: is the line [ln] kept?  The
    flag [numbered_started] of the source is written and never acted on (its
    only reader is a branch that does nothing), so the loop is a filter. *)
Definition sanitize_keeps (cfg : Config) (ln : string) : bool :=
  let low := strip (lower ln) in
  if any_in (FORBIDDEN_PHRASES cfg) low || found ESCALATE_PAT low then false
  else if found ALT_PAT low && negb (matches NUMBERED_PAT ln) then false
  else if found GENERIC_FILLER_PAT low then false
  else truthy (strip ln).

(** The blocks kept after the first one. *)
Definition later_block_kept (b : string) : bool :=
  startswith b "1." || startswith b "Notes:".

Definition sanitize_output (cfg : Config) (text : string) : string :=
  let lines := map rstrip (splitlines text) in
  let keep := filter (sanitize_keeps cfg) lines in
  let out := strip (join NL keep) in
  let blocks := Re.split LIST_BREAK_PAT out in
  let out :=
    match blocks with
    | b0 :: (_ :: _) as later =>
        (b0 ++ NL ++ join NL (filter later_block_kept later))%string
    | _ => out
    end in
  let out := Re.sub (at_least (is_char nl) 3) (NL ++ NL) out in
  strip out.

(** The horizontal ellipsis appended to a truncated answer. *)
Definition ELLIPSIS : string := "…".

(** [\bSource:] *)
Definition SOURCE_PAT : regex := Seq WordB (lit "Source:").

(** [(Do this:)], blanks, then one or more [\n], blanks, [Do this:];
    flag [I].  The replacement is the first group. *)
Definition DO_THIS_PAT : regex :=
  seqs [lit_ci "Do this:"; star is_space;
        Plus (seqs [Chr (is_char nl); star is_space; lit_ci "Do this:"])].

(** [s[:n]] for any integer [n]. *)
Definition str_slice_to (n : Z) (s : string) : string :=
  if (n <? 0)%Z then take (String.length s - Z.to_nat (- n)) s
  else take (Z.to_nat n) s.

(** [post_process_answer] of kb.py *)
Definition post_process_answer (cfg : Config) (raw : string) : string :=
  let raw := hd EmptyString (Re.split SOURCE_PAT raw) in
  let raw := Re.sub (plus (one_of (String " " (String tab EmptyString)))) " " raw in
  let raw := Re.sub (seqs [Chr (is_char nl); star is_space; Chr (is_char nl)]) (NL ++ NL) raw in
  let out := strip (join NL (map rstrip (splitlines raw))) in
  let out := Re.sub_with DO_THIS_PAT (take 8) out in
  if (0 <=? MAX_ANSWER_CHARS cfg)%Z then
    if (MAX_ANSWER_CHARS cfg <? Z.of_nat (String.length out))%Z
    then (str_slice_to (MAX_ANSWER_CHARS cfg - 1) out ++ ELLIPSIS)%string
    else out
  else out.

(** [^(click|open|go to|...|test)\b], flag [I] *)
Definition STEP_VERB_RE : regex :=
  seqs [Bol;
        alts (map lit_ci
                ["click"; "open"; "go to"; "navigate"; "set"; "select"; "choose"; "enter";
                 "type"; "check"; "uncheck"; "enable"; "disable"; "restart"; "run"; "execute";
                 "update"; "apply"; "save"; "retry"; "clear"; "delete"; "remove"; "add";
                 "verify"; "confirm"; "test"]);
        WordB].

(** [[.;]\s+|\n+] *)
Definition STEP_SPLIT_PAT : regex :=
  Alt (Seq (Chr (one_of ".;")) (plus is_space)) (plus (is_char nl)).

(** The characters [x.strip(" -•\t")] removes. *)
Definition CRISP_STRIP : list string := [" "; "-"; "•"; String tab EmptyString].

(** The loop of [_crisp_lines]: a fragment of at most two characters joins
    the fragment before it. *)
Fixpoint crisp_merge (out : list string) (raw : list string) : list string :=
  match raw with
  | [] => out
  | p :: raw' =>
      if (String.length p <=? 2) && negb (match out with [] => true | _ => false end)
      then crisp_merge (removelast out ++ [strip (last out EmptyString ++ " " ++ p)%string]) raw'
      else crisp_merge (out ++ [p]) raw'
  end.

Definition _crisp_lines (s : string) : list string :=
  let raw := map (strip_set CRISP_STRIP)
                 (filter (fun x => truthy (strip x)) (Re.split STEP_SPLIT_PAT s)) in
  crisp_merge [] raw.

(** [re.sub]: a leading [\$] and the blanks after it are removed. *)
Definition drop_prompt (ln : string) : string :=
  Re.sub (seqs [Bol; Chr (is_char "$"); star is_space]) EmptyString ln.

(** [group_commands]: the steps that are no commands, and the command
    lines. *)
Definition group_commands (lines : list string) : list string * list string :=
  (filter (fun ln => negb (found SHELL_CMD_PAT ln)) lines,
   map (fun ln => strip (drop_prompt ln)) (filter (found SHELL_CMD_PAT) lines)).

(** [STEP_VERB_RE.search(p) or ":" in p or ">" in p or "/" in p] *)
Definition action_like (p : string) : bool :=
  found STEP_VERB_RE p || contains ":" p || contains ">" p || contains "/" p.

(** [f"{i}. {st}" for i, st in enumerate(steps, 1)] *)
Definition numbered (steps : list string) : list string :=
  map (fun ist => (str_of_nat (fst ist) ++ ". " ++ snd ist)%string) (enumerate_from 1 steps).

(** The value of [filtered_steps] of [format_row_better] once capped: the
    steps of the numbered list. *)
Definition row_steps (cfg : Config) (row : Row) : list string :=
  let steps_all := fst (group_commands (_crisp_lines (remedy row))) in
  let filtered_steps := filter action_like steps_all in
  let filtered_steps :=
    match filtered_steps with [] => steps_all | _ => filtered_steps end in
  slice_to (PINPOINT_MAX_STEPS cfg) filtered_steps.

(** The first notes that are no filler, two at most. *)
Fixpoint take_notes (notes tips : list string) : list string :=
  match tips with
  | [] => notes
  | t :: tips' =>
      if found GENERIC_FILLER_PAT (lower t) then take_notes notes tips'
      else
        let notes := notes ++ [t] in
        if 2 <=? length notes then notes else take_notes notes tips'
  end.

(** [format_row_better] of kb.py *)
Definition format_row_better (cfg : Config) (row : Row) : string :=
  let title := strip (error row) in
  let cause := strip (cause row) in
  let tips_all := _crisp_lines (suggestions row) in
  let cmd_lines := snd (group_commands (_crisp_lines (remedy row))) in
  let filtered_steps := row_steps cfg row in
  let lines := [] in
  let lines := if truthy title then lines ++ [("Resolution for: " ++ title)%string] else lines in
  let lines :=
    if truthy cause then lines ++ [(NL ++ "Why:")%string; ("- " ++ cause)%string] else lines in
  let lines :=
    match filtered_steps with
    | [] => lines
    | _ => lines ++ [(NL ++ "Do this:")%string] ++ numbered filtered_steps
    end in
  let lines :=
    match cmd_lines with
    | [] => lines
    | _ => lines ++ [(NL ++ "Commands:")%string; "```bash"] ++ cmd_lines ++ ["```"]
    end in
  let notes := take_notes [] tips_all in
  let lines :=
    match notes with
    | [] => lines
    | _ => lines ++ [(NL ++ "Notes:")%string] ++ map (fun t => ("- " ++ t)%string) notes
    end in
  strip (join NL lines).

(** [_estimate_step_cap_from_text] *)
Definition actiony_count (remedy_text : string) : nat :=
  let frags := map strip (filter (fun p => truthy (strip p)) (Re.split STEP_SPLIT_PAT remedy_text)) in
  length (filter action_like frags).

Definition _estimate_step_cap_from_text (remedy_text : string) (base_cap : Z) : Z :=
  if is_empty remedy_text then Z.max 4 base_cap
  else
    let actiony := actiony_count remedy_text in
    let cap :=
      if 12 <=? actiony then Z.max base_cap 12
      else if 9 <=? actiony then Z.max base_cap 10
      else if 7 <=? actiony then Z.max base_cap 8
      else if 5 <=? actiony then Z.max base_cap 7
      else Z.max 4 base_cap in
    Z.min cap 20.

(* ================================================================== *)
(** ** Collaborators *)
(* ================================================================== *)

(** rapidfuzz: the two similarity ratios the scorers call, each a number
    between 0 and 100. *)
Class Fuzz : Type := {
  partial_ratio : string -> string -> R;
  token_set_ratio : string -> string -> R;
  partial_ratio_range : forall a b, (0 <= partial_ratio a b <= 100)%R;
  token_set_ratio_range : forall a b, (0 <= token_set_ratio a b <= 100)%R
}.

(** The chat completion endpoint behind [llm_chat].  The prompts of
    [synthesize_from_row] and [synthesize_from_chunks] are fixed templates
    filled with the knowledge-base text, the query and the step cap, so a
    reply is a function of these three; the empty string is a failed call. *)
Class Llm : Type := {
  llm_row_reply : string -> string -> Z -> string;
  llm_chunks_reply : string -> string -> Z -> string
}.

(** A scorer that only recognises equal strings, and an endpoint that never
    answers: the simplest inhabitants of the two interfaces. *)
Definition exact_ratio (a b : string) : R := if String.eqb a b then 100%R else 0%R.

Definition exact_ratio_range (a b : string) : (0 <= exact_ratio a b <= 100)%R :=
  ltac:(unfold exact_ratio; destruct (String.eqb a b); lra).

Definition exact_fuzz : Fuzz := {|
  partial_ratio := exact_ratio;
  token_set_ratio := exact_ratio;
  partial_ratio_range := exact_ratio_range;
  token_set_ratio_range := exact_ratio_range
|}.

Definition silent_llm : Llm := {|
  llm_row_reply := fun _ _ _ => EmptyString;
  llm_chunks_reply := fun _ _ _ => EmptyString
|}.

(* ================================================================== *)
(** ** Knowledge base storage and build *)
(* ================================================================== *)

(** A page of the crawl; [html] is the document parsed from its markup. *)
Record Page : Type := {
  page_title : string;
  page_url : string;
  page_text : string;
  page_html : node
}.

Record Section_ : Type := {
  sec_title : string;
  sec_url : string;
  sec_text : string;
  sec_tokens : list string
}.

(** An entry of [KB_ROWS]. *)
Record RowItem : Type := {
  item_title : string;
  item_url : string;
  item_row : Row
}.

(** A cited source: [{"title": ..., "url": ...}]. *)
Record Source : Type := {
  src_title : string;
  src_url : string
}.

(** The module-level collections of one build. *)
Record KB : Type := {
  KB_PAGES : list Page;
  KB_SECTIONS : list Section_;
  KB_SECTION_TOKENS : list (list string);
  SECTION_BM25 : option BM25;
  KB_ROWS : list RowItem;
  ROW_TOKENS : list (list string);
  ROW_BM25 : option BM25
}.

(** "^[A-Z][A-Z0-9 \-_/()]+$|.*:\s*$" *)
Definition HEADING_PAT : regex :=
  Alt (seqs [Bol; Chr is_upper;
             plus (orc is_upper (orc is_digit (one_of " -_/()")));
             Eol])
      (seqs [star (nonec (is_char nl)); Chr (is_char ":"); star is_space; Eol]).

(** [text.split("\n\n")] *)
Fixpoint split_blank_go (cur s : string) : list string :=
  match s with
  | EmptyString => [cur]
  | String c s' =>
      match s' with
      | String d s'' =>
          if Ascii.eqb c nl && Ascii.eqb d nl then cur :: split_blank_go EmptyString s''
          else split_blank_go (snoc cur c) s'
      | EmptyString => [snoc cur c]
      end
  end.
Definition split_blank (s : string) : list string := split_blank_go EmptyString s.

(** The loop of [sectionize]; its state is [(sections, offset, chunk, start)]. *)
Definition sectionize_step
    (st : list (string * nat * nat) * nat * list string * nat) (p : string)
    : list (string * nat * nat) * nat * list string * nat :=
  let '(sections, offset, chunk, start) := st in
  let is_heading := matches HEADING_PAT (strip p) in
  let '(sections, chunk, start) :=
    if is_heading && negb (match chunk with [] => true | _ => false end) then
      let sec := strip (join (NL ++ NL) chunk) in
      (sections ++ [(sec, start, start + String.length sec)], [p], offset)
    else
      (sections, chunk ++ [p], match chunk with [] => offset | _ => start end) in
  (sections, offset + String.length p + 2, chunk, start).

Definition sectionize (text : string) : list (string * nat * nat) :=
  if is_empty text then []
  else
    let paras := filter (fun p => truthy (strip p)) (split_blank text) in
    let '(sections, _, chunk, start) := fold_left sectionize_step paras ([], 0, [], 0) in
    match chunk with
    | [] => sections
    | _ =>
        let sec := strip (join (NL ++ NL) chunk) in
        sections ++ [(sec, start, start + String.length sec)]
    end.

Definition page_sections (p : Page) : list Section_ :=
  let secs :=
    match sectionize (page_text p) with
    | [] => [(take 1200 (page_text p), 0, Nat.min 1200 (String.length (page_text p)))]
    | secs => secs
    end in
  map (fun s =>
         let stext := fst (fst s) in
         {| sec_title := page_title p; sec_url := page_url p; sec_text := stext;
            sec_tokens := tokenize stext |})
      secs.

Definition page_rows (p : Page) : list RowItem :=
  map (fun r => {| item_title := page_title p; item_url := page_url p; item_row := r |})
      (extract_table_rows_from_html (page_html p)).

Definition row_tokens (r : Row) : list string :=
  tokenize (join " " [error r; cause r; remedy r; suggestions r]).

(** [preload_knowledge], after the crawl has filled [KB_PAGES]. *)
Definition preload_knowledge (pages : list Page) : KB :=
  let sections := flat_map page_sections pages in
  let section_tokens := map sec_tokens sections in
  let rows := flat_map page_rows pages in
  let row_toks := map (fun it => row_tokens (item_row it)) rows in
  {| KB_PAGES := pages;
     KB_SECTIONS := sections;
     KB_SECTION_TOKENS := section_tokens;
     SECTION_BM25 := match sections with [] => None | _ => Some (BM25_new section_tokens) end;
     KB_ROWS := rows;
     ROW_TOKENS := row_toks;
     ROW_BM25 := match rows with [] => None | _ => Some (BM25_new row_toks) end |}.

(* ================================================================== *)
(** ** Retrieval (row-first, biased to the error catalog) *)
(* ================================================================== *)

(** [\b(option|options|menu|button|tab|checkbox|not\s+(present|visible|found)|
    missing|disabled|hidden)\b], flag [I] *)
Definition UI_VISIBILITY_RE : regex :=
  seqs [WordB;
        alts [lit_ci "option"; lit_ci "options"; lit_ci "menu"; lit_ci "button"; lit_ci "tab";
              lit_ci "checkbox";
              seqs [lit_ci "not"; plus is_space;
                    alts [lit_ci "present"; lit_ci "visible"; lit_ci "found"]];
              lit_ci "missing"; lit_ci "disabled"; lit_ci "hidden"];
        WordB].

(** [(?:\bORA-\d{4,5}\b)|(?:\bSQLSTATE\s*[0-9A-Z]{5}\b)|(?:\bHTTP\s*[1-5]\d{2}\b)|
    (?:\b[A-Z]{2,5}-\d{3,5}\b)], flag [I] *)
Definition ERROR_CODE_PAT : regex :=
  alts [seqs [WordB; lit_ci "ORA-"; between is_digit 4 5; WordB];
        seqs [WordB; lit_ci "SQLSTATE"; star is_space; between (orc is_digit is_alpha) 5 5; WordB];
        seqs [WordB; lit_ci "HTTP"; star is_space; Chr (one_of "12345"); between is_digit 2 2; WordB];
        seqs [WordB; between is_alpha 2 5; Chr (is_char "-"); between is_digit 3 5; WordB]].

Definition GENERIC_WORDS : list string :=
  ["introduction"; "overview"; "general"; "faq"; "guide"; "tips"; "troubleshooting"; "how to";
   "index"; "contents"].

(** A quoted span: a quote, one or more characters that are no quote, a
    quote. *)
Definition QUOTED_PAT : regex :=
  seqs [Chr (is_char dquote); plus (nonec (is_char dquote)); Chr (is_char dquote)].

(** [\b[A-Za-z0-9_./:-]{3,}\b] *)
Definition CODEY_PAT : regex :=
  seqs [WordB; at_least (orc is_word (one_of "./:-")) 3; WordB].

(** [[A-Z]{2,}-\d{2,}|ORA-\d{4,5}|SQLSTATE|HTTP\s*[1-5]\d{2}], case
    sensitive *)
Definition CODE_SHAPE_PAT : regex :=
  alts [seqs [at_least is_upper 2; Chr (is_char "-"); at_least is_digit 2];
        seqs [lit "ORA-"; between is_digit 4 5];
        lit "SQLSTATE";
        seqs [lit "HTTP"; star is_space; Chr (one_of "12345"); between is_digit 2 2]].

(** [list(dict.fromkeys(xs))]: the first occurrence of each element. *)
Fixpoint dedupe (seen xs : list string) : list string :=
  match xs with
  | [] => []
  | x :: xs' => if mem x seen then dedupe seen xs' else x :: dedupe (x :: seen) xs'
  end.

(** The text between the quotes of a match of [QUOTED_PAT]. *)
Definition unquote (m : string) : string := substring 1 (String.length m - 2) m.

Definition _extract_query_spans (q : string) : list string :=
  let quoted :=
    map strip
      (filter (fun m => 3 <=? String.length (strip m))
              (map unquote (Re.findall QUOTED_PAT q))) in
  let codey := filter (found CODE_SHAPE_PAT) (Re.findall CODEY_PAT q) in
  dedupe [] (quoted ++ codey).

Definition _title_generic_penalty (title : string) : R :=
  let tl := lower title in
  if any_in GENERIC_WORDS tl then 0.10%R else 0%R.

(** The result of a query: [(matched, answer, sources)]. *)
Definition Answer : Type := bool * string * list Source.

Section Retrieval.

Context {F : Fuzz} {L : Llm}.
Variable cfg : Config.

Local Open Scope R_scope.

(** The hard-match score of [score_row_against_query]. *)
Definition hard_match (q ql err txt : string) : R :=
  if ERROR_ROW_HARDMATCH cfg then
    if truthy err && truthy ql && (contains ql (lower err) || contains (lower err) ql)
    then 1.0
    else
      match Re.group0 ERROR_CODE_PAT q with
      | Some m =>
          if contains (lower m) (lower err) || contains (lower m) (lower txt) then 0.95 else 0.0
      | None => 0.0
      end
  else 0.0.

(** The weighted fuzzy base. *)
Definition fuzzy_base (ql err txt : string) : R :=
  let p_err := partial_ratio ql (lower err) / 100.0 in
  let t_err := token_set_ratio ql (lower err) / 100.0 in
  let p_txt := partial_ratio ql (lower txt) / 100.0 in
  let t_txt := token_set_ratio ql (lower txt) / 100.0 in
  0.52 * p_err + 0.20 * t_err + 0.18 * p_txt + 0.10 * t_txt.

(** The loop over the spans of the query. *)
Definition span_bonus (err txt : string) (base : R) (span : string) : R :=
  let s := lower span in
  if truthy s && (contains s (lower err) || contains s (lower txt)) then base + 0.05 else base.

(** The sum [base] of kb.py before the final clamp. *)
Definition row_score_raw (row : Row) (query page_title : string) : R :=
  let q := strip query in
  let ql := lower q in
  let err := error row in
  let txt := text row in
  let remedy := remedy row in
  let hard := hard_match q ql err txt in
  let base := Rmax hard (fuzzy_base ql err txt) in
  let base :=
    if truthy remedy then
      let base := base + 0.08 in
      if (120 <? String.length remedy)%nat then base + 0.03 else base
    else base in
  let base :=
    if truthy page_title && any_in (ERROR_TITLE_HINTS cfg) (lower page_title)
    then base + ERROR_PAGE_BIAS cfg else base in
  let base :=
    if found UI_VISIBILITY_RE ql
       && (found UI_VISIBILITY_RE (lower txt) || found UI_VISIBILITY_RE (lower err))
    then base + 0.08 else base in
  let base := fold_left (span_bonus err txt) (_extract_query_spans q) base in
  let base :=
    if truthy page_title
    then base + 0.04 * (partial_ratio ql (lower page_title) / 100.0) else base in
  base - _title_generic_penalty page_title.

(** [score_row_against_query] of kb.py *)
Definition score_row_against_query (row : Row) (query page_title : string) : R :=
  Rmax 0.0 (Rmin 1.0 (row_score_raw row query page_title)).

(** [score_row_against_query] of app.py: no span bonus, no title
    similarity and no penalty. *)
Definition app_score_row_against_query (row : Row) (query page_title : string) : R :=
  let q := strip query in
  let ql := lower q in
  let err := error row in
  let txt := text row in
  let remedy := remedy row in
  let hard := hard_match q ql err txt in
  let base := Rmax hard (fuzzy_base ql err txt) in
  let base :=
    if truthy remedy then
      let base := base + 0.08 in
      if (120 <? String.length remedy)%nat then base + 0.03 else base
    else base in
  let base :=
    if truthy page_title && any_in (ERROR_TITLE_HINTS cfg) (lower page_title)
    then base + ERROR_PAGE_BIAS cfg else base in
  let base :=
    if found UI_VISIBILITY_RE ql
       && (found UI_VISIBILITY_RE (lower txt) || found UI_VISIBILITY_RE (lower err))
    then base + 0.08 else base in
  Rmax 0.0 (Rmin 1.0 base).

(** A candidate of the row ranking: [(sc, i, item)]. *)
Definition Candidate : Type := R * nat * RowItem.
Definition cand_score (c : Candidate) : R := fst (fst c).
Definition cand_index (c : Candidate) : nat := snd (fst c).
Definition cand_item (c : Candidate) : RowItem := snd c.

(** [xs.sort(key=key, reverse=True)]: the sort is stable, so an element goes
    before the elements after it that have the same key. *)
Fixpoint insert_desc {A : Type} (key : A -> R) (x : A) (sorted : list A) : list A :=
  match sorted with
  | [] => [x]
  | y :: rest =>
      if Rlt_dec (key x) (key y) then y :: insert_desc key x rest else x :: sorted
  end.
Definition sort_desc {A : Type} (key : A -> R) (xs : list A) : list A :=
  fold_right (insert_desc key) [] xs.

(** [a] goes before [b] in a ranking: the larger key first and, for equal
    keys, the smaller original index first. *)
Definition ranked_before {A : Type} (key : A -> R) (idx : A -> nat) (a b : A) : Prop :=
  key b < key a \/ (key a = key b /\ (idx a < idx b)%nat).

(** The options of a list of results, or [None] when one of them raised. *)
Fixpoint all_some {A : Type} (xs : list (option A)) : option (list A) :=
  match xs with
  | [] => Some []
  | None :: _ => None
  | Some x :: xs' =>
      match all_some xs' with
      | Some ys => Some (x :: ys)
      | None => None
      end
  end.

Variable kb : KB.

(** The body of the loop of [get_row_candidates], for a scorer [scorer]. *)
Definition row_candidate (scorer : Row -> string -> string -> R) (q : string)
    (i : nat) (item : RowItem) : option Candidate :=
  let page_title := item_title item in
  let sc := scorer (item_row item) q page_title in
  let blended :=
    match ROW_BM25 kb with
    | Some bm =>
        if (i <? length (ROW_TOKENS kb))%nat then
          match score bm (tokenize q) i with
          | Some s => Some (0.90 * sc + 0.10 * R_or s 0.0)
          | None => None
          end
        else Some sc
    | None => Some sc
    end in
  match blended with
  | Some sc =>
      let sc :=
        if truthy page_title
        then sc + 0.05 * (partial_ratio (lower q) (lower page_title) / 100.0) else sc in
      Some (sc, i, item)
  | None => None
  end.

Definition row_candidates_with (scorer : Row -> string -> string -> R) (query : string)
    (top_k : Z) : option (list Candidate) :=
  let q := query in
  match all_some (map (fun ii => row_candidate scorer q (fst ii) (snd ii))
                      (enumerate (KB_ROWS kb))) with
  | Some cands => Some (slice_to top_k (sort_desc cand_score cands))
  | None => None
  end.

(** [get_row_candidates], of kb.py and of app.py; [None] is an exception
    raised on the way. *)
Definition get_row_candidates (query : string) (top_k : Z) : option (list Candidate) :=
  row_candidates_with score_row_against_query query top_k.
Definition app_get_row_candidates (query : string) (top_k : Z) : option (list Candidate) :=
  row_candidates_with app_score_row_against_query query top_k.

End Retrieval.

(* ================================================================== *)
(** ** Synthesis and the answer of a query *)
(* ================================================================== *)

(** [[>/]|(menu|tab|button|field|checkbox)], flag [I] *)
Definition UI_HINT_PAT : regex :=
  Alt (Chr (one_of ">/"))
      (alts (map lit_ci ["menu"; "tab"; "button"; "field"; "checkbox"])).

(** [(?<=[.!?])\s+] *)
Definition SENTENCE_END_PAT : regex := Seq (Behind (one_of ".!?")) (plus is_space).

(** The loop that gathers command lines into fenced blocks; its state is
    [(out_lines, cmd_buf)]. *)
Definition flush_cmd_buf (st : list string * list string) : list string * list string :=
  match snd st with
  | [] => st
  | cmd_buf => (fst st ++ ["```bash"] ++ cmd_buf ++ ["```"], [])
  end.

Definition fence_step (st : list string * list string) (ln : string)
    : list string * list string :=
  let ln_stripped := strip ln in
  if found SHELL_CMD_PAT ln_stripped then (fst st, snd st ++ [drop_prompt ln_stripped])
  else let st := flush_cmd_buf st in (fst st ++ [ln], snd st).

Section Synthesis.

Context {F : Fuzz} {L : Llm}.
Variable cfg : Config.

Local Open Scope R_scope.

(** The steps shared by [synthesize_from_row] and [synthesize_from_chunks]
    once the formatter has replied with [raw]. *)
Definition clean_reply (raw : string) : string :=
  let raw := strip raw in
  if is_empty raw then EmptyString
  else
    let lines := map rstrip (splitlines raw) in
    let lines := filter (fun ln => negb (found GENERIC_FILLER_PAT ln)) lines in
    let st := flush_cmd_buf (fold_left fence_step lines ([], [])) in
    let out := strip (join NL (fst st)) in
    let out := sanitize_output cfg out in
    post_process_answer cfg out.

(** The knowledge-base text of the row prompt. *)
Definition row_kb_text (row : Row) : string :=
  let kb_bits := [] in
  let kb_bits := if truthy (error row) then kb_bits ++ [("Error: " ++ error row)%string] else kb_bits in
  let kb_bits := if truthy (cause row) then kb_bits ++ [("Cause: " ++ cause row)%string] else kb_bits in
  let kb_bits := if truthy (remedy row) then kb_bits ++ [("Remedy: " ++ remedy row)%string] else kb_bits in
  let kb_bits :=
    if truthy (suggestions row) then kb_bits ++ [("Suggestions: " ++ suggestions row)%string]
    else kb_bits in
  take 3200 (join NL kb_bits).

Definition llm_enabled : bool := USE_LLM cfg && truthy (OPENAI_API_KEY cfg).

(** [synthesize_from_row] of kb.py *)
Definition synthesize_from_row (row : Row) (query : string) : string :=
  if negb llm_enabled then EmptyString
  else
    let kb := row_kb_text row in
    let dynamic_cap := _estimate_step_cap_from_text (remedy row) (PINPOINT_MAX_STEPS cfg) in
    clean_reply (llm_row_reply kb query dynamic_cap).

(** [synthesize_from_chunks] of kb.py *)
Definition synthesize_from_chunks (query : string) (chunks : list string) : string :=
  if negb llm_enabled then EmptyString
  else
    let joined := take (6 * 1000) (join (NL ++ NL ++ "---" ++ NL ++ NL) chunks) in
    let dynamic_cap := _estimate_step_cap_from_text joined (PINPOINT_MAX_STEPS cfg) in
    clean_reply (llm_chunks_reply joined query dynamic_cap).

Variable kb : KB.

(** The score of one section in [answer_sections]. *)
Definition section_score (q_tokens : list string) (ql : string) (idx : nat) (sec : Section_)
    : option R :=
  let bm :=
    match SECTION_BM25 kb with
    | Some bm25 => score bm25 q_tokens idx
    | None => Some 0.0
    end in
  match bm with
  | Some bm =>
      let title_sim := partial_ratio ql (lower (sec_title sec)) / 100.0 in
      let sc := 0.85 * bm + 0.15 * title_sim in
      let tl := lower (sec_title sec) in
      Some (if any_in (ERROR_TITLE_HINTS cfg) tl then sc + ERROR_PAGE_BIAS cfg * 0.7 else sc)
  | None => None
  end.

(** [len(qs & set(stoks))] *)
Definition overlap_count (q_tokens stoks : list string) : nat :=
  length (filter (fun t => mem t stoks) (set_of q_tokens)).

(** The score of one sentence in the extractive fallback. *)
Definition sentence_score (q_tokens : list string) (s : string) : R :=
  let stoks := tokenize s in
  let overlap := INR (overlap_count q_tokens stoks) in
  let density := overlap / (INR (length stoks) + 0.000001) in
  let imperative := if found STEP_VERB_RE s then 1.0 else 0.0 in
  let ui_hint := if found UI_HINT_PAT s then 1.0 else 0.0 in
  0.60 * overlap + 0.25 * density + 0.10 * imperative + 0.05 * ui_hint.

(** The loop that collects the sources of the top sections: one per title,
    [MAX_SOURCES_PER_ANSWER] at most. *)
Definition add_source (st : list string * list Source) (sec : Section_)
    : list string * list Source :=
  let '(seen, sources) := st in
  if negb (mem (sec_title sec) seen) && (Z.of_nat (length sources) <? MAX_SOURCES_PER_ANSWER cfg)%Z
  then (sec_title sec :: seen,
        sources ++ [{| src_title := sec_title sec; src_url := sec_url sec |}])
  else st.

Definition sentences_of (ch : string) : list string :=
  let ch_flat := smap (fun c => if Ascii.eqb c nl then " "%char else c) ch in
  map strip (filter (fun s => truthy (strip s)) (Re.split SENTENCE_END_PAT ch_flat)).

(** The first part of [answer_sections], the same in both files: the chunks
    of the top sections and their sources; [None] is an exception raised on
    the way. *)
Definition top_chunks (query : string) : option (list string * list Source) :=
  let q_tokens := tokenize query in
  let ql := lower query in
  match all_some (map (fun isec =>
                         match section_score q_tokens ql (fst isec) (snd isec) with
                         | Some sc => Some (sc, snd isec)
                         | None => None
                         end)
                      (enumerate (KB_SECTIONS kb))) with
  | None => None
  | Some scored =>
      let scored := sort_desc fst scored in
      match scored, KB_PAGES kb with
      | [], p0 :: _ =>
          Some ([take 800 (page_text p0)],
                [{| src_title := page_title p0; src_url := page_url p0 |}])
      | _, _ =>
          let top := map snd (slice_to (MAX_SECTIONS cfg) scored) in
          Some (map (fun sec => strip (take 700 (sec_text sec))) top,
                snd (fold_left add_source top ([], [])))
      end
  end.

(** [answer_sections] of kb.py *)
Definition answer_sections (query : string) : option (string * list Source) :=
  match top_chunks query with
  | None => None
  | Some (chunks, sources) =>
      let q_tokens := tokenize query in
      let llm_txt := synthesize_from_chunks query chunks in
      if truthy llm_txt then
        Some (post_process_answer cfg (sanitize_output cfg llm_txt), sources)
      else
        let sentences := flat_map sentences_of chunks in
        let ranked := map (fun s => (sentence_score q_tokens s, s)) sentences in
        let ranked := sort_desc fst ranked in
        let out :=
          match ranked with
          | [] => []
          | top_sent :: _ =>
              let step_candidates :=
                filter (found STEP_VERB_RE) (map snd (skipn 1 (firstn 60 ranked))) in
              [("Resolution for: " ++ snd top_sent)%string; (NL ++ "Do this:")%string]
              ++ numbered (slice_to (Z.min 5 (PINPOINT_MAX_STEPS cfg)) step_candidates)
          end in
        Some (post_process_answer cfg (sanitize_output cfg (strip (join NL out))), sources)
  end.

(** [[^\w\s:/.-]] *)
Definition query_noise : ascii -> bool :=
  nonec (orc is_word (orc is_space (one_of ":/.-"))).

(** The text of the answer for the winning row, in kb.py. *)
Definition row_answer (row : Row) (q : string) : string :=
  let txt :=
    if STRICT_REMEDY_ONLY cfg && truthy (strip (remedy row)) then format_row_better cfg row
    else
      let txt := synthesize_from_row row q in
      let txt := if truthy txt then txt else format_row_better cfg row in
      sanitize_output cfg txt in
  post_process_answer cfg txt.

(** What [answer_from_kb] does when no row is accepted. *)
Definition sections_fallback (q : string) : option Answer :=
  match KB_SECTIONS kb with
  | [] => Some (false, EmptyString, [])
  | _ :: _ =>
      match answer_sections q with
      | Some (ans, sources) =>
          if truthy (strip ans) then Some (true, ans, sources)
          else Some (false, EmptyString, [])
      | None => None
      end
  end.

(** [answer_from_kb] of kb.py; [None] is an exception raised on the way. *)
Definition answer_from_kb (query : string) : option Answer :=
  let q := strip (Re.sub (Chr query_noise) " " query) in
  match get_row_candidates cfg kb q 12 with
  | None => None
  | Some candidates =>
      match candidates with
      | (sc0, _, item0) :: _ =>
          if Rle_dec (ROW_SCORE_MIN cfg) sc0 then
            let row := item_row item0 in
            let answer := row_answer row q in
            let sources := [{| src_title := item_title item0; src_url := item_url item0 |}] in
            Some (true, answer, sources)
          else sections_fallback q
      | [] => sections_fallback q
      end
  end.

(** *** The same path in app.py *)

(** [post_process_answer] of app.py *)
Definition app_post_process_answer (raw : string) : string :=
  let raw := hd EmptyString (Re.split SOURCE_PAT raw) in
  let raw := Re.sub (Chr (one_of "*_`")) EmptyString raw in
  let raw := Re.sub (plus (is_char " ")) " " raw in
  let raw := Re.sub (seqs [Chr (is_char nl); star is_space; Chr (is_char nl)]) NL raw in
  let out := join NL (map strip (filter (fun ln => truthy (strip ln)) (splitlines raw))) in
  if (0 <=? MAX_ANSWER_CHARS cfg)%Z then
    if (MAX_ANSWER_CHARS cfg <? Z.of_nat (String.length out))%Z
    then (str_slice_to (MAX_ANSWER_CHARS cfg - 1) out ++ ELLIPSIS)%string
    else out
  else out.

(** The fragments of a remedy or of the suggestions, in app.py:
    [x.strip(" -•")] of the pieces that are not blank. *)
Definition app_fragments (s : string) : list string :=
  if is_empty s then []
  else map (strip_set [" "; "-"; "•"])
           (filter (fun x => truthy (strip x)) (Re.split STEP_SPLIT_PAT s)).

(** [format_row_better] of app.py *)
Definition app_format_row_better (row : Row) : string :=
  let steps := app_fragments (remedy row) in
  let notes := app_fragments (suggestions row) in
  let parts := [] in
  let parts :=
    if truthy (error row) then parts ++ [("Resolution for: " ++ error row)%string] else parts in
  let parts :=
    if truthy (cause row) && (String.length (cause row) <=? 160)%nat
    then parts ++ [("Why: " ++ cause row)%string] else parts in
  let parts :=
    match steps with
    | [] => parts
    | _ =>
        parts ++ [(NL ++ "Do this:")%string]
        ++ numbered (slice_to (Z.min (PINPOINT_MAX_STEPS cfg) MAX_STEP_LINES) steps)
    end in
  let parts :=
    match notes with
    | [] => parts
    | _ => parts ++ [(NL ++ "Notes:")%string] ++ map (fun t => ("- " ++ t)%string) (firstn 6 notes)
    end in
  strip (join NL parts).

(** [synthesize_from_row] and [synthesize_from_chunks] of app.py: the reply
    of the formatter as it comes. *)
Definition app_synthesize_from_row (row : Row) (query : string) : string :=
  if negb llm_enabled then EmptyString
  else llm_row_reply (row_kb_text row) query (PINPOINT_MAX_STEPS cfg).

Definition app_synthesize_from_chunks (query : string) (chunks : list string) : string :=
  if negb llm_enabled then EmptyString
  else llm_chunks_reply (take (6 * 1000) (join (NL ++ NL ++ "---" ++ NL ++ NL) chunks)) query
                        (PINPOINT_MAX_STEPS cfg).

Definition app_sentence_score (q_tokens : list string) (s : string) : R :=
  let stoks := tokenize s in
  let overlap := INR (overlap_count q_tokens stoks) in
  let density := overlap / (INR (length stoks) + 0.000001) in
  overlap + 0.75 * density.

(** [answer_sections] of app.py *)
Definition app_answer_sections (query : string) : option (string * list Source) :=
  match top_chunks query with
  | None => None
  | Some (chunks, sources) =>
      let q_tokens := tokenize query in
      let llm_txt := app_synthesize_from_chunks query chunks in
      if truthy llm_txt then Some (app_post_process_answer llm_txt, sources)
      else
        let sentences := flat_map sentences_of chunks in
        let ranked := sort_desc fst (map (fun s => (app_sentence_score q_tokens s, s)) sentences) in
        let out := map snd (firstn 1 ranked) in
        Some (app_post_process_answer (strip (join NL out)), sources)
  end.

Definition app_row_answer (row : Row) (q : string) : string :=
  let txt := app_synthesize_from_row row q in
  let txt := if truthy txt then txt else app_format_row_better row in
  app_post_process_answer txt.

Definition app_sections_fallback (q : string) : option Answer :=
  match KB_SECTIONS kb with
  | [] => Some (false, EmptyString, [])
  | _ :: _ =>
      match app_answer_sections q with
      | Some (ans, sources) =>
          if truthy (strip ans) then Some (true, ans, sources)
          else Some (false, EmptyString, [])
      | None => None
      end
  end.

(** [answer_from_kb] of app.py *)
Definition app_answer_from_kb (query : string) : option Answer :=
  let q := strip (Re.sub (Chr query_noise) " " query) in
  match app_get_row_candidates cfg kb q 12 with
  | None => None
  | Some candidates =>
      match candidates with
      | (sc0, _, item0) :: _ =>
          if Rle_dec (ROW_SCORE_MIN cfg) sc0 then
            let answer := app_row_answer (item_row item0) q in
            let sources := [{| src_title := item_title item0; src_url := item_url item0 |}] in
            Some (true, answer, sources)
          else app_sections_fallback q
      | [] => app_sections_fallback q
      end
  end.

End Synthesis.

(* ================================================================== *)
(** ** The threshold gate as the specification words it *)
(* ================================================================== *)

Definition source_of (item : RowItem) : Source :=
  {| src_title := item_title item; src_url := item_url item |}.

(** Sections 4.4 and 6 of the specification: the top row is answered exactly
    when its blended score reaches the floor; below the floor, or without
    rows, the query falls through to the section ranker; and when that gives
    no non-empty answer either, the result is [(false, "", [])].  Here
    [cands] are the row candidates, [row_text] the formatted answer of a
    row, [section_answer] what the section ranker returned, [fallback] what
    the fall-through returned and [result] the answer. *)
Definition threshold_gate (floor : R) (rows : list RowItem) (sections : list Section_)
    (cands : list (R * nat * RowItem)) (row_text : Row -> string)
    (section_answer : option (string * list Source)) (fallback : option Answer)
    (result : Answer) : Prop :=
  (cands = [] <-> rows = [])
  /\ (forall c rest, cands = c :: rest -> (floor <= fst (fst c))%R ->
        result = (true, row_text (item_row (snd c)), [source_of (snd c)]))
  /\ (forall c rest, cands = c :: rest -> (fst (fst c) < floor)%R -> fallback = Some result)
  /\ (cands = [] -> fallback = Some result)
  /\ (sections = [] -> fallback = Some (false, EmptyString, []))
  /\ (sections <> [] ->
      exists ans sources,
        section_answer = Some (ans, sources)
        /\ fallback = Some (if truthy (strip ans) then (true, ans, sources)
                            else (false, EmptyString, []))).

(* ================================================================== *)
(** ** The step cap as the specification words it *)
(* ================================================================== *)


(* ================================================================== *)
(** ** The row score as the specification words it *)
(* ================================================================== *)

(** Section 4.4 of the specification gives the row score in closed form: the
    larger of the hard-match score and the fuzzy base, plus the additive bias
    terms, minus the generic-title penalty, clamped to [[0, 1]].  The
    definitions of this section follow those words; the theorems compare
    them with [score_row_against_query]. *)
Section Specification.

Context {F : Fuzz}.
Variable cfg : Config.

Local Open Scope R_scope.

Definition clamp01 (x : R) : R := Rmax 0 (Rmin 1 x).

(** +0.08 if the remedy is not empty, +0.03 more if it exceeds 120
    characters. *)
Definition spec_remedy_bias (row : Row) : R :=
  (if truthy (remedy row) then 0.08 else 0)
  + (if truthy (remedy row) && (120 <? String.length (remedy row))%nat then 0.03 else 0).

(** +ERROR_PAGE_BIAS if the page title contains a hint word. *)
Definition spec_page_bias (page_title : string) : R :=
  if truthy page_title && any_in (ERROR_TITLE_HINTS cfg) (lower page_title)
  then ERROR_PAGE_BIAS cfg else 0.

(** +0.08 if the query and the row both use UI-visibility vocabulary. *)
Definition spec_ui_bias (row : Row) (ql : string) : R :=
  if found UI_VISIBILITY_RE ql
     && (found UI_VISIBILITY_RE (lower (text row)) || found UI_VISIBILITY_RE (lower (error row)))
  then 0.08 else 0.

(** +0.05 for each span of the query found verbatim in the row. *)
Definition spec_span_hit (row : Row) (span : string) : bool :=
  truthy (lower span)
  && (contains (lower span) (lower (error row)) || contains (lower span) (lower (text row))).
Definition spec_span_bias (row : Row) (q : string) : R :=
  0.05 * INR (length (filter (spec_span_hit row) (_extract_query_spans q))).

(** +0.04 times the similarity of the query and the page title. *)
Definition spec_title_bias (ql page_title : string) : R :=
  if truthy page_title then 0.04 * (partial_ratio ql (lower page_title) / 100) else 0.

Definition spec_bias_terms (row : Row) (query page_title : string) : R :=
  let q := strip query in
  let ql := lower q in
  spec_remedy_bias row + spec_page_bias page_title + spec_ui_bias row ql
  + spec_span_bias row q + spec_title_bias ql page_title.

Definition spec_row_score (row : Row) (query page_title : string) : R :=
  let q := strip query in
  let ql := lower q in
  clamp01 (Rmax (hard_match cfg q ql (error row) (text row))
                (fuzzy_base ql (error row) (text row))
           + spec_bias_terms row query page_title
           - _title_generic_penalty page_title).

End Specification.

(* ================================================================== *)
(** ** Sample rows, tables and pages for the examples *)
(* ================================================================== *)

(** [{"error": e, "cause": c, "remedy": r, "suggestions": s}] as the table
    parser builds it. *)
Definition mk_row (e c r s : string) : Row :=
  {| error := e; cause := c; remedy := r; suggestions := s;
     raw := filter (fun kv => truthy (snd kv))
                   [("error", e); ("cause", c); ("remedy", r); ("suggestions", s)];
     text := join " " (filter truthy [e; c; r; s]) |}.

(** A row that has only an error text. *)
Definition row_abc : Row := mk_row "abc" "" "" "".


(** A table cell [<tag>s</tag>], a document of one table, and the sample
    tables: a header row of [th] cells, the same header row of [td] cells. *)
Definition cell (tag s : string) : node := Elem tag [Text s].
Definition document (tables : list node) : node := Elem "[document]" tables.

Definition th_header : node :=
  Elem "tr" [cell "th" "Error"; cell "th" "Cause"; cell "th" "Remedy"].
Definition td_header : node :=
  Elem "tr" [cell "td" "Error"; cell "td" "Cause"; cell "td" "Remedy"].
Definition data_row (e c r : string) : node :=
  Elem "tr" [cell "td" e; cell "td" c; cell "td" r].

(** A table of data rows under a header row, and the row the parser should
    build from the three texts of a data row. *)
Definition catalog_table (header : node) (data : list (string * string * string)) : node :=
  Elem "table" (header :: map (fun d => data_row (fst (fst d)) (snd (fst d)) (snd d)) data).

Definition clean_text (s : string) : string := _clean_cell_text (cell "td" s).

Definition row_of_texts (d : string * string * string) : Row :=
  let e := clean_text (fst (fst d)) in
  let c := clean_text (snd (fst d)) in
  let r := clean_text (snd d) in
  {| error := e; cause := c; remedy := r; suggestions := EmptyString;
     raw := [("error", e); ("cause", c); ("remedy", r)];
     text := join " " (filter truthy [e; c; r; EmptyString]) |}.

(** The catalog page of the end-to-end scenario of the specification, and
    its query. *)
Definition page_ora : Page := {|
  page_title := "Error Catalog";
  page_url := "https://wiki.example/errors";
  page_text := "Error Catalog";
  page_html :=
    document [catalog_table th_header
                [("ORA-12154", "TNS could not resolve",
                  "Check tnsnames.ora entry. Restart listener.")]]
|}.

Definition query_ora : string := "I'm getting ORA-12154".

(** The row of that page as [KB_ROWS] holds it, and the query once
    [answer_from_kb] has replaced its apostrophe. *)
Definition item_ora : RowItem :=
  {| item_title := "Error Catalog";
     item_url := "https://wiki.example/errors";
     item_row := mk_row "ORA-12154" "TNS could not resolve"
                   "Check tnsnames.ora entry. Restart listener." "" |}.

Definition q_ora : string := "I m getting ORA-12154".

(** The same catalog page without body text, and the defaults of kb.py with
    [ROW_SCORE_MIN=0.99]. *)
Definition page_ora_bare : Page := {|
  page_title := page_title page_ora;
  page_url := page_url page_ora;
  page_text := EmptyString;
  page_html := page_html page_ora
|}.

Definition config_floor_099 : Config := {|
  USE_LLM := USE_LLM default_config;
  OPENAI_API_KEY := OPENAI_API_KEY default_config;
  MAX_SECTIONS := MAX_SECTIONS default_config;
  MAX_ANSWER_CHARS := MAX_ANSWER_CHARS default_config;
  PINPOINT_MAX_STEPS := PINPOINT_MAX_STEPS default_config;
  ROW_SCORE_MIN := 0.99%R;
  MAX_SOURCES_PER_ANSWER := MAX_SOURCES_PER_ANSWER default_config;
  ERROR_TITLE_HINTS := ERROR_TITLE_HINTS default_config;
  ERROR_PAGE_BIAS := ERROR_PAGE_BIAS default_config;
  ERROR_ROW_HARDMATCH := ERROR_ROW_HARDMATCH default_config;
  STRICT_REMEDY_ONLY := STRICT_REMEDY_ONLY default_config;
  FORBIDDEN_PHRASES := FORBIDDEN_PHRASES default_config
|}.






(* ================================================================== *)
(** ** Proof automation *)
(* ================================================================== *)

(** Evaluates the closed boolean tests of the goal. *)
Ltac eval_tests :=
  repeat match goal with
         | |- context [if ?b then _ else _] =>
             lazymatch type of b with bool => idtac end;
             lazymatch b with true => fail | false => fail | _ => idtac end;
             let v := eval vm_compute in b in
             lazymatch v with true => idtac | false => idtac end;
             replace b with v by (vm_compute; reflexivity); cbv iota
         end.

(** Evaluates the closed natural numbers under [INR]. *)
Ltac eval_nats :=
  repeat match goal with
         | |- context [INR ?n] =>
             let v := eval vm_compute in n in
             progress (replace n with v by (vm_compute; reflexivity))
         end.


(* ================================================================== *)
(** ** Predicates used in the statements about strings and lists *)
(* ================================================================== *)

(** Every character of [s] is in the class [p]. *)
Fixpoint all_chars (p : ascii -> bool) (s : string) : bool :=
  match s with
  | EmptyString => true
  | String c s' => p c && all_chars p s'
  end.

(** An ASCII character. *)
Definition is_ascii (c : ascii) : bool := code c <? 128.

(** The characters a token is made of: lower-case letters, digits, the
    underscore and the hyphen. *)
Definition token_char (c : ascii) : bool :=
  is_lower c || is_digit c || in_chars c "_-".

(** What the loop of [sectionize] keeps true of a section [(text, start,
    end)]: the text is stripped and not empty, and [end] is [start] plus its
    length. *)
Definition section_ok (s : string * nat * nat) : Prop :=
  strip (fst (fst s)) = fst (fst s)
  /\ truthy (fst (fst s)) = true
  /\ snd s = snd (fst s) + String.length (fst (fst s)).

(** The key of the [i]-th cell of a row, and the pairs the [dict] of a row
    is built from. *)
Definition cell_key (headers : list string) (i : nat) : string :=
  nth i headers ("col" ++ str_of_nat i)%string.

Definition cell_pairs (headers : list string) (tr : node) : list (string * string) :=
  map (fun itd => (cell_key headers (fst itd), _clean_cell_text (snd itd)))
      (enumerate (Soup.find_all ["td"] tr)).

(** An endpoint that answers every prompt with the same step. *)
Definition chatty_llm : Llm := {|
  llm_row_reply := fun _ _ _ => "1. Reinstall everything";
  llm_chunks_reply := fun _ _ _ => "1. Reinstall everything"
|}.

(* ================================================================== *)
(** ** Sign-in *)
(* ================================================================== *)

(** [d.get(k)]: [None] when the key is missing. *)
Fixpoint dict_lookup (d : Dict.t) (k : string) : option string :=
  match d with
  | [] => None
  | (k', v) :: d' => if String.eqb k k' then Some v else dict_lookup d' k
  end.

(** [del d[k]] *)
Definition dict_del (d : Dict.t) (k : string) : Dict.t :=
  filter (fun kv => negb (String.eqb k (fst kv))) d.

(** [x == s] for the result [x] of a [get] and a string [s]. *)
Definition is_some_eq (x : option string) (s : string) : bool :=
  match x with Some v => String.eqb v s | None => false end.

(** The settings of the sign-in: [USERS_JSON] once parsed ([None] when the
    variable is empty or is no JSON; otherwise a list of objects with string
    values), [APP_USERNAME] and [APP_PASSWORD]. *)
Record LoginEnv : Type := {
  USERS_JSON : option (list Dict.t);
  APP_USERNAME : string;
  APP_PASSWORD : string
}.

Definition _load_users (env : LoginEnv) : list Dict.t :=
  let users := match USERS_JSON env with Some us => us | None => [] end in
  let users :=
    match users with
    | [] =>
        if truthy (APP_USERNAME env) && truthy (APP_PASSWORD env)
        then [[("id", APP_USERNAME env); ("password", APP_PASSWORD env)]]
        else []
    | _ => users
    end in
  match users with
  | [] => [[("id", "demo"); ("password", "demo")]]
  | _ => users
  end.

Definition _check_login (env : LoginEnv) (uid pw : string) : bool :=
  existsb (fun u => is_some_eq (dict_lookup u "id") uid
                    && is_some_eq (dict_lookup u "password") pw)
          (_load_users env).

(** The test of [login] on the two fields of the form. *)
Definition login_accepts (env : LoginEnv) (form_uid form_pw : string) : bool :=
  _check_login env (strip form_uid) (strip form_pw).

(* ================================================================== *)
(** ** Store (per-user isolation) *)
(* ================================================================== *)

Definition MAX_HISTORY_MSGS : nat := 240.
Definition FOLLOWUP_CONTEXT_TURNS : nat := 6.

(** [{"role": ..., "text": ..., "sources": [...]}] *)
Record Message : Type := {
  msg_role : string;
  msg_text : string;
  msg_sources : list Source
}.

(** [{"text": ..., "when": ...}] *)
Record Note : Type := {
  note_text : string;
  note_when : string
}.

(** [chat["memory"]]; each of its keys may be missing. *)
Record Memory : Type := {
  mem_facts : option Dict.t;
  mem_notes : option (list Note)
}.

Record Chat : Type := {
  chat_id : string;
  chat_title : string;
  chat_created : string;
  chat_messages : list Message;
  chat_memory : option Memory
}.

(** [store["users"]]: the chats of each user, keys in insertion order. *)
Definition Store : Type := list (string * list Chat).

Fixpoint users_get (users : Store) (uid : string) : option (list Chat) :=
  match users with
  | [] => None
  | (u, chats) :: users' => if String.eqb uid u then Some chats else users_get users' uid
  end.

(** The store once the list of chats of [uid], which is in it, has become
    [chats]. *)
Fixpoint users_set (users : Store) (uid : string) (chats : list Chat) : Store :=
  match users with
  | [] => [(uid, chats)]
  | (u, old) :: users' =>
      if String.eqb uid u then (u, chats) :: users' else (u, old) :: users_set users' uid chats
  end.

(** [_get_user_bucket]: the store, where a new user has got an empty
    bucket, and the chats of the bucket. *)
Definition _get_user_bucket (store : Store) (uid : string) : Store * list Chat :=
  match users_get store uid with
  | Some chats => (store, chats)
  | None => (store ++ [(uid, [])], [])
  end.

Definition has_id (cid : string) (c : Chat) : bool := String.eqb (chat_id c) cid.

Definition _find_chat (store : Store) (uid cid : string) : Store * option Chat :=
  let '(store, chats) := _get_user_bucket store uid in
  (store, List.find (has_id cid) chats).

(** The chats of a bucket once the chat [_find_chat] returns has been
    changed in place by [f]. *)
Fixpoint update_chat (cid : string) (f : Chat -> Chat) (chats : list Chat) : list Chat :=
  match chats with
  | [] => []
  | c :: chats' => if has_id cid c then f c :: chats' else c :: update_chat cid f chats'
  end.

(** [xs[-n:]] for [n > 0] *)
Definition last_n {A : Type} (n : nat) (xs : list A) : list A := skipn (length xs - n) xs.

(** [sources or []] *)
Definition sources_or_nil (sources : option (list Source)) : list Source :=
  match sources with Some l => l | None => [] end.

Definition with_messages (c : Chat) (msgs : list Message) : Chat :=
  {| chat_id := chat_id c; chat_title := chat_title c; chat_created := chat_created c;
     chat_messages := msgs; chat_memory := chat_memory c |}.

Definition with_title (c : Chat) (title : string) : Chat :=
  {| chat_id := chat_id c; chat_title := title; chat_created := chat_created c;
     chat_messages := chat_messages c; chat_memory := chat_memory c |}.

Definition with_memory (c : Chat) (m : Memory) : Chat :=
  {| chat_id := chat_id c; chat_title := chat_title c; chat_created := chat_created c;
     chat_messages := chat_messages c; chat_memory := Some m |}.

(** What [_append_msg] does to the chat it has found. *)
Definition append_message (role text : string) (sources : option (list Source)) (c : Chat)
    : Chat :=
  let msgs := chat_messages c
              ++ [{| msg_role := role; msg_text := text; msg_sources := sources_or_nil sources |}] in
  with_messages c (if MAX_HISTORY_MSGS <? length msgs then last_n MAX_HISTORY_MSGS msgs else msgs).

(** The functions below thread the store of the request and the store last
    written to [STORE_PATH]; [_save_store] makes the second the first. *)
Definition _append_msg (store disk : Store) (uid cid role text : string)
    (sources : option (list Source)) : Store * Store :=
  let '(store, chats) := _get_user_bucket store uid in
  match List.find (has_id cid) chats with
  | None => (store, disk)
  | Some _ =>
      let store := users_set store uid (update_chat cid (append_message role text sources) chats) in
      (store, store)
  end.

(** [\s+] replaced by one blank *)
Definition collapse_blanks (t : string) : string := Re.sub (plus is_space) " " t.

Definition _make_title_from_text (t : string) : string :=
  let t := strip t in
  if is_empty t then "New chat"
  else
    let t := collapse_blanks t in
    if 48 <? String.length t then (take 48 t ++ ELLIPSIS)%string else t.

Definition _set_title_if_new (store disk : Store) (uid cid first_text : string)
    : Store * Store :=
  let '(store, chats) := _get_user_bucket store uid in
  match List.find (has_id cid) chats with
  | None => (store, disk)
  | Some chat =>
      if String.eqb (chat_title chat) "New chat" && truthy (strip first_text) then
        let store :=
          users_set store uid
            (update_chat cid (fun c => with_title c (_make_title_from_text first_text)) chats) in
        (store, store)
      else (store, disk)
  end.

(** [_create_chat]; [hex] is [uuid.uuid4().hex] and [now] is
    [datetime.utcnow().isoformat()]. *)
Definition new_chat_of (hex now : string) : Chat :=
  {| chat_id := take 10 hex;
     chat_title := "New chat";
     chat_created := (now ++ "Z")%string;
     chat_messages := [];
     chat_memory := Some {| mem_facts := Some []; mem_notes := Some [] |} |}.

Definition _create_chat (store disk : Store) (uid hex now : string) : Store * Store * Chat :=
  let chat := new_chat_of hex now in
  let '(store, chats) := _get_user_bucket store uid in
  let store := users_set store uid (chat :: chats) in
  (store, store, chat).

(** [ub["chats"].pop(idx)] for the first chat that has the id. *)
Fixpoint remove_chat (cid : string) (chats : list Chat) : list Chat :=
  match chats with
  | [] => []
  | c :: chats' => if has_id cid c then chats' else c :: remove_chat cid chats'
  end.

(** The handler [delete_chat]: the stores afterwards and the id of the chat
    the user is sent to. *)
Definition delete_chat (store disk : Store) (uid cid hex now : string)
    : Store * Store * string :=
  let '(store, chats) := _get_user_bucket store uid in
  match List.find (has_id cid) chats with
  | None =>
      match chats with
      | c0 :: _ => (store, disk, chat_id c0)
      | [] =>
          let '(store, disk, chat) := _create_chat store disk uid hex now in
          (store, disk, chat_id chat)
      end
  | Some _ =>
      let chats := remove_chat cid chats in
      let store := users_set store uid chats in
      let disk := store in
      match chats with
      | c0 :: _ => (store, disk, chat_id c0)
      | [] =>
          let '(store, disk, chat) := _create_chat store disk uid hex now in
          (store, disk, chat_id chat)
      end
  end.

(* ================================================================== *)
(** ** Memory of a chat *)
(* ================================================================== *)

(** [chat.get("memory", {}).get("facts", {})] *)
Definition _mem_all (c : Chat) : Dict.t :=
  match chat_memory c with
  | Some m => match mem_facts m with Some f => f | None => [] end
  | None => []
  end.

Definition _mem_get (c : Chat) (key : string) : option string := dict_lookup (_mem_all c) key.

(** [chat.setdefault("memory", {})] *)
Definition memory_or_new (c : Chat) : Memory :=
  match chat_memory c with
  | Some m => m
  | None => {| mem_facts := None; mem_notes := None |}
  end.

Definition _mem_set (c : Chat) (key value : string) : Chat :=
  let key := lower (strip key) in
  let m := memory_or_new c in
  let facts := match mem_facts m with Some f => f | None => [] end in
  with_memory c {| mem_facts := Some (Dict.set facts key (strip value));
                   mem_notes := mem_notes m |}.

Definition _mem_forget (c : Chat) (key : string) : Chat :=
  match chat_memory c with
  | Some m =>
      match mem_facts m with
      | Some f => with_memory c {| mem_facts := Some (dict_del f key); mem_notes := mem_notes m |}
      | None => c
      end
  | None => c
  end.

(** [_mem_add_note]; [now] is [datetime.utcnow().isoformat()]. *)
Definition _mem_add_note (c : Chat) (text now : string) : Chat :=
  let m := memory_or_new c in
  let notes := match mem_notes m with Some ns => ns | None => [] end in
  with_memory c {| mem_facts := mem_facts m;
                   mem_notes := Some (notes ++ [{| note_text := text;
                                                   note_when := (now ++ "Z")%string |}]) |}.

(* ================================================================== *)
(** ** Questions about the conversation *)
(* ================================================================== *)

(** [\bfirst (question|msg|message)\b] *)
Definition FIRST_MSG_PAT : regex :=
  seqs [WordB; lit "first "; alts [lit "question"; lit "msg"; lit "message"]; WordB].

(** [\b(last|previous) (question|msg|message)\b] *)
Definition PREVIOUS_MSG_PAT : regex :=
  seqs [WordB; alts [lit "last"; lit "previous"]; lit " ";
        alts [lit "question"; lit "msg"; lit "message"]; WordB].

(** [\bwhat did i ask\b] *)
Definition WHAT_ASKED_PAT : regex := seqs [WordB; lit "what did i ask"; WordB].

Definition is_user_message (m : Message) : bool :=
  String.eqb (msg_role m) "user" && truthy (strip (msg_text m)).

Definition quoted (intro text : string) : string :=
  (intro ++ String dquote text ++ String dquote EmptyString)%string.

Definition handle_history_question (chat : Chat) (text : string) : option string :=
  let t := strip (lower text) in
  let user_msgs := filter is_user_message (chat_messages chat) in
  match user_msgs with
  | [] => None
  | first :: _ =>
      if found FIRST_MSG_PAT t then Some (quoted "Your first message was: " (msg_text first))
      else if found PREVIOUS_MSG_PAT t then
        if 2 <=? length user_msgs then
          Some (quoted "Your previous message was: "
                  (msg_text (nth (length user_msgs - 2) user_msgs first)))
        else Some "There isn’t a previous message yet."
      else if found WHAT_ASKED_PAT t then
        Some (quoted "Your last message was: " (msg_text (last user_msgs first)))
      else None
  end.

(** [\b(this|that|it|...|fix)\b], flag [I] *)
Definition FOLLOWUP_HINTS : regex :=
  seqs [WordB;
        alts (map lit_ci
                ["this"; "that"; "it"; "they"; "those"; "above"; "previous"; "earlier"; "same";
                 "approach"; "method"; "solution"; "steps"; "error"; "issue"; "problem"; "fix"]);
        WordB].

(** [next((m["text"] for m in reversed(history) if m["role"]==role and
    m.get("text")), "")] *)
Definition last_text_of (role : string) (history : list Message) : string :=
  match List.find (fun m => String.eqb (msg_role m) role && truthy (msg_text m)) (rev history) with
  | Some m => msg_text m
  | None => EmptyString
  end.

Definition build_context_augmented_query (chat : Chat) (user_text ocr_text : string) : string :=
  let combined := strip (join " " (filter truthy [user_text; ocr_text])) in
  if is_empty combined then combined
  else if found FOLLOWUP_HINTS combined
          && negb (match chat_messages chat with [] => true | _ => false end) then
    let history := last_n (FOLLOWUP_CONTEXT_TURNS * 2) (chat_messages chat) in
    let last_bot := last_text_of "bot" history in
    let last_user := last_text_of "user" history in
    let context := (NL ++ NL ++ "--- Context ---" ++ NL)%string in
    let context :=
      if truthy last_user then (context ++ "Last user question: " ++ last_user ++ NL)%string
      else context in
    let context :=
      if truthy last_bot then (context ++ "Last assistant answer: " ++ last_bot ++ NL)%string
      else context in
    (combined ++ NL ++ context)%string
  else combined.

(** A character that is not white space, or the blank. *)
Definition one_blank (c : ascii) : bool := negb (is_space c) || Ascii.eqb c " ".

(** A store with one user who has one new chat. *)
Definition chat_ann : Chat := new_chat_of "0123456789abcdef" "2024-01-01T00:00:00".
Definition store_ann : Store := [("ann", [chat_ann])].

(** A sign-in setting with one account whose password has blanks around
    it. *)
Definition env_blank_password : LoginEnv := {|
  USERS_JSON := Some [[("id", "bob"); ("password", " secret ")]];
  APP_USERNAME := "";
  APP_PASSWORD := ""
|}.

(** A string without a line feed. *)
Definition one_line (w : string) : bool := all_chars (fun c => negb (Ascii.eqb c nl)) w.

(** The words of [ESCALATE_PAT]. *)
Definition ESCALATION_WORDS : list string :=
  ["contact"; "reach out"; "open a ticket"; "administrator"; "support"].

(* ================================================================== *)
(** ** Intent routing *)
(* ================================================================== *)

(** [^\s*(hi|hello|hey|good (morning|afternoon|evening)|how are you)\b],
    flag [I] *)
Definition GREETING_PAT : regex :=
  seqs [Bol; star is_space;
        alts [lit_ci "hi"; lit_ci "hello"; lit_ci "hey";
              Seq (lit_ci "good ") (alts [lit_ci "morning"; lit_ci "afternoon"; lit_ci "evening"]);
              lit_ci "how are you"];
        WordB].

(** The three alternatives of [CREATOR_PAT], flags [ix]:
    [\bwho\s+(?:is\s+)?(?:your|ur|the|this)?\s*(?:creator|...|founder)\b],
    [\bwho\s+(?:made|...|developed)\s+(?:you|u|this|the\s*bot)\b] and
    [\b(?:you|u|this\s*bot)\s*(?:was|were)?\s*(?:made|built|created|developed)\s*by\b]. *)
Definition CREATOR_PAT : regex :=
  alts [seqs [WordB; lit_ci "who"; plus is_space;
              opt (Seq (lit_ci "is") (plus is_space));
              opt (alts [lit_ci "your"; lit_ci "ur"; lit_ci "the"; lit_ci "this"]);
              star is_space;
              alts (map lit_ci ["creator"; "developer"; "owner"; "author"; "maker";
                                "maintainer"; "founder"]);
              WordB];
        seqs [WordB; lit_ci "who"; plus is_space;
              alts (map lit_ci ["made"; "build"; "built"; "create"; "created"; "develop";
                                "developed"]);
              plus is_space;
              alts [lit_ci "you"; lit_ci "u"; lit_ci "this";
                    seqs [lit_ci "the"; star is_space; lit_ci "bot"]];
              WordB];
        seqs [WordB;
              alts [lit_ci "you"; lit_ci "u"; seqs [lit_ci "this"; star is_space; lit_ci "bot"]];
              star is_space;
              opt (alts [lit_ci "was"; lit_ci "were"]);
              star is_space;
              alts (map lit_ci ["made"; "built"; "created"; "developed"]);
              star is_space; lit_ci "by"; WordB]].

(** [[^a-z0-9\s]] *)
Definition not_lower_digit_space : ascii -> bool :=
  nonec (orc is_lower (orc is_digit is_space)).

Definition is_creator_query (text : string) : bool :=
  if is_empty text then false
  else
    let t := Re.sub (Chr not_lower_digit_space) " " (lower text) in
    if negb (contains "who" t) then false
    else
      let padded := (" " ++ t ++ " ")%string in
      let has_pronoun := any_in [" you "; " u "; " this "; " bot "] padded in
      let has_noun :=
        any_in [" creator "; " developer "; " owner "; " author "; " maker "; " maintainer ";
                " founder "] padded in
      let has_verb :=
        any_in [" create "; " created "; " build "; " built "; " make "; " made "; " develop ";
                " developed "] padded in
      has_pronoun && (has_noun || has_verb).

(** [https?://[^ \t\r\n]*atlassian\.net] *)
Definition ATLASSIAN_URL_PAT : regex :=
  seqs [lit "http"; opt (lit "s"); lit "://";
        star (nonec (one_of (String " " (String tab (String cr (String nl EmptyString))))));
        lit "atlassian.net"].

(** [\b(err(or)?|exception|failed|permission|denied|http\s*[45]\d{2}|
    ora-\d{4,5}|sqlstate|remedy|fix|solution|root cause|collate|scenario|
    capacity|generate)\b] *)
Definition KB_CUE_PAT : regex :=
  seqs [WordB;
        alts [Seq (lit "err") (opt (lit "or")); lit "exception"; lit "failed"; lit "permission";
              lit "denied";
              seqs [lit "http"; star is_space; Chr (one_of "45"); between is_digit 2 2];
              Seq (lit "ora-") (between is_digit 4 5);
              lit "sqlstate"; lit "remedy"; lit "fix"; lit "solution"; lit "root cause";
              lit "collate"; lit "scenario"; lit "capacity"; lit "generate"];
        WordB].

Definition route_intent (text : string) : string :=
  let t := lower (strip text) in
  if found GREETING_PAT t then "chitchat"
  else if found CREATOR_PAT t || is_creator_query t then "creator"
  else if contains "confluence" t || contains "atlassian.net" t || found ATLASSIAN_URL_PAT t
  then "kb"
  else if found KB_CUE_PAT t then "kb"
  else if found UI_VISIBILITY_RE t then "kb"
  else "general".

(** A character that is none of the asterisk, the underscore and the
    backquote. *)
Definition plain_char (c : ascii) : bool := negb (in_chars c "*_`").

(* ================================================================== *)
(** ** The crawl loop of [preload_knowledge] *)
(* ================================================================== *)

(** An entry of [refs]: [{"page_id": ..., "title": ..., "url": ...}]; the
    [url] is [None] when no web link could be built. *)
Record PageRef : Type := {
  ref_page_id : string;
  ref_title : string;
  ref_url : option string
}.

(** What [get_page_content] returns: the dict of an error, or the text, the
    markup, the title and the web link of the page. *)
Inductive Fetched : Type :=
| FetchError (msg : string)
| FetchPage (text html title : string) (url : option string).

(** A dict appended to [KB_PAGES]; the markup is not parsed yet. *)
Record RawPage : Type := {
  raw_title : string;
  raw_url : option string;
  raw_text : string;
  raw_html : string
}.

(** [page.get("url") or ref.get("url", "")] *)
Definition url_or (page_url ref_url : option string) : option string :=
  match page_url with
  | Some u => if truthy u then Some u else ref_url
  | None => ref_url
  end.

(** The loop over [refs]; [seen] is the set of page ids met so far and
    [fetch] is [get_page_content]. *)
Fixpoint collect_pages (fetch : string -> Fetched) (seen : list string) (refs : list PageRef)
    : list RawPage :=
  match refs with
  | [] => []
  | ref :: refs' =>
      let pid := ref_page_id ref in
      if mem pid seen then collect_pages fetch seen refs'
      else
        let seen := pid :: seen in
        match fetch pid with
        | FetchError _ => collect_pages fetch seen refs'
        | FetchPage text html title url =>
            let text := strip text in
            let html := strip html in
            if negb (truthy text) && negb (truthy html) then collect_pages fetch seen refs'
            else
              {| raw_title := title; raw_url := url_or url (ref_url ref);
                 raw_text := text; raw_html := html |}
              :: collect_pages fetch seen refs'
        end
  end.

(** A sample crawl: page 101 downloads, page 102 fails. *)
Definition crawl_fetch (pid : string) : Fetched :=
  if String.eqb pid "101" then FetchPage " Disk full " "<p>Disk full</p>" "Storage" None
  else FetchError "HTTP 404".

Definition crawl_refs : list PageRef :=
  [ {| ref_page_id := "101"; ref_title := "Storage"; ref_url := Some "https://wiki/x/101" |};
    {| ref_page_id := "102"; ref_title := "Gone"; ref_url := None |} ].

(* ================================================================== *)
(** ** What a chat remembers: the patterns of the memory *)
(* ================================================================== *)

(** [re.search] with a group: [capture pre g post] matches [pre(g)post] at a
    position and gives the text of the group; the search gives the group of
    the leftmost match. *)
Definition capture (pre g post : regex) (prev : option ascii) (s : string) : option string :=
  rmatch pre prev s (fun p1 s1 =>
    rmatch g p1 s1 (fun p2 s2 =>
      rmatch post p2 s2 (fun _ _ =>
        Some (take (String.length s1 - String.length s2) s1)))).

Fixpoint search_capture_go (pre g post : regex) (prev : option ascii) (s : string)
    : option string :=
  match capture pre g post prev s with
  | Some x => Some x
  | None =>
      match s with
      | String c s' => search_capture_go pre g post (Some c) s'
      | EmptyString => None
      end
  end.
Definition search_capture (pre g post : regex) (s : string) : option string :=
  search_capture_go pre g post None s.

(** [re.findall] for a pattern [pre(g1)mid(g2)] with two groups: the pairs
    of the texts of the groups.  The pattern matches no empty string. *)
Definition capture2 (pre g1 mid g2 : regex) (prev : option ascii) (s : string)
    : option (string * string * nat) :=
  rmatch pre prev s (fun p0 s0 =>
    rmatch g1 p0 s0 (fun p1 s1 =>
      rmatch mid p1 s1 (fun p2 s2 =>
        rmatch g2 p2 s2 (fun _ s3 =>
          Some (take (String.length s0 - String.length s1) s0,
                take (String.length s2 - String.length s3) s2,
                String.length s - String.length s3))))).

Fixpoint findall2_go (pre g1 mid g2 : regex) (skip : nat) (prev : option ascii) (s : string)
    : list (string * string) :=
  match s with
  | EmptyString => []
  | String c s' =>
      match skip with
      | S n => findall2_go pre g1 mid g2 n (Some c) s'
      | 0 =>
          match capture2 pre g1 mid g2 prev s with
          | Some (k, v, S n) => (k, v) :: findall2_go pre g1 mid g2 n (Some c) s'
          | _ => findall2_go pre g1 mid g2 0 (Some c) s'
          end
      end
  end.
Definition findall2 (pre g1 mid g2 : regex) (s : string) : list (string * string) :=
  findall2_go pre g1 mid g2 0 None s.

(** [.]: any character but the line feed. *)
Definition not_nl : ascii -> bool := nonec (is_char nl).

(** [[\w'.-]] *)
Definition name_char : ascii -> bool := orc is_word (one_of "'.-").

(** [[A-Z][\w'.-]+(?:\s+[A-Z][\w'.-]+)*], flag [I]: under the flag the
    class [A-Z] is that of the letters. *)
Definition NAME_WORD : regex := Seq (Chr is_alpha) (plus name_char).
Definition NAME_WORDS : regex :=
  Seq NAME_WORD (opt (Plus (Seq (plus is_space) NAME_WORD))).

(** [NAME_PAT]: [\b(my\s+name\s+is|i\s*am|i'm)\s+(...)], flag [I]; the
    pattern before its second group. *)
Definition NAME_PRE : regex :=
  seqs [WordB;
        alts [seqs [lit_ci "my"; plus is_space; lit_ci "name"; plus is_space; lit_ci "is"];
              seqs [lit_ci "i"; star is_space; lit_ci "am"];
              lit_ci "i'm"];
        plus is_space].

(** [CALLME_PAT]: [\b(call\s+me)\s+(...)], flag [I] *)
Definition CALLME_PRE : regex :=
  seqs [WordB; lit_ci "call"; plus is_space; lit_ci "me"; plus is_space].

(** [EMAIL_PAT]:
    [\b(my\s+email\s+is|email\s*[:=])\s*([A-Z0-9._%+-]+@[A-Z0-9.-]+\.[A-Z]{2,})],
    flag [I] *)
Definition EMAIL_PRE : regex :=
  seqs [WordB;
        alts [seqs [lit_ci "my"; plus is_space; lit_ci "email"; plus is_space; lit_ci "is"];
              seqs [lit_ci "email"; star is_space; Chr (one_of ":=")]];
        star is_space].
Definition EMAIL_ADDRESS : regex :=
  seqs [plus (orc is_alpha (orc is_digit (one_of "._%+-")));
        Chr (is_char "@");
        plus (orc is_alpha (orc is_digit (one_of ".-")));
        Chr (is_char ".");
        at_least is_alpha 2].

(** [PHONE_PAT]:
    [\b(my\s+(?:phone|mobile|cell)\s*(?:number)?\s*(?:is)?|phone\s*[:=])\s*([+()\d][\d\s()+-]{6,})],
    flag [I] *)
Definition PHONE_PRE : regex :=
  seqs [WordB;
        alts [seqs [lit_ci "my"; plus is_space;
                    alts [lit_ci "phone"; lit_ci "mobile"; lit_ci "cell"];
                    star is_space; opt (lit_ci "number");
                    star is_space; opt (lit_ci "is")];
              seqs [lit_ci "phone"; star is_space; Chr (one_of ":=")]];
        star is_space].
Definition PHONE_NUMBER : regex :=
  Seq (Chr (orc (one_of "+()") is_digit))
      (at_least (orc is_digit (orc is_space (one_of "()+-"))) 6).

(** [KV_PAT]: [\b(remember|save)\s+(?:that\s+)?(.+)], flag [I] *)
Definition KV_PRE : regex :=
  seqs [WordB; alts [lit_ci "remember"; lit_ci "save"]; plus is_space;
        opt (Seq (lit_ci "that") (plus is_space))].

(** [FORGET_PAT]:
    [\b(forget|delete|remove)\s+(my\s+)?(name|email|phone|company|project|timezone)\b],
    flag [I] *)
Definition FORGET_PRE : regex :=
  seqs [WordB; alts [lit_ci "forget"; lit_ci "delete"; lit_ci "remove"]; plus is_space;
        opt (Seq (lit_ci "my") (plus is_space))].
Definition FORGET_KEY : regex :=
  alts (map lit_ci ["name"; "email"; "phone"; "company"; "project"; "timezone"]).

(** [COLON_PAT]: [\b([A-Za-z][A-Za-z _-]{1,24})\s*[:=]\s*(.+)] *)
Definition COLON_KEY : regex :=
  Seq (Chr is_alpha) (between (orc is_alpha (one_of " _-")) 1 24).
Definition COLON_MID : regex := seqs [star is_space; Chr (one_of ":="); star is_space].

Definition MEM_KEY_ALIASES : list (string * list string) :=
  [("name", ["name"; "full name"]);
   ("email", ["email"; "mail"; "e-mail"]);
   ("phone", ["phone"; "mobile"; "cell"; "phone number"]);
   ("company", ["company"; "org"; "organization"]);
   ("project", ["project"; "proj"]);
   ("timezone", ["timezone"; "tz"; "time zone"])].

(** The key a [key: value] line is saved under: the first canonical key
    that is the key or has it among its aliases, else the key itself. *)
Definition canonical_key (k_norm : string) : string :=
  match List.find (fun ca => String.eqb k_norm (fst ca) || mem k_norm (snd ca))
                  MEM_KEY_ALIASES with
  | Some ca => fst ca
  | None => k_norm
  end.

(** The arrow of the notes on what was saved. *)
Definition ARROW : string := " → ".

(** [_mem_set(None, chat, key, value); updates.append(f"{key} → {value}")] *)
Definition remember (key value : string) (st : Chat * list string) : Chat * list string :=
  (_mem_set (fst st) key value, snd st ++ [(key ++ ARROW ++ value)%string]).

Definition remember_found (key : string) (m : option string) (st : Chat * list string)
    : Chat * list string :=
  match m with
  | Some g => remember key (strip g) st
  | None => st
  end.

Definition or_else {A : Type} (a b : option A) : option A :=
  match a with Some _ => a | None => b end.

(** [extract_and_update_memory]: the chat afterwards and the updates;
    [now] is [datetime.utcnow().isoformat()]. *)
Definition extract_and_update_memory (chat : Chat) (now raw_text : string)
    : Chat * list string :=
  if is_empty raw_text then (chat, [])
  else
    let st := (chat, []) in
    let st := remember_found "name"
                (or_else (search_capture NAME_PRE NAME_WORDS Eps raw_text)
                         (search_capture CALLME_PRE NAME_WORDS Eps raw_text)) st in
    let st := remember_found "email" (search_capture EMAIL_PRE EMAIL_ADDRESS Eps raw_text) st in
    let st := remember_found "phone" (search_capture PHONE_PRE PHONE_NUMBER Eps raw_text) st in
    let st :=
      match search_capture FORGET_PRE FORGET_KEY WordB raw_text with
      | Some g => (_mem_forget (fst st) (lower g), snd st ++ [("forgot " ++ lower g)%string])
      | None => st
      end in
    let st :=
      match search_capture KV_PRE (plus not_nl) Eps raw_text with
      | Some g => (_mem_add_note (fst st) (strip g) now,
                   snd st ++ [("noted: " ++ strip g)%string])
      | None => st
      end in
    fold_left (fun st kv => remember (canonical_key (lower (strip (fst kv)))) (strip (snd kv)) st)
              (findall2 WordB COLON_KEY COLON_MID (plus not_nl) raw_text) st.

(* ================================================================== *)
(** ** Questions about what was saved: [memory_answer] *)
(* ================================================================== *)

(** [\b(what\s+do\s+you\s+remember|what\s+have\s+you\s+saved|my\s+details)\b] *)
Definition SAVED_PAT : regex :=
  seqs [WordB;
        alts [seqs [lit "what"; plus is_space; lit "do"; plus is_space; lit "you";
                    plus is_space; lit "remember"];
              seqs [lit "what"; plus is_space; lit "have"; plus is_space; lit "you";
                    plus is_space; lit "saved"];
              seqs [lit "my"; plus is_space; lit "details"]];
        WordB].

(** [what('| i)s\s+my\s+] *)
Definition WHAT_IS_MY : regex :=
  seqs [lit "what"; alts [lit "'"; lit " i"]; lit "s"; plus is_space; lit "my"; plus is_space].

(** The patterns of [checks], in the order of the dict. *)
Definition MEMORY_CHECKS : list (string * regex) :=
  [("name", seqs [WordB;
                  alts [Seq WHAT_IS_MY (lit "name");
                        seqs [lit "who"; plus is_space; lit "am"; plus is_space; lit "i"]];
                  WordB]);
   ("email", seqs [WordB; Seq WHAT_IS_MY (lit "email"); WordB]);
   ("phone", seqs [WordB;
                   seqs [WHAT_IS_MY; alts [lit "phone"; lit "mobile"; lit "cell"];
                         opt (Seq (plus is_space) (lit "number"))];
                   WordB]);
   ("company", seqs [WordB; Seq WHAT_IS_MY (lit "company"); WordB]);
   ("project", seqs [WordB; Seq WHAT_IS_MY (lit "project"); WordB]);
   ("timezone", seqs [WordB;
                      alts [seqs [WHAT_IS_MY; lit "time"; star is_space; lit "zone"];
                            lit "timezone"];
                      WordB])].

Definition fact_line (kv : string * string) : string :=
  ("- " ++ fst kv ++ ": " ++ snd kv)%string.

Definition memory_answer (chat : Chat) (user_text : string) : option string :=
  let t := lower user_text in
  if found SAVED_PAT t then
    match _mem_all chat with
    | [] => Some "I don’t have any saved facts yet in this chat."
    | facts =>
        Some ("Here’s what I’ve saved for this chat:" ++ NL ++ join NL (map fact_line facts))%string
    end
  else
    match List.find (fun kp => found (snd kp) t) MEMORY_CHECKS with
    | Some (key, _) =>
        match _mem_get chat key with
        | Some val =>
            if truthy val then Some ("Your " ++ key ++ " is " ++ val ++ ".")%string
            else Some ("I haven’t saved your " ++ key ++ " in this chat yet.")%string
        | None => Some ("I haven’t saved your " ++ key ++ " in this chat yet.")%string
        end
    | None => None
    end.

(* ================================================================== *)
(** ** Replies without the knowledge base *)
(* ================================================================== *)

(** [^\s*(hi|hello|hey)\b] *)
Definition HELLO_PAT : regex :=
  seqs [Bol; star is_space; alts [lit "hi"; lit "hello"; lit "hey"]; WordB].

Definition general_chat_response (user_text : string) : string :=
  let t := strip (lower user_text) in
  if matches HELLO_PAT t then "Hello! How can I assist you today?"
  else if contains "how are you" t
  then "I’m doing well — thanks for asking! What can I help you solve?"
  else "Happy to help! Share your error or question — I’ll search the KB first and fill gaps with general help.".

(** The chat completion endpoint behind [llm_chat_messages], called with
    the messages as pairs of a role and a content; the empty string is a
    failed call. *)
Class ChatLlm : Type := {
  llm_chat_messages : list (string * string) -> string
}.

(** An endpoint that never answers. *)
Definition silent_chat_llm : ChatLlm := {| llm_chat_messages := fun _ => EmptyString |}.

(** The message of the history as the endpoint gets it. *)
Definition as_llm_message (m : Message) : list (string * string) :=
  if truthy (msg_text m)
  then [(if String.eqb (msg_role m) "bot" then "assistant" else "user", msg_text m)]
  else [].

Section Replies.

Context {CL : ChatLlm}.
Variable cfg : Config.

Definition llm_with_history (chat : Chat) (user_text : string) : string :=
  if negb (llm_enabled cfg) then general_chat_response user_text
  else
    let history := last_n (FOLLOWUP_CONTEXT_TURNS * 2) (chat_messages chat) in
    let msgs := flat_map as_llm_message history ++ [("user", user_text)] in
    let out := llm_chat_messages msgs in
    if truthy out then out else general_chat_response user_text.

End Replies.

(* ================================================================== *)
(** ** The handler of a chat page *)
(* ================================================================== *)

(** A request to [/chat/<chat_id>]: a GET, or a POST with the field [text]
    of the form ([None] when it is missing) and, when an image with a file
    name is attached, the text [ocr_image] reads in it. *)
Inductive Request : Type :=
| Get
| Post (text : option string) (image : option string).

(** What the handler answers: [abort(404)], an exception raised on the
    way, a redirect to a chat, or the page rendered from the list of chats
    (id, title and day of each), the id, the title and the messages of the
    chat, the flag [loading] and the user. *)
Inductive Response : Type :=
| NotFound
| Failed
| Redirect (cid : string)
| Rendered (chats : list (string * string * string)) (cid title : string)
           (messages : list Message) (loading : bool) (uid : string).

Definition CAMERA_NOTE : string := "📷 Screenshot attached".

Definition NO_PAGE_NOTE : string :=
  ("I didn’t find a matching page in the indexed Confluence KB for this query, and I won’t use the LLM without KB context."
   ++ NL ++ "Verify:"
   ++ NL ++ "• FULL_SITE_CRAWL=1 and the bot user can view those spaces"
   ++ NL ++ "• CONFLUENCE_BASE_URL is correct (e.g., https://<org>.atlassian.net)"
   ++ NL ++ "• Reload at /reload_kb and check logs for [KB] counts")%string.

(** [a or b] on strings *)
Definition str_or (a b : string) : string := if truthy a then a else b.

(** [f"(saved: {', '.join(updates)})"] *)
Definition saved_note (updates : list string) : string :=
  ("(saved: " ++ join ", " updates ++ ")")%string.

(** The chat object the handler holds: the first chat of the user with the
    id, as the store has it now. *)
Definition current (store : Store) (uid cid : string) (chat0 : Chat) : Chat :=
  match snd (_find_chat store uid cid) with
  | Some c => c
  | None => chat0
  end.

(** The store once that chat object has become [c]. *)
Definition set_chat (store : Store) (uid cid : string) (c : Chat) : Store :=
  let '(store, chats) := _get_user_bucket store uid in
  users_set store uid (update_chat cid (fun _ => c) chats).

(** The test of the early answer on who made the assistant. *)
Definition asks_creator (user_text : string) : bool :=
  let lowered := lower user_text in
  found CREATOR_PAT lowered || is_creator_query user_text
  || (contains "openai" lowered
      && (contains "develop" lowered || contains "made" lowered || contains "created" lowered)).

(** [if ans:] for an answer that may be [None] *)
Definition truthy_answer (ans : option string) : option string :=
  match ans with
  | Some a => if truthy a then Some a else None
  | None => None
  end.

Section Handler.

Context {F : Fuzz} {L : Llm} {CL : ChatLlm}.
Variable cfg : Config.
Variable CREATOR_NAME : string.
Variable kb : KB.

(** [_append_msg(store, uid, chat_id, "bot", answer, sources)] and the
    redirect after it: what is on disk then, and the response. *)
Definition bot_says (store disk : Store) (uid cid answer : string) (sources : list Source)
    : Store * Response :=
  let '(_, disk) := _append_msg store disk uid cid "bot" answer (Some sources) in
  (disk, Redirect cid).

(** The handler [chat] of [/chat/<chat_id>] for the user [uid] of the
    session; [disk] is the store [_load_store] reads from [STORE_PATH], and
    the result is what the file holds afterwards with the response.  The
    variable [chat] of the source is one object of the store that every
    step changes in place: here it is looked up again in the store
    ([current]) wherever the source reads it. *)
Definition chat (disk : Store) (uid cid : string) (req : Request) (now : string)
    : Store * Response :=
  let '(store, found_chat) := _find_chat disk uid cid in
  match found_chat with
  | None => (disk, NotFound)
  | Some chat0 =>
      match req with
      | Get =>
          let '(_, chats) := _get_user_bucket store uid in
          (disk,
           Rendered
             (map (fun c => (chat_id c, chat_title c, hd "" (split_on "T" (chat_created c))))
                  chats)
             cid (chat_title chat0) (chat_messages chat0) false uid)
      | Post text image =>
          let user_text := strip (match text with Some t => t | None => "" end) in
          let ocr_txt := match image with Some o => o | None => "" end in
          let attach_note := match image with Some _ => CAMERA_NOTE | None => "" end in
          let display_user :=
            str_or (strip (join " " (filter truthy [user_text; attach_note])))
                   (str_or attach_note ELLIPSIS) in
          let '(store, disk) := _append_msg store disk uid cid "user" display_user (Some []) in
          let '(store, disk) :=
            _set_title_if_new store disk uid cid (str_or user_text attach_note) in
          let q_for_reasoning :=
            build_context_augmented_query (current store uid cid chat0) user_text ocr_txt in
          let lowered := lower user_text in
          if asks_creator user_text then
            bot_says store disk uid cid ("I was created by " ++ CREATOR_NAME ++ ".")%string []
          else
            let '(chat1, updates) :=
              extract_and_update_memory (current store uid cid chat0) now
                                        (join " " [user_text; ocr_txt]) in
            let store := set_chat store uid cid chat1 in
            let disk := store in
            let saved := match updates with [] => false | _ => true end in
            match truthy_answer (memory_answer (current store uid cid chat0) user_text) with
            | Some mem_ans =>
                let mem_ans :=
                  if saved then (mem_ans ++ NL ++ saved_note updates)%string else mem_ans in
                bot_says store disk uid cid mem_ans []
            | None =>
                match truthy_answer
                        (handle_history_question (current store uid cid chat0) user_text) with
                | Some hist_ans =>
                    let hist_ans :=
                      if saved then (hist_ans ++ NL ++ saved_note updates)%string
                      else hist_ans in
                    bot_says store disk uid cid hist_ans []
                | None =>
                    let q := str_or q_for_reasoning user_text in
                    let intent := route_intent q in
                    let finish (answered : bool) (answer : string) (sources : list Source) :=
                      let answer :=
                        if answered then answer
                        else sanitize_output cfg
                               (llm_with_history cfg (current store uid cid chat0)
                                  (str_or q_for_reasoning
                                     (str_or user_text (str_or ocr_txt "(no text)")))) in
                      let sources := if answered then sources else [] in
                      let answer :=
                        if saved then strip (answer ++ NL ++ NL ++ saved_note updates)
                        else answer in
                      bot_says store disk uid cid answer sources in
                    if String.eqb intent "kb" then
                      match answer_from_kb cfg kb q with
                      | None => (disk, Failed)
                      | Some (ok, answer, sources) =>
                          if negb ok
                             && (contains "confluence" lowered
                                 || contains "atlassian.net" lowered
                                 || found ATLASSIAN_URL_PAT lowered)
                          then bot_says store disk uid cid NO_PAGE_NOTE []
                          else finish ok answer sources
                      end
                    else finish false EmptyString []
                end
            end
      end
  end.

End Handler.

(** Two states of a chat that differ at most in what the chat remembers. *)
Definition same_thread (c c' : Chat) : Prop :=
  chat_id c' = chat_id c /\ chat_title c' = chat_title c
  /\ chat_created c' = chat_created c /\ chat_messages c' = chat_messages c.

(** The text of the user's message as the handler shows it, and the text
    the title of a new chat is made from. *)
Definition display_text (text image : option string) : string :=
  let user_text := strip (match text with Some t => t | None => "" end) in
  let attach_note := match image with Some _ => CAMERA_NOTE | None => "" end in
  str_or (strip (join " " (filter truthy [user_text; attach_note]))) (str_or attach_note ELLIPSIS).

Definition title_text (text image : option string) : string :=
  let user_text := strip (match text with Some t => t | None => "" end) in
  let attach_note := match image with Some _ => CAMERA_NOTE | None => "" end in
  str_or user_text attach_note.

(** The store [st'] is the store [st] where the first chat of [uid] with
    the id [cid] has become [c'] and nothing else has changed. *)
Definition chat_replaced (st st' : Store) (uid cid : string) (c' : Chat) : Prop :=
  snd (_find_chat st' uid cid) = Some c'
  /\ (forall u, u <> uid -> users_get st' u = users_get st u)
  /\ (forall cid', cid' <> cid ->
        snd (_find_chat st' uid cid') = snd (_find_chat st uid cid')).

(** The notes of a chat. *)
Definition notes_of (c : Chat) : list Note :=
  match chat_memory c with
  | Some m => match mem_notes m with Some ns => ns | None => [] end
  | None => []
  end.

(** Every fact of [c'] is a fact of [c] or a stripped piece of [text], and
    the notes of [c'] are those of [c] followed by notes whose texts are
    pieces of [text]. *)
Definition facts_from (text : string) (c c' : Chat) : Prop :=
  forall k v, _mem_get c' k = Some v ->
              _mem_get c k = Some v \/ (contains v text = true /\ strip v = v).

Definition notes_from (text : string) (c c' : Chat) : Prop :=
  exists added, notes_of c' = notes_of c ++ added
                /\ Forall (fun n => contains (note_text n) text = true) added.

(** A catalog page whose one row has an error text and nothing else, and
    that row as [KB_ROWS] holds it. *)
Definition page_unsupported : Page := {|
  page_title := "Error Catalog";
  page_url := "https://wiki.example/errors";
  page_text := EmptyString;
  page_html := document [catalog_table th_header [("Unsupported", "", "")]]
|}.

Definition item_unsupported : RowItem :=
  {| item_title := "Error Catalog";
     item_url := "https://wiki.example/errors";
     item_row := row_of_texts ("Unsupported", "", "") |}.

(* ================================================================== *)
(** * Properties *)
(* ================================================================== *)

(** ** Strings *)

Section String_facts.

Lemma sapp_assoc (a b c : string) : ((a ++ b) ++ c = a ++ (b ++ c))%string.
Proof. induction a as [| x a IH]; simpl; [reflexivity | now rewrite IH]. Qed.

Lemma sapp_nil_r (a : string) : (a ++ EmptyString)%string = a.
Proof. induction a as [| x a IH]; simpl; [reflexivity | now rewrite IH]. Qed.

Lemma smap_app (f : ascii -> ascii) (a b : string) :
  smap f (a ++ b)%string = (smap f a ++ smap f b)%string.
Proof. induction a as [| c a IH]; simpl; [reflexivity | now rewrite IH]. Qed.

Lemma prefix_app (p b : string) : String.prefix p (p ++ b)%string = true.
Proof.
  induction p as [| c p IH]; simpl.
  - destruct b; reflexivity.
  - destruct (ascii_dec c c); [exact IH | congruence].
Qed.

Lemma contains_of_prefix (p s : string) : String.prefix p s = true -> contains p s = true.
Proof. intros H. destruct s; cbn [contains]; rewrite H; reflexivity. Qed.

Lemma contains_app (p a b : string) : contains p (a ++ p ++ b)%string = true.
Proof.
  induction a as [| c a IH].
  - apply contains_of_prefix. apply (prefix_app p b).
  - change (contains p (String c (a ++ p ++ b)) = true).
    cbn [contains]. rewrite IH. apply orb_true_r.
Qed.

Lemma drop_while_suffix (p : ascii -> bool) (s : string) :
  exists a, s = (a ++ drop_while p s)%string.
Proof.
  induction s as [| c s [a Ha]]; simpl.
  - now exists EmptyString.
  - destruct (p c).
    + exists (String c a). simpl. now rewrite <- Ha.
    + now exists EmptyString.
Qed.

Lemma drop_while_end_prefix (p : ascii -> bool) (s : string) :
  exists b, s = (drop_while_end p s ++ b)%string.
Proof.
  induction s as [| c s [b Hb]]; simpl.
  - now exists EmptyString.
  - destruct (is_empty (drop_while_end p s) && p c) eqn:E.
    + exists (String c s). reflexivity.
    + exists b. simpl. now rewrite <- Hb.
Qed.

Lemma strip_substring (s : string) :
  exists a b, s = (a ++ strip s ++ b)%string.
Proof.
  unfold strip, lstrip, rstrip.
  destruct (drop_while_end_prefix is_space s) as [b Hb].
  destruct (drop_while_suffix is_space (drop_while_end is_space s)) as [a Ha].
  exists a, b. rewrite Hb at 1. rewrite Ha at 1.
  now rewrite sapp_assoc.
Qed.
End String_facts.

(** ** Tokenizer *)

Section Tokenizer.

Lemma mem_In (w : string) (xs : list string) : mem w xs = true <-> In w xs.
Proof.
  unfold mem. rewrite existsb_exists. split.
  - intros [x [Hin Heq]]. apply String.eqb_eq in Heq. now subst.
  - intros Hin. exists w. split; [assumption | apply String.eqb_refl].
Qed.

Lemma tokenize_keeps (s w : string) :
  In w (tokenize s) -> 3 <= String.length w /\ ~ In w STOP.
Proof.
  unfold tokenize. intros Hin. apply filter_In in Hin as [_ Hkeep].
  apply andb_true_iff in Hkeep as [Hlen Hstop]. split.
  - apply Nat.ltb_lt in Hlen. lia.
  - intros Hmem. apply mem_In in Hmem. rewrite Hmem in Hstop. discriminate.
Qed.

(** C6.  For every input string, every token returned by [tokenize] has
    length at least 3 and is not a member of the stop-word set, and
    tokenizing the empty string yields the empty sequence. *)
Theorem tokenize_tokens_long_and_not_stop :
  (forall s : string,
      Forall (fun w => 3 <= String.length w /\ ~ In w STOP) (tokenize s))
  /\ tokenize EmptyString = [].
Proof.
  split.
  - intros s. apply Forall_forall. intros w Hw. now apply tokenize_keeps with s.
  - reflexivity.
Qed.

End Tokenizer.

(** ** BM25 *)

Section BM25_facts.

Local Open Scope R_scope.

Lemma counter_get_incr (k t : string) (c : Counter.t) :
  Counter.get (Counter.incr k c) t
  = (Counter.get c t + (if String.eqb t k then 1 else 0))%nat.
Proof.
  induction c as [| [k' n] c IH]; simpl.
  - destruct (String.eqb t k); reflexivity.
  - destruct (String.eqb k k') eqn:Hk; simpl.
    + apply String.eqb_eq in Hk. subst k'.
      destruct (String.eqb t k); lia.
    + destruct (String.eqb t k') eqn:Ht.
      * apply String.eqb_eq in Ht. subst k'.
        rewrite String.eqb_sym in Hk. rewrite Hk. lia.
      * apply IH.
Qed.

Lemma counter_get_update (xs : list string) (c : Counter.t) (t : string) :
  Counter.get (Counter.update c xs) t
  = (Counter.get c t + count_occ string_dec xs t)%nat.
Proof.
  unfold Counter.update. revert c.
  induction xs as [| x xs IH]; intros c; simpl.
  - lia.
  - rewrite IH, counter_get_incr.
    destruct (string_dec x t) as [->|Hne].
    + rewrite String.eqb_refl. lia.
    + destruct (String.eqb t x) eqn:E.
      * apply String.eqb_eq in E. congruence.
      * lia.
Qed.

Lemma count_occ_set_of (d : list string) (t : string) :
  (count_occ string_dec (set_of d) t <= 1)%nat.
Proof.
  unfold set_of.
  pose proof (NoDup_nodup string_dec d) as Hnd.
  rewrite (NoDup_count_occ string_dec) in Hnd. apply Hnd.
Qed.

(** A term's document frequency never exceeds the number of documents. *)
Lemma df_fold_bound (docs : list (list string)) (c : Counter.t) (t : string) :
  (Counter.get (fold_left (fun df d => Counter.update df (set_of d)) docs c) t
   <= Counter.get c t + length docs)%nat.
Proof.
  revert c. induction docs as [| d docs IH]; intros c; simpl.
  - lia.
  - specialize (IH (Counter.update c (set_of d))).
    rewrite counter_get_update in IH.
    pose proof (count_occ_set_of d t). lia.
Qed.

Lemma df_le_N (docs : list (list string)) (k b : R) (t : string) :
  (Counter.get (df (BM25_init docs k b)) t <= N (BM25_init docs k b))%nat.
Proof.
  simpl. pose proof (df_fold_bound docs [] t) as H. simpl in H. exact H.
Qed.

Lemma counter_has_incr (k t : string) (c : Counter.t) :
  Counter.has (Counter.incr k c) t = Counter.has c t || String.eqb t k.
Proof.
  unfold Counter.has.
  induction c as [| [k' n] c IH]; simpl.
  - now rewrite orb_false_r.
  - destruct (String.eqb k k') eqn:Hk; simpl.
    + apply String.eqb_eq in Hk. subst k'.
      destruct (String.eqb t k); simpl; [reflexivity | now rewrite orb_false_r].
    + rewrite IH. now rewrite orb_assoc.
Qed.

Lemma counter_has_update (xs : list string) (c : Counter.t) (t : string) :
  Counter.has (Counter.update c xs) t = Counter.has c t || mem t xs.
Proof.
  unfold Counter.update. revert c.
  induction xs as [| x xs IH]; intros c; simpl.
  - now rewrite orb_false_r.
  - rewrite IH, counter_has_incr. now rewrite orb_assoc.
Qed.

Lemma counter_has_of_list (d : list string) (t : string) :
  Counter.has (Counter.of_list d) t = true <-> In t d.
Proof.
  unfold Counter.of_list. rewrite counter_has_update. simpl. apply mem_In.
Qed.

Lemma ln_le_compat (x y : R) : 0 < x -> x <= y -> ln x <= ln y.
Proof.
  intros Hx [Hlt | ->].
  - left. now apply ln_increasing.
  - right. reflexivity.
Qed.

(** The argument of the logarithm, in closed form. *)
Lemma idf_argument (n m : R) :
  0 <= m -> 1 + (n - m + 0.5) / (m + 0.5) = (n + 1) / (m + 0.5).
Proof.
  intros Hm. unfold Rdiv.
  replace 1 with ((m + 0.5) * / (m + 0.5)) at 1 by (apply Rinv_r; lra).
  lra.
Qed.

Lemma idf_value_nonneg (n n_qi : nat) : (n_qi <= n)%nat -> 0 <= idf_value n n_qi.
Proof.
  intros Hle. unfold idf_value. destruct (n =? 0)%nat; [lra |].
  rewrite <- ln_1. apply ln_le_compat; [lra |].
  pose proof (pos_INR n_qi) as Hq. apply le_INR in Hle.
  assert (0 <= (INR n - INR n_qi + 0.5) / (INR n_qi + 0.5)).
  { apply Rmult_le_pos; [lra |]. left. apply Rinv_0_lt_compat. lra. }
  lra.
Qed.

Lemma idf_value_antitone (n m m' : nat) :
  (m <= m')%nat -> idf_value n m' <= idf_value n m.
Proof.
  intros Hle. unfold idf_value. destruct (n =? 0)%nat; [lra |].
  pose proof (pos_INR m) as Hm. pose proof (pos_INR m') as Hm'.
  pose proof (pos_INR n) as Hn. apply le_INR in Hle.
  rewrite !idf_argument by assumption.
  apply ln_le_compat.
  - apply Rmult_lt_0_compat; [lra |]. apply Rinv_0_lt_compat. lra.
  - apply Rmult_le_compat_l; [lra |].
    apply Rinv_le_contravar; lra.
Qed.

Lemma score_step_absent (bm : BM25) (dl : R) (d : list string) (acc : R) (t : string) :
  ~ In t d -> score_step bm dl (Counter.of_list d) acc t = acc.
Proof.
  intros Hnot. unfold score_step.
  destruct (Counter.has (Counter.of_list d) t) eqn:E; [| reflexivity].
  apply counter_has_of_list in E. contradiction.
Qed.

Lemma score_defined (docs : list (list string)) (k b : R) (q : list string)
    (i : nat) (d : list string) :
  nth_error docs i = Some d ->
  score (BM25_init docs k b) q i
  = Some (fold_left
            (score_step (BM25_init docs k b) (INR (nat_or (length d) 1)) (Counter.of_list d))
            q 0).
Proof.
  intros Hd. unfold score. cbn [doc_len docs_tokens BM25_init].
  rewrite nth_error_map, Hd. reflexivity.
Qed.

(** C7.  The inverse document frequency of a term is never negative, does
    not increase when the document frequency grows (for the formula at a
    fixed corpus size, and so between two terms of one index), and is 0 on
    the empty corpus; a query term that does not occur in a document leaves
    that document's score as it is without it; the empty query scores 0. *)
Theorem bm25_idf_and_score_laws :
  forall (docs : list (list string)),
    let bm := BM25_new docs in
    (forall t, 0 <= idf bm t)
    /\ (forall n m m', (m <= m')%nat -> idf_value n m' <= idf_value n m)
    /\ (forall t t', (Counter.get (df bm) t <= Counter.get (df bm) t')%nat ->
                     idf bm t' <= idf bm t)
    /\ (forall t, idf (BM25_new []) t = 0)
    /\ (forall i d q1 q2 t,
           nth_error docs i = Some d -> ~ In t d ->
           score bm (q1 ++ t :: q2) i = score bm (q1 ++ q2) i)
    /\ (forall i d, nth_error docs i = Some d -> score bm [] i = Some 0).
Proof.
  intros docs bm. repeat split.
  - intros t. unfold idf. apply idf_value_nonneg. apply df_le_N.
  - intros n m m'. apply idf_value_antitone.
  - intros t t' Hle. unfold idf. now apply idf_value_antitone.
  - intros i d q1 q2 t Hd Hnot. unfold bm, BM25_new.
    rewrite !(score_defined _ _ _ _ _ _ Hd). f_equal.
    rewrite !fold_left_app. simpl. now rewrite score_step_absent.
  - intros i d Hd. unfold bm, BM25_new.
    rewrite (score_defined _ _ _ _ _ _ Hd). reflexivity.
Qed.

End BM25_facts.

(** ** Row scorer *)

Section Row_scorer.

Context {F : Fuzz}.
Variable cfg : Config.

Local Open Scope R_scope.


Lemma clamp01_mono (x y : R) : x <= y -> clamp01 x <= clamp01 y.
Proof.
  intros Hxy. unfold clamp01.
  apply Rle_max_compat_l.
  apply Rle_min_compat_l. exact Hxy.
Qed.

Lemma clamp01_of_ge1 (x : R) : 1 <= x -> clamp01 x = 1.
Proof.
  intros Hx. unfold clamp01.
  rewrite Rmin_left by exact Hx. apply Rmax_right. lra.
Qed.

Lemma fuzzy_base_range (ql err txt : string) : 0 <= fuzzy_base ql err txt <= 1.
Proof.
  unfold fuzzy_base.
  pose proof (partial_ratio_range ql (lower err)).
  pose proof (token_set_ratio_range ql (lower err)).
  pose proof (partial_ratio_range ql (lower txt)).
  pose proof (token_set_ratio_range ql (lower txt)).
  lra.
Qed.

Lemma hard_match_range (q ql err txt : string) : 0 <= hard_match cfg q ql err txt <= 1.
Proof.
  unfold hard_match.
  destruct (ERROR_ROW_HARDMATCH cfg); [| lra].
  destruct (truthy err && truthy ql && _); [lra |].
  destruct (Re.group0 ERROR_CODE_PAT q); [| lra].
  destruct (contains _ _ || contains _ _); lra.
Qed.

(** The loop over the spans adds 0.05 for each span found in the row. *)
Lemma span_bonus_fold (row : Row) (spans : list string) (base : R) :
  fold_left (span_bonus (error row) (text row)) spans base
  = base + 0.05 * INR (length (filter (spec_span_hit row) spans)).
Proof.
  revert base. induction spans as [| s spans IH]; intros base.
  - simpl. lra.
  - cbn [fold_left filter]. rewrite IH.
    assert (Hstep : span_bonus (error row) (text row) base s
                    = base + (if spec_span_hit row s then 0.05 else 0)).
    { unfold span_bonus, spec_span_hit. destruct (truthy (lower s) && _); lra. }
    rewrite Hstep. destruct (spec_span_hit row s).
    + rewrite length_cons, S_INR. lra.
    + lra.
Qed.

(** The sum the code accumulates is the closed form of the specification. *)
Lemma row_score_raw_closed_form (row : Row) (query page_title : string) :
  row_score_raw cfg row query page_title
  = Rmax (hard_match cfg (strip query) (lower (strip query)) (error row) (text row))
         (fuzzy_base (lower (strip query)) (error row) (text row))
    + spec_bias_terms cfg row query page_title
    - _title_generic_penalty page_title.
Proof.
  unfold row_score_raw, spec_bias_terms, spec_remedy_bias, spec_page_bias, spec_ui_bias,
    spec_span_bias, spec_title_bias.
  cbv zeta. rewrite span_bonus_fold.
  destruct (truthy (remedy row)); cbn [andb];
    [destruct (120 <? String.length (remedy row))%nat |];
    destruct (truthy page_title && _);
    destruct (found UI_VISIBILITY_RE _ && _);
    destruct (truthy page_title); lra.
Qed.

Lemma score_row_is_spec (row : Row) (query page_title : string) :
  score_row_against_query cfg row query page_title = spec_row_score cfg row query page_title.
Proof.
  unfold score_row_against_query, spec_row_score. cbv zeta.
  rewrite row_score_raw_closed_form. unfold clamp01.
  replace 0.0 with 0 by lra. replace 1.0 with 1 by lra. reflexivity.
Qed.



Lemma truthy_smap (f : ascii -> ascii) (s : string) : truthy (smap f s) = truthy s.
Proof. destruct s; reflexivity. Qed.

Lemma contains_lower_strip (s : string) : contains (lower (strip s)) (lower s) = true.
Proof.
  destruct (strip_substring s) as [a [b Hs]].
  rewrite Hs at 2. unfold lower. rewrite !smap_app. apply contains_app.
Qed.

(** A non-blank query equal to the error text, case apart, is a hard match. *)
Lemma hard_match_exact (row : Row) (query : string) :
  ERROR_ROW_HARDMATCH cfg = true ->
  truthy (error row) = true ->
  truthy (strip query) = true ->
  lower query = lower (error row) ->
  hard_match cfg (strip query) (lower (strip query)) (error row) (text row) = 1.
Proof.
  intros Hmode Herr Hq Heq. unfold hard_match. rewrite Hmode, Herr.
  unfold lower at 1. rewrite truthy_smap, Hq.
  rewrite <- Heq, contains_lower_strip. cbn [andb orb]. lra.
Qed.

Lemma generic_penalty_range (title : string) :
  0 <= _title_generic_penalty title <= 0.10.
Proof. unfold _title_generic_penalty. destruct (any_in _ _); lra. Qed.

Lemma spec_bias_terms_nonneg (row : Row) (query title : string) :
  0 <= ERROR_PAGE_BIAS cfg -> 0 <= spec_bias_terms cfg row query title.
Proof.
  intros Hbias.
  unfold spec_bias_terms, spec_remedy_bias, spec_page_bias, spec_ui_bias, spec_span_bias,
    spec_title_bias. cbv zeta.
  pose proof (pos_INR (length (filter (spec_span_hit row) (_extract_query_spans (strip query))))).
  pose proof (partial_ratio_range (lower (strip query)) (lower title)).
  destruct (truthy (remedy row)); cbn [andb];
    [destruct (120 <? String.length (remedy row))%nat |];
    destruct (truthy title && _);
    destruct (found UI_VISIBILITY_RE _ && _);
    destruct (truthy title); lra.
Qed.

(** C3, as amended.  With hard-match mode enabled and a bias for error
    pages that is not negative, a row with a non-empty error text and a
    query that has a non-blank character and equals that error text, case
    apart, score at least 0.90; the score is 1 when the page title holds no
    generic word, and the scorer of app.py, which has no penalty, always
    gives 1. *)
Theorem exact_error_text_scores_high :
  forall (row : Row) (query page_title : string),
    ERROR_ROW_HARDMATCH cfg = true ->
    0 <= ERROR_PAGE_BIAS cfg ->
    truthy (error row) = true ->
    truthy (strip query) = true ->
    lower query = lower (error row) ->
    0.90 <= score_row_against_query cfg row query page_title
    /\ (any_in GENERIC_WORDS (lower page_title) = false ->
        score_row_against_query cfg row query page_title = 1)
    /\ app_score_row_against_query cfg row query page_title = 1.
Proof.
  intros row query page_title Hmode Hbias Herr Hq Heq.
  pose proof (hard_match_exact row query Hmode Herr Hq Heq) as Hhard.
  pose proof (fuzzy_base_range (lower (strip query)) (error row) (text row)) as Hfuzzy.
  pose proof (spec_bias_terms_nonneg row query page_title Hbias) as Hterms.
  pose proof (generic_penalty_range page_title) as Hpen.
  pose proof (score_row_is_spec row query page_title) as Hspec.
  assert (Hmax : Rmax (hard_match cfg (strip query) (lower (strip query)) (error row) (text row))
                      (fuzzy_base (lower (strip query)) (error row) (text row)) = 1).
  { rewrite Hhard. apply Rmax_left. lra. }
  rewrite Hspec. unfold spec_row_score. cbv zeta. rewrite Hmax.
  split; [| split].
  - apply Rle_trans with (clamp01 0.90).
    + unfold clamp01. rewrite Rmin_right by lra. rewrite Rmax_right by lra. lra.
    + apply clamp01_mono. lra.
  - intros Hgen. apply clamp01_of_ge1.
    unfold _title_generic_penalty. rewrite Hgen. lra.
  - unfold app_score_row_against_query. cbv zeta. rewrite Hmax.
    replace 0.0 with 0 by lra. replace 1.0 with 1 by lra.
    apply clamp01_of_ge1.
    destruct (truthy (remedy row));
      [destruct (120 <? String.length (remedy row))%nat |];
      destruct (truthy page_title && _);
      destruct (found UI_VISIBILITY_RE _ && _); lra.
Qed.

End Row_scorer.

Section Row_scorer_examples.
Local Open Scope R_scope.

Lemma clamp01_le (x y : R) : 0 <= y -> x <= y -> clamp01 x <= y.
Proof.
  intros Hy Hxy. unfold clamp01. apply Rmax_lub; [exact Hy |].
  eapply Rle_trans; [apply Rmin_r | exact Hxy].
Qed.

(** Whatever the similarity ratios are, the exact query for [row_abc] scores
    at most 0.94 on a page titled "FAQ". *)
Lemma row_abc_on_faq_page (F : Fuzz) :
  score_row_against_query default_config row_abc "abc" "FAQ" <= 0.94.
Proof.
  rewrite score_row_is_spec.
  unfold spec_row_score, spec_bias_terms, spec_remedy_bias, spec_page_bias, spec_ui_bias,
    spec_span_bias, spec_title_bias, hard_match, _title_generic_penalty. cbv zeta.
  eval_tests.
  replace (length (filter (spec_span_hit row_abc) (_extract_query_spans (strip "abc"))))
    with 0%nat by (vm_compute; reflexivity).
  pose proof (fuzzy_base_range (lower (strip "abc")) (error row_abc) (text row_abc)).
  pose proof (partial_ratio_range (lower (strip "abc")) (lower "FAQ")).
  rewrite Rmax_left by lra. cbn [INR].
  apply clamp01_le; lra.
Qed.

(** C3 fails as stated: the query "abc" equals the error text of [row_abc],
    hard-match mode is on, and on a page titled "FAQ" no similarity ratio
    brings the score to 0.95. *)
Lemma exact_match_on_generic_page_below_095 :
  ERROR_ROW_HARDMATCH default_config = true
  /\ truthy (error row_abc) = true
  /\ truthy "abc" = true
  /\ lower "abc" = lower (error row_abc)
  /\ ~ (exists F : Fuzz,
           0.95 <= @score_row_against_query F default_config row_abc "abc" "FAQ").
Proof.
  repeat split; try reflexivity.
  intros [F H]. pose proof (row_abc_on_faq_page F). lra.
Qed.

(** The amended statement at the query "ABC" for [row_abc], once on a page
    titled "FAQ" and once on a page titled "Error catalog". *)
Lemma exact_error_text_scores_high_witness :
  0.90 <= @score_row_against_query exact_fuzz default_config row_abc "ABC" "FAQ"
  /\ @score_row_against_query exact_fuzz default_config row_abc "ABC" "Error catalog" = 1
  /\ @app_score_row_against_query exact_fuzz default_config row_abc "ABC" "FAQ" = 1.
Proof.
  assert (Hbias : 0 <= ERROR_PAGE_BIAS default_config) by (cbn; lra).
  destruct (@exact_error_text_scores_high exact_fuzz default_config row_abc "ABC" "FAQ"
              eq_refl Hbias eq_refl eq_refl eq_refl) as [Hfaq [_ Happ]].
  destruct (@exact_error_text_scores_high exact_fuzz default_config row_abc "ABC" "Error catalog"
              eq_refl Hbias eq_refl eq_refl eq_refl) as [_ [Hcat _]].
  split; [exact Hfaq | split; [apply Hcat; reflexivity | exact Happ]].
Defined.
End Row_scorer_examples.
(** ** Stable descending sort *)

Section Stable_sort.

Local Open Scope R_scope.

Variable A : Type.
Variable key : A -> R.
Variable idx : A -> nat.

Lemma in_insert_desc (x y : A) (s : list A) :
  In y (insert_desc key x s) -> y = x \/ In y s.
Proof.
  induction s as [| z s IH]; simpl.
  - intros [H | []]. now left.
  - destruct (Rlt_dec (key x) (key z)); simpl.
    + intros [H | H]; [right; now left |].
      destruct (IH H) as [Hx | Hs]; [now left | right; now right].
    + intros [H | H]; [now left | now right].
Qed.

Lemma insert_desc_perm (x : A) (s : list A) : Permutation (insert_desc key x s) (x :: s).
Proof.
  induction s as [| z s IH]; simpl.
  - apply Permutation_refl.
  - destruct (Rlt_dec (key x) (key z)).
    + apply perm_trans with (z :: x :: s).
      * now apply perm_skip.
      * apply perm_swap.
    + apply Permutation_refl.
Qed.

Lemma sort_desc_perm (l : list A) : Permutation (sort_desc key l) l.
Proof.
  induction l as [| x l IH]; simpl.
  - apply perm_nil.
  - apply perm_trans with (x :: sort_desc key l).
    + apply insert_desc_perm.
    + now apply perm_skip.
Qed.

(** Inserting an element that came before all those of a ranking keeps the
    ranking. *)
Lemma insert_desc_ranked (x : A) (s : list A) :
  StronglySorted (ranked_before key idx) s ->
  Forall (fun y => (idx x < idx y)%nat) s ->
  StronglySorted (ranked_before key idx) (insert_desc key x s).
Proof.
  induction s as [| z s IH]; intros Hs Hidx; simpl.
  - constructor; constructor.
  - apply StronglySorted_inv in Hs as [Hs Hz].
    apply Forall_cons_iff in Hidx as [Hxz Hidx].
    destruct (Rlt_dec (key x) (key z)) as [Hlt | Hge].
    + constructor.
      * now apply IH.
      * apply Forall_forall. intros y Hy.
        apply in_insert_desc in Hy as [-> | Hy].
        -- left. exact Hlt.
        -- rewrite Forall_forall in Hz. now apply Hz.
    + constructor.
      * now constructor.
      * constructor.
        -- destruct (Rle_lt_or_eq_dec (key z) (key x)) as [Hlt | Heq]; [lra | now left |].
           right. split; [now symmetry | exact Hxz].
        -- rewrite Forall_forall in *. intros y Hy.
           specialize (Hz y Hy). specialize (Hidx y Hy).
           destruct Hz as [Hz | [Hz _]].
           ++ destruct (Rle_lt_or_eq_dec (key y) (key x)) as [Hlt | Heq]; [lra | now left |].
              right. split; [now symmetry | exact Hidx].
           ++ destruct (Rle_lt_or_eq_dec (key y) (key x)) as [Hlt | Heq]; [lra | now left |].
              right. split; [now symmetry | exact Hidx].
Qed.

Lemma Forall_sort_desc (P : A -> Prop) (l : list A) :
  Forall P l -> Forall P (sort_desc key l).
Proof.
  intros H. rewrite Forall_forall in *. intros y Hy. apply H.
  apply Permutation_in with (sort_desc key l); [apply sort_desc_perm | exact Hy].
Qed.

(** The descending sort of a list whose indices grow is a ranking: it is
    stable. *)
Lemma sort_desc_ranked (l : list A) :
  StronglySorted (fun a b => (idx a < idx b)%nat) l ->
  StronglySorted (ranked_before key idx) (sort_desc key l).
Proof.
  induction l as [| x l IH]; intros Hl; simpl.
  - constructor.
  - apply StronglySorted_inv in Hl as [Hl Hx].
    apply insert_desc_ranked.
    + now apply IH.
    + now apply Forall_sort_desc.
Qed.

Lemma In_firstn (n : nat) (l : list A) (y : A) : In y (firstn n l) -> In y l.
Proof.
  intros Hy. rewrite <- (firstn_skipn n l). apply in_or_app. now left.
Qed.

Lemma StronglySorted_firstn (R : A -> A -> Prop) (n : nat) (l : list A) :
  StronglySorted R l -> StronglySorted R (firstn n l).
Proof.
  revert n. induction l as [| x l IH]; intros n Hl.
  - rewrite firstn_nil. constructor.
  - destruct n; simpl; [constructor |].
    apply StronglySorted_inv in Hl as [Hl Hx].
    constructor; [now apply IH |].
    rewrite Forall_forall in *. intros y Hy. apply Hx.
    now apply In_firstn in Hy.
Qed.

End Stable_sort.
(** ** Row ranking *)

Section Row_ranking.

Context {F : Fuzz}.
Variable cfg : Config.

Local Open Scope R_scope.

Lemma all_some_spec {A B : Type} (f : A -> option B) (xs : list A) :
  (forall x, In x xs -> exists y, f x = Some y) ->
  exists ys, all_some (map f xs) = Some ys /\ Forall2 (fun x y => f x = Some y) xs ys.
Proof.
  induction xs as [| x xs IH]; intros Hdef; simpl.
  - exists []. split; [reflexivity | constructor].
  - destruct (Hdef x (or_introl eq_refl)) as [y Hy].
    destruct IH as [ys [Hys Hall]].
    { intros z Hz. apply Hdef. now right. }
    exists (y :: ys). rewrite Hy, Hys. split; [reflexivity | now constructor].
Qed.

Lemma enumerate_from_nth {A : Type} (k : nat) (xs : list A) (i : nat) (x : A) :
  In (i, x) (enumerate_from k xs) -> (k <= i)%nat /\ nth_error xs (i - k) = Some x.
Proof.
  revert k. induction xs as [| y xs IH]; intros k; simpl.
  - intros [].
  - intros [Heq | Hin].
    + inversion Heq; subst. split; [lia |]. now rewrite Nat.sub_diag.
    + apply IH in Hin as [Hle Hnth]. split; [lia |].
      replace (i - k)%nat with (S (i - S k)) by lia. exact Hnth.
Qed.

Lemma enumerate_nth {A : Type} (xs : list A) (i : nat) (x : A) :
  In (i, x) (enumerate xs) -> nth_error xs i = Some x.
Proof.
  intros Hin. apply enumerate_from_nth in Hin as [_ Hnth].
  now rewrite Nat.sub_0_r in Hnth.
Qed.

Lemma score_in_range (docs : list (list string)) (q : list string) (i : nat) :
  (i < length docs)%nat -> exists s, score (BM25_new docs) q i = Some s.
Proof.
  intros Hlt. destruct (nth_error docs i) as [d |] eqn:Hd.
  - eexists. unfold BM25_new. apply (score_defined _ _ _ _ _ _ Hd).
  - apply nth_error_None in Hd. lia.
Qed.

(** On a knowledge base that [preload_knowledge] built, the body of the
    ranking loop raises nothing. *)
Lemma row_candidate_defined (scorer : Row -> string -> string -> R) (pages : list Page)
    (q : string) (i : nat) (item : RowItem) :
  exists sc, row_candidate (preload_knowledge pages) scorer q i item = Some (sc, i, item).
Proof.
  unfold row_candidate. cbn [ROW_BM25 ROW_TOKENS preload_knowledge].
  destruct (flat_map page_rows pages) as [| r rows] eqn:Hrows.
  - destruct (truthy (item_title item)); eexists; reflexivity.
  - rewrite <- Hrows.
    destruct (i <? length (map (fun it => row_tokens (item_row it)) (flat_map page_rows pages)))%nat
      eqn:Hlt.
    + apply Nat.ltb_lt in Hlt.
      destruct (score_in_range _ (tokenize q) i Hlt) as [s Hs]. rewrite Hs.
      destruct (truthy (item_title item)); eexists; reflexivity.
    + destruct (truthy (item_title item)); eexists; reflexivity.
Qed.

Lemma Forall2_candidates_shape {A : Type} (f : nat * A -> option (R * nat * A))
    (xs : list (nat * A)) (ys : list (R * nat * A)) :
  (forall i x, exists sc, f (i, x) = Some (sc, i, x)) ->
  Forall2 (fun x y => f x = Some y) xs ys ->
  map (fun c => (snd (fst c), snd c)) ys = xs.
Proof.
  intros Hshape Hall. induction Hall as [| [i x] y xs ys Hxy Hall IH]; simpl.
  - reflexivity.
  - destruct (Hshape i x) as [sc Hsc]. rewrite Hsc in Hxy.
    injection Hxy as Hy. rewrite <- Hy. simpl. now rewrite IH.
Qed.

Lemma enumerate_from_indices {A : Type} (k : nat) (xs : list A) :
  StronglySorted lt (map fst (enumerate_from k xs))
  /\ Forall (fun i => (k <= i)%nat) (map fst (enumerate_from k xs)).
Proof.
  revert k. induction xs as [| x xs IH]; intros k; simpl.
  - split; constructor.
  - destruct (IH (S k)) as [Hs Hge]. split.
    + constructor; [exact Hs |].
      eapply Forall_impl; [| exact Hge]. simpl. intros i Hi. lia.
    + constructor; [lia |].
      eapply Forall_impl; [| exact Hge]. simpl. intros i Hi. lia.
Qed.

Lemma StronglySorted_map {A B : Type} (R : B -> B -> Prop) (f : A -> B) (l : list A) :
  StronglySorted R (map f l) -> StronglySorted (fun a b => R (f a) (f b)) l.
Proof.
  induction l as [| x l IH]; simpl; intros H.
  - constructor.
  - apply StronglySorted_inv in H as [Hl Hx]. constructor; [now apply IH |].
    rewrite Forall_map in Hx. exact Hx.
Qed.

Lemma enumerate_from_items {A : Type} (k : nat) (xs : list A) :
  map snd (enumerate_from k xs) = xs.
Proof.
  revert k. induction xs as [| x xs IH]; intros k; simpl; [reflexivity | now rewrite IH].
Qed.

(** The candidates before the sort: one per row, in extraction order,
    carrying the row's index. *)
Lemma row_candidates_built (scorer : Row -> string -> string -> R) (pages : list Page)
    (q : string) :
  exists cands,
    all_some (map (fun ii => row_candidate (preload_knowledge pages) scorer q (fst ii) (snd ii))
                  (enumerate (KB_ROWS (preload_knowledge pages))))
    = Some cands
    /\ map (fun c => (cand_index c, cand_item c)) cands
       = enumerate (KB_ROWS (preload_knowledge pages)).
Proof.
  destruct (all_some_spec
              (fun ii => row_candidate (preload_knowledge pages) scorer q (fst ii) (snd ii))
              (enumerate (KB_ROWS (preload_knowledge pages)))) as [cands [Hc Hall]].
  { intros [i item] _. destruct (row_candidate_defined scorer pages q i item) as [sc Hsc].
    eexists. exact Hsc. }
  exists cands. split; [exact Hc |].
  apply (Forall2_candidates_shape _ _ _ (fun i x => row_candidate_defined scorer pages q i x) Hall).
Qed.

Lemma StronglySorted_nth {A : Type} (R : A -> A -> Prop) (l : list A) (i j : nat) (a b : A) :
  StronglySorted R l -> (i < j)%nat ->
  nth_error l i = Some a -> nth_error l j = Some b -> R a b.
Proof.
  intros Hs. revert i j. induction Hs as [| x l Hs IH Hx]; intros i j Hij Ha Hb.
  - destruct i; discriminate.
  - destruct j as [| j]; [lia |]. simpl in Hb.
    destruct i as [| i]; simpl in Ha.
    + injection Ha as <-. rewrite Forall_forall in Hx. apply Hx.
      now apply nth_error_In with j.
    + apply (IH i j); [lia | assumption | assumption].
Qed.

Lemma StronglySorted_weaken {A : Type} (R S : A -> A -> Prop) (l : list A) :
  (forall a b, R a b -> S a b) -> StronglySorted R l -> StronglySorted S l.
Proof.
  intros HRS Hs. induction Hs as [| x l Hs IH Hx]; constructor.
  - exact IH.
  - eapply Forall_impl; [| exact Hx]. intros b. apply HRS.
Qed.

(** The ranking of the rows, for either scorer: a stable descending sort of
    one candidate per row, cut to its first twelve. *)
Lemma row_candidates_with_ranked (scorer : Row -> string -> string -> R) (pages : list Page)
    (q : string) :
  exists ranking,
    row_candidates_with (preload_knowledge pages) scorer q 12 = Some (firstn 12 ranking)
    /\ Permutation (map (fun c => (cand_index c, cand_item c)) ranking)
                   (enumerate (KB_ROWS (preload_knowledge pages)))
    /\ StronglySorted (ranked_before cand_score cand_index) ranking.
Proof.
  destruct (row_candidates_built scorer pages q) as [cands [Hc Hshape]].
  exists (sort_desc cand_score cands). split; [| split].
  - unfold row_candidates_with. rewrite Hc. reflexivity.
  - rewrite <- Hshape. apply Permutation_map. apply sort_desc_perm.
  - apply sort_desc_ranked.
    apply (StronglySorted_map lt cand_index).
    replace (map cand_index cands)
      with (map fst (enumerate (KB_ROWS (preload_knowledge pages)))).
    + apply enumerate_from_indices.
    + rewrite <- Hshape, map_map. reflexivity.
Qed.

(** What the ranking lemma gives for the list a caller receives. *)
Lemma ranked_prefix_facts (rows : list RowItem) (ranking : list Candidate) :
  Permutation (map (fun c => (cand_index c, cand_item c)) ranking) (enumerate rows) ->
  StronglySorted (ranked_before cand_score cand_index) ranking ->
  (length (firstn 12 ranking) <= 12)%nat
  /\ StronglySorted (fun a b => cand_score b <= cand_score a) (firstn 12 ranking)
  /\ (forall i j a b,
         (i < j)%nat ->
         nth_error (firstn 12 ranking) i = Some a ->
         nth_error (firstn 12 ranking) j = Some b ->
         cand_score a = cand_score b -> (cand_index a < cand_index b)%nat)
  /\ (forall c, In c (firstn 12 ranking) -> nth_error rows (cand_index c) = Some (cand_item c))
  /\ length ranking = length rows.
Proof.
  intros Hperm Hsorted.
  pose proof (StronglySorted_firstn _ _ 12 _ Hsorted) as Hprefix.
  split; [apply firstn_le_length |]. split; [| split; [| split]].
  - apply StronglySorted_weaken with (2 := Hprefix).
    intros a b [Hlt | [Heq _]]; lra.
  - intros i j a b Hij Ha Hb Heq.
    destruct (StronglySorted_nth _ _ i j a b Hprefix Hij Ha Hb) as [Hlt | [_ Hidx]];
      [lra | exact Hidx].
  - intros c Hc. apply In_firstn in Hc. apply enumerate_nth.
    apply Permutation_in with (1 := Hperm).
    apply (in_map (fun c => (cand_index c, cand_item c))) in Hc. exact Hc.
  - apply Permutation_length in Hperm. rewrite length_map in Hperm. rewrite Hperm.
    rewrite <- (length_map snd). unfold enumerate. now rewrite enumerate_from_items.
Qed.


End Row_ranking.
(** ** The answer of a query *)

Section Answer_gate.

Context {F : Fuzz} {L : Llm}.
Variable cfg : Config.

Local Open Scope R_scope.

Lemma section_score_defined (pages : list Page) (q_tokens : list string) (ql : string)
    (i : nat) (sec : Section_) :
  In (i, sec) (enumerate (KB_SECTIONS (preload_knowledge pages))) ->
  exists sc, section_score cfg (preload_knowledge pages) q_tokens ql i sec = Some sc.
Proof.
  intros Hin. apply enumerate_nth in Hin.
  assert (Hlt : (i < length (KB_SECTIONS (preload_knowledge pages)))%nat).
  { apply nth_error_Some. congruence. }
  unfold section_score. cbn [SECTION_BM25 KB_SECTIONS preload_knowledge] in *.
  destruct (flat_map page_sections pages) as [| s0 secs] eqn:Hsecs.
  - simpl in Hlt. lia.
  - rewrite <- Hsecs in *.
    destruct (score_in_range (map sec_tokens (flat_map page_sections pages)) q_tokens i)
      as [s Hs].
    { now rewrite length_map. }
    rewrite Hs. eexists. reflexivity.
Qed.

Lemma top_chunks_defined (pages : list Page) (q : string) :
  exists r, top_chunks cfg (preload_knowledge pages) q = Some r.
Proof.
  unfold top_chunks.
  destruct (all_some_spec
              (fun isec =>
                 match section_score cfg (preload_knowledge pages) (tokenize q) (lower q)
                         (fst isec) (snd isec) with
                 | Some sc => Some (sc, snd isec)
                 | None => None
                 end)
              (enumerate (KB_SECTIONS (preload_knowledge pages)))) as [scored [Hs _]].
  { intros [i sec] Hin.
    destruct (section_score_defined pages (tokenize q) (lower q) i sec Hin) as [sc Hsc].
    simpl. rewrite Hsc. eexists. reflexivity. }
  rewrite Hs.
  destruct (sort_desc fst scored); [destruct (KB_PAGES (preload_knowledge pages)) |];
    eexists; reflexivity.
Qed.

Lemma answer_sections_defined (pages : list Page) (q : string) :
  exists r, answer_sections cfg (preload_knowledge pages) q = Some r.
Proof.
  unfold answer_sections.
  destruct (top_chunks_defined pages q) as [[chunks sources] Hr]. rewrite Hr.
  destruct (truthy (synthesize_from_chunks cfg q chunks)); eexists; reflexivity.
Qed.

Lemma app_answer_sections_defined (pages : list Page) (q : string) :
  exists r, app_answer_sections cfg (preload_knowledge pages) q = Some r.
Proof.
  unfold app_answer_sections.
  destruct (top_chunks_defined pages q) as [[chunks sources] Hr]. rewrite Hr.
  destruct (truthy (app_synthesize_from_chunks cfg q chunks)); eexists; reflexivity.
Qed.

Lemma firstn_12_nil {A : Type} (l : list A) : firstn 12 l = [] <-> l = [].
Proof. destruct l; simpl; split; intros H; (reflexivity || discriminate). Qed.

Lemma length_zero_iff {A : Type} (l : list A) : length l = 0%nat <-> l = [].
Proof. destruct l; simpl; split; intros H; (reflexivity || discriminate). Qed.

Lemma candidates_empty_iff (rows : list RowItem) (ranking : list Candidate) :
  length ranking = length rows -> (firstn 12 ranking = [] <-> rows = []).
Proof.
  intros Hlen. rewrite firstn_12_nil, <- !length_zero_iff. lia.
Qed.

Lemma sections_fallback_law (pages : list Page) (q : string) :
  let kb := preload_knowledge pages in
  (KB_SECTIONS kb = [] -> sections_fallback cfg kb q = Some (false, EmptyString, []))
  /\ (KB_SECTIONS kb <> [] ->
      exists ans sources,
        answer_sections cfg kb q = Some (ans, sources)
        /\ sections_fallback cfg kb q
           = Some (if truthy (strip ans) then (true, ans, sources)
                   else (false, EmptyString, []))).
Proof.
  intros kb. unfold sections_fallback. split.
  - intros ->. reflexivity.
  - intros Hne. destruct (answer_sections_defined pages q) as [[ans sources] Hr].
    exists ans, sources. split; [exact Hr |].
    destruct (KB_SECTIONS kb); [congruence |].
    fold kb in Hr. rewrite Hr. destruct (truthy (strip ans)); reflexivity.
Qed.

Lemma app_sections_fallback_law (pages : list Page) (q : string) :
  let kb := preload_knowledge pages in
  (KB_SECTIONS kb = [] -> app_sections_fallback cfg kb q = Some (false, EmptyString, []))
  /\ (KB_SECTIONS kb <> [] ->
      exists ans sources,
        app_answer_sections cfg kb q = Some (ans, sources)
        /\ app_sections_fallback cfg kb q
           = Some (if truthy (strip ans) then (true, ans, sources)
                   else (false, EmptyString, []))).
Proof.
  intros kb. unfold app_sections_fallback. split.
  - intros ->. reflexivity.
  - intros Hne. destruct (app_answer_sections_defined pages q) as [[ans sources] Hr].
    exists ans, sources. split; [exact Hr |].
    destruct (KB_SECTIONS kb); [congruence |].
    fold kb in Hr. rewrite Hr. destruct (truthy (strip ans)); reflexivity.
Qed.

Lemma sections_fallback_defined (pages : list Page) (q : string) :
  exists a, sections_fallback cfg (preload_knowledge pages) q = Some a.
Proof.
  destruct (sections_fallback_law pages q) as [Hnil Hcons].
  destruct (KB_SECTIONS (preload_knowledge pages)) eqn:E.
  - eexists. now apply Hnil.
  - destruct Hcons as [ans [sources [_ H]]]; [congruence |]. eexists. exact H.
Qed.

Lemma app_sections_fallback_defined (pages : list Page) (q : string) :
  exists a, app_sections_fallback cfg (preload_knowledge pages) q = Some a.
Proof.
  destruct (app_sections_fallback_law pages q) as [Hnil Hcons].
  destruct (KB_SECTIONS (preload_knowledge pages)) eqn:E.
  - eexists. now apply Hnil.
  - destruct Hcons as [ans [sources [_ H]]]; [congruence |]. eexists. exact H.
Qed.

(** Closes the six clauses of [threshold_gate] once the top candidate and
    the side of the floor it is on are known. *)
Ltac close_gate Hc Hlen Hfb Hnil Hcons :=
  unfold threshold_gate;
  split; [rewrite <- Hc; now apply candidates_empty_iff |];
  split; [intros c rest0 Heq Hs;
          first [discriminate
                | injection Heq as <- _; simpl in Hs; first [reflexivity | lra]] |];
  split; [intros c rest0 Heq Hs;
          first [discriminate
                | injection Heq as <- _; simpl in Hs; first [exact Hfb | lra]] |];
  split; [intros Heq; first [exact Hfb | discriminate] |];
  split; [exact Hnil | exact Hcons].

(** The gate of [answer_from_kb].  On a knowledge base built by
    [preload_knowledge], for every query [answer_from_kb] raises nothing; it
    returns [matched = true] with the formatted answer of the top row and
    that row's source when the blended score of the top candidate is at
    least [ROW_SCORE_MIN], whatever that answer is, the empty string
    included; when that score is below the floor, or there is no row, it
    returns what the fall-through to the section ranker returns; and that is
    [(false, "", [])] when there is no section or the section answer is
    blank.  The same holds for app.py. *)
Theorem answer_from_kb_threshold_gate :
  forall (pages : list Page) (query : string),
    let kb := preload_knowledge pages in
    let q := strip (Re.sub (Chr query_noise) " " query) in
    (exists cands result,
        get_row_candidates cfg kb q 12 = Some cands
        /\ answer_from_kb cfg kb query = Some result
        /\ threshold_gate (ROW_SCORE_MIN cfg) (KB_ROWS kb) (KB_SECTIONS kb) cands
             (fun row => row_answer cfg row q)
             (answer_sections cfg kb q) (sections_fallback cfg kb q) result)
    /\ (exists cands result,
        app_get_row_candidates cfg kb q 12 = Some cands
        /\ app_answer_from_kb cfg kb query = Some result
        /\ threshold_gate (ROW_SCORE_MIN cfg) (KB_ROWS kb) (KB_SECTIONS kb) cands
             (fun row => app_row_answer cfg row q)
             (app_answer_sections cfg kb q) (app_sections_fallback cfg kb q) result).
Proof.
  intros pages query kb q. split.
  - destruct (row_candidates_with_ranked (score_row_against_query cfg) pages q)
      as [ranking [Hget [Hperm Hsorted]]].
    destruct (ranked_prefix_facts _ _ Hperm Hsorted) as [_ [_ [_ [_ Hlen]]]].
    destruct (sections_fallback_defined pages q) as [fb Hfb].
    destruct (sections_fallback_law pages q) as [Hnil Hcons].
    fold kb in Hget, Hlen, Hfb, Hnil, Hcons.
    unfold answer_from_kb, get_row_candidates. fold q. rewrite Hget.
    exists (firstn 12 ranking).
    destruct (firstn 12 ranking) as [| [[sc0 i0] item0] rest] eqn:Hc.
    + exists fb. split; [reflexivity |]. split; [exact Hfb |].
      close_gate Hc Hlen Hfb Hnil Hcons.
    + destruct (Rle_dec (ROW_SCORE_MIN cfg) sc0) as [Hge | Hlt].
      * eexists. split; [reflexivity |]. split; [reflexivity |].
        close_gate Hc Hlen Hfb Hnil Hcons.
      * exists fb. split; [reflexivity |]. split; [exact Hfb |].
        close_gate Hc Hlen Hfb Hnil Hcons.
  - destruct (row_candidates_with_ranked (app_score_row_against_query cfg) pages q)
      as [ranking [Hget [Hperm Hsorted]]].
    destruct (ranked_prefix_facts _ _ Hperm Hsorted) as [_ [_ [_ [_ Hlen]]]].
    destruct (app_sections_fallback_defined pages q) as [fb Hfb].
    destruct (app_sections_fallback_law pages q) as [Hnil Hcons].
    fold kb in Hget, Hlen, Hfb, Hnil, Hcons.
    unfold app_answer_from_kb, app_get_row_candidates. fold q. rewrite Hget.
    exists (firstn 12 ranking).
    destruct (firstn 12 ranking) as [| [[sc0 i0] item0] rest] eqn:Hc.
    + exists fb. split; [reflexivity |]. split; [exact Hfb |].
      close_gate Hc Hlen Hfb Hnil Hcons.
    + destruct (Rle_dec (ROW_SCORE_MIN cfg) sc0) as [Hge | Hlt].
      * eexists. split; [reflexivity |]. split; [reflexivity |].
        close_gate Hc Hlen Hfb Hnil Hcons.
      * exists fb. split; [reflexivity |]. split; [exact Hfb |].
        close_gate Hc Hlen Hfb Hnil Hcons.
Qed.

End Answer_gate.
(** ** Degenerate inputs *)

Section Degenerate.

Context {F : Fuzz}.
Variable cfg : Config.

Local Open Scope R_scope.



Lemma score_out_of_range (docs : list (list string)) (q : list string) (i : nat) :
  nth_error docs i = None -> score (BM25_new docs) q i = None.
Proof.
  intros Hd. unfold score. cbn [doc_len docs_tokens BM25_new BM25_init].
  rewrite nth_error_map, Hd. reflexivity.
Qed.

Lemma avgdl_nonneg (docs : list (list string)) : 0 <= avgdl (BM25_new docs).
Proof.
  cbn [avgdl BM25_new BM25_init].
  destruct (length docs =? 0)%nat eqn:E; [lra |].
  apply Nat.eqb_neq in E.
  apply Rmult_le_pos; [apply pos_INR |].
  left. apply Rinv_0_lt_compat. apply lt_0_INR. lia.
Qed.

Lemma R_or_one_pos (x : R) : 0 <= x -> 0 < R_or x 1.
Proof. intros Hx. unfold R_or. destruct (Req_dec_T x 0); lra. Qed.

Lemma counter_get_of_list (d : list string) (t : string) :
  Counter.get (Counter.of_list d) t = count_occ string_dec d t.
Proof. unfold Counter.of_list. now rewrite counter_get_update. Qed.

(** The denominator of a term that occurs in the document is at least 1. *)
Lemma bm25_denom_pos (docs : list (list string)) (d : list string) (t : string) :
  In t d ->
  0 < bm25_denom (BM25_new docs) (INR (nat_or (length d) 1))
                 (INR (Counter.get (Counter.of_list d) t)).
Proof.
  intros Hin. unfold bm25_denom.
  pose proof (R_or_one_pos _ (avgdl_nonneg docs)) as Havg.
  assert (Hf : 1 <= INR (Counter.get (Counter.of_list d) t)).
  { rewrite counter_get_of_list.
    apply (count_occ_In string_dec) in Hin.
    replace 1 with (INR 1) by reflexivity. apply le_INR. lia. }
  assert (Hdl : 0 <= INR (nat_or (length d) 1)) by apply pos_INR.
  assert (Hq : 0 <= INR (nat_or (length d) 1) / R_or (avgdl (BM25_new docs)) 1).
  { apply Rmult_le_pos; [exact Hdl |]. left. now apply Rinv_0_lt_compat. }
  cbn [k1 b BM25_new BM25_init] in *.
  unfold Rdiv in *. rewrite Rmult_assoc. 
  set (x := INR (nat_or (length d) 1) * / R_or _ 1) in *. 
  lra.
Qed.




End Degenerate.

Section Degenerate_examples.
Local Open Scope R_scope.



End Degenerate_examples.
(** ** Examples on a small corpus *)

Section Corpus_examples.
Local Open Scope R_scope.

(** The laws of C7 on a corpus of three documents: "disk" occurs in one of
    them and "full" in two, so "full" has the smaller [idf]; "mount" is not
    in the first document and adds nothing to its score. *)
Lemma bm25_idf_and_score_laws_witness :
  idf (BM25_new [["disk"; "full"]; ["full"]; []]) "full"
  <= idf (BM25_new [["disk"; "full"]; ["full"]; []]) "disk"
  /\ idf_value 3 2 <= idf_value 3 1
  /\ score (BM25_new [["disk"; "full"]; ["full"]; []]) (["disk"] ++ "mount" :: ["full"]) 0
     = score (BM25_new [["disk"; "full"]; ["full"]; []]) (["disk"] ++ ["full"]) 0
  /\ score (BM25_new [["disk"; "full"]; ["full"]; []]) [] 2 = Some 0.
Proof.
  destruct (bm25_idf_and_score_laws [["disk"; "full"]; ["full"]; []])
    as [_ [Hformula [Hterms [_ [Habsent Hempty]]]]].
  split; [apply Hterms; vm_compute; lia |].
  split; [apply Hformula; lia |].
  split; [apply (Habsent 0%nat ["disk"; "full"]); [reflexivity |] |].
  - intros [H | [H | []]]; discriminate.
  - apply (Hempty 2%nat []). reflexivity.
Defined.

End Corpus_examples.
(** ** Step caps *)

Section Step_caps.








End Step_caps.
(** ** Table extraction *)

Section Table_extraction.

Lemma drop_while_idem (p : ascii -> bool) (s : string) :
  drop_while p (drop_while p s) = drop_while p s.
Proof.
  induction s as [| c s IH]; simpl; [reflexivity |].
  destruct (p c) eqn:E; [exact IH |]. simpl. now rewrite E.
Qed.

Lemma drop_while_end_idem (p : ascii -> bool) (s : string) :
  drop_while_end p (drop_while_end p s) = drop_while_end p s.
Proof.
  induction s as [| c s IH]; simpl; [reflexivity |].
  destruct (is_empty (drop_while_end p s) && p c) eqn:E; [reflexivity |].
  simpl. rewrite IH, E. reflexivity.
Qed.

Lemma drop_while_ends_commute (p : ascii -> bool) (s : string) :
  drop_while_end p (drop_while p s) = drop_while p (drop_while_end p s).
Proof.
  induction s as [| c s IH]; simpl; [reflexivity |].
  destruct (p c) eqn:E.
  - rewrite IH. destruct (drop_while_end p s) eqn:Er; simpl.
    + reflexivity.
    + now rewrite E.
  - rewrite andb_false_r. simpl. now rewrite E, andb_false_r.
Qed.

Lemma strip_idem (s : string) : strip (strip s) = strip s.
Proof.
  unfold strip, lstrip, rstrip.
  rewrite drop_while_ends_commute, drop_while_end_idem, drop_while_idem.
  reflexivity.
Qed.

Lemma strip_clean_text (s : string) : strip (clean_text s) = clean_text s.
Proof. unfold clean_text, _clean_cell_text. apply strip_idem. Qed.

(** [descendants] of a tag, child by child. *)
Lemma descendants_elem (tag : string) (kids : list node) :
  Soup.descendants (Elem tag kids) = flat_map (fun k => k :: Soup.descendants k) kids.
Proof.
  simpl. induction kids as [| k kids IH]; [reflexivity |].
  simpl. now rewrite IH.
Qed.

Lemma find_all_elem (names : list string) (tag : string) (kids : list node) :
  Soup.find_all names (Elem tag kids)
  = flat_map (fun k => filter (Soup.has_tag names) (k :: Soup.descendants k)) kids.
Proof.
  unfold Soup.find_all. rewrite descendants_elem.
  induction kids as [| k kids IH]; [reflexivity |].
  cbn [flat_map]. rewrite filter_app. now rewrite IH.
Qed.

(** The rows of a table are its header row and its data rows. *)
Lemma rows_of_catalog_table (header : node) (data : list (string * string * string)) :
  header = th_header \/ header = td_header ->
  Soup.find_all ["tr"] (catalog_table header data)
  = header :: map (fun d => data_row (fst (fst d)) (snd (fst d)) (snd d)) data.
Proof.
  intros Hh. unfold catalog_table. rewrite find_all_elem. cbn [flat_map].
  replace (filter (Soup.has_tag ["tr"]) (header :: Soup.descendants header)) with [header]
    by (destruct Hh as [-> | ->]; reflexivity).
  cbn [app]. f_equal.
  induction data as [| [[e c] r] data IH]; [reflexivity |].
  cbn [map flat_map]. rewrite IH. reflexivity.
Qed.

Lemma headers_of_catalog_table (header : node) (data : list (string * string * string)) :
  header = th_header \/ header = td_header ->
  table_headers (catalog_table header data) = ["error"; "cause"; "remedy"].
Proof.
  intros Hh. unfold table_headers, Soup.find.
  unfold catalog_table. rewrite !find_all_elem. cbn [flat_map].
  replace (filter (Soup.has_tag ["thead"]) (header :: Soup.descendants header)) with (@nil node)
    by (destruct Hh as [-> | ->]; reflexivity).
  replace (filter (Soup.has_tag ["tr"]) (header :: Soup.descendants header)) with [header]
    by (destruct Hh as [-> | ->]; reflexivity).
  cbn [app].
  assert (Hnone : flat_map (fun k => filter (Soup.has_tag ["thead"]) (k :: Soup.descendants k))
                    (map (fun d => data_row (fst (fst d)) (snd (fst d)) (snd d)) data) = []).
  { induction data as [| [[e c] r] data IH]; [reflexivity |].
    cbn [map flat_map]. rewrite IH. reflexivity. }
  rewrite Hnone. cbn [hd_error]. destruct Hh as [-> | ->]; reflexivity.
Qed.

(** The row built from a data row under the headers error, cause, remedy. *)
Lemma table_row_of_data (d : string * string * string) :
  table_row ["error"; "cause"; "remedy"] (data_row (fst (fst d)) (snd (fst d)) (snd d))
  = if 3 <=? String.length (clean_text (fst (fst d))) then Some (row_of_texts d) else None.
Proof.
  destruct d as [[e c] r]. cbn [fst snd].
  transitivity
    (if 3 <=? String.length (strip (clean_text e))
     then Some {| error := strip (clean_text e); cause := strip (clean_text c);
                  remedy := strip (clean_text r); suggestions := EmptyString;
                  raw := [("error", clean_text e); ("cause", clean_text c);
                          ("remedy", clean_text r)];
                  text := join " " (filter truthy [strip (clean_text e); strip (clean_text c);
                                                   strip (clean_text r); EmptyString]) |}
     else None).
  - reflexivity.
  - unfold row_of_texts. cbn [fst snd]. now rewrite !strip_clean_text.
Qed.

Lemma filter_some_data_rows (data : list (string * string * string)) :
  filter_some
    (map (table_row ["error"; "cause"; "remedy"])
         (map (fun d => data_row (fst (fst d)) (snd (fst d)) (snd d)) data))
  = map row_of_texts
        (filter (fun d => 3 <=? String.length (clean_text (fst (fst d)))) data).
Proof.
  unfold filter_some. induction data as [| d data IH]; [reflexivity |].
  cbn [map flat_map filter]. rewrite IH, table_row_of_data.
  destruct (3 <=? String.length (clean_text (fst (fst d)))); reflexivity.
Qed.

Lemma tables_of_document (header : node) (data : list (string * string * string)) :
  header = th_header \/ header = td_header ->
  Soup.find_all ["table"] (document [catalog_table header data]) = [catalog_table header data].
Proof.
  intros Hh. unfold document. rewrite find_all_elem. cbn [flat_map]. rewrite app_nil_r.
  change (filter (Soup.has_tag ["table"])
            (catalog_table header data :: Soup.descendants (catalog_table header data)))
    with (catalog_table header data
            :: Soup.find_all ["table"] (catalog_table header data)).
  f_equal. unfold catalog_table. rewrite find_all_elem. cbn [flat_map].
  replace (filter (Soup.has_tag ["table"]) (header :: Soup.descendants header)) with (@nil node)
    by (destruct Hh as [-> | ->]; reflexivity).
  cbn [app].
  induction data as [| [[e c] r] data IH]; [reflexivity |].
  cbn [map flat_map]. rewrite IH. reflexivity.
Qed.

(** Under a header row of [th] cells Error, Cause, Remedy, the parser
    returns one row for each data row whose cleaned error text has at least
    three characters, with the cleaned texts as its fields, and no other. *)
Lemma th_header_table_rows (data : list (string * string * string)) :
  extract_table_rows_from_html (document [catalog_table th_header data])
  = map row_of_texts (filter (fun d => 3 <=? String.length (clean_text (fst (fst d)))) data).
Proof.
  unfold extract_table_rows_from_html.
  rewrite tables_of_document by (now left).
  cbn [flat_map]. rewrite app_nil_r.
  rewrite headers_of_catalog_table by (now left).
  rewrite rows_of_catalog_table by (now left).
  cbn [map]. unfold filter_some at 1. cbn [flat_map].
  replace (table_row ["error"; "cause"; "remedy"] th_header) with (@None Row) by reflexivity.
  cbn [app]. apply filter_some_data_rows.
Qed.

(** Under the same header row written with [td] cells, the header row comes
    back as a row of its own, before the rows of the data. *)
Lemma td_header_table_rows (data : list (string * string * string)) :
  extract_table_rows_from_html (document [catalog_table td_header data])
  = row_of_texts ("Error", "Cause", "Remedy")
    :: map row_of_texts
         (filter (fun d => 3 <=? String.length (clean_text (fst (fst d)))) data).
Proof.
  unfold extract_table_rows_from_html.
  rewrite tables_of_document by (now right).
  cbn [flat_map]. rewrite app_nil_r.
  rewrite headers_of_catalog_table by (now right).
  rewrite rows_of_catalog_table by (now right).
  cbn [map]. unfold filter_some at 1. cbn [flat_map].
  replace (table_row ["error"; "cause"; "remedy"] td_header)
    with (Some (row_of_texts ("Error", "Cause", "Remedy"))) by reflexivity.
  cbn [app]. f_equal. apply filter_some_data_rows.
Qed.

(** C9, at the input where the code fails it: a table whose header row
    Error, Cause, Remedy and whose one data row are written with [td] cells
    gives two rows, the first of them made of the header texts. *)
Theorem td_header_row_is_extracted_as_a_row :
  extract_table_rows_from_html
    (document [catalog_table td_header
                 [("ORA-12154", "TNS could not resolve", "Check tnsnames.ora entry.")]])
  = [mk_row "Error" "Cause" "Remedy" "";
     mk_row "ORA-12154" "TNS could not resolve" "Check tnsnames.ora entry." ""].
Proof. rewrite td_header_table_rows. reflexivity. Qed.

End Table_extraction.
(** ** Sanitizer *)

Section Sanitizer_examples.

(** C4, at the inputs where the code fails it.  Of two numbered lists the
    sanitizer keeps the first step of each and drops every step numbered 2
    or more, so the output is neither the first list nor a single list; a
    lone list loses all its steps but the first. *)
Theorem sanitize_output_keeps_step_one_of_every_list :
  sanitize_output default_config
    (join NL ["1. Open the file"; "2. Save the file"; "Second way:"; "1. Run the job";
              "2. Stop the job"])
  = join NL ["1. Open the file"; "1. Run the job"]
  /\ sanitize_output default_config
       (join NL ["Do this:"; "1. Open the file"; "2. Save the file"; "3. Close the file"])
     = join NL ["Do this:"; "1. Open the file"].
Proof. split; vm_compute; reflexivity. Qed.

(** The lines the claim names are removed on these inputs: a line with
    "contact support" goes, a line "or try reinstalling" goes, and the same
    words in a numbered step stay. *)
Lemma sanitize_output_drops_escalation_and_alternatives :
  sanitize_output default_config
    (join NL ["Do this:"; "1. Open the file"; "Please contact support now";
              "or try reinstalling"])
  = join NL ["Do this:"; "1. Open the file"]
  /\ sanitize_output default_config (join NL ["Do this:"; "1. or try reinstalling"])
     = join NL ["Do this:"; "1. or try reinstalling"].
Proof. split; vm_compute; reflexivity. Qed.

End Sanitizer_examples.
(** ** The end-to-end scenario *)

Section Scenario.
Local Open Scope R_scope.

Lemma ln_four_thirds : 0.25 <= ln (1 + (1 - 1 + 0.5) / (1 + 0.5)).
Proof.
  assert (Hthird : (1 - 1 + 0.5) / (1 + 0.5) = / 3).
  { apply Rmult_eq_reg_l with 3; [| lra]. rewrite Rinv_r by lra.
    unfold Rdiv. replace (1 + 0.5) with (3 / 2) by lra.
    rewrite Rinv_div. lra. }
  rewrite Hthird.
  assert (He : exp 0.25 <= 1 + / 3).
  { pose proof (exp_ineq1_le (Ropp 0.25)) as H. rewrite exp_Ropp in H.
    pose proof (exp_pos 0.25) as Hpos.
    assert (Hinv : exp 0.25 * / exp 0.25 = 1) by (apply Rinv_r; lra).
    assert (H3 : 3 * / 3 = 1) by (apply Rinv_r; lra).
    nra. }
  rewrite <- (ln_exp 0.25) at 1. apply ln_le_compat; [apply exp_pos | exact He].
Qed.

Lemma scenario_row_score (F : Fuzz) :
  score_row_against_query default_config (item_row item_ora) q_ora "Error Catalog" = 1.
Proof.
  rewrite score_row_is_spec. unfold spec_row_score. cbv zeta.
  apply clamp01_of_ge1.
  pose proof (fuzzy_base_range (lower (strip q_ora)) (error (item_row item_ora))
                (text (item_row item_ora))) as Hf.
  assert (Hbias : 0 <= ERROR_PAGE_BIAS default_config) by (cbn; lra).
  pose proof (spec_bias_terms_nonneg default_config (item_row item_ora) q_ora
                "Error Catalog" Hbias) as Hb.
  assert (Hhard : hard_match default_config (strip q_ora) (lower (strip q_ora))
                    (error (item_row item_ora)) (text (item_row item_ora)) = 1).
  { unfold hard_match. eval_tests. lra. }
  rewrite Hhard. rewrite Rmax_left by lra.
  replace (_title_generic_penalty "Error Catalog") with 0; [lra |].
  unfold _title_generic_penalty. eval_tests. reflexivity.
Qed.

Lemma ln_four_thirds_le : ln (1 + (1 - 1 + 0.5) / (1 + 0.5)) <= 0.34.
Proof.
  assert (Hthird : (1 - 1 + 0.5) / (1 + 0.5) = / 3).
  { apply Rmult_eq_reg_l with 3; [| lra]. rewrite Rinv_r by lra.
    unfold Rdiv. replace (1 + 0.5) with (3 / 2) by lra.
    rewrite Rinv_div. lra. }
  rewrite Hthird.
  assert (H3 : 3 * / 3 = 1) by (apply Rinv_r; lra).
  pose proof (exp_ineq1_le (/ 3)) as He.
  apply Rle_trans with (/ 3); [| lra].
  rewrite <- (ln_exp (/ 3)) at 2. apply ln_le_compat; lra.
Qed.

(** The BM25 score of the one row for the tokens of the query. *)
Lemma scenario_bm25 :
  exists s,
    score (BM25_new [row_tokens (item_row item_ora)]) (tokenize q_ora) 0 = Some s
    /\ 0.25 <= s <= 0.34.
Proof.
  replace (row_tokens (item_row item_ora))
    with ["ora-12154"; "tns"; "resolve"; "check"; "tnsnames"; "ora"; "entry"; "restart";
          "listener"] by (vm_compute; reflexivity).
  replace (tokenize q_ora) with ["getting"; "ora-12154"] by (vm_compute; reflexivity).
  eexists. split.
  - unfold BM25_new. apply score_defined. reflexivity.
  - cbn [fold_left]. unfold score_step. eval_tests.
    unfold idf, bm25_denom, idf_value. cbn [k1 b N df avgdl BM25_init].
    eval_nats. eval_tests. cbn [INR].
    unfold R_or. destruct (Req_dec_T _ 0) as [Heq | _]; [exfalso; lra |].
    match goal with
    | |- context [0.75 * ?a / (?a / 1)] =>
        replace (0.75 * a / (a / 1)) with 0.75
          by (unfold Rdiv; rewrite Rinv_1, Rmult_1_r, Rmult_assoc, Rinv_r; lra)
    end.
    replace (1 * (1.5 + 1) / (1 + 1.5 * (1 - 0.75 + 0.75))) with 1.
    + pose proof ln_four_thirds. pose proof ln_four_thirds_le. lra.
    + replace (1 + 1.5 * (1 - 0.75 + 0.75)) with (1.5 + 1) by lra.
      unfold Rdiv. rewrite Rmult_assoc, Rinv_r; lra.
Qed.

(** The one candidate of the scenario, on a page whose table is that of the
    catalog page: its blended score is at least 0.92 whatever the similarity
    ratios are, and at most 0.934 plus the title-similarity term. *)
Lemma scenario_candidates (F : Fuzz) (cfg : Config) (p : Page) :
  ERROR_ROW_HARDMATCH cfg = true ->
  ERROR_PAGE_BIAS cfg = ERROR_PAGE_BIAS default_config ->
  ERROR_TITLE_HINTS cfg = ERROR_TITLE_HINTS default_config ->
  KB_ROWS (preload_knowledge [p]) = [item_ora] ->
  exists sc,
    get_row_candidates cfg (preload_knowledge [p]) q_ora 12 = Some [(sc, 0%nat, item_ora)]
    /\ 0.92 <= sc
    /\ sc <= 0.934 + 0.05 * (partial_ratio (lower q_ora) "error catalog" / 100).
Proof.
  intros Hhard Hbias Hhints Hrows.
  destruct scenario_bm25 as [s [Hs Hbound]].
  assert (Hscore : score_row_against_query cfg (item_row item_ora) q_ora "Error Catalog" = 1).
  { rewrite <- (scenario_row_score F). unfold score_row_against_query, row_score_raw, hard_match.
    rewrite Hhard, Hbias, Hhints. reflexivity. }
  eexists. split; [| split].
  - unfold get_row_candidates, row_candidates_with, row_candidate.
    replace (ROW_BM25 (preload_knowledge [p]))
      with (match KB_ROWS (preload_knowledge [p]) with
            | [] => None
            | _ => Some (BM25_new (map (fun it => row_tokens (item_row it))
                                       (KB_ROWS (preload_knowledge [p]))))
            end) by reflexivity.
    replace (ROW_TOKENS (preload_knowledge [p]))
      with (map (fun it => row_tokens (item_row it)) (KB_ROWS (preload_knowledge [p])))
      by reflexivity.
    rewrite Hrows.
    cbn [enumerate enumerate_from map fst snd].
    rewrite Hs. eval_tests. reflexivity.
  - change (item_title item_ora) with "Error Catalog". rewrite Hscore.
    pose proof (partial_ratio_range (lower q_ora) (lower "Error Catalog")) as Hp.
    unfold R_or. destruct (Req_dec_T s 0) as [Heq | _]; lra.
  - change (item_title item_ora) with "Error Catalog". rewrite Hscore.
    replace (lower "Error Catalog") with "error catalog" by reflexivity.
    unfold R_or. destruct (Req_dec_T s 0) as [Heq | _]; lra.
Qed.

(** The section ranker on the catalog page without page text: no answer. *)
Lemma bare_page_fallback :
  @sections_fallback exact_fuzz silent_llm config_floor_099 (preload_knowledge [page_ora_bare])
    q_ora
  = Some (false, EmptyString, []).
Proof. vm_compute. reflexivity. Qed.

(** The gate on the end-to-end scenario of the specification: the catalog page
    with the row for ORA-12154, the defaults of kb.py and a formatter that
    does not answer.  The row is accepted and formatted with its two
    steps.  With a floor of 0.99 and no page text, the same row is refused
    and the answer is [(false, "", [])]. *)
Lemma answer_from_kb_threshold_gate_witness :
  @answer_from_kb exact_fuzz silent_llm default_config (preload_knowledge [page_ora]) query_ora
  = Some (true,
          join NL ["Resolution for: ORA-12154"; ""; "Why:"; "- TNS could not resolve"; "";
                   "Do this:"; "1. Check tnsnames.ora entry"; "2. Restart listener."],
          [{| src_title := "Error Catalog"; src_url := "https://wiki.example/errors" |}])
  /\ @answer_from_kb exact_fuzz silent_llm config_floor_099 (preload_knowledge [page_ora_bare])
       query_ora
     = Some (false, EmptyString, []).
Proof.
  split.
  - destruct (@answer_from_kb_threshold_gate exact_fuzz silent_llm default_config [page_ora]
                query_ora) as [[cands [result [Hget [Hanswer Hgate]]]] _].
    replace (strip (Re.sub (Chr query_noise) " " query_ora)) with q_ora in *
      by (vm_compute; reflexivity).
    destruct (scenario_candidates exact_fuzz default_config page_ora eq_refl eq_refl eq_refl)
      as [sc [Hcands [Hfloor _]]]; [vm_compute; reflexivity |].
    rewrite Hcands in Hget. injection Hget as <-.
    destruct Hgate as [_ [Hrow _]].
    rewrite Hanswer, (Hrow _ _ eq_refl Hfloor). f_equal.
  - destruct (@answer_from_kb_threshold_gate exact_fuzz silent_llm config_floor_099
                [page_ora_bare] query_ora) as [[cands [result [Hget [Hanswer Hgate]]]] _].
    replace (strip (Re.sub (Chr query_noise) " " query_ora)) with q_ora in *
      by (vm_compute; reflexivity).
    destruct (scenario_candidates exact_fuzz config_floor_099 page_ora_bare
                eq_refl eq_refl eq_refl) as [sc [Hcands [_ Hceil]]];
      [vm_compute; reflexivity |].
    rewrite Hcands in Hget. injection Hget as <-.
    destruct Hgate as [_ [_ [Hbelow _]]].
    assert (Hlt : sc < ROW_SCORE_MIN config_floor_099).
    { replace (partial_ratio (lower q_ora) "error catalog") with 0 in Hceil
        by (vm_compute; reflexivity).
      cbn [ROW_SCORE_MIN config_floor_099]. lra. }
    specialize (Hbelow _ _ eq_refl Hlt).
    rewrite bare_page_fallback in Hbelow. rewrite Hanswer, <- Hbelow. reflexivity.
Defined.



End Scenario.

Section Empty_row_answer.
Local Open Scope R_scope.

Lemma unsupported_row_score (F : Fuzz) :
  score_row_against_query default_config (item_row item_unsupported) "Unsupported"
    "Error Catalog" = 1.
Proof.
  rewrite score_row_is_spec. unfold spec_row_score. cbv zeta.
  apply clamp01_of_ge1.
  pose proof (fuzzy_base_range (lower (strip "Unsupported")) (error (item_row item_unsupported))
                (text (item_row item_unsupported))) as Hf.
  assert (Hbias : 0 <= ERROR_PAGE_BIAS default_config) by (cbn; lra).
  pose proof (spec_bias_terms_nonneg default_config (item_row item_unsupported) "Unsupported"
                "Error Catalog" Hbias) as Hb.
  assert (Hhard : hard_match default_config (strip "Unsupported") (lower (strip "Unsupported"))
                    (error (item_row item_unsupported)) (text (item_row item_unsupported)) = 1).
  { unfold hard_match. eval_tests. lra. }
  rewrite Hhard. rewrite Rmax_left by lra.
  replace (_title_generic_penalty "Error Catalog") with 0; [lra |].
  unfold _title_generic_penalty. eval_tests. reflexivity.
Qed.

Lemma unsupported_bm25 :
  exists s,
    score (BM25_new [row_tokens (item_row item_unsupported)]) (tokenize "Unsupported") 0 = Some s
    /\ 0.25 <= s.
Proof.
  replace (row_tokens (item_row item_unsupported)) with ["unsupported"]
    by (vm_compute; reflexivity).
  replace (tokenize "Unsupported") with ["unsupported"] by (vm_compute; reflexivity).
  eexists. split.
  - unfold BM25_new. apply score_defined. reflexivity.
  - cbn [fold_left]. unfold score_step. eval_tests.
    unfold idf, bm25_denom, idf_value. cbn [k1 b N df avgdl BM25_init].
    eval_nats. eval_tests. cbn [INR].
    unfold R_or. destruct (Req_dec_T _ 0) as [Heq | _]; [exfalso; lra |].
    replace (1 * (1.5 + 1) / (1 + 1.5 * (1 - 0.75 + 0.75 * 1 / (1 / 1)))) with 1.
    + pose proof ln_four_thirds. lra.
    + replace (0.75 * 1 / (1 / 1)) with 0.75
        by (unfold Rdiv; rewrite Rinv_1; lra).
      replace (1 + 1.5 * (1 - 0.75 + 0.75)) with (1.5 + 1) by lra.
      unfold Rdiv. rewrite Rmult_assoc, Rinv_r; lra.
Qed.

(** The one candidate of that page: its blended score is at least the
    default floor whatever the similarity ratios are. *)
Lemma unsupported_candidates (F : Fuzz) :
  exists sc,
    get_row_candidates default_config (preload_knowledge [page_unsupported]) "Unsupported" 12
    = Some [(sc, 0%nat, item_unsupported)]
    /\ 0.92 <= sc.
Proof.
  destruct unsupported_bm25 as [s [Hs Hbound]].
  assert (Hrows : KB_ROWS (preload_knowledge [page_unsupported]) = [item_unsupported])
    by (vm_compute; reflexivity).
  eexists. split.
  - unfold get_row_candidates, row_candidates_with, row_candidate.
    replace (ROW_BM25 (preload_knowledge [page_unsupported]))
      with (match KB_ROWS (preload_knowledge [page_unsupported]) with
            | [] => None
            | _ => Some (BM25_new (map (fun it => row_tokens (item_row it))
                                       (KB_ROWS (preload_knowledge [page_unsupported]))))
            end) by reflexivity.
    replace (ROW_TOKENS (preload_knowledge [page_unsupported]))
      with (map (fun it => row_tokens (item_row it))
                (KB_ROWS (preload_knowledge [page_unsupported])))
      by reflexivity.
    rewrite Hrows.
    cbn [enumerate enumerate_from map fst snd].
    rewrite Hs. eval_tests. reflexivity.
  - change (item_title item_unsupported) with "Error Catalog".
    rewrite (unsupported_row_score F).
    pose proof (partial_ratio_range (lower "Unsupported") (lower "Error Catalog")) as Hp.
    unfold R_or. destruct (Req_dec_T s 0) as [Heq | _]; lra.
Qed.

(** C1, at the input where the code fails it.  A catalog page whose row has
    the error text Unsupported and no remedy, the defaults of kb.py and the
    query Unsupported: the row is accepted, its only line, Resolution for:
    Unsupported, holds the word support and is dropped by [sanitize_output],
    and [answer_from_kb] returns [matched = true] with an empty answer and
    the source of the row, whatever the similarity ratios and the endpoint
    are.  No non-empty answer is produced, and the result is not
    [(false, "", [])]. *)
Theorem accepted_row_with_empty_answer_is_matched :
  forall (F : Fuzz) (L : Llm),
    format_row_better default_config (item_row item_unsupported) = "Resolution for: Unsupported"
    /\ sanitize_output default_config "Resolution for: Unsupported" = ""
    /\ @answer_from_kb F L default_config (preload_knowledge [page_unsupported]) "Unsupported"
       = Some (true, "",
               [{| src_title := "Error Catalog"; src_url := "https://wiki.example/errors" |}]).
Proof.
  intros F L. split; [vm_compute; reflexivity |]. split; [vm_compute; reflexivity |].
  unfold answer_from_kb.
  replace (strip (Re.sub (Chr query_noise) " " "Unsupported")) with "Unsupported"
    by (vm_compute; reflexivity).
  destruct (unsupported_candidates F) as [sc [Hcands Hfloor]].
  rewrite Hcands.
  destruct (Rle_dec (ROW_SCORE_MIN default_config) sc) as [_ | Hlt];
    [| exfalso; apply Hlt; cbn [ROW_SCORE_MIN default_config]; exact Hfloor].
  assert (Hanswer : @row_answer L default_config (item_row item_unsupported) "Unsupported" = "")
    by (vm_compute; reflexivity).
  rewrite Hanswer. reflexivity.
Qed.

End Empty_row_answer.
Section BM25_more.
Local Open Scope R_scope.

Lemma count_occ_set_of_mem (d : list string) (t : string) :
  count_occ string_dec (set_of d) t = if mem t d then 1%nat else 0%nat.
Proof.
  unfold set_of. destruct (mem t d) eqn:E.
  - apply (proj1 (mem_In _ _)) in E. apply (proj2 (nodup_In string_dec _ _)) in E.
    pose proof (NoDup_nodup string_dec d) as Hnd.
    apply (proj1 (NoDup_count_occ' string_dec _) Hnd). exact E.
  - apply (count_occ_not_In string_dec). intros Hin.
    apply (proj1 (nodup_In string_dec _ _)) in Hin. apply (proj2 (mem_In _ _)) in Hin.
    rewrite Hin in E. discriminate.
Qed.

Lemma df_fold_count (docs : list (list string)) (c : Counter.t) (t : string) :
  Counter.get (fold_left (fun df d => Counter.update df (set_of d)) docs c) t
  = (Counter.get c t + length (filter (mem t) docs))%nat.
Proof.
  revert c. induction docs as [| d docs IH]; intros c; simpl.
  - lia.
  - rewrite IH, counter_get_update, count_occ_set_of_mem.
    destruct (mem t d); simpl; lia.
Qed.

Lemma score_step_grows (docs : list (list string)) (d : list string) (acc : R) (t : string) :
  acc <= score_step (BM25_new docs) (INR (nat_or (length d) 1)) (Counter.of_list d) acc t.
Proof.
  unfold score_step.
  destruct (Counter.has (Counter.of_list d) t) eqn:Hhas; cbn [negb]; [| lra].
  apply counter_has_of_list in Hhas.
  pose proof (bm25_denom_pos docs d t Hhas) as Hden.
  assert (Hidf : 0 <= idf (BM25_new docs) t).
  { unfold idf. apply idf_value_nonneg. apply df_le_N. }
  pose proof (pos_INR (Counter.get (Counter.of_list d) t)) as Hf.
  assert (Hk : 0 <= k1 (BM25_new docs) + 1) by (cbn; lra).
  assert (0 <= INR (Counter.get (Counter.of_list d) t) * (k1 (BM25_new docs) + 1)
               / bm25_denom (BM25_new docs) (INR (nat_or (length d) 1))
                   (INR (Counter.get (Counter.of_list d) t))).
  { apply Rmult_le_pos; [now apply Rmult_le_pos |]. left. now apply Rinv_0_lt_compat. }
  pose proof (Rmult_le_pos _ _ Hidf H). lra.
Qed.

Lemma score_fold_grows (docs : list (list string)) (d : list string) (q : list string) (acc : R) :
  acc <= fold_left (score_step (BM25_new docs) (INR (nat_or (length d) 1)) (Counter.of_list d))
           q acc.
Proof.
  revert acc. induction q as [| t q IH]; intros acc; simpl; [lra |].
  eapply Rle_trans; [apply (score_step_grows docs d acc t) | apply IH].
Qed.

Lemma score_some_inv (docs : list (list string)) (q : list string) (i : nat) (s : R) :
  score (BM25_new docs) q i = Some s -> exists d, nth_error docs i = Some d.
Proof.
  intros Hs. destruct (nth_error docs i) as [d |] eqn:Hd; [now exists d |].
  rewrite (score_out_of_range _ _ _ Hd) in Hs. discriminate.
Qed.

(** X1.  The score [BM25.score] gives a document of the corpus is never
    negative, it is 0 when no token of the query occurs in the document, and
    a longer query never scores lower: every token adds a term that is not
    negative. *)
Theorem bm25_score_nonneg_and_monotone :
  forall (docs : list (list string)) (q : list string) (i : nat) (d : list string),
    nth_error docs i = Some d ->
    exists s,
      score (BM25_new docs) q i = Some s
      /\ 0 <= s
      /\ ((forall t, In t q -> ~ In t d) -> s = 0)
      /\ (forall q', exists s',
             score (BM25_new docs) (q ++ q') i = Some s' /\ s <= s').
Proof.
  intros docs q i d Hd. eexists. split; [| split; [| split]].
  - unfold BM25_new. apply (score_defined _ _ _ _ _ _ Hd).
  - apply (score_fold_grows docs d q 0).
  - intros Hnone. clear Hd. induction q as [| t q IH] using rev_ind; [reflexivity |].
    rewrite fold_left_app. cbn [fold_left].
    rewrite score_step_absent by (apply Hnone, in_or_app; right; now left).
    apply IH. intros t' Ht'. apply Hnone, in_or_app. now left.
  - intros q'. eexists. split.
    + unfold BM25_new. apply (score_defined _ _ _ _ _ _ Hd).
    + rewrite fold_left_app. apply (score_fold_grows docs d q').
Qed.

Lemma bm25_score_nonneg_and_monotone_witness :
  exists s,
    score (BM25_new [["disk"; "full"]; ["quota"]]) ["disk"] 0 = Some s
    /\ 0 <= s
    /\ ((forall t, In t ["disk"] -> ~ In t ["disk"; "full"]) -> s = 0)
    /\ (forall q', exists s',
           score (BM25_new [["disk"; "full"]; ["quota"]]) (["disk"] ++ q') 0 = Some s'
           /\ s <= s').
Proof.
  apply (bm25_score_nonneg_and_monotone [["disk"; "full"]; ["quota"]] ["disk"] 0
           ["disk"; "full"]).
  reflexivity.
Defined.

(** X2.  The index [BM25.__init__] builds: [N] is the number of documents,
    [doc_len] their lengths, and the document frequency of a term is the
    number of documents it occurs in, however often it is repeated in one
    of them; a term of no document has frequency 0. *)
Theorem bm25_df_counts_documents :
  forall (docs : list (list string)) (k b : R) (t : string),
    let bm := BM25_init docs k b in
    N bm = length docs
    /\ doc_len bm = map (@length string) docs
    /\ Counter.get (df bm) t = length (filter (mem t) docs)
    /\ ((forall d, In d docs -> ~ In t d) -> Counter.get (df bm) t = 0%nat).
Proof.
  intros docs k b t bm. split; [reflexivity | split; [reflexivity |]].
  assert (Hdf : Counter.get (df bm) t = length (filter (mem t) docs)).
  { cbn [bm df BM25_init]. rewrite df_fold_count. reflexivity. }
  split; [exact Hdf |].
  intros Hnone. rewrite Hdf.
  replace (filter (mem t) docs) with (@nil (list string)); [reflexivity |].
  symmetry. clear Hdf. induction docs as [| d docs IH]; [reflexivity |].
  simpl. destruct (mem t d) eqn:E.
  - apply mem_In in E. exfalso. apply (Hnone d); [now left | exact E].
  - apply IH. intros d' Hd'. apply Hnone. now right.
Qed.

End BM25_more.
Section Tokenizer_more.

Lemma all_chars_app (p : ascii -> bool) (a b : string) :
  all_chars p (a ++ b)%string = all_chars p a && all_chars p b.
Proof. induction a as [| c a IH]; simpl; [reflexivity | now rewrite IH, andb_assoc]. Qed.

Lemma all_chars_smap (p : ascii -> bool) (f : ascii -> ascii) (s : string) :
  (forall c, p (f c) = true) -> all_chars p (smap f s) = true.
Proof. intros Hf. induction s as [| c s IH]; simpl; [reflexivity | now rewrite Hf, IH]. Qed.

Lemma all_chars_weaken (p q : ascii -> bool) (s : string) :
  (forall c, p c = true -> q c = true) -> all_chars p s = true -> all_chars q s = true.
Proof.
  intros Hpq. induction s as [| c s IH]; simpl; [reflexivity |].
  intros H. apply andb_true_iff in H as [Hc Hs]. now rewrite (Hpq c Hc), IH.
Qed.

Lemma match_len_chr (p : ascii -> bool) (prev : option ascii) (c : ascii) (s : string) :
  match_len (Chr p) prev (String c s) = if p c then Some 1 else None.
Proof.
  unfold match_len. cbn [rmatch]. destruct (p c); [| reflexivity].
  f_equal. cbn [String.length]. lia.
Qed.

(** Replacing the characters of a class by one character is a map over the
    characters. *)
Lemma sub_chr (p : ascii -> bool) (r : ascii) (s : string) :
  Re.sub (Chr p) (String r EmptyString) s = smap (fun c => if p c then r else c) s.
Proof.
  unfold Re.sub, sub_with. generalize (@None ascii).
  induction s as [| c s IH]; intros prev; [reflexivity |].
  cbn [sub_go smap]. rewrite match_len_chr. destruct (p c).
  - cbn [append]. now rewrite IH.
  - now rewrite IH.
Qed.

Lemma to_lower_idem (c : ascii) : to_lower (to_lower c) = to_lower c.
Proof.
  destruct c as [[] [] [] [] [] [] [] []]; reflexivity.
Qed.

Lemma to_lower_not_upper (c : ascii) : is_upper (to_lower c) = false.
Proof.
  destruct c as [[] [] [] [] [] [] [] []]; reflexivity.
Qed.

Lemma lower_idem (s : string) : lower (lower s) = lower s.
Proof.
  unfold lower. induction s as [| c s IH]; simpl; [reflexivity |].
  now rewrite to_lower_idem, IH.
Qed.

Lemma all_chars_snoc (p : ascii -> bool) (s : string) (c : ascii) :
  all_chars p (snoc s c) = all_chars p s && p c.
Proof. unfold snoc. rewrite all_chars_app. simpl. now rewrite andb_true_r. Qed.

(** The words [str.split] returns hold no white space, and no character
    that is not in the string. *)
Lemma split_go_chars (p : ascii -> bool) (cur s : string) :
  all_chars (fun c => p c && negb (is_space c)) cur = true ->
  all_chars p s = true ->
  Forall (fun w => all_chars (fun c => p c && negb (is_space c)) w = true)
         (Py.split_go cur s).
Proof.
  revert cur. induction s as [| c s IH]; intros cur Hcur Hs; cbn [Py.split_go].
  - unfold flush. destruct (is_empty cur); constructor; [exact Hcur | constructor].
  - simpl in Hs. apply andb_true_iff in Hs as [Hc Hs].
    destruct (is_space c) eqn:Hsp.
    + apply Forall_app. split.
      * unfold flush. destruct (is_empty cur); constructor; [exact Hcur | constructor].
      * apply IH; [reflexivity | exact Hs].
    + apply IH; [| exact Hs]. rewrite all_chars_snoc, Hcur, Hc, Hsp. reflexivity.
Qed.

Lemma token_char_of_kept (c : ascii) :
  (negb (is_upper c) && negb (not_word_space_hyphen c)) && negb (is_space c) = true ->
  token_char c = true.
Proof.
  destruct c as [[] [] [] [] [] [] [] []]; vm_compute; intros H; congruence.
Qed.

Lemma sub_keeps_case (c : ascii) :
  negb (is_upper (to_lower c)) = true ->
  negb (is_upper (if not_word_space_hyphen (to_lower c) then " "%char else to_lower c))
  && negb (not_word_space_hyphen
             (if not_word_space_hyphen (to_lower c) then " "%char else to_lower c)) = true.
Proof.
  destruct c as [[] [] [] [] [] [] [] []]; vm_compute; intros H; congruence.
Qed.

(** X3.  [tokenize] does not depend on the case of its input: two strings
    that differ only in case have the same tokens.  On ASCII text a token
    holds only lower-case letters, digits, underscores and hyphens: no
    white space, no capital and no other punctuation. *)
Theorem tokenize_case_blind_and_clean :
  forall s : string,
    (forall s', lower s' = lower s -> tokenize s' = tokenize s)
    /\ tokenize (lower s) = tokenize s
    /\ (all_chars is_ascii s = true ->
        Forall (fun w => all_chars token_char w = true) (tokenize s)).
Proof.
  intros s. split; [| split].
  - intros s' Heq. unfold tokenize. cbv zeta. now rewrite Heq.
  - unfold tokenize. cbv zeta. now rewrite lower_idem.
  - intros _. unfold tokenize. cbv zeta.
    apply Forall_forall. intros w Hw. apply filter_In in Hw as [Hw _].
    rewrite sub_chr in Hw. unfold Py.split in Hw.
    pose proof (split_go_chars
                  (fun c => negb (is_upper c) && negb (not_word_space_hyphen c))
                  EmptyString
                  (smap (fun c => if not_word_space_hyphen c then " "%char else c) (lower s))
                  eq_refl) as Hall.
    rewrite Forall_forall in Hall.
    eapply all_chars_weaken; [apply token_char_of_kept |].
    apply Hall; [| exact Hw].
    unfold lower. clear. induction s as [| c s IH]; [reflexivity |].
    cbn [smap all_chars]. rewrite IH, andb_true_r.
    apply sub_keeps_case. now rewrite to_lower_not_upper.
Qed.

Lemma tokenize_case_blind_and_clean_witness :
  all_chars is_ascii "Disk-FULL on /dev/sda_1: retry!" = true
  /\ tokenize "Disk-FULL on /dev/sda_1: retry!" = ["disk-full"; "dev"; "sda_1"; "retry"]
  /\ Forall (fun w => all_chars token_char w = true)
            (tokenize "Disk-FULL on /dev/sda_1: retry!").
Proof.
  split; [reflexivity |]. split; [vm_compute; reflexivity |].
  apply (tokenize_case_blind_and_clean "Disk-FULL on /dev/sda_1: retry!"). reflexivity.
Defined.

End Tokenizer_more.
Section Sections_more.

Lemma drop_while_empty (p : ascii -> bool) (s : string) :
  is_empty (drop_while p s) = all_chars p s.
Proof.
  induction s as [| c s IH]; simpl; [reflexivity |].
  destruct (p c); simpl; [exact IH | reflexivity].
Qed.

Lemma drop_while_end_empty (p : ascii -> bool) (s : string) :
  is_empty (drop_while_end p s) = all_chars p s.
Proof.
  induction s as [| c s IH]; simpl; [reflexivity |].
  rewrite IH. destruct (all_chars p s), (p c); reflexivity.
Qed.

Lemma drop_while_end_all (p : ascii -> bool) (s : string) :
  all_chars p (drop_while_end p s) = all_chars p s.
Proof.
  induction s as [| c s IH]; simpl; [reflexivity |].
  rewrite drop_while_end_empty.
  destruct (all_chars p s) eqn:Hs, (p c) eqn:Hc; simpl; rewrite ?Hc, ?IH; reflexivity.
Qed.

(** A string has a non-blank character exactly when its [strip] is not
    empty. *)
Lemma truthy_strip (s : string) : truthy (strip s) = negb (all_chars is_space s).
Proof.
  unfold truthy, strip, lstrip, rstrip.
  now rewrite drop_while_empty, drop_while_end_all.
Qed.

Lemma all_chars_join_false (p : ascii -> bool) (sep : string) (xs : list string) (x : string) :
  In x xs -> all_chars p x = false -> all_chars p (join sep xs) = false.
Proof.
  induction xs as [| y xs IH]; [intros [] |].
  intros Hin Hx. destruct xs as [| z xs].
  - destruct Hin as [-> | []]. exact Hx.
  - change (join sep (y :: z :: xs)) with (y ++ sep ++ join sep (z :: xs))%string.
    rewrite !all_chars_app. destruct Hin as [-> | Hin].
    + now rewrite Hx.
    + rewrite (IH Hin Hx). now rewrite !andb_false_r.
Qed.

Lemma chunk_section_ok (chunk : list string) (p : string) (start : nat) :
  In p chunk -> truthy (strip p) = true ->
  section_ok (strip (join (NL ++ NL) chunk), start,
              start + String.length (strip (join (NL ++ NL) chunk))).
Proof.
  intros Hin Hp. unfold section_ok. cbn [fst snd]. split; [apply strip_idem | split].
  - rewrite truthy_strip in *. apply negb_true_iff in Hp. apply negb_true_iff.
    now apply all_chars_join_false with p.
  - reflexivity.
Qed.

Lemma sectionize_fold_ok (paras : list string)
    (st : list (string * nat * nat) * nat * list string * nat) :
  Forall (fun p => truthy (strip p) = true) paras ->
  Forall section_ok (fst (fst (fst st))) ->
  Forall (fun p => truthy (strip p) = true) (snd (fst st)) ->
  let st' := fold_left sectionize_step paras st in
  Forall section_ok (fst (fst (fst st')))
  /\ Forall (fun p => truthy (strip p) = true) (snd (fst st'))
  /\ (paras <> [] -> snd (fst st') <> [])
  /\ (snd (fst st) <> [] -> snd (fst st') <> [])
  /\ length (fst (fst (fst st'))) + length (snd (fst st'))
     <= length (fst (fst (fst st))) + length (snd (fst st)) + length paras.
Proof.
  revert st. induction paras as [| p paras IH]; intros st Hparas Hsecs Hchunk.
  - cbn [fold_left]. split; [assumption | split; [assumption | split; [congruence | split]]];
      [tauto | simpl; lia].
  - inversion Hparas as [| ? ? Hp Hrest]; subst.
    destruct st as [[[sections offset] chunk] start]. cbn [fst snd] in *.
    cbn [fold_left].
    set (st1 := sectionize_step (sections, offset, chunk, start) p).
    assert (H1 : Forall section_ok (fst (fst (fst st1)))
                 /\ Forall (fun p => truthy (strip p) = true) (snd (fst st1))
                 /\ snd (fst st1) <> []
                 /\ length (fst (fst (fst st1))) + length (snd (fst st1))
                    <= length sections + length chunk + 1).
    { unfold st1, sectionize_step.
      destruct (matches HEADING_PAT (strip p)); destruct chunk as [| c chunk];
        cbn [andb negb fst snd].
      - repeat split; [assumption | now repeat constructor | discriminate | simpl; lia].
      - repeat split.
        + apply Forall_app. split; [assumption |]. constructor; [| constructor].
          inversion Hchunk; subst.
          apply chunk_section_ok with c; [now left | assumption].
        + now repeat constructor.
        + discriminate.
        + rewrite length_app. simpl. lia.
      - repeat split; [assumption | now repeat constructor | discriminate | simpl; lia].
      - repeat split; [assumption | | | ].
        + apply Forall_app. split; [assumption | now repeat constructor].
        + discriminate.
        + rewrite length_app. simpl. lia. }
    destruct H1 as [Ha [Hb [Hc Hd]]].
    destruct (IH st1 Hrest Ha Hb) as [Ia [Ib [_ [Ie If]]]].
    repeat split; try assumption.
    + intros _. now apply Ie.
    + intros _. now apply Ie.
    + cbn [length]. lia.
Qed.

(** X4.  [sectionize] returns sections that are stripped and not empty,
    each with [end = start + len(text)]; it returns no section exactly when
    the text has no paragraph with a non-blank character, and never more
    sections than such paragraphs. *)
Theorem sectionize_sections_stripped_nonempty :
  forall text : string,
    let paras := filter (fun p => truthy (strip p)) (split_blank text) in
    Forall section_ok (sectionize text)
    /\ length (sectionize text) <= length paras
    /\ (sectionize text = [] <-> (text = EmptyString \/ paras = [])).
Proof.
  intros text paras. unfold sectionize.
  destruct text as [| c0 text0].
  - cbn [is_empty].
    split; [constructor | split; [simpl; lia | split; [intros _; now left | reflexivity]]].
  - cbn [is_empty]. fold paras.
    assert (Hparas : Forall (fun p => truthy (strip p) = true) paras).
    { apply Forall_forall. intros p Hp. apply filter_In in Hp. tauto. }
    pose proof (sectionize_fold_ok paras ([], 0, [], 0) Hparas (Forall_nil _) (Forall_nil _))
      as Hfold.
    cbv zeta in Hfold.
    destruct (fold_left sectionize_step paras ([], 0, [], 0)) as [[[sections offset] chunk] start].
    cbn [fst snd length] in Hfold. destruct Hfold as [Hsecs [Hchunk [Hne [_ Hlen]]]].
    destruct chunk as [| p chunk].
    + split; [exact Hsecs | split; [simpl in Hlen; lia |]].
      split.
      * intros _. right. destruct paras; [reflexivity |].
        exfalso. apply Hne; [discriminate | reflexivity].
      * intros [Hempty | Hnil]; [discriminate |].
        rewrite Hnil in Hlen. simpl in Hlen. destruct sections; [reflexivity | simpl in Hlen; lia].
    + split; [| split].
      * apply Forall_app. split; [exact Hsecs |]. constructor; [| constructor].
        inversion Hchunk; subst.
        apply (chunk_section_ok (p :: chunk) p); [now left | assumption].
      * rewrite length_app. simpl in *. lia.
      * split.
        -- intros Habs. destruct sections; discriminate.
        -- intros [Hempty | Hnil]; [discriminate |].
           rewrite Hnil in Hlen. simpl in Hlen. lia.
Qed.

End Sections_more.
Section Preload_more.

Lemma page_sections_nonempty (p : Page) : page_sections p <> [].
Proof.
  unfold page_sections. destruct (sectionize (page_text p)); discriminate.
Qed.

Lemma page_sections_shape (p : Page) (sec : Section_) :
  In sec (page_sections p) ->
  sec_title sec = page_title p /\ sec_url sec = page_url p
  /\ sec_tokens sec = tokenize (sec_text sec).
Proof.
  unfold page_sections. intros Hin. apply in_map_iff in Hin as [s [<- _]].
  repeat split.
Qed.

Lemma flat_map_length_ge {A B : Type} (f : A -> list B) (xs : list A) :
  (forall x, In x xs -> f x <> []) -> length xs <= length (flat_map f xs).
Proof.
  induction xs as [| x xs IH]; intros Hne; simpl; [lia |].
  rewrite length_app.
  assert (1 <= length (f x)).
  { destruct (f x) eqn:E; [exfalso; apply (Hne x); [now left | exact E] | simpl; lia]. }
  specialize (IH (fun y Hy => Hne y (or_intror Hy))). lia.
Qed.

(** X5.  What [preload_knowledge] builds from the pages of a crawl: every
    page gives at least one section, also a page without text; the token
    lists and the BM25 corpora are aligned with the sections and the rows,
    index by index; an index exists exactly when its collection is not
    empty; and every section and row carries the title and the URL of one of
    the pages. *)
Theorem preload_knowledge_aligned :
  forall pages : list Page,
    let kb := preload_knowledge pages in
    length pages <= length (KB_SECTIONS kb)
    /\ (forall i sec, nth_error (KB_SECTIONS kb) i = Some sec ->
          nth_error (KB_SECTION_TOKENS kb) i = Some (tokenize (sec_text sec)))
    /\ (forall i it, nth_error (KB_ROWS kb) i = Some it ->
          nth_error (ROW_TOKENS kb) i = Some (row_tokens (item_row it)))
    /\ (SECTION_BM25 kb = None <-> pages = [])
    /\ (ROW_BM25 kb = None <-> KB_ROWS kb = [])
    /\ (forall bm, SECTION_BM25 kb = Some bm ->
          docs_tokens bm = KB_SECTION_TOKENS kb /\ N bm = length (KB_SECTIONS kb))
    /\ (forall bm, ROW_BM25 kb = Some bm ->
          docs_tokens bm = ROW_TOKENS kb /\ N bm = length (KB_ROWS kb))
    /\ (forall sec, In sec (KB_SECTIONS kb) ->
          exists p, In p pages /\ sec_title sec = page_title p /\ sec_url sec = page_url p)
    /\ (forall it, In it (KB_ROWS kb) ->
          exists p, In p pages /\ item_title it = page_title p /\ item_url it = page_url p
                    /\ In (item_row it) (extract_table_rows_from_html (page_html p))).
Proof.
  intros pages kb.
  assert (Hsecs : forall sec, In sec (KB_SECTIONS kb) ->
            exists p, In p pages /\ In sec (page_sections p)).
  { intros sec Hin. cbn [kb KB_SECTIONS preload_knowledge] in Hin.
    apply in_flat_map in Hin. exact Hin. }
  split; [| split; [| split; [| split; [| split; [| split; [| split; [| split]]]]]]].
  - cbn [kb KB_SECTIONS preload_knowledge].
    apply flat_map_length_ge. intros p _. apply page_sections_nonempty.
  - intros i sec Hi. cbn [kb KB_SECTION_TOKENS preload_knowledge].
    rewrite nth_error_map. cbn [kb KB_SECTIONS preload_knowledge] in Hi. rewrite Hi.
    cbn [option_map]. f_equal.
    apply nth_error_In in Hi. apply in_flat_map in Hi as [p [_ Hp]].
    now apply page_sections_shape in Hp.
  - intros i it Hi. cbn [kb ROW_TOKENS preload_knowledge].
    rewrite nth_error_map. cbn [kb KB_ROWS preload_knowledge] in Hi. now rewrite Hi.
  - cbn [kb SECTION_BM25 preload_knowledge]. split.
    + intros Hnone. destruct pages as [| p pages]; [reflexivity |].
      exfalso. cbn [flat_map] in Hnone.
      pose proof (page_sections_nonempty p) as Hp.
      destruct (page_sections p); [now apply Hp | discriminate].
    + intros ->. reflexivity.
  - cbn [kb ROW_BM25 KB_ROWS preload_knowledge].
    destruct (flat_map page_rows pages); split; try reflexivity; discriminate.
  - intros bm Hbm. cbn [kb SECTION_BM25 KB_SECTION_TOKENS KB_SECTIONS preload_knowledge] in *.
    destruct (flat_map page_sections pages) eqn:E; [discriminate |].
    injection Hbm as <-. cbn [docs_tokens N BM25_new BM25_init].
    split; [reflexivity | simpl; now rewrite length_map].
  - intros bm Hbm. cbn [kb ROW_BM25 ROW_TOKENS KB_ROWS preload_knowledge] in *.
    destruct (flat_map page_rows pages) eqn:E; [discriminate |].
    injection Hbm as <-. cbn [docs_tokens N BM25_new BM25_init].
    split; [reflexivity | simpl; now rewrite length_map].
  - intros sec Hin. destruct (Hsecs sec Hin) as [p [Hp Hsec]].
    exists p. apply page_sections_shape in Hsec. tauto.
  - intros it Hin. cbn [kb KB_ROWS preload_knowledge] in Hin.
    apply in_flat_map in Hin as [p [Hp Hit]]. exists p.
    unfold page_rows in Hit. apply in_map_iff in Hit as [r [<- Hr]].
    cbn [item_title item_url item_row]. tauto.
Qed.

End Preload_more.
Section Table_more.

Lemma dict_get_set (d : Dict.t) (k v k' default : string) :
  Dict.get (Dict.set d k v) k' default
  = if String.eqb k' k then v else Dict.get d k' default.
Proof.
  induction d as [| [k0 v0] d IH]; simpl.
  - reflexivity.
  - destruct (String.eqb k k0) eqn:Hk; simpl.
    + apply String.eqb_eq in Hk. subst k0.
      destruct (String.eqb k' k); reflexivity.
    + destruct (String.eqb k' k0) eqn:Hk0.
      * apply String.eqb_eq in Hk0. subst k0.
        rewrite String.eqb_sym in Hk. now rewrite Hk.
      * apply IH.
Qed.

(** In a [dict] built from pairs, a key holds the value of the last pair
    that has it. *)
Lemma dict_get_of_pairs (kvs : list (string * string)) (k default : string) :
  Dict.get (Dict.of_pairs kvs) k default
  = match List.find (fun kv => String.eqb k (fst kv)) (rev kvs) with
    | Some kv => snd kv
    | None => default
    end.
Proof.
  unfold Dict.of_pairs.
  induction kvs as [| kv kvs IH] using rev_ind; [reflexivity |].
  rewrite fold_left_app, rev_app_distr. cbn [fold_left rev app List.find].
  rewrite dict_get_set. destruct (String.eqb k (fst kv)); [reflexivity | exact IH].
Qed.

Lemma table_row_fields (headers : list string) (tr : node) (row : Row) :
  table_row headers tr = Some row ->
  error row = strip (Dict.get (raw row) "error" "")
  /\ cause row = strip (Dict.get (raw row) "cause" "")
  /\ remedy row = strip (Dict.get (raw row) "remedy" "")
  /\ suggestions row = strip (Dict.get (raw row) "suggestions" "")
  /\ 3 <= String.length (error row)
  /\ text row = join " " (filter truthy [error row; cause row; remedy row; suggestions row]).
Proof.
  unfold table_row. destruct (Soup.find_all ["td"] tr) as [| td tds]; [discriminate |].
  cbv zeta. destruct (3 <=? _) eqn:Hlen; [| discriminate].
  intros Heq. injection Heq as <-. cbn [error cause remedy suggestions raw text].
  apply Nat.leb_le in Hlen. tauto.
Qed.

Lemma prefix_refl (s : string) : String.prefix s s = true.
Proof. rewrite <- (sapp_nil_r s) at 2. apply prefix_app. Qed.

Lemma text_starts_with_error (e c r s : string) :
  truthy e = true -> String.prefix e (join " " (filter truthy [e; c; r; s])) = true.
Proof.
  intros He.
  change (filter truthy [e; c; r; s])
    with (if truthy e then e :: filter truthy [c; r; s] else filter truthy [c; r; s]).
  rewrite He. destruct (filter truthy [c; r; s]) as [| x xs].
  - apply prefix_refl.
  - change (join " " (e :: x :: xs)) with (e ++ " " ++ join " " (x :: xs))%string.
    apply prefix_app.
Qed.

(** X6.  Every row [extract_table_rows_from_html] returns has an error text
    of at least three characters; its four fields are the stripped values of
    the cells the row keeps under [raw], its [text] is the non-empty fields
    joined by blanks, and so begins with the error text. *)
Theorem extracted_rows_are_normalized :
  forall (soup : node) (row : Row),
    In row (extract_table_rows_from_html soup) ->
    3 <= String.length (error row)
    /\ error row = strip (Dict.get (raw row) "error" "")
    /\ cause row = strip (Dict.get (raw row) "cause" "")
    /\ remedy row = strip (Dict.get (raw row) "remedy" "")
    /\ suggestions row = strip (Dict.get (raw row) "suggestions" "")
    /\ strip (error row) = error row
    /\ text row = join " " (filter truthy [error row; cause row; remedy row; suggestions row])
    /\ String.prefix (error row) (text row) = true.
Proof.
  intros soup row Hin. unfold extract_table_rows_from_html in Hin.
  apply in_flat_map in Hin as [table [_ Hin]].
  unfold filter_some in Hin. apply in_flat_map in Hin as [o [Ho Hin]].
  apply in_map_iff in Ho as [tr [Htr _]].
  destruct o as [row' |]; [| destruct Hin].
  destruct Hin as [-> | []].
  destruct (table_row_fields _ _ _ Htr) as [He [Hc [Hr [Hs [Hlen Htext]]]]].
  repeat split; try assumption.
  - rewrite He. apply strip_idem.
  - rewrite Htext. apply text_starts_with_error.
    destruct (error row); [simpl in Hlen; lia | reflexivity].
Qed.

Lemma extracted_rows_are_normalized_witness :
  3 <= String.length (error (row_of_texts ("Disk full", "Quota reached", "Free some space")))
  /\ String.prefix (error (row_of_texts ("Disk full", "Quota reached", "Free some space")))
                   (text (row_of_texts ("Disk full", "Quota reached", "Free some space")))
     = true.
Proof.
  destruct (extracted_rows_are_normalized
              (document [catalog_table th_header
                           [("Disk full", "Quota reached", "Free some space")]])
              (row_of_texts ("Disk full", "Quota reached", "Free some space")))
    as [Hlen [_ [_ [_ [_ [_ [_ Hprefix]]]]]]].
  - vm_compute. now left.
  - split; [exact Hlen | exact Hprefix].
Defined.

End Table_more.
Section Table_columns.

Lemma find_app_split {A : Type} (p : A -> bool) (l1 l2 : list A) :
  List.find p (l1 ++ l2)
  = match List.find p l1 with Some x => Some x | None => List.find p l2 end.
Proof.
  induction l1 as [| a l1 IH]; simpl; [reflexivity |].
  destruct (p a); [reflexivity | exact IH].
Qed.

(** The first hit in the reversed list is the last hit in the list. *)
Lemma find_rev_last {A : Type} (p : A -> bool) (l : list A) (x : A) :
  List.find p (rev l) = Some x ->
  exists i, nth_error l i = Some x /\ p x = true
            /\ forall j y, i < j -> nth_error l j = Some y -> p y = false.
Proof.
  induction l as [| a l IH]; simpl; [discriminate |].
  rewrite find_app_split. destruct (List.find p (rev l)) as [x' |] eqn:E.
  - intros Heq. injection Heq as ->. destruct (IH eq_refl) as [i [Hi [Hp Hlast]]].
    exists (S i). split; [exact Hi | split; [exact Hp |]].
    intros j y Hj Hy. destruct j as [| j]; [lia |]. apply (Hlast j y); [lia | exact Hy].
  - simpl. destruct (p a) eqn:Hp; [| discriminate].
    intros Heq. injection Heq as ->. exists 0. split; [reflexivity | split; [exact Hp |]].
    intros j y Hj Hy. destruct j as [| j]; [lia |]. simpl in Hy.
    destruct (p y) eqn:Hpy; [| reflexivity].
    exfalso. apply nth_error_In in Hy. apply in_rev in Hy.
    pose proof (find_none _ _ E y Hy) as Hnone. congruence.
Qed.

Lemma find_rev_none {A : Type} (p : A -> bool) (l : list A) :
  (forall x, In x l -> p x = false) -> List.find p (rev l) = None.
Proof.
  intros Hall. destruct (List.find p (rev l)) as [x |] eqn:E; [| reflexivity].
  apply find_some in E as [Hin Hp]. apply in_rev in Hin. rewrite (Hall x Hin) in Hp.
  discriminate.
Qed.

Lemma enumerate_from_nth_error {A : Type} (k : nat) (xs : list A) (i : nat) :
  nth_error (enumerate_from k xs) i = option_map (fun x => (k + i, x)) (nth_error xs i).
Proof.
  revert k i. induction xs as [| x xs IH]; intros k i.
  - destruct i; reflexivity.
  - destruct i as [| i]; simpl.
    + now rewrite Nat.add_0_r.
    + rewrite IH. now rewrite Nat.add_succ_r.
Qed.

Lemma col_key_not_error (i : nat) : ("col" ++ str_of_nat i)%string <> "error".
Proof. simpl. discriminate. Qed.

Lemma strip_empty_short : String.length (strip EmptyString) < 3.
Proof. simpl. lia. Qed.

Lemma table_row_raw (headers : list string) (tr : node) (row : Row) :
  table_row headers tr = Some row -> raw row = Dict.of_pairs (cell_pairs headers tr).
Proof.
  unfold table_row, cell_pairs. destruct (Soup.find_all ["td"] tr); [discriminate |].
  cbv zeta. destruct (3 <=? _); [| discriminate].
  intros Heq. injection Heq as <-. reflexivity.
Qed.

Lemma table_row_short (headers : list string) (tr : node) :
  String.length (strip (Dict.get (Dict.of_pairs (cell_pairs headers tr)) "error" "")) < 3 ->
  table_row headers tr = None.
Proof.
  unfold table_row, cell_pairs. destruct (Soup.find_all ["td"] tr); [reflexivity |].
  cbv zeta. intros Hlen. apply Nat.leb_gt in Hlen.
  unfold cell_key in Hlen. now rewrite Hlen.
Qed.

(** X7.  The column a row's error text is read from.  The cells of a row
    are keyed by the header of their column, or by [col<i>] past the last
    header; when several columns have the header [error], the last of them
    gives the error text; and a row none of whose cells is in a column
    headed [error] is dropped. *)
Theorem table_row_reads_last_error_column :
  forall (headers : list string) (tr : node),
    let tds := Soup.find_all ["td"] tr in
    let key := fun i => nth i headers ("col" ++ str_of_nat i)%string in
    (forall row, table_row headers tr = Some row ->
       exists i td,
         nth_error tds i = Some td
         /\ key i = "error"
         /\ error row = _clean_cell_text td
         /\ (forall j, i < j < length tds -> key j <> "error"))
    /\ ((forall i, i < length tds -> key i <> "error") -> table_row headers tr = None)
    /\ (~ In "error" headers -> table_row headers tr = None).
Proof.
  intros headers tr tds key.
  assert (Hnth : forall i, nth_error (cell_pairs headers tr) i
                           = option_map (fun td => (key i, _clean_cell_text td))
                                        (nth_error tds i)).
  { intros i. unfold cell_pairs, enumerate. rewrite nth_error_map, enumerate_from_nth_error.
    fold tds. destruct (nth_error tds i); reflexivity. }
  assert (Hnone : (forall i, i < length tds -> key i <> "error") ->
                  table_row headers tr = None).
  { intros Hkeys. apply table_row_short.
    rewrite dict_get_of_pairs, find_rev_none; [apply strip_empty_short |].
    intros [k v] Hin. apply In_nth_error in Hin as [i Hi]. rewrite Hnth in Hi.
    destruct (nth_error tds i) as [td |] eqn:Htd; [| discriminate].
    injection Hi as <- <-. cbn [fst]. apply String.eqb_neq. intros Heq.
    apply (Hkeys i); [| now symmetry].
    apply nth_error_Some. congruence. }
  split; [| split; [exact Hnone |]].
  - intros row Hrow. pose proof Hrow as Hfields.
    apply table_row_fields in Hfields as [He [_ [_ [_ [Hlen _]]]]].
    rewrite (table_row_raw _ _ _ Hrow), dict_get_of_pairs in He.
    destruct (List.find (fun kv => String.eqb "error" (fst kv)) (rev (cell_pairs headers tr)))
      as [[k v] |] eqn:E.
    + apply find_rev_last in E as [i [Hi [Hk Hlast]]]. cbn [fst snd] in *.
      rewrite Hnth in Hi. destruct (nth_error tds i) as [td |] eqn:Htd; [| discriminate].
      injection Hi as <- <-. exists i, td.
      split; [exact Htd | split; [| split]].
      * apply String.eqb_eq in Hk. now symmetry.
      * rewrite He. unfold _clean_cell_text. apply strip_idem.
      * intros j [Hij Hj] Hkey.
        destruct (nth_error tds j) as [tdj |] eqn:Htdj.
        -- specialize (Hlast j (key j, _clean_cell_text tdj) Hij).
           rewrite Hnth, Htdj in Hlast. specialize (Hlast eq_refl). cbn [fst] in Hlast.
           rewrite Hkey in Hlast. discriminate.
        -- apply nth_error_None in Htdj. lia.
    + rewrite He in Hlen. pose proof strip_empty_short. lia.
  - intros Hno. apply Hnone. intros i _ Hkey. unfold key in Hkey.
    destruct (Nat.lt_ge_cases i (length headers)) as [Hlt | Hge].
    + apply Hno. rewrite <- Hkey. now apply nth_In.
    + rewrite nth_overflow in Hkey by exact Hge. now apply col_key_not_error in Hkey.
Qed.

(** A row under the headers error, cause, error: the third cell gives the
    error text. *)
Lemma table_row_reads_last_error_column_witness :
  exists row,
    table_row ["error"; "cause"; "error"] (data_row "Disk full" "Quota" "Device busy") = Some row
    /\ error row = "Device busy".
Proof.
  destruct (table_row_reads_last_error_column ["error"; "cause"; "error"]
              (data_row "Disk full" "Quota" "Device busy")) as [Hlast _].
  eexists. split; [reflexivity |].
  destruct (Hlast _ eq_refl) as [i [td [Htd [_ [Herr Hnone]]]]].
  destruct i as [| [| [| i]]]; simpl in Htd.
  - exfalso. apply (Hnone 2); [simpl; lia | reflexivity].
  - exfalso. apply (Hnone 2); [simpl; lia | reflexivity].
  - reflexivity.
  - destruct i; discriminate.
Defined.

End Table_columns.
Section Header_names.

Lemma to_lower_space (c : ascii) : is_space (to_lower c) = is_space c.
Proof. destruct c as [[] [] [] [] [] [] [] []]; reflexivity. Qed.

Lemma drop_while_lower (s : string) :
  drop_while is_space (lower s) = lower (drop_while is_space s).
Proof.
  unfold lower. induction s as [| c s IH]; simpl; [reflexivity |].
  rewrite to_lower_space. destruct (is_space c); [exact IH | reflexivity].
Qed.

Lemma is_empty_smap (f : ascii -> ascii) (s : string) : is_empty (smap f s) = is_empty s.
Proof. destruct s; reflexivity. Qed.

Lemma drop_while_end_lower (s : string) :
  drop_while_end is_space (lower s) = lower (drop_while_end is_space s).
Proof.
  unfold lower. induction s as [| c s IH]; simpl; [reflexivity |].
  rewrite IH, is_empty_smap, to_lower_space.
  destruct (is_empty (drop_while_end is_space s) && is_space c); reflexivity.
Qed.

(** [s.lower().strip()] is [s.strip().lower()]. *)
Lemma strip_lower (s : string) : strip (lower s) = lower (strip s).
Proof.
  unfold strip, lstrip, rstrip. now rewrite drop_while_end_lower, drop_while_lower.
Qed.

Lemma lower_strip_idem (s : string) : lower (strip (lower (strip s))) = lower (strip s).
Proof. now rewrite strip_lower, strip_idem, lower_idem. Qed.

Lemma header_alias_keys (h : string) (key : string) (aliases : list string) :
  List.find (fun ka => mem h (snd ka)) HEADER_ALIASES = Some (key, aliases) ->
  In key ["error"; "cause"; "remedy"; "suggestions"].
Proof.
  intros Hfind. apply find_some in Hfind as [Hin _].
  unfold HEADER_ALIASES in Hin. simpl in Hin.
  destruct Hin as [H | [H | [H | [H | []]]]]; injection H as <- _; simpl; tauto.
Qed.

(** X8.  [_normalize_header] never returns the empty string, does not
    depend on the case of the header nor on the blanks around it, maps each
    alias of [HEADER_ALIASES] to the key it is listed under, and returns its
    own results unchanged. *)
Theorem normalize_header_canonical :
  forall h : string,
    _normalize_header h <> EmptyString
    /\ _normalize_header (lower (strip h)) = _normalize_header h
    /\ _normalize_header (_normalize_header h) = _normalize_header h
    /\ (forall key aliases a,
          In (key, aliases) HEADER_ALIASES -> In a aliases -> _normalize_header a = key).
Proof.
  intros h.
  assert (Hcanon : forall k, In k ["error"; "cause"; "remedy"; "suggestions"; "col"] ->
                             _normalize_header k = k).
  { intros k Hk. simpl in Hk.
    destruct Hk as [<- | [<- | [<- | [<- | [<- | []]]]]]; reflexivity. }
  split; [| split; [| split]].
  - unfold _normalize_header. cbv zeta.
    destruct (List.find _ HEADER_ALIASES) as [[key aliases] |] eqn:Hfind.
    + apply header_alias_keys in Hfind. simpl in Hfind.
      destruct Hfind as [<- | [<- | [<- | [<- | []]]]]; discriminate.
    + repeat (match goal with |- context [if ?b then _ else _] => destruct b eqn:? end;
              try discriminate).
      destruct (lower (strip h)); [discriminate | discriminate].
  - unfold _normalize_header. cbv zeta. now rewrite lower_strip_idem.
  - unfold _normalize_header at 2 3. cbv zeta.
    destruct (List.find _ HEADER_ALIASES) as [[key aliases] |] eqn:Hfind.
    + apply header_alias_keys in Hfind. apply Hcanon. simpl in *. tauto.
    + destruct (contains "error" _ || contains "message" _ || contains "problem" _) eqn:H1;
        [apply Hcanon; simpl; tauto |].
      destruct (contains "cause" _) eqn:H2; [apply Hcanon; simpl; tauto |].
      destruct (contains "remedy" _ || contains "solution" _ || contains "fix" _
                || contains "resolution" _) eqn:H3; [apply Hcanon; simpl; tauto |].
      destruct (contains "suggest" _ || contains "note" _ || contains "tip" _) eqn:H4;
        [apply Hcanon; simpl; tauto |].
      destruct (truthy (lower (strip h))) eqn:H5; [| apply Hcanon; simpl; tauto].
      unfold _normalize_header. cbv zeta.
      rewrite lower_strip_idem, Hfind, H1, H2, H3, H4, H5. reflexivity.
  - intros key aliases a Hka Ha. unfold HEADER_ALIASES in Hka. simpl in Hka.
    destruct Hka as [H | [H | [H | [H | []]]]]; injection H as <- <-; simpl in Ha;
      repeat (destruct Ha as [<- | Ha]; [reflexivity |]); destruct Ha.
Qed.

End Header_names.
Section Query_spans.

Lemma prefix_split (p s : string) : String.prefix p s = true -> exists b, s = (p ++ b)%string.
Proof.
  revert s. induction p as [| c p IH]; intros s H.
  - exists s. reflexivity.
  - destruct s as [| d s]; [discriminate |]. simpl in H.
    destruct (ascii_dec c d) as [-> | Hne]; [| discriminate].
    destruct (IH s H) as [b ->]. exists b. reflexivity.
Qed.

(** [p in s] holds exactly when [s] is some text, [p], and some text. *)
Lemma contains_iff (p s : string) :
  contains p s = true <-> exists a b, s = (a ++ p ++ b)%string.
Proof.
  split.
  - induction s as [| c s IH]; cbn [contains]; intros H.
    + rewrite orb_false_r in H. apply prefix_split in H as [b Hb]. now exists EmptyString, b.
    + apply orb_true_iff in H as [H | H].
      * apply prefix_split in H as [b Hb]. now exists EmptyString, b.
      * destruct (IH H) as [a [b ->]]. now exists (String c a), b.
  - intros [a [b ->]]. apply contains_app.
Qed.

Lemma contains_trans (a b c : string) :
  contains a b = true -> contains b c = true -> contains a c = true.
Proof.
  rewrite !contains_iff. intros [x [y ->]] [u [v ->]].
  exists (u ++ x)%string, (y ++ v)%string. now rewrite !sapp_assoc.
Qed.

Lemma take_split (n : nat) (s : string) : exists b, s = (substring 0 n s ++ b)%string.
Proof.
  revert n. induction s as [| d s IH]; intros n.
  - exists EmptyString. destruct n; reflexivity.
  - destruct n as [| n]; simpl; [now exists (String d s) |].
    destruct (IH n) as [b Hb]. exists b. now rewrite <- Hb.
Qed.

Lemma substring_split (i n : nat) (s : string) :
  exists a b, s = (a ++ substring i n s ++ b)%string.
Proof.
  revert i. induction s as [| c s IH]; intros i.
  - exists EmptyString, EmptyString. destruct i, n; reflexivity.
  - destruct i as [| i].
    + destruct (take_split n (String c s)) as [b Hb]. now exists EmptyString, b.
    + simpl. destruct (IH i) as [a [b Hab]]. exists (String c a), b. simpl. now rewrite <- Hab.
Qed.

Lemma contains_substring (i n : nat) (s : string) : contains (substring i n s) s = true.
Proof. apply contains_iff. apply substring_split. Qed.

Lemma contains_strip (s : string) : contains (strip s) s = true.
Proof. apply contains_iff. apply strip_substring. Qed.

(** The matches [re.findall] returns are pieces of the subject. *)
Lemma findall_go_contains (r : regex) (skip : nat) (prev : option ascii) (s m : string) :
  In m (findall_go r skip prev s) -> contains m s = true.
Proof.
  revert skip prev. induction s as [| c s IH]; intros skip prev; cbn [findall_go].
  - intros [].
  - assert (Hrest : forall k p, In m (findall_go r k p s) -> contains m (String c s) = true).
    { intros k p Hin. cbn [contains]. rewrite (IH k p Hin). apply orb_true_r. }
    destruct skip as [| n]; [| apply Hrest].
    destruct (match_len r prev (String c s)) as [[| n] |]; try apply Hrest.
    intros [<- | Hin]; [apply contains_substring | now apply Hrest with n (Some c)].
Qed.

(** A greedy repetition with a lower bound consumes at least that many
    characters before the rest of the pattern is tried. *)
Lemma rep_go_min {A : Type} (p : ascii -> bool) (lo : nat) (hi : option nat) (n : nat)
    (prev : option ascii) (s : string) (k : option ascii -> string -> option A) (x : A) :
  rep_go p lo hi n prev s k = Some x ->
  exists prev' s', k prev' s' = Some x /\ String.length s' + (lo - n) <= String.length s.
Proof.
  revert n prev. induction s as [| c s IH]; intros n prev; cbn [rep_go].
  - destruct (lo <=? n) eqn:Hlo; [| discriminate]. apply Nat.leb_le in Hlo.
    intros Hk. exists prev, EmptyString. split; [exact Hk | simpl; lia].
  - assert (Hstop : (if lo <=? n then k prev (String c s) else None) = Some x ->
                    exists prev' s', k prev' s' = Some x
                                     /\ String.length s' + (lo - n) <= String.length (String c s)).
    { destruct (lo <=? n) eqn:Hlo; [| discriminate]. apply Nat.leb_le in Hlo.
      intros Hk. exists prev, (String c s). split; [exact Hk | lia]. }
    destruct (p c && below n hi); [| exact Hstop].
    destruct (rep_go p lo hi (S n) (Some c) s k) as [y |] eqn:Hrec; [| exact Hstop].
    intros Heq. injection Heq as ->.
    destruct (IH _ _ Hrec) as [prev' [s' [Hk Hlen]]].
    exists prev', s'. split; [exact Hk |]. simpl. lia.
Qed.

Lemma codey_match_long (prev : option ascii) (s : string) (n : nat) :
  match_len CODEY_PAT prev s = Some n -> 3 <= n.
Proof.
  unfold match_len, CODEY_PAT. cbn [seqs rmatch at_least].
  destruct (at_wordb prev s); [| discriminate].
  destruct (rep_go _ 3 None 0 prev s _) as [rest |] eqn:Hrep; [| discriminate].
  intros Heq. injection Heq as <-.
  apply rep_go_min in Hrep as [prev' [s' [Hk Hlen]]].
  destruct (at_wordb prev' s'); [| discriminate]. injection Hk as ->. lia.
Qed.

Lemma take_length (n : nat) (s : string) :
  n <= String.length s -> String.length (take n s) = n.
Proof.
  unfold take. revert n. induction s as [| c s IH]; intros n Hn.
  - simpl in Hn. replace n with 0 by lia. reflexivity.
  - destruct n as [| n]; [reflexivity |]. simpl. rewrite IH; [reflexivity | simpl in Hn; lia].
Qed.

Lemma match_len_le (r : regex) (prev : option ascii) (s : string) (n : nat) :
  match_len r prev s = Some n -> n <= String.length s.
Proof.
  unfold match_len. destruct (rmatch r prev s _) as [rest |]; [| discriminate].
  intros Heq. injection Heq as <-. apply Nat.le_sub_l.
Qed.

Lemma findall_go_codey_long (skip : nat) (prev : option ascii) (s m : string) :
  In m (findall_go CODEY_PAT skip prev s) -> 3 <= String.length m.
Proof.
  revert skip prev. induction s as [| c s IH]; intros skip prev; cbn [findall_go].
  - intros [].
  - destruct skip as [| k]; [| apply IH].
    destruct (match_len CODEY_PAT prev (String c s)) as [[| n] |] eqn:Hm; try apply IH.
    intros [<- | Hin]; [| now apply IH in Hin].
    pose proof (codey_match_long _ _ _ Hm) as Hlong.
    rewrite take_length; [exact Hlong | now apply match_len_le with CODEY_PAT prev].
Qed.

Lemma dedupe_spec (seen xs : list string) :
  NoDup (dedupe seen xs)
  /\ (forall x, In x (dedupe seen xs) <-> In x xs /\ ~ In x seen).
Proof.
  revert seen. induction xs as [| x xs IH]; intros seen; cbn [dedupe].
  - split; [constructor | intros y; simpl; tauto].
  - destruct (mem x seen) eqn:Hmem.
    + apply mem_In in Hmem. destruct (IH seen) as [Hnd Hin]. split; [exact Hnd |].
      intros y. rewrite Hin. simpl. split; [tauto |].
      intros [[-> | Hy] Hns]; [contradiction | tauto].
    + assert (Hns : ~ In x seen) by (intros H; apply mem_In in H; congruence).
      destruct (IH (x :: seen)) as [Hnd Hin]. split.
      * constructor; [| exact Hnd]. rewrite Hin. simpl. tauto.
      * intros y. simpl. rewrite Hin. simpl. split.
        -- intros [<- | [Hy Hn]]; tauto.
        -- intros [[<- | Hy] Hn]; [now left |].
           destruct (string_dec x y) as [-> | Hne]; [now left | right; tauto].
Qed.

(** X9.  [_extract_query_spans] returns no span twice; every span has at
    least three characters and occurs verbatim in the query. *)
Theorem query_spans_distinct_long_verbatim :
  forall q : string,
    NoDup (_extract_query_spans q)
    /\ Forall (fun s => 3 <= String.length s /\ contains s q = true) (_extract_query_spans q).
Proof.
  intros q. unfold _extract_query_spans. cbv zeta. split; [apply dedupe_spec |].
  apply Forall_forall. intros s Hs. apply dedupe_spec in Hs as [Hs _].
  apply in_app_or in Hs as [Hs | Hs].
  - apply in_map_iff in Hs as [m [<- Hm]]. apply filter_In in Hm as [Hm Hlen].
    apply Nat.leb_le in Hlen. split; [exact Hlen |].
    apply in_map_iff in Hm as [m0 [<- Hm0]].
    apply findall_go_contains in Hm0.
    eapply contains_trans; [apply contains_strip |].
    eapply contains_trans; [apply contains_substring | exact Hm0].
  - apply filter_In in Hs as [Hs _]. split.
    + now apply findall_go_codey_long in Hs.
    + now apply findall_go_contains in Hs.
Qed.

End Query_spans.
Section Section_sources.

Context {F : Fuzz} {L : Llm}.
Variable cfg : Config.

Local Open Scope R_scope.

Lemma add_source_fold (top : list Section_) (seen : list string) (sources : list Source) :
  (forall s, In s sources -> In (src_title s) seen) ->
  NoDup (map src_title sources) ->
  (Z.of_nat (length sources) <= Z.max 0 (MAX_SOURCES_PER_ANSWER cfg))%Z ->
  let st := fold_left (add_source cfg) top (seen, sources) in
  NoDup (map src_title (snd st))
  /\ (Z.of_nat (length (snd st)) <= Z.max 0 (MAX_SOURCES_PER_ANSWER cfg))%Z
  /\ (forall s, In s (snd st) ->
        In s sources
        \/ exists sec, In sec top /\ s = {| src_title := sec_title sec; src_url := sec_url sec |}).
Proof.
  revert seen sources. induction top as [| sec top IH]; intros seen sources Hseen Hnd Hlen.
  - cbn [fold_left snd]. split; [exact Hnd | split; [exact Hlen | tauto]].
  - cbn [fold_left].
    assert (Hstep : add_source cfg (seen, sources) sec
                    = if negb (mem (sec_title sec) seen)
                         && (Z.of_nat (length sources) <? MAX_SOURCES_PER_ANSWER cfg)%Z
                      then (sec_title sec :: seen,
                            sources ++ [{| src_title := sec_title sec; src_url := sec_url sec |}])
                      else (seen, sources)) by reflexivity.
    rewrite Hstep. clear Hstep.
    destruct (negb (mem (sec_title sec) seen)
              && (Z.of_nat (length sources) <? MAX_SOURCES_PER_ANSWER cfg)%Z) eqn:Hadd.
    + apply andb_true_iff in Hadd as [Hnew Hroom].
      apply negb_true_iff in Hnew. apply Z.ltb_lt in Hroom.
      assert (Hnotin : ~ In (sec_title sec) seen).
      { intros Hin. apply mem_In in Hin. congruence. }
      set (src := {| src_title := sec_title sec; src_url := sec_url sec |}).
      assert (H1 : forall s, In s (sources ++ [src]) -> In (src_title s) (sec_title sec :: seen)).
      { intros s Hs. apply in_app_or in Hs as [Hs | [<- | []]];
          [right; now apply Hseen | now left]. }
      assert (H2 : NoDup (map src_title (sources ++ [src]))).
      { rewrite map_app. cbn [map src_title src].
        apply NoDup_app; [exact Hnd | repeat constructor; intros [] |].
        intros t Ht [<- | []]. apply in_map_iff in Ht as [s [Hs Hin]].
        apply Hnotin. rewrite <- Hs. now apply Hseen. }
      assert (H3 : (Z.of_nat (length (sources ++ [src]))
                    <= Z.max 0 (MAX_SOURCES_PER_ANSWER cfg))%Z).
      { rewrite length_app. cbn [length]. lia. }
      destruct (IH _ _ H1 H2 H3) as [Ha [Hb Hc]].
      split; [exact Ha | split; [exact Hb |]].
      intros s Hs. destruct (Hc s Hs) as [Hin | [sec' [Hsec' ->]]].
      * apply in_app_or in Hin as [Hin | [<- | []]]; [now left |].
        right. exists sec. split; [now left | reflexivity].
      * right. exists sec'. split; [now right | reflexivity].
    + destruct (IH seen sources Hseen Hnd Hlen) as [Ha [Hb Hc]].
      split; [exact Ha | split; [exact Hb |]].
      intros s Hs. destruct (Hc s Hs) as [Hin | [sec' [Hsec' ->]]]; [now left |].
      right. exists sec'. split; [now right | reflexivity].
Qed.

Lemma all_some_length {A : Type} (xs : list (option A)) (ys : list A) :
  all_some xs = Some ys -> length ys = length xs.
Proof.
  revert ys. induction xs as [| [x |] xs IH]; intros ys; simpl.
  - intros H. now injection H as <-.
  - destruct (all_some xs) as [zs |]; [| discriminate].
    intros H. injection H as <-. simpl. now rewrite (IH zs eq_refl).
  - discriminate.
Qed.

Lemma all_some_in {A B : Type} (f : A -> option B) (xs : list A) (ys : list B) (y : B) :
  all_some (map f xs) = Some ys -> In y ys -> exists x, In x xs /\ f x = Some y.
Proof.
  revert ys. induction xs as [| x xs IH]; intros ys; simpl.
  - intros H. injection H as <-. intros [].
  - destruct (f x) as [z |] eqn:Hz; [| discriminate].
    destruct (all_some (map f xs)) as [zs |]; [| discriminate].
    intros H. injection H as <-. intros [<- | Hin].
    + exists x. split; [now left | exact Hz].
    + destruct (IH zs eq_refl Hin) as [x' [Hx' Hf]]. exists x'. split; [now right | exact Hf].
Qed.

Lemma enumerate_from_length {A : Type} (k : nat) (xs : list A) :
  length (enumerate_from k xs) = length xs.
Proof. revert k. induction xs as [| x xs IH]; intros k; simpl; [reflexivity | now rewrite IH]. Qed.

Lemma slice_to_In {A : Type} (n : Z) (xs : list A) (x : A) : In x (slice_to n xs) -> In x xs.
Proof. unfold slice_to. destruct (n <? 0)%Z; apply In_firstn. Qed.

(** The sources of the section ranker on a built knowledge base. *)
Lemma top_chunks_sources (pages : list Page) (q : string) (chunks : list string)
    (sources : list Source) :
  top_chunks cfg (preload_knowledge pages) q = Some (chunks, sources) ->
  NoDup (map src_title sources)
  /\ (Z.of_nat (length sources) <= Z.max 0 (MAX_SOURCES_PER_ANSWER cfg))%Z
  /\ (forall s, In s sources ->
        exists p, In p pages /\ s = {| src_title := page_title p; src_url := page_url p |}).
Proof.
  unfold top_chunks. cbv zeta.
  destruct (all_some _) as [scored |] eqn:Hscored; [| discriminate].
  assert (Hsecs : forall sc sec, In (sc, sec) (sort_desc fst scored) ->
                                 In sec (KB_SECTIONS (preload_knowledge pages))).
  { intros sc sec Hin.
    apply (Permutation_in _ (sort_desc_perm _ fst scored)) in Hin.
    destruct (all_some_in _ _ _ _ Hscored Hin) as [[i sec'] [Hi Hf]].
    cbn [fst snd] in Hf. destruct (section_score _ _ _ _ _ _); [| discriminate].
    injection Hf as _ <-. apply enumerate_nth in Hi. now apply nth_error_In in Hi. }
  assert (Hlen : length (sort_desc fst scored)
                 = length (KB_SECTIONS (preload_knowledge pages))).
  { rewrite (Permutation_length (sort_desc_perm _ fst scored)).
    rewrite (all_some_length _ _ Hscored), length_map. apply enumerate_from_length. }
  destruct (sort_desc fst scored) as [| s0 rest] eqn:Hsorted.
  - destruct (KB_PAGES (preload_knowledge pages)) as [| p0 ps] eqn:Hpages.
    + intros Heq. injection Heq as <- <-.
      replace (slice_to (MAX_SECTIONS cfg) (@nil (R * Section_))) with (@nil (R * Section_))
        by (unfold slice_to; destruct (_ <? _)%Z; now rewrite firstn_nil).
      cbn [fold_left snd map length].
      split; [constructor | split; [lia | intros s []]].
    + exfalso. cbn [KB_PAGES preload_knowledge] in Hpages. subst pages.
      cbn [length] in Hlen. symmetry in Hlen. apply length_zero_iff in Hlen.
      cbn [KB_SECTIONS preload_knowledge flat_map] in Hlen.
      apply app_eq_nil in Hlen as [Hnil _]. now apply page_sections_nonempty in Hnil.
  - intros Heq. injection Heq as _ <-.
    assert (H1 : forall s : Source, In s [] -> In (src_title s) []) by (intros s []).
    assert (H3 : (Z.of_nat (@length Source []) <= Z.max 0 (MAX_SOURCES_PER_ANSWER cfg))%Z)
      by (simpl; lia).
    destruct (add_source_fold (map snd (slice_to (MAX_SECTIONS cfg) (s0 :: rest))) [] []
                H1 (NoDup_nil _) H3) as [Ha [Hb Hc]].
    split; [exact Ha | split; [exact Hb |]].
    intros s Hs. destruct (Hc s Hs) as [[] | [sec [Hsec ->]]].
    apply in_map_iff in Hsec as [[sc sec'] [<- Hin]]. cbn [snd].
    apply slice_to_In in Hin. apply Hsecs in Hin.
    cbn [KB_SECTIONS preload_knowledge] in Hin. apply in_flat_map in Hin as [p [Hp Hin]].
    apply page_sections_shape in Hin as [-> [-> _]]. now exists p.
Qed.

(** X10.  The sources [answer_sections] cites, on a knowledge base that
    [preload_knowledge] built: never more than [MAX_SOURCES_PER_ANSWER] (none
    when that is zero or negative), never two with the same title, and each
    is the title and the URL of a page of the knowledge base.  The same
    holds for app.py. *)
Theorem answer_sections_sources_bounded :
  forall (pages : list Page) (q ans : string) (sources : list Source),
    answer_sections cfg (preload_knowledge pages) q = Some (ans, sources)
    \/ app_answer_sections cfg (preload_knowledge pages) q = Some (ans, sources) ->
    NoDup (map src_title sources)
    /\ (Z.of_nat (length sources) <= Z.max 0 (MAX_SOURCES_PER_ANSWER cfg))%Z
    /\ (forall s, In s sources ->
          exists p, In p pages /\ s = {| src_title := page_title p; src_url := page_url p |}).
Proof.
  intros pages q ans sources [Hans | Hans].
  - unfold answer_sections in Hans.
    destruct (top_chunks cfg (preload_knowledge pages) q) as [[chunks srcs] |] eqn:Htop;
      [| discriminate].
    cbv zeta in Hans.
    destruct (truthy (synthesize_from_chunks cfg q chunks)); injection Hans as _ <-;
      exact (top_chunks_sources pages q chunks srcs Htop).
  - unfold app_answer_sections in Hans.
    destruct (top_chunks cfg (preload_knowledge pages) q) as [[chunks srcs] |] eqn:Htop;
      [| discriminate].
    cbv zeta in Hans.
    destruct (truthy (app_synthesize_from_chunks cfg q chunks)); injection Hans as _ <-;
      exact (top_chunks_sources pages q chunks srcs Htop).
Qed.

End Section_sources.

Section Section_sources_examples.

(** The section ranker on the catalog page of the scenario cites that page
    once. *)
Lemma answer_sections_sources_bounded_witness :
  NoDup (map src_title [{| src_title := "Error Catalog"; src_url := "https://wiki.example/errors" |}])
  /\ (Z.of_nat (length [{| src_title := "Error Catalog";
                          src_url := "https://wiki.example/errors" |}])
      <= Z.max 0 (MAX_SOURCES_PER_ANSWER default_config))%Z
  /\ (forall s,
        In s [{| src_title := "Error Catalog"; src_url := "https://wiki.example/errors" |}] ->
        exists p, In p [page_ora]
                  /\ s = {| src_title := page_title p; src_url := page_url p |}).
Proof.
  apply (@answer_sections_sources_bounded exact_fuzz silent_llm default_config [page_ora] q_ora
           (join NL ["Resolution for: Error Catalog"; "Do this:"])).
  left. vm_compute. reflexivity.
Defined.

End Section_sources_examples.
Section Scorer_versions.

Context {F : Fuzz}.
Variable cfg : Config.

Local Open Scope R_scope.

Lemma clamp01_shift (x d : R) : 0 <= d -> clamp01 x - d <= clamp01 (x - d).
Proof.
  intros Hd. unfold clamp01, Rmax, Rmin.
  destruct (Rle_dec 1 x), (Rle_dec 1 (x - d));
    repeat (match goal with |- context [Rle_dec ?a ?b] => destruct (Rle_dec a b) end); lra.
Qed.

Lemma app_score_closed_form (row : Row) (query page_title : string) :
  app_score_row_against_query cfg row query page_title
  = clamp01 (Rmax (hard_match cfg (strip query) (lower (strip query)) (error row) (text row))
                  (fuzzy_base (lower (strip query)) (error row) (text row))
             + spec_remedy_bias row + spec_page_bias cfg page_title
             + spec_ui_bias row (lower (strip query))).
Proof.
  unfold app_score_row_against_query, spec_remedy_bias, spec_page_bias, spec_ui_bias, clamp01.
  cbv zeta. replace 0.0 with 0 by lra. replace 1.0 with 1 by lra. f_equal. f_equal.
  destruct (truthy (remedy row)); cbn [andb];
    [destruct (120 <? String.length (remedy row))%nat |];
    destruct (truthy page_title && _);
    destruct (found UI_VISIBILITY_RE _ && _); lra.
Qed.

(** X11.  The scorers of the two files, on the same row, query and page
    title: the score of kb.py is the score of app.py computed from a sum
    that has the span and title-similarity terms added and the generic-title
    penalty subtracted.  So it is never lower than the score of app.py when
    the title holds no generic word, and never more than 0.10 lower
    otherwise. *)
Theorem kb_score_against_app_score :
  forall (row : Row) (query page_title : string),
    app_score_row_against_query cfg row query page_title - 0.10
      <= score_row_against_query cfg row query page_title
    /\ (any_in GENERIC_WORDS (lower page_title) = false ->
        app_score_row_against_query cfg row query page_title
          <= score_row_against_query cfg row query page_title).
Proof.
  intros row query page_title.
  rewrite score_row_is_spec, app_score_closed_form. unfold spec_row_score. cbv zeta.
  set (m := Rmax _ _).
  assert (Hspan : 0 <= spec_span_bias row (strip query)).
  { unfold spec_span_bias. pose proof (pos_INR (length (filter (spec_span_hit row)
                                         (_extract_query_spans (strip query))))). lra. }
  assert (Htitle : 0 <= spec_title_bias (lower (strip query)) page_title).
  { unfold spec_title_bias.
    pose proof (partial_ratio_range (lower (strip query)) (lower page_title)).
    destruct (truthy page_title); lra. }
  pose proof (generic_penalty_range page_title) as Hpen.
  unfold spec_bias_terms. cbv zeta.
  set (a := m + spec_remedy_bias row + spec_page_bias cfg page_title
            + spec_ui_bias row (lower (strip query))).
  split.
  - eapply Rle_trans; [apply (clamp01_shift a 0.10); lra |].
    apply clamp01_mono. unfold a. lra.
  - intros Hgen. apply clamp01_mono. unfold a, _title_generic_penalty in *.
    rewrite Hgen in *. lra.
Qed.

End Scorer_versions.

Section Formatter_calls.

Context {F : Fuzz}.
Variable cfg : Config.

Local Open Scope R_scope.

Lemma answer_sections_llm_off (L1 L2 : Llm) (kb : KB) (q : string) :
  llm_enabled cfg = false ->
  @answer_sections F L1 cfg kb q = @answer_sections F L2 cfg kb q.
Proof.
  intros Hoff. unfold answer_sections, synthesize_from_chunks. rewrite Hoff. reflexivity.
Qed.

Lemma row_answer_llm_off (L1 L2 : Llm) (row : Row) (q : string) :
  llm_enabled cfg = false ->
  @row_answer L1 cfg row q = @row_answer L2 cfg row q.
Proof.
  intros Hoff. unfold row_answer, synthesize_from_row. rewrite Hoff. reflexivity.
Qed.

(** X12.  When the formatter is called.  With the LLM switched off
    ([USE_LLM] false or no API key) the answer of [answer_from_kb] is the
    same whatever the endpoint would reply; and in strict mode a row whose
    score reaches the floor and whose remedy is not blank is answered by
    [format_row_better] alone, whatever the endpoint would reply. *)
Theorem answer_without_formatter :
  forall (L1 L2 : Llm) (kb : KB) (query : string),
    (llm_enabled cfg = false ->
     @answer_from_kb F L1 cfg kb query = @answer_from_kb F L2 cfg kb query)
    /\ (forall sc i item rest,
          STRICT_REMEDY_ONLY cfg = true ->
          get_row_candidates cfg kb (strip (Re.sub (Chr query_noise) " " query)) 12
            = Some ((sc, i, item) :: rest) ->
          ROW_SCORE_MIN cfg <= sc ->
          truthy (strip (remedy (item_row item))) = true ->
          @answer_from_kb F L1 cfg kb query
          = Some (true, post_process_answer cfg (format_row_better cfg (item_row item)),
                  [{| src_title := item_title item; src_url := item_url item |}])).
Proof.
  intros L1 L2 kb query. split.
  - intros Hoff. unfold answer_from_kb, sections_fallback. cbv zeta.
    destruct (get_row_candidates cfg kb _ 12) as [[| [[sc0 i0] item0] rest] |];
      [| | reflexivity].
    + rewrite (answer_sections_llm_off L1 L2 kb _ Hoff). reflexivity.
    + rewrite (row_answer_llm_off L1 L2 _ _ Hoff).
      rewrite (answer_sections_llm_off L1 L2 kb _ Hoff). reflexivity.
  - intros sc i item rest Hstrict Hget Hfloor Hremedy.
    unfold answer_from_kb. cbv zeta. rewrite Hget.
    destruct (Rle_dec (ROW_SCORE_MIN cfg) sc) as [_ | Hn]; [| contradiction].
    unfold row_answer. rewrite Hstrict, Hremedy. reflexivity.
Qed.

End Formatter_calls.

Section Formatter_calls_examples.
Local Open Scope R_scope.

(** The scenario of the specification with an endpoint that would reply. *)
Lemma answer_without_formatter_witness :
  @answer_from_kb exact_fuzz chatty_llm default_config (preload_knowledge [page_ora]) query_ora
  = Some (true,
          post_process_answer default_config
            (format_row_better default_config (item_row item_ora)),
          [{| src_title := "Error Catalog"; src_url := "https://wiki.example/errors" |}]).
Proof.
  destruct (scenario_candidates exact_fuzz default_config page_ora eq_refl eq_refl eq_refl)
    as [sc [Hcands [Hfloor _]]]; [vm_compute; reflexivity |].
  destruct (@answer_without_formatter exact_fuzz default_config chatty_llm silent_llm
              (preload_knowledge [page_ora]) query_ora) as [_ Hstrict].
  apply (Hstrict sc 0%nat item_ora []); [reflexivity | | exact Hfloor | reflexivity].
  replace (strip (Re.sub (Chr query_noise) " " query_ora)) with q_ora
    by (vm_compute; reflexivity).
  exact Hcands.
Defined.

End Formatter_calls_examples.
Section Store_facts.

Lemma users_get_set_same (store : Store) (uid : string) (chats : list Chat) :
  users_get (users_set store uid chats) uid = Some chats.
Proof.
  induction store as [| [u old] store IH]; simpl.
  - now rewrite String.eqb_refl.
  - destruct (String.eqb uid u) eqn:E; simpl; rewrite E; [reflexivity | exact IH].
Qed.

Lemma users_get_set_diff (store : Store) (uid uid' : string) (chats : list Chat) :
  uid' <> uid -> users_get (users_set store uid chats) uid' = users_get store uid'.
Proof.
  intros Hne. induction store as [| [u old] store IH]; simpl.
  - apply String.eqb_neq in Hne. now rewrite Hne.
  - destruct (String.eqb uid u) eqn:E; simpl.
    + apply String.eqb_eq in E. subst u.
      apply String.eqb_neq in Hne. now rewrite Hne.
    + destruct (String.eqb uid' u); [reflexivity | exact IH].
Qed.

Lemma users_get_app_new (store : Store) (uid uid' : string) :
  users_get store uid = None ->
  users_get (store ++ [(uid, [])]) uid'
  = if String.eqb uid' uid then Some [] else users_get store uid'.
Proof.
  intros Hnone. induction store as [| [u old] store IH]; simpl in *.
  - reflexivity.
  - destruct (String.eqb uid u) eqn:E; [discriminate |].
    destruct (String.eqb uid' u) eqn:E'.
    + destruct (String.eqb uid' uid) eqn:E''; [| reflexivity].
      apply String.eqb_eq in E', E''. subst. rewrite String.eqb_refl in E. discriminate.
    + now apply IH.
Qed.

(** [_get_user_bucket] returns the bucket the store holds afterwards, and
    changes the bucket of no other user. *)
Lemma get_user_bucket_spec (store : Store) (uid : string) :
  users_get (fst (_get_user_bucket store uid)) uid = Some (snd (_get_user_bucket store uid))
  /\ snd (_get_user_bucket store uid)
     = match users_get store uid with Some chats => chats | None => [] end
  /\ (forall uid', uid' <> uid ->
        users_get (fst (_get_user_bucket store uid)) uid' = users_get store uid').
Proof.
  unfold _get_user_bucket. destruct (users_get store uid) as [chats |] eqn:E; cbn [fst snd].
  - split; [exact E | split; [reflexivity |]]. reflexivity.
  - split; [| split; [reflexivity |]].
    + rewrite (users_get_app_new _ _ _ E), String.eqb_refl. reflexivity.
    + intros uid' Hne. rewrite (users_get_app_new _ _ _ E).
      apply String.eqb_neq in Hne. now rewrite Hne.
Qed.

Lemma find_update_chat (cid : string) (f : Chat -> Chat) (chats : list Chat) (c : Chat) :
  (forall c, chat_id (f c) = chat_id c) ->
  List.find (has_id cid) chats = Some c ->
  List.find (has_id cid) (update_chat cid f chats) = Some (f c).
Proof.
  intros Hid. induction chats as [| c0 chats IH]; simpl; [discriminate |].
  destruct (has_id cid c0) eqn:E.
  - intros Heq. injection Heq as ->. simpl. unfold has_id in *. now rewrite Hid, E.
  - intros Hfind. simpl. rewrite E. now apply IH.
Qed.

Lemma find_update_chat_other (cid cid' : string) (f : Chat -> Chat) (chats : list Chat) :
  (forall c, chat_id (f c) = chat_id c) ->
  cid' <> cid ->
  List.find (has_id cid') (update_chat cid f chats) = List.find (has_id cid') chats.
Proof.
  intros Hid Hne. induction chats as [| c0 chats IH]; simpl; [reflexivity |].
  destruct (has_id cid c0) eqn:E; simpl.
  - unfold has_id in *. rewrite Hid. apply String.eqb_eq in E.
    replace (String.eqb (chat_id c0) cid') with false; [reflexivity |].
    symmetry. apply String.eqb_neq. congruence.
  - destruct (has_id cid' c0); [reflexivity | exact IH].
Qed.

Lemma update_chat_length (cid : string) (f : Chat -> Chat) (chats : list Chat) :
  length (update_chat cid f chats) = length chats.
Proof.
  induction chats as [| c chats IH]; simpl; [reflexivity |].
  destruct (has_id cid c); simpl; [reflexivity | now rewrite IH].
Qed.

Lemma last_n_length {A : Type} (n : nat) (xs : list A) :
  length (last_n n xs) = Nat.min n (length xs).
Proof. unfold last_n. rewrite length_skipn. lia. Qed.

Lemma last_n_last {A : Type} (n : nat) (xs : list A) (x d : A) :
  0 < n -> last (last_n n (xs ++ [x])) d = x.
Proof.
  intros Hn. unfold last_n. rewrite length_app. cbn [length].
  replace (length xs + 1 - n) with (length xs - (n - 1)) by lia.
  rewrite skipn_app.
  replace (length xs - (n - 1) - length xs) with 0 by lia. cbn [skipn].
  apply last_last.
Qed.

Lemma append_message_spec (role text : string) (sources : option (list Source)) (c : Chat) :
  let m := {| msg_role := role; msg_text := text; msg_sources := sources_or_nil sources |} in
  let c' := append_message role text sources c in
  chat_messages c' = last_n MAX_HISTORY_MSGS (chat_messages c ++ [m])
  /\ length (chat_messages c') <= MAX_HISTORY_MSGS
  /\ last (chat_messages c') m = m
  /\ chat_id c' = chat_id c /\ chat_title c' = chat_title c
  /\ chat_created c' = chat_created c /\ chat_memory c' = chat_memory c.
Proof.
  intros m c'. unfold c', append_message. cbv zeta. fold m.
  cbn [chat_messages chat_id chat_title chat_created chat_memory with_messages].
  assert (Hmsgs : (if MAX_HISTORY_MSGS <? length (chat_messages c ++ [m])
                   then last_n MAX_HISTORY_MSGS (chat_messages c ++ [m])
                   else chat_messages c ++ [m])
                  = last_n MAX_HISTORY_MSGS (chat_messages c ++ [m])).
  { destruct (MAX_HISTORY_MSGS <? length (chat_messages c ++ [m])) eqn:E; [reflexivity |].
    apply Nat.ltb_ge in E. unfold last_n.
    replace (length (chat_messages c ++ [m]) - MAX_HISTORY_MSGS) with 0 by lia.
    reflexivity. }
  rewrite Hmsgs. repeat split.
  - rewrite last_n_length. lia.
  - apply last_n_last. unfold MAX_HISTORY_MSGS. lia.
Qed.

End Store_facts.
Section Store_operations.

Lemma find_chat_via_get (store : Store) (uid cid : string) :
  snd (_find_chat store uid cid)
  = match users_get store uid with
    | Some chats => List.find (has_id cid) chats
    | None => None
    end.
Proof.
  unfold _find_chat, _get_user_bucket.
  destruct (users_get store uid); reflexivity.
Qed.

Lemma append_message_id (role text : string) (sources : option (list Source)) (c : Chat) :
  chat_id (append_message role text sources c) = chat_id c.
Proof. reflexivity. Qed.

(** X13.  [_append_msg] on a chat the user has: the store is saved, the
    chat holds the last [MAX_HISTORY_MSGS] messages of its history with the
    new message last, so never more than 240, its title and memory are as
    before, and the other chats of the user are as before.  On a chat the
    user does not have nothing is saved and no chat changes. *)
Theorem append_msg_keeps_history_bounded :
  forall (store disk : Store) (uid cid role text : string) (sources : option (list Source)),
    let r := _append_msg store disk uid cid role text sources in
    let m := {| msg_role := role; msg_text := text; msg_sources := sources_or_nil sources |} in
    match snd (_find_chat store uid cid) with
    | Some chat =>
        snd r = fst r
        /\ (exists chat',
              snd (_find_chat (fst r) uid cid) = Some chat'
              /\ chat_messages chat' = last_n MAX_HISTORY_MSGS (chat_messages chat ++ [m])
              /\ length (chat_messages chat') <= 240
              /\ last (chat_messages chat') m = m
              /\ chat_title chat' = chat_title chat
              /\ chat_memory chat' = chat_memory chat)
        /\ (forall cid', cid' <> cid ->
              snd (_find_chat (fst r) uid cid') = snd (_find_chat store uid cid'))
    | None =>
        snd r = disk
        /\ (forall u cid', snd (_find_chat (fst r) u cid') = snd (_find_chat store u cid'))
    end.
Proof.
  intros store disk uid cid role text sources r m.
  rewrite find_chat_via_get.
  destruct (get_user_bucket_spec store uid) as [Hget [Hsnd Hother]].
  unfold r, _append_msg.
  destruct (_get_user_bucket store uid) as [store1 chats] eqn:Hb. cbn [fst snd] in *.
  destruct (users_get store uid) as [chats0 |] eqn:Hu.
  - subst chats0.
    destruct (List.find (has_id cid) chats) as [chat |] eqn:Hfind; cbn [fst snd].
    + split; [reflexivity | split].
      * exists (append_message role text sources chat).
        rewrite find_chat_via_get, users_get_set_same.
        rewrite (find_update_chat cid _ chats chat (append_message_id role text sources) Hfind).
        pose proof (append_message_spec role text sources chat) as Hspec.
        cbv zeta in Hspec. fold m in Hspec. unfold MAX_HISTORY_MSGS in Hspec at 2.
        split; [reflexivity | tauto].
      * intros cid' Hne. rewrite !find_chat_via_get, users_get_set_same.
        rewrite (find_update_chat_other cid cid' _ chats (append_message_id role text sources) Hne).
        unfold _get_user_bucket in Hb. rewrite Hu in Hb. injection Hb as <-.
        now rewrite Hu.
    + split; [reflexivity |]. intros u cid'.
      unfold _get_user_bucket in Hb. rewrite Hu in Hb. injection Hb as <-. reflexivity.
  - subst chats. cbn [List.find fst snd]. split; [reflexivity |].
    intros u cid'. rewrite !find_chat_via_get.
    destruct (string_dec u uid) as [-> | Hne].
    + rewrite Hget, Hu. reflexivity.
    + now rewrite (Hother u Hne).
Qed.

Lemma get_user_bucket_other (store : Store) (uid uid' : string) :
  uid' <> uid -> users_get (fst (_get_user_bucket store uid)) uid' = users_get store uid'.
Proof. intros Hne. now apply get_user_bucket_spec. Qed.

Lemma set_after_bucket_other (store : Store) (uid uid' : string) (chats : list Chat) :
  uid' <> uid ->
  users_get (users_set (fst (_get_user_bucket store uid)) uid chats) uid' = users_get store uid'.
Proof.
  intros Hne. rewrite users_get_set_diff by exact Hne. now apply get_user_bucket_other.
Qed.

Lemma create_chat_other (store disk : Store) (uid uid' hex now : string) :
  uid' <> uid ->
  users_get (fst (fst (_create_chat store disk uid hex now))) uid' = users_get store uid'.
Proof.
  intros Hne. unfold _create_chat.
  pose proof (set_after_bucket_other store uid uid' (new_chat_of hex now ::
                snd (_get_user_bucket store uid)) Hne) as H.
  destruct (_get_user_bucket store uid) as [store1 chats]. exact H.
Qed.

(** X14.  Per-user isolation of the store.  [_find_chat] returns only a
    chat of the bucket of the user it is called for, also when another user
    has a chat with the same id; and no operation called for one user
    ([_append_msg], [_set_title_if_new], [_create_chat], the handler
    [delete_chat]) changes the chats of another user. *)
Theorem store_operations_keep_users_apart :
  forall (store disk : Store) (uid uid' cid : string),
    (forall c, snd (_find_chat store uid cid) = Some c ->
       exists chats, users_get store uid = Some chats /\ In c chats /\ chat_id c = cid)
    /\ (uid' <> uid ->
        (forall role text sources,
           users_get (fst (_append_msg store disk uid cid role text sources)) uid'
           = users_get store uid')
        /\ (forall first_text,
              users_get (fst (_set_title_if_new store disk uid cid first_text)) uid'
              = users_get store uid')
        /\ (forall hex now,
              users_get (fst (fst (_create_chat store disk uid hex now))) uid'
              = users_get store uid')
        /\ (forall hex now,
              users_get (fst (fst (delete_chat store disk uid cid hex now))) uid'
              = users_get store uid')).
Proof.
  intros store disk uid uid' cid. split.
  - intros c Hc. rewrite find_chat_via_get in Hc.
    destruct (users_get store uid) as [chats |]; [| discriminate].
    exists chats. apply find_some in Hc as [Hin Hid]. unfold has_id in Hid.
    apply String.eqb_eq in Hid. tauto.
  - intros Hne.
    pose proof (get_user_bucket_other store uid uid' Hne) as Hb.
    pose proof (fun chats => set_after_bucket_other store uid uid' chats Hne) as Hs.
    split; [| split; [| split]].
    + intros role text sources. unfold _append_msg.
      destruct (_get_user_bucket store uid) as [store1 chats]. cbn [fst] in *.
      destruct (List.find (has_id cid) chats); cbn [fst]; [apply Hs | exact Hb].
    + intros first_text. unfold _set_title_if_new.
      destruct (_get_user_bucket store uid) as [store1 chats]. cbn [fst] in *.
      destruct (List.find (has_id cid) chats) as [chat |]; cbn [fst]; [| exact Hb].
      destruct (String.eqb (chat_title chat) "New chat" && truthy (strip first_text));
        cbn [fst]; [apply Hs | exact Hb].
    + intros hex now. now apply create_chat_other.
    + intros hex now. unfold delete_chat.
      destruct (_get_user_bucket store uid) as [store1 chats] eqn:Hbk. cbn [fst] in *.
      destruct (List.find (has_id cid) chats) as [chat |].
      * destruct (remove_chat cid chats) as [| c0 rest]; cbn [fst].
        -- pose proof (create_chat_other (users_set store1 uid []) (users_set store1 uid [])
                         uid uid' hex now Hne) as Hc.
           destruct (_create_chat _ _ uid hex now) as [[s d] ch]. cbn [fst] in *.
           rewrite Hc. apply Hs.
        -- apply Hs.
      * destruct chats as [| c0 rest]; cbn [fst]; [| exact Hb].
        pose proof (create_chat_other store1 disk uid uid' hex now Hne) as Hc.
        destruct (_create_chat store1 disk uid hex now) as [[s d] ch]. cbn [fst] in *.
        now rewrite Hc.
Qed.

End Store_operations.
Section Store_chats.

Lemma find_head (cid : string) (c : Chat) (rest : list Chat) :
  chat_id c = cid -> List.find (has_id cid) (c :: rest) = Some c.
Proof. intros <-. simpl. unfold has_id. now rewrite String.eqb_refl. Qed.

Lemma create_chat_spec (store disk : Store) (uid hex now : string) :
  let r := _create_chat store disk uid hex now in
  let old := match users_get store uid with Some chats => chats | None => [] end in
  snd r = new_chat_of hex now
  /\ snd (fst r) = fst (fst r)
  /\ users_get (fst (fst r)) uid = Some (new_chat_of hex now :: old).
Proof.
  intros r old. unfold r, _create_chat.
  destruct (get_user_bucket_spec store uid) as [_ [Hsnd _]]. fold old in Hsnd.
  destruct (_get_user_bucket store uid) as [store1 chats]. cbn [fst snd] in *. subst chats.
  split; [reflexivity | split; [reflexivity |]]. apply users_get_set_same.
Qed.

(** X15.  [_create_chat] saves the store and puts the new chat first in the
    bucket of the user, before the chats the user had, in their order; the
    chat has the first ten characters of the uuid as its id, the title New
    chat, no message and an empty memory, and [_find_chat] returns it for
    its id, also when an older chat has the same id. *)
Theorem create_chat_is_first_and_found :
  forall (store disk : Store) (uid hex now : string),
    let r := _create_chat store disk uid hex now in
    let chat := snd r in
    let old := match users_get store uid with Some chats => chats | None => [] end in
    snd (fst r) = fst (fst r)
    /\ users_get (fst (fst r)) uid = Some (chat :: old)
    /\ snd (_find_chat (fst (fst r)) uid (chat_id chat)) = Some chat
    /\ chat_id chat = take 10 hex
    /\ chat_title chat = "New chat"
    /\ chat_messages chat = []
    /\ _mem_all chat = [].
Proof.
  intros store disk uid hex now r chat old.
  destruct (create_chat_spec store disk uid hex now) as [Hchat [Hsaved Hget]].
  fold r in Hchat, Hsaved, Hget. fold old in Hget. unfold chat. rewrite Hchat.
  split; [exact Hsaved | split; [exact Hget |]].
  split; [| repeat split].
  rewrite find_chat_via_get, Hget. now apply find_head.
Qed.

Lemma remove_chat_length (cid : string) (chats : list Chat) (c : Chat) :
  List.find (has_id cid) chats = Some c -> S (length (remove_chat cid chats)) = length chats.
Proof.
  induction chats as [| c0 chats IH]; simpl; [discriminate |].
  destruct (has_id cid c0); [reflexivity |]. intros H. simpl. now rewrite (IH H).
Qed.

(** X16.  The handler [delete_chat] always leaves the user with a chat to
    go to: the id it returns is the id of the first chat of the user's
    bucket afterwards, which [_find_chat] returns.  When the user has the
    chat, the first chat with that id is removed, the others keep their
    order, and the store is saved; when the user does not have it, the
    user's chats are as before.  A new chat is created only when no chat is
    left. *)
Theorem delete_chat_leaves_a_chat :
  forall (store disk : Store) (uid cid hex now : string),
    let r := delete_chat store disk uid cid hex now in
    let old := match users_get store uid with Some chats => chats | None => [] end in
    let kept := match List.find (has_id cid) old with
                | Some _ => remove_chat cid old
                | None => old
                end in
    (exists c rest,
        users_get (fst (fst r)) uid = Some (c :: rest)
        /\ chat_id c = snd r
        /\ snd (_find_chat (fst (fst r)) uid (snd r)) = Some c)
    /\ users_get (fst (fst r)) uid
       = Some (match kept with [] => [new_chat_of hex now] | _ => kept end)
    /\ (forall c, List.find (has_id cid) old = Some c ->
          snd (fst r) = fst (fst r) /\ S (length kept) = length old).
Proof.
  intros store disk uid cid hex now r old kept.
  assert (Hget : users_get (fst (fst r)) uid
                 = Some (match kept with [] => [new_chat_of hex now] | _ => kept end)
                 /\ snd r = chat_id (hd (new_chat_of hex now) kept)
                 /\ (forall c, List.find (has_id cid) old = Some c -> snd (fst r) = fst (fst r))).
  { unfold r, delete_chat.
    destruct (get_user_bucket_spec store uid) as [Hb [Hsnd _]]. fold old in Hsnd.
    destruct (_get_user_bucket store uid) as [store1 chats]. cbn [fst snd] in *. subst chats.
    unfold kept. destruct (List.find (has_id cid) old) as [c |] eqn:Hfind.
    - destruct (remove_chat cid old) as [| c0 rest] eqn:Hrem.
      + destruct (create_chat_spec (users_set store1 uid []) (users_set store1 uid [])
                    uid hex now) as [Hchat [Hsaved Hg]].
        rewrite users_get_set_same in Hg.
        destruct (_create_chat _ _ uid hex now) as [[s d] ch]. cbn [fst snd] in *.
        subst ch. split; [exact Hg | split; [reflexivity |]]. intros _ _. exact Hsaved.
      + cbn [fst snd hd]. split; [apply users_get_set_same | split; [reflexivity |]].
        intros _ _. reflexivity.
    - destruct old as [| c0 rest] eqn:Hold.
      + destruct (create_chat_spec store1 disk uid hex now) as [Hchat [Hsaved Hg]].
        rewrite Hb in Hg.
        destruct (_create_chat store1 disk uid hex now) as [[s d] ch]. cbn [fst snd] in *.
        subst ch. split; [exact Hg | split; [reflexivity |]]. intros c Hc. discriminate.
      + cbn [fst snd hd]. split; [exact Hb | split; [reflexivity |]]. intros c Hc. discriminate. }
  destruct Hget as [Hget [Hnext Hsaved]].
  split; [| split; [exact Hget |]].
  - destruct kept as [| c0 rest]; cbn [hd] in Hnext.
    + exists (new_chat_of hex now), []. split; [exact Hget | split; [now symmetry |]].
      rewrite find_chat_via_get, Hget. apply find_head. now symmetry.
    + exists c0, rest. split; [exact Hget | split; [now symmetry |]].
      rewrite find_chat_via_get, Hget. apply find_head. now symmetry.
  - intros c Hc. split; [now apply (Hsaved c) |].
    unfold kept. rewrite Hc. now apply remove_chat_length with c.
Qed.

End Store_chats.
Section Titles.

(** A greedy repetition followed by nothing matches. *)
Lemma rep_go_always (p : ascii -> bool) (lo : nat) (hi : option nat) (n : nat)
    (prev : option ascii) (s : string) :
  lo <= n ->
  exists rest, rep_go p lo hi n prev s (fun _ r => Some r) = Some rest
               /\ String.length rest <= String.length s.
Proof.
  revert n prev. induction s as [| c s IH]; intros n prev Hlo; cbn [rep_go].
  - apply Nat.leb_le in Hlo. rewrite Hlo. now exists EmptyString.
  - destruct (p c && below n hi).
    + destruct (IH (S n) (Some c)) as [rest [Hrest Hlen]]; [lia |].
      rewrite Hrest. exists rest. split; [reflexivity | simpl; lia].
    + apply Nat.leb_le in Hlo. rewrite Hlo. now exists (String c s).
Qed.

Lemma plus_matches_class (p : ascii -> bool) (prev : option ascii) (c : ascii) (s : string) :
  p c = true -> exists n, match_len (plus p) prev (String c s) = Some (S n).
Proof.
  intros Hp. unfold match_len, plus. cbn [rmatch rep_go]. rewrite Hp. cbn [below andb].
  destruct (rep_go_always p 1 None 1 (Some c) s (le_n 1)) as [rest [Hrest Hlen]].
  rewrite Hrest. exists (String.length s - String.length rest). f_equal.
  cbn [String.length]. lia.
Qed.

Lemma plus_needs_class (p : ascii -> bool) (prev : option ascii) (c : ascii) (s : string) :
  p c = false -> match_len (plus p) prev (String c s) = None.
Proof.
  intros Hp. unfold match_len, plus. cbn [rmatch rep_go]. rewrite Hp. reflexivity.
Qed.

(** The characters of the result of [re.sub]: those of the replacements and
    those the pattern did not match. *)
Lemma sub_go_all_chars (q : ascii -> bool) (r : regex) (f : string -> string) :
  (forall m, all_chars q (f m) = true) ->
  (forall prev c s, q c = true \/ exists n, match_len r prev (String c s) = Some (S n)) ->
  forall skip prev s, all_chars q (sub_go r f skip prev s) = true.
Proof.
  intros Hf Hq skip prev s. revert skip prev.
  induction s as [| c s IH]; intros skip prev; cbn [sub_go]; [reflexivity |].
  destruct skip as [| k]; [| apply IH].
  destruct (match_len r prev (String c s)) as [[| n] |] eqn:Hm.
  - destruct (Hq prev c s) as [Hc | [n Hn]]; [| congruence].
    cbn [all_chars]. now rewrite Hc, IH.
  - now rewrite all_chars_app, Hf, IH.
  - destruct (Hq prev c s) as [Hc | [n Hn]]; [| congruence].
    cbn [all_chars]. now rewrite Hc, IH.
Qed.

Lemma collapse_blanks_chars (t : string) : all_chars one_blank (collapse_blanks t) = true.
Proof.
  unfold collapse_blanks, Re.sub, sub_with. apply sub_go_all_chars.
  - intros m. reflexivity.
  - intros prev c s. unfold one_blank. destruct (is_space c) eqn:Hsp.
    + right. now apply plus_matches_class.
    + now left.
Qed.

Lemma drop_while_head (p : ascii -> bool) (s : string) (c : ascii) (s' : string) :
  drop_while p s = String c s' -> p c = false.
Proof.
  induction s as [| d s IH]; simpl; [discriminate |].
  destruct (p d) eqn:E; [exact IH |]. intros H. injection H as <- _. exact E.
Qed.

Lemma collapse_blanks_nonempty (t : string) :
  truthy (strip t) = true -> truthy (collapse_blanks (strip t)) = true.
Proof.
  unfold strip, lstrip. destruct (drop_while is_space (rstrip t)) as [| c s] eqn:E;
    [discriminate |].
  intros _. apply drop_while_head in E.
  unfold collapse_blanks, Re.sub, sub_with. cbn [sub_go].
  now rewrite (plus_needs_class is_space None c s E).
Qed.

Lemma all_chars_take (p : ascii -> bool) (n : nat) (s : string) :
  all_chars p s = true -> all_chars p (take n s) = true.
Proof.
  unfold take. revert n. induction s as [| c s IH]; intros n H.
  - destruct n; reflexivity.
  - destruct n as [| n]; [reflexivity |]. simpl in *.
    apply andb_true_iff in H as [Hc Hs]. now rewrite Hc, IH.
Qed.

Lemma length_sapp (a b : string) :
  String.length (a ++ b)%string = String.length a + String.length b.
Proof. induction a as [| c a IH]; simpl; [reflexivity | now rewrite IH]. Qed.

(** X17.  [_make_title_from_text] never returns an empty title: a blank
    text gives New chat; otherwise the title is the stripped text with every
    run of white space made one blank, cut after 48 characters with an
    ellipsis when it is longer.  So a title holds no tab and no line break.
    [_set_title_if_new] changes nothing unless the chat is titled New chat
    and the text is not blank, and then gives the chat that title and saves
    the store. *)
Theorem chat_titles_are_short_one_liners :
  forall (t : string),
    let title := _make_title_from_text t in
    let flat := collapse_blanks (strip t) in
    truthy title = true
    /\ (truthy (strip t) = false -> title = "New chat")
    /\ (truthy (strip t) = true ->
        title = if 48 <? String.length flat then (take 48 flat ++ ELLIPSIS)%string else flat)
    /\ all_chars one_blank title = true
    /\ String.length title <= 48 + String.length ELLIPSIS
    /\ (forall store disk uid cid chat,
          snd (_find_chat store uid cid) = Some chat ->
          let r := _set_title_if_new store disk uid cid t in
          if String.eqb (chat_title chat) "New chat" && truthy (strip t)
          then snd r = fst r
               /\ snd (_find_chat (fst r) uid cid) = Some (with_title chat title)
          else r = (store, disk)).
Proof.
  intros t title flat. unfold title, _make_title_from_text. cbv zeta. fold flat.
  destruct (strip t) as [| c0 s0] eqn:Hstrip.
  - cbn [is_empty truthy negb].
    split; [reflexivity |]. split; [reflexivity |]. split; [discriminate |].
    split; [reflexivity |]. split; [simpl; lia |].
    intros store disk uid cid chat Hfind. rewrite andb_false_r.
    unfold _set_title_if_new. rewrite find_chat_via_get in Hfind.
    unfold _get_user_bucket. destruct (users_get store uid) as [chats |]; [| discriminate].
    rewrite Hfind, Hstrip. cbn [truthy is_empty negb]. now rewrite andb_false_r.
  - cbn [is_empty truthy negb].
    assert (Hflat : truthy flat = true).
    { unfold flat. rewrite <- Hstrip at 1. apply collapse_blanks_nonempty. now rewrite Hstrip. }
    assert (Hchars : all_chars one_blank flat = true) by apply collapse_blanks_chars.
    split; [| split; [discriminate | split; [reflexivity | split; [| split]]]].
    + destruct (48 <? String.length flat) eqn:Hlong; [| exact Hflat].
      apply Nat.ltb_lt in Hlong. destruct flat as [| c f]; [simpl in Hlong; lia | reflexivity].
    + destruct (48 <? String.length flat); [| exact Hchars].
      rewrite all_chars_app, (all_chars_take _ _ _ Hchars). reflexivity.
    + destruct (48 <? String.length flat) eqn:Hlong.
      * apply Nat.ltb_lt in Hlong. rewrite length_sapp, take_length; lia.
      * apply Nat.ltb_ge in Hlong. lia.
    + intros store disk uid cid chat Hfind. rewrite andb_true_r.
      unfold _set_title_if_new. rewrite find_chat_via_get in Hfind.
      unfold _get_user_bucket. destruct (users_get store uid) as [chats |] eqn:Hu;
        [| discriminate].
      rewrite Hfind, Hstrip. cbn [truthy is_empty negb]. rewrite andb_true_r.
      destruct (String.eqb (chat_title chat) "New chat"); [| reflexivity].
      cbn [fst snd]. split; [reflexivity |].
      rewrite find_chat_via_get, users_get_set_same.
      rewrite (find_update_chat cid (fun c => with_title c (_make_title_from_text t)) chats chat
                 (fun c => eq_refl) Hfind).
      unfold _make_title_from_text. rewrite Hstrip. reflexivity.
Qed.

(** A chat titled New chat takes the first message as its title. *)
Lemma chat_titles_are_short_one_liners_witness :
  snd (_find_chat (fst (_set_title_if_new store_ann store_ann "ann" "0123456789"
                          "  disk   full "))
         "ann" "0123456789")
  = Some (with_title chat_ann "disk full").
Proof.
  destruct (chat_titles_are_short_one_liners "  disk   full ") as [_ [_ [_ [_ [_ Hset]]]]].
  specialize (Hset store_ann store_ann "ann" "0123456789" chat_ann eq_refl).
  cbv zeta in Hset.
  replace (String.eqb (chat_title chat_ann) "New chat" && truthy (strip "  disk   full "))
    with true in Hset by reflexivity.
  destruct Hset as [_ Hfound]. exact Hfound.
Defined.

End Titles.
Section Chat_memory.

Lemma dict_lookup_set (d : Dict.t) (k v k' : string) :
  dict_lookup (Dict.set d k v) k' = if String.eqb k' k then Some v else dict_lookup d k'.
Proof.
  induction d as [| [k0 v0] d IH]; simpl.
  - reflexivity.
  - destruct (String.eqb k k0) eqn:Hk; simpl.
    + apply String.eqb_eq in Hk. subst k0. destruct (String.eqb k' k); reflexivity.
    + destruct (String.eqb k' k0) eqn:Hk0.
      * apply String.eqb_eq in Hk0. subst k0. rewrite String.eqb_sym in Hk. now rewrite Hk.
      * apply IH.
Qed.

Lemma dict_lookup_del (d : Dict.t) (k k' : string) :
  dict_lookup (dict_del d k) k' = if String.eqb k' k then None else dict_lookup d k'.
Proof.
  unfold dict_del. induction d as [| [k0 v0] d IH]; simpl.
  - destruct (String.eqb k' k); reflexivity.
  - destruct (String.eqb k k0) eqn:Hk; simpl.
    + apply String.eqb_eq in Hk. subst k0. rewrite IH.
      destruct (String.eqb k' k); reflexivity.
    + rewrite IH. destruct (String.eqb k' k0) eqn:Hk0; [| reflexivity].
      apply String.eqb_eq in Hk0. subst k0. rewrite String.eqb_sym in Hk. now rewrite Hk.
Qed.

Lemma mem_all_set (c : Chat) (key value : string) :
  _mem_all (_mem_set c key value) = Dict.set (_mem_all c) (lower (strip key)) (strip value).
Proof.
  unfold _mem_set, _mem_all, memory_or_new. cbn [chat_memory with_memory mem_facts].
  destruct (chat_memory c) as [m |]; [destruct (mem_facts m) |]; reflexivity.
Qed.

Lemma mem_all_forget (c : Chat) (key : string) :
  _mem_all (_mem_forget c key) = dict_del (_mem_all c) key.
Proof.
  unfold _mem_forget, _mem_all.
  destruct (chat_memory c) as [m |] eqn:Hm; [destruct (mem_facts m) eqn:Hf |];
    cbn [chat_memory with_memory mem_facts]; rewrite ?Hm, ?Hf; reflexivity.
Qed.

(** X18.  The facts of a chat.  [_mem_set] stores the stripped value under
    the stripped, lower-cased key and leaves every other key, the messages
    and the title as they are; [_mem_get] looks a key up as it is spelled,
    so it finds a fact only under the normalized spelling of its key;
    [_mem_forget] removes the key it is given and no other. *)
Theorem chat_facts_set_get_forget :
  forall (c : Chat) (key value k : string),
    _mem_get (_mem_set c key value) (lower (strip key)) = Some (strip value)
    /\ (k <> lower (strip key) -> _mem_get (_mem_set c key value) k = _mem_get c k)
    /\ (key <> lower (strip key) -> _mem_get (_mem_set c key value) key = _mem_get c key)
    /\ _mem_get (_mem_forget c key) key = None
    /\ (k <> key -> _mem_get (_mem_forget c key) k = _mem_get c k)
    /\ _mem_get (_mem_forget (_mem_set c key value) (lower (strip key))) (lower (strip key))
       = None
    /\ chat_messages (_mem_set c key value) = chat_messages c
    /\ chat_title (_mem_set c key value) = chat_title c
    /\ chat_messages (_mem_forget c key) = chat_messages c.
Proof.
  intros c key value k. unfold _mem_get.
  rewrite !mem_all_forget, !mem_all_set, !dict_lookup_del, !dict_lookup_set, !String.eqb_refl.
  assert (Hneq : forall a b : string, a <> b -> String.eqb a b = false)
    by (intros a b; apply String.eqb_neq).
  split; [reflexivity |]. split; [intros H; now rewrite (Hneq _ _ H) |].
  split; [intros H; now rewrite (Hneq _ _ H) |].
  split; [reflexivity |]. split; [intros H; now rewrite (Hneq _ _ H) |].
  split; [reflexivity |]. split; [reflexivity |]. split; [reflexivity |].
  unfold _mem_forget. destruct (chat_memory c) as [m |]; [destruct (mem_facts m) |]; reflexivity.
Qed.

End Chat_memory.
Section Conversation.

Lemma last_n_snoc {A : Type} (n : nat) (xs : list A) (x : A) :
  last_n (S n) (xs ++ [x]) = last_n n xs ++ [x].
Proof.
  unfold last_n. rewrite length_app. cbn [length].
  replace (length xs + 1 - S n) with (length xs - n) by lia.
  rewrite skipn_app. replace (length xs - n - length xs) with 0 by lia. reflexivity.
Qed.

Lemma last_n_idem {A : Type} (n : nat) (xs : list A) : last_n n (last_n n xs) = last_n n xs.
Proof.
  unfold last_n at 1. rewrite last_n_length.
  replace (Nat.min n (length xs) - n) with 0 by lia. reflexivity.
Qed.

Lemma last_n_nil_iff {A : Type} (n : nat) (xs : list A) :
  0 < n -> (last_n n xs = [] <-> xs = []).
Proof.
  intros Hn. rewrite <- !length_zero_iff, last_n_length. lia.
Qed.

Lemma last_n_In {A : Type} (n : nat) (xs : list A) (x : A) : In x (last_n n xs) -> In x xs.
Proof.
  unfold last_n. intros Hin. rewrite <- (firstn_skipn (length xs - n) xs).
  apply in_or_app. now right.
Qed.

(** The messages of a chat after [_append_msg] has added one. *)
Lemma append_message_messages (role text : string) (sources : option (list Source)) (c : Chat) :
  chat_messages (append_message role text sources c)
  = last_n 239 (chat_messages c)
    ++ [{| msg_role := role; msg_text := text; msg_sources := sources_or_nil sources |}].
Proof.
  destruct (append_message_spec role text sources c) as [Hmsgs _]. cbv zeta in Hmsgs.
  rewrite Hmsgs. apply (last_n_snoc 239).
Qed.

Lemma filter_user_idem (msgs : list Message) :
  filter is_user_message (filter is_user_message msgs) = filter is_user_message msgs.
Proof.
  induction msgs as [| m msgs IH]; simpl; [reflexivity |].
  destruct (is_user_message m) eqn:E; simpl; rewrite ?E, IH; reflexivity.
Qed.

(** X19.  [handle_history_question] only ever quotes a message of the user
    that is not blank: the messages of the assistant and the blank ones do
    not count, and without such a message it has no answer.  Since the
    handler appends the message of the user before it asks, the last
    message it can quote is the question itself. *)
Theorem history_question_quotes_user_messages :
  forall (chat : Chat) (text : string),
    let t := strip (lower text) in
    (filter is_user_message (chat_messages chat) = [] -> handle_history_question chat text = None)
    /\ handle_history_question chat text
       = handle_history_question
           (with_messages chat (filter is_user_message (chat_messages chat))) text
    /\ (forall r, handle_history_question chat text = Some r ->
          r = "There isn’t a previous message yet."
          \/ exists intro m,
               In m (chat_messages chat) /\ is_user_message m = true
               /\ r = quoted intro (msg_text m))
    /\ (forall display,
          truthy (strip display) = true ->
          found FIRST_MSG_PAT t = false ->
          found PREVIOUS_MSG_PAT t = false ->
          found WHAT_ASKED_PAT t = true ->
          handle_history_question (append_message "user" display None chat) text
          = Some (quoted "Your last message was: " display)).
Proof.
  intros chat text t. split; [| split; [| split]].
  - intros Hnil. unfold handle_history_question. now rewrite Hnil.
  - unfold handle_history_question. cbn [chat_messages with_messages].
    now rewrite filter_user_idem.
  - intros r. unfold handle_history_question. fold t.
    set (user_msgs := filter is_user_message (chat_messages chat)).
    assert (Huser : forall m, In m user_msgs -> In m (chat_messages chat)
                                                /\ is_user_message m = true).
    { intros m Hm. now apply filter_In in Hm. }
    destruct user_msgs as [| first rest] eqn:Hmsgs; [discriminate |].
    assert (Hfirst : In first (first :: rest)) by now left.
    destruct (found FIRST_MSG_PAT t).
    + intros Heq. injection Heq as <-. right.
      exists "Your first message was: ", first. destruct (Huser first Hfirst). tauto.
    + destruct (found PREVIOUS_MSG_PAT t).
      * set (prevm := nth (length (first :: rest) - 2) (first :: rest) first).
        assert (Hin : In prevm (first :: rest)) by (apply nth_In; simpl; lia).
        destruct (2 <=? length (first :: rest)); intros Heq; injection Heq as <-; [| now left].
        right. exists "Your previous message was: ", prevm.
        destruct (Huser _ Hin). tauto.
      * destruct (found WHAT_ASKED_PAT t); [| discriminate].
        set (lastm := last (first :: rest) first).
        assert (Hin : In lastm (first :: rest)).
        { unfold lastm. destruct (exists_last (l := first :: rest)) as [l' [a Ha]];
            [discriminate |].
          rewrite Ha, last_last. apply in_or_app. right. now left. }
        intros Heq. injection Heq as <-. right. exists "Your last message was: ", lastm.
        destruct (Huser _ Hin). tauto.
  - intros display Hdisplay Hfirst Hprev Hwhat.
    unfold handle_history_question. fold t. rewrite Hfirst, Hprev, Hwhat.
    rewrite append_message_messages, filter_app. cbn [sources_or_nil].
    set (m := {| msg_role := "user"; msg_text := display; msg_sources := [] |}).
    assert (Hm : filter is_user_message [m] = [m]).
    { cbn [filter]. unfold is_user_message. cbn [msg_role msg_text m].
      rewrite Hdisplay. reflexivity. }
    rewrite Hm.
    set (before := filter is_user_message (last_n 239 (chat_messages chat))).
    destruct (before ++ [m]) as [| first rest] eqn:E.
    + destruct before; discriminate.
    + rewrite <- E. rewrite last_last. reflexivity.
Qed.

(** The question about the last message, asked in a new chat. *)
Lemma history_question_quotes_user_messages_witness :
  handle_history_question (append_message "user" "what did i ask" None chat_ann)
    "what did i ask"
  = Some (quoted "Your last message was: " "what did i ask").
Proof.
  destruct (history_question_quotes_user_messages chat_ann "what did i ask") as [_ [_ [_ H]]].
  apply H; vm_compute; reflexivity.
Defined.

Lemma last_text_of_snoc (role : string) (history : list Message) (m : Message) :
  last_text_of role (history ++ [m])
  = if String.eqb (msg_role m) role && truthy (msg_text m) then msg_text m
    else last_text_of role history.
Proof.
  unfold last_text_of. rewrite rev_app_distr. cbn [rev app List.find].
  destruct (String.eqb (msg_role m) role && truthy (msg_text m)); reflexivity.
Qed.

(** X20.  [build_context_augmented_query] returns the text of the user and
    of the screenshot, joined and stripped, alone or followed by a context
    block; the block is added only when the text has a follow-up word and
    the chat has messages, and it is made from the last twelve messages of
    the chat and no older one.  Since the handler appends the message of the
    user to the chat before it builds the query, the last user question of
    the block is that message itself. *)
Theorem context_query_uses_last_twelve :
  forall (chat : Chat) (user_text ocr_text : string),
    let combined := strip (join " " (filter truthy [user_text; ocr_text])) in
    let q := build_context_augmented_query chat user_text ocr_text in
    String.prefix combined q = true
    /\ (found FOLLOWUP_HINTS combined = false \/ chat_messages chat = [] \/ combined = EmptyString
        -> q = combined)
    /\ q = build_context_augmented_query
             (with_messages chat (last_n 12 (chat_messages chat))) user_text ocr_text
    /\ (forall display,
          truthy display = true ->
          truthy combined = true ->
          found FOLLOWUP_HINTS combined = true ->
          let chat' := append_message "user" display None chat in
          let last_bot := last_text_of "bot" (last_n 11 (chat_messages chat)) in
          build_context_augmented_query chat' user_text ocr_text
          = (combined ++ NL ++ NL ++ NL ++ "--- Context ---" ++ NL
             ++ "Last user question: " ++ display ++ NL
             ++ (if truthy last_bot then "Last assistant answer: " ++ last_bot ++ NL
                 else ""))%string).
Proof.
  intros chat user_text ocr_text combined q.
  split; [| split; [| split]].
  - unfold q, build_context_augmented_query. fold combined.
    destruct (is_empty combined); [apply prefix_refl |].
    destruct (found FOLLOWUP_HINTS combined && _); [apply prefix_app | apply prefix_refl].
  - unfold q, build_context_augmented_query. fold combined.
    intros [Hno | [Hnil | Hempty]].
    + rewrite Hno. destruct (is_empty combined); reflexivity.
    + rewrite Hnil, andb_false_r. destruct (is_empty combined); reflexivity.
    + rewrite Hempty. reflexivity.
  - unfold q, build_context_augmented_query. fold combined.
    cbn [chat_messages with_messages]. rewrite last_n_idem.
    replace (match last_n 12 (chat_messages chat) with [] => true | _ :: _ => false end)
      with (match chat_messages chat with [] => true | _ :: _ => false end); [reflexivity |].
    destruct (chat_messages chat) as [| m0 msgs] eqn:E; [reflexivity |].
    destruct (last_n 12 (m0 :: msgs)) eqn:E'; [| reflexivity].
    apply last_n_nil_iff in E'; [discriminate | lia].
  - intros display Hdisplay Hcombined Hhint chat' last_bot.
    unfold build_context_augmented_query. fold combined.
    unfold truthy in Hcombined. apply negb_true_iff in Hcombined. rewrite Hcombined, Hhint.
    unfold chat'. rewrite append_message_messages. cbn [sources_or_nil].
    set (m := {| msg_role := "user"; msg_text := display; msg_sources := [] |}).
    replace (match last_n 239 (chat_messages chat) ++ [m] with [] => true | _ :: _ => false end)
      with false by (destruct (last_n 239 (chat_messages chat)); reflexivity).
    cbn [andb negb].
    assert (Hhist : last_n (FOLLOWUP_CONTEXT_TURNS * 2) (last_n 239 (chat_messages chat) ++ [m])
                    = last_n 11 (chat_messages chat) ++ [m]).
    { change (FOLLOWUP_CONTEXT_TURNS * 2) with 12. rewrite (last_n_snoc 11). f_equal.
      unfold last_n. rewrite length_skipn, skipn_skipn. f_equal. lia. }
    rewrite Hhist, !last_text_of_snoc. cbn [msg_role msg_text m].
    replace (String.eqb "user" "bot") with false by reflexivity.
    replace (String.eqb "user" "user") with true by reflexivity.
    rewrite Hdisplay. cbn [andb]. rewrite Hdisplay. fold last_bot.
    destruct (truthy last_bot); repeat rewrite sapp_assoc; rewrite ?sapp_nil_r; reflexivity.
Qed.

(** A follow-up asked in a new chat: the context repeats the question. *)
Lemma context_query_uses_last_twelve_witness :
  build_context_augmented_query (append_message "user" "fix this error" None chat_ann)
    "fix this error" ""
  = ("fix this error" ++ NL ++ NL ++ NL ++ "--- Context ---" ++ NL
     ++ "Last user question: fix this error" ++ NL)%string.
Proof.
  destruct (context_query_uses_last_twelve chat_ann "fix this error" "") as [_ [_ [_ H]]].
  apply (H "fix this error"); vm_compute; reflexivity.
Defined.

End Conversation.
Section Sign_in.

(** X21.  Who can sign in.  When [USERS_JSON] gives no user and
    [APP_USERNAME] or [APP_PASSWORD] is empty, the only account is demo /
    demo; when both are set, the only account is that pair, and demo / demo
    is refused unless it is that pair; when [USERS_JSON] gives users, they
    are the only accounts.  The form fields are stripped before the test, so
    an account whose password begins or ends with white space can never
    sign in. *)
Theorem login_accounts :
  forall (env : LoginEnv) (form_uid form_pw : string),
    let uid := strip form_uid in
    let pw := strip form_pw in
    let no_json := USERS_JSON env = None \/ USERS_JSON env = Some [] in
    (no_json -> truthy (APP_USERNAME env) && truthy (APP_PASSWORD env) = false ->
       login_accepts env form_uid form_pw = String.eqb "demo" uid && String.eqb "demo" pw)
    /\ (no_json -> truthy (APP_USERNAME env) && truthy (APP_PASSWORD env) = true ->
       login_accepts env form_uid form_pw
       = String.eqb (APP_USERNAME env) uid && String.eqb (APP_PASSWORD env) pw)
    /\ (forall u us, USERS_JSON env = Some (u :: us) ->
       login_accepts env form_uid form_pw
       = existsb (fun u => is_some_eq (dict_lookup u "id") uid
                           && is_some_eq (dict_lookup u "password") pw) (u :: us))
    /\ ((forall u p, In u (_load_users env) -> dict_lookup u "password" = Some p ->
                     strip p <> p) ->
        login_accepts env form_uid form_pw = false).
Proof.
  intros env form_uid form_pw uid pw no_json.
  unfold login_accepts, _check_login. fold uid pw.
  split; [| split; [| split]].
  - intros Hno Happ. unfold _load_users.
    replace (match USERS_JSON env with Some us => us | None => [] end) with (@nil Dict.t)
      by (destruct Hno as [-> | ->]; reflexivity).
    rewrite Happ. cbn [existsb dict_lookup String.eqb is_some_eq]. cbn.
    now rewrite orb_false_r.
  - intros Hno Happ. unfold _load_users.
    replace (match USERS_JSON env with Some us => us | None => [] end) with (@nil Dict.t)
      by (destruct Hno as [-> | ->]; reflexivity).
    rewrite Happ. cbn. now rewrite orb_false_r.
  - intros u us Hjson. unfold _load_users. rewrite Hjson. reflexivity.
  - intros Hblank.
    destruct (existsb _ (_load_users env)) eqn:E; [| reflexivity].
    apply existsb_exists in E as [u [Hin Hu]]. apply andb_true_iff in Hu as [_ Hp].
    destruct (dict_lookup u "password") as [p |] eqn:Hlook; [| discriminate].
    cbn [is_some_eq] in Hp. apply String.eqb_eq in Hp.
    exfalso. apply (Hblank u p Hin Hlook). subst p. apply strip_idem.
Qed.

(** An account whose password is written with blanks around it. *)
Lemma login_accounts_witness :
  login_accepts env_blank_password "bob" " secret " = false.
Proof.
  destruct (login_accounts env_blank_password "bob" " secret ") as [_ [_ [_ H]]].
  apply H. intros u p [<- | []] Hp. injection Hp as <-. discriminate.
Defined.

End Sign_in.
Section Sanitizer_lines.

(** *** Pieces of a string that hold no separator *)

Lemma prefix_before_sep (w x : string) (c : ascii) (b : string) :
  all_chars (fun d => negb (Ascii.eqb d c)) w = true ->
  String.prefix w (x ++ String c b)%string = true -> String.prefix w x = true.
Proof.
  revert x. induction w as [| e w IH]; intros x Hw Hp; [destruct x; reflexivity |].
  simpl in Hw. apply andb_true_iff in Hw as [He Hw]. apply negb_true_iff in He.
  destruct x as [| f x]; simpl in *.
  - destruct (ascii_dec e c) as [-> | _]; [| discriminate].
    rewrite Ascii.eqb_refl in He. discriminate.
  - destruct (ascii_dec e f); [| discriminate]. now apply IH.
Qed.

Lemma contains_cons (w : string) (c : ascii) (s : string) :
  contains w s = true -> contains w (String c s) = true.
Proof. intros H. cbn [contains]. rewrite H. apply orb_true_r. Qed.

Lemma contains_prefix_app (w a b : string) :
  contains w a = true -> contains w (a ++ b)%string = true.
Proof.
  rewrite !contains_iff. intros [u [v ->]]. exists u, (v ++ b)%string.
  now rewrite !sapp_assoc.
Qed.

Lemma contains_suffix_app (w a b : string) :
  contains w b = true -> contains w (a ++ b)%string = true.
Proof.
  rewrite !contains_iff. intros [u [v ->]]. exists (a ++ u)%string, v.
  now rewrite !sapp_assoc.
Qed.

(** A piece without the separator lies on one side of it. *)
Lemma contains_around_sep (w a : string) (c : ascii) (b : string) :
  truthy w = true ->
  all_chars (fun d => negb (Ascii.eqb d c)) w = true ->
  contains w (a ++ String c b)%string = true ->
  contains w a = true \/ contains w b = true.
Proof.
  intros Hne Hw. induction a as [| d a IH]; intros H; cbn [append contains] in H.
  - right. apply orb_true_iff in H as [H | H]; [| exact H].
    exfalso. destruct w as [| e w]; [discriminate |]. simpl in H, Hw.
    destruct (ascii_dec e c) as [-> | _]; [| discriminate].
    rewrite Ascii.eqb_refl in Hw. discriminate.
  - apply orb_true_iff in H as [H | H].
    + left. apply contains_of_prefix.
      exact (prefix_before_sep w (String d a) c b Hw H).
    + destruct (IH H) as [Ha | Hb]; [left; now apply contains_cons | now right].
Qed.

Lemma contains_join_lines (w : string) (xs : list string) :
  truthy w = true -> one_line w = true ->
  contains w (join NL xs) = true -> exists x, In x xs /\ contains w x = true.
Proof.
  intros Hne Hw. induction xs as [| x xs IH].
  - simpl. destruct w; [discriminate | simpl; discriminate].
  - destruct xs as [| y xs].
    + intros H. exists x. split; [now left | exact H].
    + change (join NL (x :: y :: xs)) with (x ++ String nl (join NL (y :: xs)))%string.
      intros H. destruct (contains_around_sep w x nl _ Hne Hw H) as [Hx | Hrest].
      * exists x. split; [now left | exact Hx].
      * destruct (IH Hrest) as [z [Hz Hc]]. exists z. split; [now right | exact Hc].
Qed.

(** *** The pieces [re.split] returns *)

Lemma split_go_pieces (r : regex) (skip : nat) (cur : string) (prev : option ascii)
    (s piece : string) :
  skip = 0 \/ cur = EmptyString ->
  In piece (Re.split_go r skip cur prev s) -> contains piece (cur ++ s)%string = true.
Proof.
  revert skip cur prev. induction s as [| c s IH]; intros skip cur prev Hinv; cbn [Re.split_go].
  - intros [<- | []]. apply contains_of_prefix, prefix_app.
  - destruct skip as [| n].
    + destruct (match_len r prev (String c s)) as [[| k] |] eqn:Hm.
      * intros Hin. apply (IH 0 (snoc cur c) (Some c) (or_introl eq_refl)) in Hin.
        unfold snoc in Hin. now rewrite sapp_assoc in Hin.
      * intros [<- | Hin]; [apply contains_of_prefix, prefix_app |].
        apply (IH k EmptyString (Some c) (or_intror eq_refl)) in Hin.
        apply contains_suffix_app. now apply contains_cons.
      * intros Hin. apply (IH 0 (snoc cur c) (Some c) (or_introl eq_refl)) in Hin.
        unfold snoc in Hin. now rewrite sapp_assoc in Hin.
    + destruct Hinv as [Hz | ->]; [discriminate |].
      intros Hin. apply (IH n EmptyString (Some c) (or_intror eq_refl)) in Hin.
      now apply contains_cons.
Qed.

Lemma split_pieces (r : regex) (s piece : string) :
  In piece (Re.split r s) -> contains piece s = true.
Proof. intros Hin. now apply (split_go_pieces r 0 EmptyString None s piece (or_introl eq_refl)). Qed.

(** *** Replacing runs of line feeds *)

Lemma prefix_nl_head (w rest : string) :
  one_line w = true -> String.prefix w (String nl rest) = true -> w = EmptyString.
Proof.
  destruct w as [| e w]; [reflexivity |]. unfold one_line. simpl.
  intros Hw Hp. apply andb_true_iff in Hw as [He _]. apply negb_true_iff in He.
  destruct (ascii_dec e nl) as [-> | _]; [| discriminate].
  rewrite Ascii.eqb_refl in He. discriminate.
Qed.

Lemma sub_go_lines_prefix (r : regex) (w : string) (prev : option ascii) (s : string) :
  one_line w = true ->
  String.prefix w (sub_go r (fun _ => (NL ++ NL)%string) 0 prev s) = true ->
  String.prefix w s = true.
Proof.
  revert w prev. induction s as [| c s IH]; intros w prev Hw; cbn [sub_go]; [trivial |].
  assert (Hkeep : String.prefix w (String c (sub_go r (fun _ => (NL ++ NL)%string) 0 (Some c) s))
                  = true -> String.prefix w (String c s) = true).
  { destruct w as [| e w]; [reflexivity |]. simpl.
    destruct (ascii_dec e c); [| discriminate].
    unfold one_line in Hw. simpl in Hw. apply andb_true_iff in Hw as [_ Hw]. now apply IH. }
  destruct (match_len r prev (String c s)) as [[| k] |]; try exact Hkeep.
  intros Hp. change (NL ++ NL ++ ?x)%string with (String nl (String nl x)) in Hp.
  now rewrite (prefix_nl_head w _ Hw Hp).
Qed.

Lemma contains_nl_head (w rest : string) :
  truthy w = true -> one_line w = true ->
  contains w (String nl rest) = true -> contains w rest = true.
Proof.
  intros Hne Hw H. cbn [contains] in H. apply orb_true_iff in H as [H | H]; [| exact H].
  apply (prefix_nl_head w rest Hw) in H. subst w. discriminate.
Qed.

Lemma sub_go_lines_contains (r : regex) (w : string) (skip : nat) (prev : option ascii)
    (s : string) :
  truthy w = true -> one_line w = true ->
  contains w (sub_go r (fun _ => (NL ++ NL)%string) skip prev s) = true ->
  contains w s = true.
Proof.
  intros Hne Hw. revert skip prev. induction s as [| c s IH]; intros skip prev.
  - cbn [sub_go]. trivial.
  - destruct skip as [| n].
    + assert (Hkeep : sub_go r (fun _ => (NL ++ NL)%string) 0 prev (String c s)
                      = String c (sub_go r (fun _ => (NL ++ NL)%string) 0 (Some c) s) ->
                      contains w (sub_go r (fun _ => (NL ++ NL)%string) 0 prev (String c s))
                      = true -> contains w (String c s) = true).
      { intros Heq H. pose proof H as H'. rewrite Heq in H'. cbn [contains] in H'.
        apply orb_true_iff in H' as [Hp | Hc].
        - apply contains_of_prefix.
          apply (sub_go_lines_prefix r w prev (String c s) Hw). now rewrite Heq.
        - apply contains_cons. now apply IH in Hc. }
      destruct (match_len r prev (String c s)) as [[| k] |] eqn:Hm.
      * apply Hkeep. cbn [sub_go]. now rewrite Hm.
      * cbn [sub_go]. rewrite Hm.
        change (NL ++ NL ++ ?x)%string with (String nl (String nl x)).
        intros H. apply (contains_nl_head w _ Hne Hw) in H.
        apply (contains_nl_head w _ Hne Hw) in H.
        apply contains_cons. now apply IH in H.
      * apply Hkeep. cbn [sub_go]. now rewrite Hm.
    + cbn [sub_go]. intros H. apply contains_cons. now apply IH in H.
Qed.

(** *** What [sanitize_output] lets through *)

Lemma contains_blocks (w b0 : string) (later : list string) :
  truthy w = true -> one_line w = true ->
  contains w (b0 ++ NL ++ join NL later)%string = true ->
  exists b, In b (b0 :: later) /\ contains w b = true.
Proof.
  intros Hne Hw H.
  change (b0 ++ NL ++ join NL later)%string with (b0 ++ String nl (join NL later))%string in H.
  destruct (contains_around_sep w b0 nl _ Hne Hw H) as [Hb | Hrest].
  - exists b0. split; [now left | exact Hb].
  - destruct (contains_join_lines w later Hne Hw Hrest) as [b [Hin Hc]].
    exists b. split; [now right | exact Hc].
Qed.

(** A piece of one line of the result of [sanitize_output] is a piece of a
    line the filter has kept. *)
Lemma sanitize_output_pieces (cfg : Config) (text w : string) :
  truthy w = true -> one_line w = true ->
  contains w (sanitize_output cfg text) = true ->
  exists ln, In ln (map rstrip (splitlines text))
             /\ sanitize_keeps cfg ln = true /\ contains w ln = true.
Proof.
  intros Hne Hw. unfold sanitize_output. cbv zeta.
  set (keep := filter (sanitize_keeps cfg) (map rstrip (splitlines text))).
  set (out1 := strip (join NL keep)).
  assert (Hout1 : forall v, truthy v = true -> one_line v = true -> contains v out1 = true ->
                    exists ln, In ln (map rstrip (splitlines text))
                               /\ sanitize_keeps cfg ln = true /\ contains v ln = true).
  { intros v Hv1 Hv2 Hv. unfold out1 in Hv.
    apply (contains_trans v _ (join NL keep)) in Hv; [| apply contains_strip].
    destruct (contains_join_lines v keep Hv1 Hv2 Hv) as [ln [Hin Hc]].
    apply filter_In in Hin as [Hin Hkeep]. now exists ln. }
  intros H.
  assert (H2 : contains w
                 (match Re.split LIST_BREAK_PAT out1 with
                  | b0 :: (_ :: _) as later => (b0 ++ NL ++ join NL (filter later_block_kept later))%string
                  | _ => out1
                  end) = true).
  { apply (sub_go_lines_contains (at_least (is_char nl) 3) w 0 None _ Hne Hw).
    eapply contains_trans; [exact H | apply contains_strip]. }
  clear H.
  destruct (Re.split LIST_BREAK_PAT out1) as [| b0 [| b1 later]] eqn:Hsplit;
    [now apply Hout1 | now apply Hout1 |].
  destruct (contains_blocks w b0 _ Hne Hw H2) as [b [Hin Hc]].
  apply Hout1; [exact Hne | exact Hw |].
  apply contains_trans with b; [exact Hc |]. apply split_pieces with LIST_BREAK_PAT.
  rewrite Hsplit. destruct Hin as [<- | Hin]; [now left |].
  right. apply filter_In in Hin. tauto.
Qed.

End Sanitizer_lines.
Section Sanitizer_phrases.

(** *** Lower case and pieces *)

Lemma smap_app_inv (f : ascii -> ascii) (s a b : string) :
  smap f s = (a ++ b)%string ->
  exists a0 b0, s = (a0 ++ b0)%string /\ smap f a0 = a /\ smap f b0 = b.
Proof.
  revert s. induction a as [| c a IH]; intros s H.
  - exists EmptyString, s. repeat split. exact H.
  - destruct s as [| d s]; [discriminate |]. simpl in H. injection H as Hc Hs.
    destruct (IH s Hs) as [a0 [b0 [-> [Ha Hb]]]].
    exists (String d a0), b0. simpl. now rewrite Hc, Ha, Hb.
Qed.

Lemma contains_lower_inv (w s : string) :
  contains w (lower s) = true -> exists w0, lower w0 = w /\ contains w0 s = true.
Proof.
  intros H. apply contains_iff in H as [a [b H]]. unfold lower in *.
  apply smap_app_inv in H as [a0 [r [-> [Ha Hr]]]].
  apply smap_app_inv in Hr as [w0 [b0 [-> [Hw Hb]]]].
  exists w0. split; [exact Hw | apply contains_app].
Qed.

Lemma contains_lower (w s : string) :
  contains w s = true -> contains (lower w) (lower s) = true.
Proof.
  intros H. apply contains_iff in H as [a [b ->]]. unfold lower.
  rewrite !smap_app. apply contains_app.
Qed.

Lemma to_lower_nl (c : ascii) : Ascii.eqb (to_lower c) nl = Ascii.eqb c nl.
Proof. destruct c as [[] [] [] [] [] [] [] []]; reflexivity. Qed.

Lemma one_line_lower (w : string) : one_line (lower w) = one_line w.
Proof.
  unfold one_line, lower. induction w as [| c w IH]; simpl; [reflexivity |].
  now rewrite to_lower_nl, IH.
Qed.

(** *** A stripped phrase inside a stripped line *)

Lemma contains_empty (p : string) : truthy p = true -> contains p EmptyString = false.
Proof. destruct p; [discriminate | reflexivity]. Qed.

Lemma drop_while_length (f : ascii -> bool) (s : string) :
  String.length (drop_while f s) <= String.length s.
Proof.
  induction s as [| c s IH]; simpl; [lia |]. destruct (f c); simpl; lia.
Qed.

Lemma stripped_ends (p : string) :
  strip p = p -> drop_while is_space p = p /\ drop_while_end is_space p = p.
Proof.
  intros Hp. unfold strip, lstrip, rstrip in Hp.
  destruct (drop_while_end_prefix is_space p) as [b Hb].
  destruct (drop_while_suffix is_space (drop_while_end is_space p)) as [a Ha].
  rewrite Hp in Ha.
  assert (Hlen : String.length p = String.length a + String.length p + String.length b).
  { rewrite Hb at 1. rewrite Ha at 1. rewrite !length_sapp. lia. }
  assert (a = EmptyString) by (destruct a; [reflexivity | simpl in Hlen; lia]).
  assert (b = EmptyString) by (destruct b; [reflexivity | simpl in Hlen; lia]).
  subst a b. simpl in Ha. rewrite Ha in Hp. split; [exact Hp | exact Ha].
Qed.

Lemma drop_while_end_app (f : ascii -> bool) (x y : string) :
  drop_while_end f (x ++ y)%string
  = if is_empty (drop_while_end f y) then drop_while_end f x
    else (x ++ drop_while_end f y)%string.
Proof.
  induction x as [| c x IH]; cbn [append drop_while_end].
  - destruct (drop_while_end f y); reflexivity.
  - rewrite IH. destruct (is_empty (drop_while_end f y)) eqn:E; [reflexivity |].
    destruct (x ++ drop_while_end f y)%string eqn:E'; [| reflexivity].
    destruct x; [simpl in E'; rewrite E' in E; discriminate | discriminate].
Qed.

Lemma contains_rstrip (p s : string) :
  truthy p = true -> drop_while_end is_space p = p ->
  contains p s = true -> contains p (rstrip s) = true.
Proof.
  intros Hne Hp. unfold rstrip. induction s as [| c s IH]; intros H.
  - now rewrite contains_empty in H.
  - cbn [contains] in H. apply orb_true_iff in H as [H | H].
    + apply prefix_split in H as [v Hv]. rewrite Hv, drop_while_end_app, Hp.
      destruct (is_empty (drop_while_end is_space v));
        apply contains_of_prefix; [apply prefix_refl | apply prefix_app].
    + specialize (IH H). cbn [drop_while_end].
      destruct (drop_while_end is_space s) as [| d r] eqn:E.
      * now rewrite contains_empty in IH.
      * cbn [is_empty andb]. now apply contains_cons.
Qed.

Lemma contains_lstrip (p s : string) :
  truthy p = true -> drop_while is_space p = p ->
  contains p s = true -> contains p (lstrip s) = true.
Proof.
  intros Hne Hp. unfold lstrip. induction s as [| c s IH]; intros H; [exact H |].
  cbn [drop_while]. destruct (is_space c) eqn:Hc; [| exact H].
  apply IH. cbn [contains] in H. apply orb_true_iff in H as [H | H]; [| exact H].
  exfalso. destruct p as [| h p]; [discriminate |]. simpl in H.
  destruct (ascii_dec h c) as [-> | _]; [| discriminate].
  simpl in Hp. rewrite Hc in Hp.
  pose proof (drop_while_length is_space p) as Hlen. rewrite Hp in Hlen. simpl in Hlen. lia.
Qed.

Lemma contains_in_strip (p s : string) :
  truthy p = true -> strip p = p -> contains p s = true -> contains p (strip s) = true.
Proof.
  intros Hne Hp H. destruct (stripped_ends p Hp) as [Hl Hr].
  unfold strip. apply contains_lstrip; [exact Hne | exact Hl |].
  now apply contains_rstrip.
Qed.

(** *** A search for one of several words *)

Lemma rmatch_lit_ci_self {A : Type} (w : string) (prev : option ascii) (rest : string)
    (k : option ascii -> string -> option A) :
  exists prev', rmatch (lit_ci w) prev (w ++ rest)%string k = k prev' rest.
Proof.
  revert prev. induction w as [| c w IH]; intros prev.
  - exists prev. reflexivity.
  - cbn [lit_ci rmatch append]. unfold is_char_ci at 1. rewrite Ascii.eqb_refl. apply IH.
Qed.

Lemma rmatch_alts_in {A : Type} (rs : list regex) (r : regex) (prev : option ascii)
    (s : string) (k : option ascii -> string -> option A) (x : A) :
  In r rs -> rmatch r prev s k = Some x -> exists y, rmatch (alts rs) prev s k = Some y.
Proof.
  induction rs as [| r0 rs IH]; [intros [] |].
  intros Hin Hr. destruct rs as [| r1 rs].
  - destruct Hin as [-> | []]. exists x. exact Hr.
  - change (alts (r0 :: r1 :: rs)) with (Alt r0 (alts (r1 :: rs))). cbn [rmatch].
    destruct (rmatch r0 prev s k) as [y |] eqn:E; [now exists y |].
    destruct Hin as [-> | Hin]; [congruence |]. now apply IH.
Qed.

Lemma search_go_suffix (r : regex) (a b : string) :
  (forall prev, exists x, rmatch r prev b (fun _ rest => Some rest) = Some x) ->
  forall prev before, exists y, search_go r prev before (a ++ b)%string = Some y.
Proof.
  intros Hb. induction a as [| c a IH]; intros prev before.
  - cbn [append]. destruct (Hb prev) as [x Hx].
    destruct b; cbn [search_go]; rewrite Hx; eexists; reflexivity.
  - cbn [append search_go].
    destruct (rmatch r prev (String c (a ++ b)) _); [eexists; reflexivity | apply IH].
Qed.

(** A string that holds one of the words is found by the alternation of
    the words, under [re.I]. *)
Lemma found_word (ws : list string) (w s : string) :
  In w ws -> contains w s = true -> found (alts (map lit_ci ws)) s = true.
Proof.
  intros Hin H. apply contains_iff in H as [a [b ->]].
  unfold found, search.
  destruct (search_go_suffix (alts (map lit_ci ws)) a (w ++ b) ) with (prev := @None ascii)
                                                                     (before := EmptyString)
    as [y Hy].
  - intros prev.
    destruct (rmatch_lit_ci_self w prev b (fun _ rest => Some rest)) as [prev' Hself].
    apply (rmatch_alts_in (map lit_ci ws) (lit_ci w) prev _ _ b); [now apply in_map | exact Hself].
  - now rewrite Hy.
Qed.

Lemma sanitize_keeps_clean (cfg : Config) (ln : string) :
  sanitize_keeps cfg ln = true ->
  any_in (FORBIDDEN_PHRASES cfg) (strip (lower ln)) = false
  /\ found ESCALATE_PAT (strip (lower ln)) = false.
Proof.
  unfold sanitize_keeps. cbv zeta.
  destruct (any_in (FORBIDDEN_PHRASES cfg) (strip (lower ln))); [discriminate |].
  destruct (found ESCALATE_PAT (strip (lower ln))); [discriminate |]. tauto.
Qed.

(** X22.  What [sanitize_output] never lets through.  Every piece of a line
    of the result is, case apart, a piece of a line of the input that the
    filter has kept.  So the result holds none of the words contact, reach
    out, open a ticket, administrator and support, in any case, and none of
    the configured [FORBIDDEN_PHRASES] that is on one line and has no blank
    at its ends. *)
Theorem sanitize_output_has_no_escalation :
  forall (cfg : Config) (text : string),
    (forall w, truthy w = true -> one_line w = true ->
       contains w (lower (sanitize_output cfg text)) = true ->
       exists ln, In ln (map rstrip (splitlines text))
                  /\ sanitize_keeps cfg ln = true /\ contains w (lower ln) = true)
    /\ (forall e, In e ESCALATION_WORDS ->
          contains e (lower (sanitize_output cfg text)) = false)
    /\ (forall p, In p (FORBIDDEN_PHRASES cfg) ->
          truthy p = true -> one_line p = true -> strip p = p ->
          contains p (lower (sanitize_output cfg text)) = false).
Proof.
  intros cfg text.
  assert (Hpieces : forall w, truthy w = true -> one_line w = true ->
            contains w (lower (sanitize_output cfg text)) = true ->
            exists ln, In ln (map rstrip (splitlines text))
                       /\ sanitize_keeps cfg ln = true /\ contains w (lower ln) = true).
  { intros w Hne Hw H. apply contains_lower_inv in H as [w0 [<- H]].
    unfold lower in Hne at 1. rewrite truthy_smap in Hne. rewrite one_line_lower in Hw.
    destruct (sanitize_output_pieces cfg text w0 Hne Hw H) as [ln [Hin [Hkeep Hc]]].
    exists ln. split; [exact Hin | split; [exact Hkeep | now apply contains_lower]]. }
  split; [exact Hpieces | split].
  - intros e He.
    destruct (contains e (lower (sanitize_output cfg text))) eqn:E; [| reflexivity].
    exfalso.
    assert (Hshape : truthy e = true /\ one_line e = true /\ strip e = e).
    { unfold ESCALATION_WORDS in He. simpl in He.
      destruct He as [<- | [<- | [<- | [<- | [<- | []]]]]]; repeat split. }
    destruct Hshape as [Hne [Hw Hs]].
    destruct (Hpieces e Hne Hw E) as [ln [_ [Hkeep Hc]]].
    apply sanitize_keeps_clean in Hkeep as [_ Hesc].
    apply (contains_in_strip e _ Hne Hs) in Hc.
    change ESCALATE_PAT with (alts (map lit_ci ESCALATION_WORDS)) in Hesc.
    rewrite (found_word ESCALATION_WORDS e _ He Hc) in Hesc. discriminate.
  - intros p Hp Hne Hw Hs.
    destruct (contains p (lower (sanitize_output cfg text))) eqn:E; [| reflexivity].
    exfalso.
    destruct (Hpieces p Hne Hw E) as [ln [_ [Hkeep Hc]]].
    apply sanitize_keeps_clean in Hkeep as [Hforb _].
    apply (contains_in_strip p _ Hne Hs) in Hc.
    unfold any_in in Hforb.
    assert (Hex : existsb (fun q => contains q (strip (lower ln))) (FORBIDDEN_PHRASES cfg) = true).
    { apply existsb_exists. exists p. split; [exact Hp | exact Hc]. }
    congruence.
Qed.

(** A reply that sends the user to support, with the defaults of kb.py. *)
Lemma sanitize_output_has_no_escalation_witness :
  contains "consult administrator"
    (lower (sanitize_output default_config
              (join NL ["1. Open the file"; "2. Consult Administrator"; "Reach out to IT"])))
  = false.
Proof.
  destruct (sanitize_output_has_no_escalation default_config
              (join NL ["1. Open the file"; "2. Consult Administrator"; "Reach out to IT"]))
    as [_ [_ H]].
  apply H; [vm_compute; tauto | reflexivity | reflexivity | reflexivity].
Defined.

End Sanitizer_phrases.
Section Routing.

Lemma greeting_found (g rest : string) :
  In g ["hi"; "hello"; "hey"] -> word_at (head rest) = false ->
  found GREETING_PAT (g ++ rest)%string = true.
Proof.
  intros Hg Hrest. unfold found, search. simpl in Hg.
  destruct Hg as [<- | [<- | [<- | []]]];
    cbn -[word_at head]; unfold at_wordb; rewrite Hrest; reflexivity.
Qed.

(** X23.  [route_intent] looks at the text stripped and in lower case
    only, and answers chitchat, creator, kb or general.  A greeting wins
    over every other cue: a text that starts with hi, hello or hey as a word
    is chitchat whatever follows, an error code included.  A text that
    names confluence or atlassian.net is never general, and a blank text
    always is. *)
Theorem route_intent_laws :
  forall text : string,
    let t := lower (strip text) in
    route_intent t = route_intent text
    /\ In (route_intent text) ["chitchat"; "creator"; "kb"; "general"]
    /\ (forall g rest,
          In g ["hi"; "hello"; "hey"] -> t = (g ++ rest)%string ->
          word_at (head rest) = false -> route_intent text = "chitchat")
    /\ (contains "confluence" t = true \/ contains "atlassian.net" t = true ->
        route_intent text <> "general")
    /\ (all_chars is_space text = true -> route_intent text = "general").
Proof.
  intros text t. split; [| split; [| split; [| split]]].
  - unfold route_intent. cbv zeta. unfold t. now rewrite lower_strip_idem.
  - unfold route_intent. cbv zeta. fold t.
    destruct (found GREETING_PAT t); [simpl; tauto |].
    destruct (found CREATOR_PAT t || is_creator_query t); [simpl; tauto |].
    destruct (contains "confluence" t || contains "atlassian.net" t || found ATLASSIAN_URL_PAT t);
      [simpl; tauto |].
    destruct (found KB_CUE_PAT t); [simpl; tauto |].
    destruct (found UI_VISIBILITY_RE t); simpl; tauto.
  - intros g rest Hg Ht Hrest. unfold route_intent. cbv zeta. fold t.
    rewrite Ht, (greeting_found g rest Hg Hrest). reflexivity.
  - intros Hkb. unfold route_intent. cbv zeta. fold t.
    destruct (found GREETING_PAT t); [discriminate |].
    destruct (found CREATOR_PAT t || is_creator_query t); [discriminate |].
    replace (contains "confluence" t || contains "atlassian.net" t || found ATLASSIAN_URL_PAT t)
      with true; [discriminate |].
    destruct Hkb as [-> | ->]; [reflexivity |]. now rewrite orb_true_r.
  - intros Hblank. unfold route_intent. cbv zeta.
    assert (Hstrip : strip text = EmptyString).
    { pose proof (truthy_strip text) as H. rewrite Hblank in H.
      destruct (strip text); [reflexivity | discriminate]. }
    rewrite Hstrip. vm_compute. reflexivity.
Qed.

(** A greeting followed by an error code. *)
Lemma route_intent_laws_witness : route_intent "Hi, I get ORA-12154" = "chitchat".
Proof.
  destruct (route_intent_laws "Hi, I get ORA-12154") as [_ [_ [H _]]].
  apply (H "hi" ", i get ora-12154"); [simpl; tauto | reflexivity | reflexivity].
Defined.

End Routing.
Section App_answers.

Lemma sub_go_keeps_chars (q : ascii -> bool) (r : regex) (f : string -> string) :
  (forall m, all_chars q (f m) = true) ->
  forall skip prev s, all_chars q s = true -> all_chars q (sub_go r f skip prev s) = true.
Proof.
  intros Hf skip prev s. revert skip prev.
  induction s as [| c s IH]; intros skip prev Hs; cbn [sub_go]; [reflexivity |].
  simpl in Hs. apply andb_true_iff in Hs as [Hc Hs].
  destruct skip as [| k]; [| now apply IH].
  destruct (match_len r prev (String c s)) as [[| n] |].
  - cbn [all_chars]. now rewrite Hc, IH.
  - now rewrite all_chars_app, Hf, IH.
  - cbn [all_chars]. now rewrite Hc, IH.
Qed.

Lemma splitlines_go_chars_n (q : ascii -> bool) (n : nat) (cur s : string) :
  String.length s <= n ->
  all_chars q cur = true -> all_chars q s = true ->
  Forall (fun ln => all_chars q ln = true) (splitlines_go cur s).
Proof.
  revert cur s. induction n as [| n IH]; intros cur s Hn Hcur Hs.
  - destruct s; [| simpl in Hn; lia]. cbn [splitlines_go]. unfold flush.
    destruct (is_empty cur); repeat constructor. exact Hcur.
  - destruct s as [| c s]; cbn [splitlines_go].
    + unfold flush. destruct (is_empty cur); repeat constructor. exact Hcur.
    + simpl in Hs, Hn. apply andb_true_iff in Hs as [Hc Hs].
      destruct (is_linebreak c).
      * destruct (Ascii.eqb c cr).
        -- destruct s as [| d s']; [repeat constructor; exact Hcur |].
           simpl in Hs, Hn. apply andb_true_iff in Hs as [Hd Hs'].
           destruct (Ascii.eqb d nl); constructor; try exact Hcur.
           ++ apply IH; [lia | reflexivity | exact Hs'].
           ++ apply IH; [simpl; lia | reflexivity | simpl; now rewrite Hd, Hs'].
        -- constructor; [exact Hcur |]. apply IH; [lia | reflexivity | exact Hs].
      * apply IH; [lia | | exact Hs]. now rewrite all_chars_snoc, Hcur, Hc.
Qed.

Lemma splitlines_chars (q : ascii -> bool) (s : string) :
  all_chars q s = true -> Forall (fun ln => all_chars q ln = true) (splitlines s).
Proof. intros Hs. now apply (splitlines_go_chars_n q (String.length s)). Qed.

Lemma all_chars_piece (q : ascii -> bool) (w s : string) :
  contains w s = true -> all_chars q s = true -> all_chars q w = true.
Proof.
  intros Hc Hs. apply contains_iff in Hc as [a [b ->]].
  rewrite !all_chars_app in Hs. apply andb_true_iff in Hs as [_ Hs].
  now apply andb_true_iff in Hs as [Hw _].
Qed.

Lemma all_chars_strip (q : ascii -> bool) (s : string) :
  all_chars q s = true -> all_chars q (strip s) = true.
Proof. apply all_chars_piece, contains_strip. Qed.

Lemma all_chars_join (q : ascii -> bool) (sep : string) (xs : list string) :
  all_chars q sep = true -> Forall (fun x => all_chars q x = true) xs ->
  all_chars q (join sep xs) = true.
Proof.
  intros Hsep Hxs. induction Hxs as [| x xs Hx Hxs IH]; [reflexivity |].
  destruct xs as [| y xs]; [exact Hx |].
  change (join sep (x :: y :: xs)) with (x ++ sep ++ join sep (y :: xs))%string.
  now rewrite !all_chars_app, Hx, Hsep, IH.
Qed.

Lemma all_chars_slice (q : ascii -> bool) (n : Z) (s : string) :
  all_chars q s = true -> all_chars q (str_slice_to n s) = true.
Proof. intros Hs. unfold str_slice_to. destruct (n <? 0)%Z; now apply all_chars_take. Qed.

(** The text [post_process_answer] of app.py returns holds no asterisk, no
    underscore and no backquote. *)
Lemma app_post_process_plain (cfg : Config) (raw : string) :
  all_chars plain_char (app_post_process_answer cfg raw) = true.
Proof.
  unfold app_post_process_answer. cbv zeta.
  set (raw1 := hd EmptyString (Re.split SOURCE_PAT raw)).
  set (raw2 := Re.sub (Chr (one_of "*_`")) EmptyString raw1).
  assert (H2 : all_chars plain_char raw2 = true).
  { unfold raw2, Re.sub, sub_with. apply sub_go_all_chars; [reflexivity |].
    intros prev c s. rewrite match_len_chr. unfold plain_char, one_of.
    destruct (in_chars c "*_`"); [right; now exists 0 | now left]. }
  set (raw3 := Re.sub (plus (is_char " ")) " " raw2).
  assert (H3 : all_chars plain_char raw3 = true).
  { unfold raw3, Re.sub, sub_with. apply sub_go_keeps_chars; [reflexivity | exact H2]. }
  set (raw4 := Re.sub _ NL raw3).
  assert (H4 : all_chars plain_char raw4 = true).
  { unfold raw4, Re.sub, sub_with. apply sub_go_keeps_chars; [reflexivity | exact H3]. }
  set (out := join NL _).
  assert (Hout : all_chars plain_char out = true).
  { unfold out. apply all_chars_join; [reflexivity |].
    apply Forall_forall. intros ln Hln. apply in_map_iff in Hln as [ln0 [<- Hln0]].
    apply filter_In in Hln0 as [Hln0 _]. apply all_chars_strip.
    pose proof (splitlines_chars plain_char raw4 H4) as Hall.
    rewrite Forall_forall in Hall. now apply Hall. }
  destruct (0 <=? MAX_ANSWER_CHARS cfg)%Z; [| exact Hout].
  destruct (MAX_ANSWER_CHARS cfg <? Z.of_nat (String.length out))%Z; [| exact Hout].
  rewrite all_chars_app, (all_chars_slice _ _ _ Hout). reflexivity.
Qed.

End App_answers.

Section App_answers_end_to_end.

Context {F : Fuzz} {L : Llm}.
Variable cfg : Config.

(** X24.  The answers of app.py hold no markup character: whatever the
    knowledge base, the query and the reply of the formatter,
    [post_process_answer] of app.py returns a text without asterisk,
    underscore and backquote, and so does [answer_from_kb] of app.py; an
    underscore of the knowledge-base text, in a file name or an identifier,
    is removed with the others. *)
Theorem app_answers_have_no_markup :
  forall (kb : KB) (query raw : string),
    all_chars plain_char (app_post_process_answer cfg raw) = true
    /\ (forall ok ans sources,
          app_answer_from_kb cfg kb query = Some (ok, ans, sources) ->
          all_chars plain_char ans = true).
Proof.
  intros kb query raw. split; [apply app_post_process_plain |].
  intros ok ans sources. unfold app_answer_from_kb. cbv zeta.
  assert (Hfb : forall q, app_sections_fallback cfg kb q = Some (ok, ans, sources) ->
                          all_chars plain_char ans = true).
  { intros q. unfold app_sections_fallback.
    destruct (KB_SECTIONS kb) as [| sec0 secs]; [intros H; now injection H as _ <- _ |].
    destruct (app_answer_sections cfg kb q) as [[a srcs0] |] eqn:Hans; [| discriminate].
    assert (Ha : all_chars plain_char a = true).
    { unfold app_answer_sections in Hans.
      destruct (top_chunks cfg kb q) as [[chunks srcs] |]; [| discriminate].
      cbv zeta in Hans.
      destruct (truthy (app_synthesize_from_chunks cfg q chunks)); injection Hans as <- _;
        apply app_post_process_plain. }
    destruct (truthy (strip a)); intros H; injection H as _ <- _; [exact Ha | reflexivity]. }
  destruct (app_get_row_candidates cfg kb _ 12) as [[| [[sc0 i0] item0] rest] |];
    [apply Hfb | | discriminate].
  destruct (Rle_dec (ROW_SCORE_MIN cfg) sc0); [| apply Hfb].
  intros H. injection H as _ <- _. unfold app_row_answer. apply app_post_process_plain.
Qed.

End App_answers_end_to_end.

Section App_answers_examples.

(** A remedy that names a file with an underscore. *)
Lemma app_answers_have_no_markup_witness :
  app_post_process_answer app_default_config "Edit `tnsnames_ora` and *restart*"
  = "Edit tnsnamesora and restart"
  /\ all_chars plain_char
       (app_post_process_answer app_default_config "Edit `tnsnames_ora` and *restart*") = true.
Proof.
  split; [reflexivity |].
  apply (@app_answers_have_no_markup exact_fuzz silent_llm app_default_config
           (preload_knowledge []) "").
Defined.

End App_answers_examples.
(* ================================================================== *)
(** ** The crawl loop of [preload_knowledge] *)
(* ================================================================== *)

Section Crawl.

Variable fetch : string -> Fetched.

Lemma collect_pages_seen_all (seen : list string) (refs : list PageRef) :
  (forall r, In r refs -> In (ref_page_id r) seen) ->
  collect_pages fetch seen refs = [].
Proof.
  induction refs as [| r refs IH]; intros Hall; [reflexivity |].
  cbn [collect_pages]. cbv zeta.
  rewrite (proj2 (mem_In _ _) (Hall r (or_introl eq_refl))).
  apply IH. intros r' Hr'. apply Hall. now right.
Qed.

Lemma collect_pages_app (refs extra : list PageRef) : forall seen,
  (forall r, In r extra -> In (ref_page_id r) (seen ++ map ref_page_id refs)) ->
  collect_pages fetch seen (refs ++ extra) = collect_pages fetch seen refs.
Proof.
  induction refs as [| r refs IH]; intros seen Hall.
  - cbn [app]. cbn [map] in Hall. rewrite app_nil_r in Hall.
    now rewrite collect_pages_seen_all.
  - cbn [app collect_pages]. cbv zeta.
    assert (Hkeep : forall r', In r' extra -> In (ref_page_id r') (seen ++ map ref_page_id refs)
                                  \/ ref_page_id r' = ref_page_id r).
    { intros r' Hr'. specialize (Hall r' Hr'). cbn [map] in Hall.
      apply in_app_or in Hall. destruct Hall as [H | [H | H]].
      - left. apply in_or_app. now left.
      - now right.
      - left. apply in_or_app. now right. }
    destruct (mem (ref_page_id r) seen) eqn:Hm.
    + apply IH. intros r' Hr'. destruct (Hkeep r' Hr') as [H | H]; [exact H |].
      apply in_or_app. left. rewrite H. now apply mem_In.
    + assert (Hnext : collect_pages fetch (ref_page_id r :: seen) (refs ++ extra)
                      = collect_pages fetch (ref_page_id r :: seen) refs).
      { apply IH. intros r' Hr'. destruct (Hkeep r' Hr') as [H | H].
        - cbn [app]. now right.
        - cbn [app]. left. now symmetry. }
      rewrite Hnext. reflexivity.
Qed.

Lemma collect_pages_length (refs : list PageRef) : forall seen,
  length (collect_pages fetch seen refs)
  <= length (filter (fun i => negb (mem i seen)) (nodup string_dec (map ref_page_id refs))).
Proof.
  induction refs as [| r refs IH]; intros seen; [apply Nat.le_0_l |].
  cbn [collect_pages map nodup]. cbv zeta.
  set (pid := ref_page_id r).
  assert (Hdrop : forall l : list string,
            length (filter (fun i => negb (mem i (pid :: seen))) l)
            <= length (filter (fun i => negb (mem i seen)) l)).
  { induction l as [| x l IHl]; [apply Nat.le_refl |].
    cbn [filter]. change (mem x (pid :: seen)) with (String.eqb x pid || mem x seen).
    destruct (String.eqb x pid); cbn [orb negb];
      destruct (mem x seen); cbn [negb length]; lia. }
  destruct (mem pid seen) eqn:Hm.
  - destruct (in_dec string_dec pid (map ref_page_id refs)) as [Hin | Hout].
    + apply IH.
    + cbn [filter]. rewrite Hm. cbn [negb]. apply IH.
  - assert (Hstep : length (collect_pages fetch (pid :: seen) refs) + 1
                    <= length (filter (fun i => negb (mem i seen))
                                 (if in_dec string_dec pid (map ref_page_id refs)
                                  then nodup string_dec (map ref_page_id refs)
                                  else pid :: nodup string_dec (map ref_page_id refs)))).
    { destruct (in_dec string_dec pid (map ref_page_id refs)) as [Hin | Hout].
      - specialize (IH (pid :: seen)).
        assert (Hstrict : forall l : list string, In pid l ->
                  length (filter (fun i => negb (mem i (pid :: seen))) l) + 1
                  <= length (filter (fun i => negb (mem i seen)) l)).
        { induction l as [| x l IHl]; intros Hl; [destruct Hl |].
          cbn [filter]. change (mem x (pid :: seen)) with (String.eqb x pid || mem x seen).
          destruct (String.eqb_spec x pid) as [-> | Hne].
          - cbn [orb negb]. rewrite Hm. cbn [negb length].
            specialize (Hdrop l). lia.
          - destruct Hl as [Hl | Hl]; [congruence |]. specialize (IHl Hl).
            cbn [orb]. destruct (mem x seen); cbn [negb length]; lia. }
        specialize (Hstrict (nodup string_dec (map ref_page_id refs))
                      (proj2 (nodup_In string_dec _ _) Hin)). lia.
      - cbn [filter]. rewrite Hm. cbn [negb length].
        specialize (IH (pid :: seen)).
        specialize (Hdrop (nodup string_dec (map ref_page_id refs))). lia. }
    destruct (fetch pid) as [msg | text html title url].
    + lia.
    + destruct (negb (truthy (strip text)) && negb (truthy (strip html))); cbn [length]; lia.
Qed.

Lemma collect_pages_In (refs : list PageRef) : forall seen p,
  In p (collect_pages fetch seen refs) ->
  exists ref text html title url,
    In ref refs /\ ~ In (ref_page_id ref) seen /\
    fetch (ref_page_id ref) = FetchPage text html title url /\
    p = {| raw_title := title; raw_url := url_or url (ref_url ref);
           raw_text := strip text; raw_html := strip html |} /\
    (truthy (strip text) = true \/ truthy (strip html) = true).
Proof.
  induction refs as [| r refs IH]; intros seen p Hin; [destruct Hin |].
  cbn [collect_pages] in Hin. cbv zeta in Hin.
  assert (Hrest : forall seen', (forall i, In i seen -> In i seen') ->
            In p (collect_pages fetch seen' refs) ->
            exists ref text html title url,
              In ref (r :: refs) /\ ~ In (ref_page_id ref) seen /\
              fetch (ref_page_id ref) = FetchPage text html title url /\
              p = {| raw_title := title; raw_url := url_or url (ref_url ref);
                     raw_text := strip text; raw_html := strip html |} /\
              (truthy (strip text) = true \/ truthy (strip html) = true)).
  { intros seen' Hsub H. destruct (IH seen' p H) as (ref & t & h & ti & u & H1 & H2 & H3).
    exists ref, t, h, ti, u. split; [now right |]. split; [| exact H3].
    intros Hs. apply H2. now apply Hsub. }
  destruct (mem (ref_page_id r) seen) eqn:Hm.
  - apply (Hrest seen); [auto | exact Hin].
  - assert (Hsub : forall i, In i seen -> In i (ref_page_id r :: seen)) by (intros; now right).
    destruct (fetch (ref_page_id r)) as [msg | text html title url] eqn:Hf.
    + apply (Hrest _ Hsub Hin).
    + destruct (negb (truthy (strip text)) && negb (truthy (strip html))) eqn:Hempty.
      * apply (Hrest _ Hsub Hin).
      * destruct Hin as [Hp | Hin]; [| apply (Hrest _ Hsub Hin)].
        exists r, text, html, title, url. split; [now left |]. split.
        { intros Hs. apply mem_In in Hs. congruence. }
        split; [exact Hf |]. split; [now symmetry |].
        destruct (truthy (strip text)); [now left |].
        destruct (truthy (strip html)); [now right | discriminate]. 
Qed.

(** X25.  The crawl loop of [preload_knowledge].  Every page it keeps comes
    from a listed page whose download did not fail; its text and markup are
    stripped and not both empty.  There are at most as many pages as
    distinct page ids in the listing, and listing again a page id that is
    already in the listing changes nothing: a page id is downloaded and kept
    once, also when its first download failed. *)
Theorem crawl_keeps_each_page_once (refs extra : list PageRef) :
  (forall r, In r extra -> In (ref_page_id r) (map ref_page_id refs)) ->
  collect_pages fetch [] (refs ++ extra) = collect_pages fetch [] refs
  /\ length (collect_pages fetch [] refs) <= length (nodup string_dec (map ref_page_id refs))
  /\ forall p, In p (collect_pages fetch [] refs) ->
       strip (raw_text p) = raw_text p /\ strip (raw_html p) = raw_html p
       /\ (raw_text p <> "" \/ raw_html p <> "")
       /\ exists ref text html title url,
            In ref refs /\ fetch (ref_page_id ref) = FetchPage text html title url
            /\ raw_text p = strip text /\ raw_html p = strip html /\ raw_title p = title.
Proof.
  intros Hextra. split; [| split].
  - apply collect_pages_app. exact Hextra.
  - eapply Nat.le_trans; [apply collect_pages_length |].
    rewrite (filter_ext _ (fun _ => true)); [| reflexivity].
    assert (Hall : forall l : list string, filter (fun _ => true) l = l).
    { induction l as [| x l IHl]; [reflexivity | cbn [filter]; now rewrite IHl]. }
    rewrite Hall. apply Nat.le_refl.
  - intros p Hp.
    destruct (collect_pages_In _ _ _ Hp) as (ref & t & h & ti & u & Hin & _ & Hf & -> & Htruthy).
    cbn [raw_text raw_html raw_title].
    split; [apply strip_idem |]. split; [apply strip_idem |]. split.
    + destruct Htruthy as [H | H]; [left | right]; intros He; rewrite He in H; discriminate.
    + exists ref, t, h, ti, u. repeat split; assumption.
Qed.

End Crawl.

Section Crawl_examples.

Lemma crawl_keeps_each_page_once_witness :
  collect_pages crawl_fetch [] (crawl_refs ++ crawl_refs) = collect_pages crawl_fetch [] crawl_refs
  /\ collect_pages crawl_fetch [] crawl_refs
     = [ {| raw_title := "Storage"; raw_url := Some "https://wiki/x/101";
            raw_text := "Disk full"; raw_html := "<p>Disk full</p>" |} ].
Proof.
  split; [| reflexivity].
  apply (crawl_keeps_each_page_once crawl_fetch crawl_refs crawl_refs).
  intros r Hr. apply in_map. exact Hr.
Defined.

End Crawl_examples.
(* ================================================================== *)
(** ** Tables under a header row of [th] cells *)
(* ================================================================== *)

Section Catalog_tables.

(** X26.  A page with one table whose header row has the [th] cells Error,
    Cause and Remedy and whose data rows have three [td] cells each.
    [extract_table_rows_from_html] returns the data rows in the order of the
    table, leaving out those whose cleaned error text is shorter than three
    characters; the header row is no row, and the fields of a row are the
    cleaned texts of its cells.  So the table gives at most as many rows as
    it has data rows, and every error text returned is the cleaned first
    cell of a data row. *)
Theorem th_table_rows_follow_data (data : list (string * string * string)) :
  let rows := extract_table_rows_from_html (document [catalog_table th_header data]) in
  rows = map row_of_texts
           (filter (fun d => 3 <=? String.length (clean_text (fst (fst d)))) data)
  /\ length rows <= length data
  /\ incl (map error rows) (map (fun d => clean_text (fst (fst d))) data)
  /\ (forall row, In row rows -> 3 <= String.length (error row) /\ suggestions row = "").
Proof.
  cbv zeta. rewrite th_header_table_rows.
  set (keep := fun d : string * string * string =>
                 3 <=? String.length (clean_text (fst (fst d)))).
  split; [reflexivity |]. split; [| split].
  - rewrite length_map. apply filter_length_le.
  - intros e He. apply in_map_iff in He. destruct He as (row & <- & Hrow).
    apply in_map_iff in Hrow. destruct Hrow as (d & <- & Hd).
    apply filter_In in Hd. destruct Hd as [Hd _].
    apply in_map_iff. exists d. split; [reflexivity | exact Hd].
  - intros row Hrow. apply in_map_iff in Hrow. destruct Hrow as (d & <- & Hd).
    apply filter_In in Hd. destruct Hd as [_ Hk]. unfold keep in Hk.
    apply Nat.leb_le in Hk. split; [exact Hk | reflexivity].
Qed.

End Catalog_tables.
(* ================================================================== *)
(** ** The handler of a chat page *)
(* ================================================================== *)

Section Handler_store.

Variables (uid cid : string).

Lemma find_has_id (chats : list Chat) (c : Chat) :
  List.find (has_id cid) chats = Some c -> chat_id c = cid.
Proof.
  intros H. apply find_some in H. destruct H as [_ H].
  unfold has_id in H. now apply String.eqb_eq.
Qed.

Lemma find_replace_chat (f : Chat -> Chat) (chats : list Chat) (c : Chat) :
  List.find (has_id cid) chats = Some c -> chat_id (f c) = cid ->
  List.find (has_id cid) (update_chat cid f chats) = Some (f c).
Proof.
  intros Hfind Hid. induction chats as [| c0 chats IH]; simpl in *; [discriminate |].
  destruct (has_id cid c0) eqn:E.
  - injection Hfind as ->. simpl. unfold has_id. now rewrite Hid, String.eqb_refl.
  - simpl. rewrite E. now apply IH.
Qed.

Lemma find_replace_chat_other (f : Chat -> Chat) (chats : list Chat) (c : Chat) (cid' : string) :
  List.find (has_id cid) chats = Some c -> chat_id (f c) = cid -> cid' <> cid ->
  List.find (has_id cid') (update_chat cid f chats) = List.find (has_id cid') chats.
Proof.
  intros Hfind Hid Hne. induction chats as [| c0 chats IH]; simpl in *; [reflexivity |].
  destruct (has_id cid c0) eqn:E.
  - injection Hfind as ->. simpl. unfold has_id in *. rewrite Hid.
    apply String.eqb_eq in E. rewrite E.
    replace (String.eqb cid cid') with false; [reflexivity |].
    symmetry. apply String.eqb_neq. congruence.
  - simpl. destruct (has_id cid' c0); [reflexivity | now apply IH].
Qed.

(** One step of the handler on the chat it holds: the chat object becomes
    [f c], and nothing else of the store changes. *)
Lemma store_step (st : Store) (chats : list Chat) (c : Chat) (f : Chat -> Chat) :
  users_get st uid = Some chats -> List.find (has_id cid) chats = Some c ->
  chat_id (f c) = cid ->
  let st' := users_set st uid (update_chat cid f chats) in
  users_get st' uid = Some (update_chat cid f chats)
  /\ List.find (has_id cid) (update_chat cid f chats) = Some (f c)
  /\ (forall u, u <> uid -> users_get st' u = users_get st u)
  /\ (forall cid', cid' <> cid ->
        snd (_find_chat st' uid cid') = snd (_find_chat st uid cid')).
Proof.
  intros Hget Hfind Hid st'. unfold st'. split; [apply users_get_set_same |].
  split; [now apply find_replace_chat |]. split.
  - intros u Hu. now apply users_get_set_diff.
  - intros cid' Hne. rewrite !find_chat_via_get, users_get_set_same, Hget.
    now apply (find_replace_chat_other f chats c).
Qed.

Lemma bucket_found (st : Store) (chats : list Chat) :
  users_get st uid = Some chats -> _get_user_bucket st uid = (st, chats).
Proof. intros H. unfold _get_user_bucket. now rewrite H. Qed.

Lemma find_chat_found (st : Store) (c : Chat) :
  snd (_find_chat st uid cid) = Some c ->
  exists chats, users_get st uid = Some chats /\ List.find (has_id cid) chats = Some c
                /\ _find_chat st uid cid = (st, Some c).
Proof.
  intros H. rewrite find_chat_via_get in H.
  destruct (users_get st uid) as [chats |] eqn:E; [| discriminate].
  exists chats. split; [reflexivity | split; [exact H |]].
  unfold _find_chat. rewrite (bucket_found _ _ E). now rewrite H.
Qed.

Lemma append_msg_found (st d : Store) (chats : list Chat) (c : Chat)
    (role text : string) (sources : option (list Source)) :
  users_get st uid = Some chats -> List.find (has_id cid) chats = Some c ->
  _append_msg st d uid cid role text sources
  = (users_set st uid (update_chat cid (append_message role text sources) chats),
     users_set st uid (update_chat cid (append_message role text sources) chats)).
Proof.
  intros Hget Hfind. unfold _append_msg. rewrite (bucket_found _ _ Hget), Hfind. reflexivity.
Qed.

Lemma set_title_found (st d : Store) (chats : list Chat) (c : Chat) (t : string) :
  users_get st uid = Some chats -> List.find (has_id cid) chats = Some c ->
  _set_title_if_new st d uid cid t
  = if String.eqb (chat_title c) "New chat" && truthy (strip t)
    then (users_set st uid (update_chat cid (fun c => with_title c (_make_title_from_text t)) chats),
          users_set st uid (update_chat cid (fun c => with_title c (_make_title_from_text t)) chats))
    else (st, d).
Proof.
  intros Hget Hfind. unfold _set_title_if_new. rewrite (bucket_found _ _ Hget), Hfind.
  reflexivity.
Qed.

Lemma current_found (st : Store) (chats : list Chat) (c c0 : Chat) :
  users_get st uid = Some chats -> List.find (has_id cid) chats = Some c ->
  current st uid cid c0 = c.
Proof.
  intros Hget Hfind. unfold current. now rewrite find_chat_via_get, Hget, Hfind.
Qed.

Lemma set_chat_found (st : Store) (chats : list Chat) (c1 : Chat) :
  users_get st uid = Some chats ->
  set_chat st uid cid c1 = users_set st uid (update_chat cid (fun _ => c1) chats).
Proof. intros Hget. unfold set_chat. now rewrite (bucket_found _ _ Hget). Qed.

End Handler_store.
Section Memory_thread.

Lemma same_thread_refl (c : Chat) : same_thread c c.
Proof. unfold same_thread. tauto. Qed.

Lemma same_thread_trans (a b c : Chat) : same_thread a b -> same_thread b c -> same_thread a c.
Proof.
  unfold same_thread. intros (H1 & H2 & H3 & H4) (K1 & K2 & K3 & K4).
  repeat split; congruence.
Qed.

Lemma same_thread_with_memory (c : Chat) (m : Memory) : same_thread c (with_memory c m).
Proof. unfold same_thread. cbn. tauto. Qed.

Lemma same_thread_mem_set (c : Chat) (key value : string) : same_thread c (_mem_set c key value).
Proof. apply same_thread_with_memory. Qed.

Lemma same_thread_mem_forget (c : Chat) (key : string) : same_thread c (_mem_forget c key).
Proof.
  unfold _mem_forget. destruct (chat_memory c) as [m |]; [| apply same_thread_refl].
  destruct (mem_facts m); [apply same_thread_with_memory | apply same_thread_refl].
Qed.

Lemma same_thread_mem_add_note (c : Chat) (text now : string) :
  same_thread c (_mem_add_note c text now).
Proof. apply same_thread_with_memory. Qed.

Lemma same_thread_remember_found (c : Chat) (key : string) (m : option string)
    (st : Chat * list string) :
  same_thread c (fst st) -> same_thread c (fst (remember_found key m st)).
Proof.
  intros H. destruct m as [g |]; [| exact H]. cbn [remember_found remember fst].
  eapply same_thread_trans; [exact H | apply same_thread_mem_set].
Qed.

(** [extract_and_update_memory] changes nothing of a chat but its memory. *)
Lemma extract_same_thread (c : Chat) (now raw_text : string) :
  same_thread c (fst (extract_and_update_memory c now raw_text)).
Proof.
  unfold extract_and_update_memory.
  destruct (is_empty raw_text); [apply same_thread_refl |]. cbv zeta.
  match goal with
  | |- same_thread c (fst (fold_left ?f ?pairs ?st0)) =>
      assert (Hfold : forall kvs st, same_thread c (fst st)
                                     -> same_thread c (fst (fold_left f kvs st)))
  end.
  { induction kvs as [| kv kvs IH]; intros st Hst; [exact Hst |].
    cbn [fold_left]. apply IH. cbn [remember fst].
    eapply same_thread_trans; [exact Hst | apply same_thread_mem_set]. }
  apply Hfold.
  match goal with
  | |- same_thread c (fst (match ?m with Some g => _ | None => ?st end)) =>
      assert (Hst : same_thread c (fst st)); [| destruct m; [| exact Hst]]
  end.
  - match goal with
    | |- same_thread c (fst (match ?m with Some g => _ | None => ?st end)) =>
        assert (Hst : same_thread c (fst st)); [| destruct m; [| exact Hst]]
    end.
    + repeat apply same_thread_remember_found. apply same_thread_refl.
    + cbn [fst]. eapply same_thread_trans; [exact Hst | apply same_thread_mem_forget].
  - cbn [fst]. eapply same_thread_trans; [exact Hst | apply same_thread_mem_add_note].
Qed.

End Memory_thread.
Section Handler_exchange.

Context {F : Fuzz} {L : Llm} {CL : ChatLlm}.
Variable cfg : Config.
Variable CREATOR_NAME : string.
Variable kb : KB.
Variables (uid cid : string).

Lemma last_n_le {A : Type} (m n : nat) (xs : list A) :
  m <= n -> last_n m (last_n n xs) = last_n m xs.
Proof.
  intros Hmn. unfold last_n. rewrite length_skipn, skipn_skipn. f_equal. lia.
Qed.

Lemma display_text_truthy (text image : option string) :
  truthy (display_text text image) = true.
Proof.
  unfold display_text, str_or. cbv zeta.
  destruct (truthy (strip (join " " _))) eqn:E; [exact E |].
  destruct image; reflexivity.
Qed.

Lemma bot_says_exchange (disk st d : Store) (chats : list Chat) (c c0 : Chat) (um : Message)
    (ans : string) (src : list Source) :
  users_get st uid = Some chats -> List.find (has_id cid) chats = Some c ->
  (forall u, u <> uid -> users_get st u = users_get disk u) ->
  (forall cid', cid' <> cid -> snd (_find_chat st uid cid') = snd (_find_chat disk uid cid')) ->
  chat_messages c = last_n 239 (chat_messages c0) ++ [um] ->
  let r := bot_says st d uid cid ans src in
  snd r = Redirect cid
  /\ chat_replaced disk (fst r) uid cid (append_message "bot" ans (Some src) c)
  /\ chat_messages (append_message "bot" ans (Some src) c)
     = last_n 238 (chat_messages c0)
       ++ [um; {| msg_role := "bot"; msg_text := ans; msg_sources := src |}].
Proof.
  intros Hget Hfind Hu Hc Hm r. unfold r, bot_says.
  rewrite (append_msg_found uid cid st d chats c "bot" ans (Some src) Hget Hfind).
  cbn [fst snd].
  destruct (store_step uid cid st chats c (append_message "bot" ans (Some src)) Hget Hfind)
    as (Hget' & Hfind' & Hu' & Hc').
  { rewrite append_message_id. now apply (find_has_id cid chats). }
  split; [reflexivity |]. split.
  - unfold chat_replaced. split; [| split].
    + now rewrite find_chat_via_get, Hget'.
    + intros u Hne. now rewrite Hu', Hu.
    + intros cid' Hne. now rewrite Hc', Hc.
  - rewrite append_message_messages, Hm. cbn [sources_or_nil].
    change 239 with (S 238). rewrite last_n_snoc, (last_n_le 238 (S 238)) by lia.
    rewrite <- app_assoc. reflexivity.
Qed.

(** The first steps of a POST: the message of the user is appended and
    saved, and a new chat gets its title. *)
Lemma chat_post_prefix (disk : Store) (chats : list Chat) (c0 : Chat)
    (text image : option string) :
  users_get disk uid = Some chats -> List.find (has_id cid) chats = Some c0 ->
  let um := {| msg_role := "user"; msg_text := display_text text image; msg_sources := [] |} in
  exists st1 st2 chats2 c2,
    _append_msg disk disk uid cid "user" (display_text text image) (Some []) = (st1, st1)
    /\ _set_title_if_new st1 st1 uid cid (title_text text image) = (st2, st2)
    /\ users_get st2 uid = Some chats2 /\ List.find (has_id cid) chats2 = Some c2
    /\ (forall u, u <> uid -> users_get st2 u = users_get disk u)
    /\ (forall cid', cid' <> cid ->
          snd (_find_chat st2 uid cid') = snd (_find_chat disk uid cid'))
    /\ chat_id c2 = cid
    /\ chat_messages c2 = last_n 239 (chat_messages c0) ++ [um]
    /\ chat_created c2 = chat_created c0
    /\ chat_memory c2 = chat_memory c0
    /\ chat_title c2
       = (if String.eqb (chat_title c0) "New chat" && truthy (strip (title_text text image))
          then _make_title_from_text (title_text text image) else chat_title c0).
Proof.
  intros Hget Hfind um.
  set (c1 := append_message "user" (display_text text image) (Some []) c0).
  set (st1 := users_set disk uid
                (update_chat cid (append_message "user" (display_text text image) (Some []))
                   chats)).
  destruct (store_step uid cid disk chats c0
              (append_message "user" (display_text text image) (Some [])) Hget Hfind)
    as (Hget1 & Hfind1 & Hu1 & Hc1).
  { rewrite append_message_id. now apply (find_has_id cid chats). }
  fold st1 in Hget1, Hu1, Hc1. fold c1 in Hfind1.
  assert (Hid1 : chat_id c1 = cid).
  { unfold c1. rewrite append_message_id. now apply (find_has_id cid chats). }
  assert (Hm1 : chat_messages c1 = last_n 239 (chat_messages c0) ++ [um]).
  { unfold c1. now rewrite append_message_messages. }
  set (new_title := String.eqb (chat_title c0) "New chat"
                    && truthy (strip (title_text text image))).
  set (retitle := fun c => with_title c (_make_title_from_text (title_text text image))).
  set (chats1 := update_chat cid (append_message "user" (display_text text image) (Some []))
                   chats) in *.
  exists st1, (if new_title then users_set st1 uid (update_chat cid retitle chats1) else st1),
         (if new_title then update_chat cid retitle chats1 else chats1),
         (if new_title then retitle c1 else c1).
  split; [apply (append_msg_found uid cid disk disk chats c0 "user" _ (Some []) Hget Hfind) |].
  split.
  { rewrite (set_title_found uid cid st1 st1 _ c1 _ Hget1 Hfind1).
    unfold c1 at 1. change (chat_title (append_message _ _ _ c0)) with (chat_title c0).
    fold new_title. destruct new_title; reflexivity. }
  destruct new_title.
  - destruct (store_step uid cid st1 _ c1 retitle Hget1 Hfind1) as (Hg & Hf & Hu & Hc).
    { exact Hid1. }
    split; [exact Hg | split; [exact Hf | split; [| split]]].
    + intros u Hne. now rewrite Hu, Hu1.
    + intros cid' Hne. now rewrite Hc, Hc1.
    + repeat split; try assumption; reflexivity.
  - split; [exact Hget1 | split; [exact Hfind1 | split; [assumption | split; [assumption |]]]].
    repeat split; try assumption; reflexivity.
Qed.

Lemma chat_post_unfold (disk st1 st2 : Store) (chats chats2 : list Chat) (c0 c2 : Chat)
    (text image : option string) (now : string) :
  users_get disk uid = Some chats -> List.find (has_id cid) chats = Some c0 ->
  _append_msg disk disk uid cid "user" (display_text text image) (Some []) = (st1, st1) ->
  _set_title_if_new st1 st1 uid cid (title_text text image) = (st2, st2) ->
  users_get st2 uid = Some chats2 -> List.find (has_id cid) chats2 = Some c2 ->
  let user_text := strip match text with Some t => t | None => "" end in
  let ocr_txt := match image with Some o => o | None => "" end in
  chat cfg CREATOR_NAME kb disk uid cid (Post text image) now
  = if asks_creator user_text
    then bot_says st2 st2 uid cid ("I was created by " ++ CREATOR_NAME ++ ".")%string []
    else
      let st3 := users_set st2 uid
                   (update_chat cid
                      (fun _ => fst (extract_and_update_memory c2 now
                                       (join " " [user_text; ocr_txt]))) chats2) in
      let chat1 := fst (extract_and_update_memory c2 now (join " " [user_text; ocr_txt])) in
      let updates := snd (extract_and_update_memory c2 now (join " " [user_text; ocr_txt])) in
      let saved := match updates with [] => false | _ => true end in
      let q_for_reasoning := build_context_augmented_query c2 user_text ocr_txt in
      match truthy_answer (memory_answer (current st3 uid cid c0) user_text) with
      | Some mem_ans =>
          bot_says st3 st3 uid cid
            (if saved then (mem_ans ++ NL ++ saved_note updates)%string else mem_ans) []
      | None =>
          match truthy_answer (handle_history_question (current st3 uid cid c0) user_text) with
          | Some hist_ans =>
              bot_says st3 st3 uid cid
                (if saved then (hist_ans ++ NL ++ saved_note updates)%string else hist_ans) []
          | None =>
              let q := str_or q_for_reasoning user_text in
              let fallback :=
                sanitize_output cfg
                  (llm_with_history cfg (current st3 uid cid c0)
                     (str_or q_for_reasoning (str_or user_text (str_or ocr_txt "(no text)")))) in
              let closing (answer : string) :=
                if saved then strip (answer ++ NL ++ NL ++ saved_note updates) else answer in
              if String.eqb (route_intent q) "kb" then
                match answer_from_kb cfg kb q with
                | None => (st3, Failed)
                | Some (ok, answer, sources) =>
                    if negb ok
                       && (contains "confluence" (lower user_text)
                           || contains "atlassian.net" (lower user_text)
                           || found ATLASSIAN_URL_PAT (lower user_text))
                    then bot_says st3 st3 uid cid NO_PAGE_NOTE []
                    else bot_says st3 st3 uid cid
                           (closing (if ok then answer else fallback))
                           (if ok then sources else [])
                end
              else bot_says st3 st3 uid cid (closing fallback) []
          end
      end.
Proof.
  intros Hget Hfind Happ Htitle Hget2 Hfind2 user_text ocr_txt.
  assert (Hfc : _find_chat disk uid cid = (disk, Some c0)).
  { unfold _find_chat. now rewrite (bucket_found uid disk chats Hget), Hfind. }
  unfold chat. rewrite Hfc. cbv zeta.
  change (str_or (strip (join " " (filter truthy
            [strip match text with Some t => t | None => "" end;
             match image with Some _ => CAMERA_NOTE | None => "" end])))
            (str_or match image with Some _ => CAMERA_NOTE | None => "" end ELLIPSIS))
    with (display_text text image).
  change (str_or (strip match text with Some t => t | None => "" end)
                 match image with Some _ => CAMERA_NOTE | None => "" end)
    with (title_text text image).
  rewrite Happ, Htitle.
  rewrite (current_found uid cid st2 chats2 c2 c0 Hget2 Hfind2).
  fold user_text. fold ocr_txt.
  destruct (asks_creator user_text); [reflexivity |].
  destruct (extract_and_update_memory c2 now (join " " [user_text; ocr_txt]))
    as [chat1 updates].
  rewrite (set_chat_found uid cid st2 chats2 _ Hget2).
  cbn [fst snd]. reflexivity.
Qed.

Lemma context_query_of_messages (c c' : Chat) (user_text ocr_text : string) :
  chat_messages c = chat_messages c' ->
  build_context_augmented_query c user_text ocr_text
  = build_context_augmented_query c' user_text ocr_text.
Proof. intros H. unfold build_context_augmented_query. now rewrite H. Qed.

Lemma chat_post_exchange (disk : Store) (chats : list Chat) (c0 : Chat)
    (text image : option string) (now : string) :
  users_get disk uid = Some chats -> List.find (has_id cid) chats = Some c0 ->
  let r := chat cfg CREATOR_NAME kb disk uid cid (Post text image) now in
  let user_text := strip match text with Some t => t | None => "" end in
  let ocr_txt := match image with Some o => o | None => "" end in
  let um := {| msg_role := "user"; msg_text := display_text text image; msg_sources := [] |} in
  let q := str_or (build_context_augmented_query
                     (append_message "user" (display_text text image) (Some []) c0)
                     user_text ocr_txt) user_text in
  exists c',
    chat_replaced disk (fst r) uid cid c'
    /\ chat_created c' = chat_created c0
    /\ chat_title c'
       = (if String.eqb (chat_title c0) "New chat" && truthy (strip (title_text text image))
          then _make_title_from_text (title_text text image) else chat_title c0)
    /\ ((exists ans src,
           snd r = Redirect cid
           /\ chat_messages c'
              = last_n 238 (chat_messages c0)
                ++ [um; {| msg_role := "bot"; msg_text := ans; msg_sources := src |}])
        \/ (snd r = Failed /\ chat_messages c' = last_n 239 (chat_messages c0) ++ [um]))
    /\ (snd r = Failed ->
        asks_creator user_text = false /\ route_intent q = "kb"
        /\ answer_from_kb cfg kb q = None)
    /\ (answer_from_kb cfg kb q <> None -> snd r = Redirect cid).
Proof.
  intros Hget Hfind r user_text ocr_txt um q.
  destruct (chat_post_prefix disk chats c0 text image Hget Hfind)
    as (st1 & st2 & chats2 & c2 & Happ & Htitle & Hget2 & Hfind2 & Hu2 & Hc2 & Hid2 & Hm2
        & Hcr2 & _ & Ht2).
  fold um in Hm2.
  assert (Hq : str_or (build_context_augmented_query c2 user_text ocr_txt) user_text = q).
  { unfold q. f_equal. apply context_query_of_messages.
    rewrite Hm2, append_message_messages. reflexivity. }
  set (title' := if String.eqb (chat_title c0) "New chat"
                    && truthy (strip (title_text text image))
                 then _make_title_from_text (title_text text image) else chat_title c0) in *.
  assert (Hsay : forall st d chats' c ans src,
            users_get st uid = Some chats' -> List.find (has_id cid) chats' = Some c ->
            (forall u, u <> uid -> users_get st u = users_get disk u) ->
            (forall cid', cid' <> cid ->
               snd (_find_chat st uid cid') = snd (_find_chat disk uid cid')) ->
            same_thread c2 c ->
            exists c',
              chat_replaced disk (fst (bot_says st d uid cid ans src)) uid cid c'
              /\ chat_created c' = chat_created c0
              /\ chat_title c' = title'
              /\ ((exists ans' src',
                     snd (bot_says st d uid cid ans src) = Redirect cid
                     /\ chat_messages c'
                        = last_n 238 (chat_messages c0)
                          ++ [um; {| msg_role := "bot"; msg_text := ans'; msg_sources := src' |}])
                  \/ (snd (bot_says st d uid cid ans src) = Failed
                      /\ chat_messages c' = last_n 239 (chat_messages c0) ++ [um]))
              /\ (snd (bot_says st d uid cid ans src) = Failed ->
                  asks_creator user_text = false /\ route_intent q = "kb"
                  /\ answer_from_kb cfg kb q = None)
              /\ (answer_from_kb cfg kb q <> None ->
                  snd (bot_says st d uid cid ans src) = Redirect cid)).
  { intros st d chats' c ans src Hg Hf Hu Hc (Hid & Hti & Hcr & Hms).
    destruct (bot_says_exchange disk st d chats' c c0 um ans src Hg Hf Hu Hc)
      as (Hr & Hrep & Hmsg).
    { now rewrite Hms. }
    exists (append_message "bot" ans (Some src) c).
    split; [exact Hrep |]. split; [cbn; congruence |].
    split; [cbn [append_message with_messages chat_title]; congruence |].
    split; [left; exists ans, src; split; [exact Hr | exact Hmsg] |].
    split; [intros Hfailed; rewrite Hr in Hfailed; discriminate | intros _; exact Hr]. }
  unfold r.
  rewrite (chat_post_unfold disk st1 st2 chats chats2 c0 c2 text image now
             Hget Hfind Happ Htitle Hget2 Hfind2).
  cbv zeta. fold user_text. fold ocr_txt. rewrite Hq.
  destruct (asks_creator user_text) eqn:Hcreator.
  { apply (Hsay st2 st2 chats2 c2); try assumption. apply same_thread_refl. }
  pose proof (extract_same_thread c2 now (join " " [user_text; ocr_txt])) as Hth.
  set (chat1 := fst (extract_and_update_memory c2 now (join " " [user_text; ocr_txt]))) in *.
  destruct (store_step uid cid st2 chats2 c2 (fun _ => chat1) Hget2 Hfind2)
    as (Hget3 & Hfind3 & Hu3 & Hc3).
  { destruct Hth as (Hid & _). now rewrite Hid. }
  set (chats3 := update_chat cid (fun _ => chat1) chats2) in *.
  set (st3 := users_set st2 uid chats3) in *.
  assert (Hu3' : forall u, u <> uid -> users_get st3 u = users_get disk u).
  { intros u Hne. now rewrite Hu3, Hu2. }
  assert (Hc3' : forall cid', cid' <> cid ->
                   snd (_find_chat st3 uid cid') = snd (_find_chat disk uid cid')).
  { intros cid' Hne. now rewrite Hc3, Hc2. }
  rewrite (current_found uid cid st3 chats3 chat1 c0 Hget3 Hfind3).
  destruct (truthy_answer (memory_answer chat1 user_text)) as [mem_ans |].
  { apply (Hsay st3 st3 chats3 chat1); assumption. }
  destruct (truthy_answer (handle_history_question chat1 user_text)) as [hist_ans |].
  { apply (Hsay st3 st3 chats3 chat1); assumption. }
  destruct (String.eqb (route_intent q) "kb") eqn:Hintent.
  - destruct (answer_from_kb cfg kb q) as [[[ok answer] sources] |] eqn:Hkb.
    + destruct (negb ok && _); apply (Hsay st3 st3 chats3 chat1); assumption.
    + exists chat1. cbn [fst snd]. split.
      * unfold chat_replaced. split; [| split; assumption].
        now rewrite find_chat_via_get, Hget3.
      * destruct Hth as (Hid & Hti & Hcr & Hms).
        split; [congruence |]. split; [congruence |].
        split; [right; split; [reflexivity | congruence] |].
        split; [| intros Hsome; now elim Hsome].
        intros _. split; [reflexivity |]. split; [| reflexivity].
        now apply String.eqb_eq.
  - apply (Hsay st3 st3 chats3 chat1); assumption.
Qed.

Lemma is_creator_query_lower (t : string) : is_creator_query (lower t) = is_creator_query t.
Proof.
  unfold is_creator_query. rewrite lower_idem.
  destruct t; reflexivity.
Qed.

(** X27.  What a request to [/chat/<chat_id>] does to the store.  For a
    chat the user does not have the answer is 404 and nothing is written.
    A GET writes nothing and renders the chat with [loading] false.  A POST
    on a chat of the user appends exactly one message of the user, whose
    text is never empty, and then one message of the assistant, keeping at
    most [MAX_HISTORY_MSGS] messages, and redirects to the chat.  The
    message of the user is left without an answer only when the request
    fails, and it fails only when the text does not ask who made the
    assistant, the query is routed to the knowledge base and
    [answer_from_kb] raises on it: whenever [answer_from_kb] returns on the
    query, the handler redirects with both messages saved.  A chat titled
    New chat gets its title from the text; the date of the chat, the other
    chats of the user and the chats of the other users are as before. *)
Theorem chat_handler_appends_one_exchange :
  forall (disk : Store) (req : Request) (now : string),
    let r := chat cfg CREATOR_NAME kb disk uid cid req now in
    match snd (_find_chat disk uid cid) with
    | None => r = (disk, NotFound)
    | Some c0 =>
        match req with
        | Get =>
            fst r = disk
            /\ exists chats,
                 snd r = Rendered chats cid (chat_title c0) (chat_messages c0) false uid
        | Post text image =>
            let user_text := strip match text with Some t => t | None => "" end in
            let ocr_txt := match image with Some o => o | None => "" end in
            let um := {| msg_role := "user"; msg_text := display_text text image;
                         msg_sources := [] |} in
            let q := str_or (build_context_augmented_query
                               (append_message "user" (display_text text image) (Some []) c0)
                               user_text ocr_txt) user_text in
            truthy (display_text text image) = true
            /\ exists c',
                 chat_replaced disk (fst r) uid cid c'
                 /\ chat_created c' = chat_created c0
                 /\ chat_title c'
                    = (if String.eqb (chat_title c0) "New chat"
                          && truthy (strip (title_text text image))
                       then _make_title_from_text (title_text text image)
                       else chat_title c0)
                 /\ ((exists ans src,
                        snd r = Redirect cid
                        /\ chat_messages c'
                           = last_n 238 (chat_messages c0)
                             ++ [um; {| msg_role := "bot"; msg_text := ans;
                                        msg_sources := src |}])
                     \/ (snd r = Failed
                         /\ chat_messages c' = last_n 239 (chat_messages c0) ++ [um]))
                 /\ (snd r = Failed ->
                     asks_creator user_text = false /\ route_intent q = "kb"
                     /\ answer_from_kb cfg kb q = None)
                 /\ (answer_from_kb cfg kb q <> None -> snd r = Redirect cid)
        end
    end.
Proof.
  intros disk req now r.
  destruct (snd (_find_chat disk uid cid)) as [c0 |] eqn:Hfound.
  - destruct (find_chat_found uid cid disk c0 Hfound) as (chats & Hget & Hfind & Hfc).
    destruct req as [| text image].
    + unfold r, chat. rewrite Hfc, (bucket_found uid disk chats Hget). cbn [fst snd].
      split; [reflexivity |]. eexists. reflexivity.
    + cbv zeta. split; [apply display_text_truthy |].
      apply (chat_post_exchange disk chats c0 text image now Hget Hfind).
  - unfold r, chat.
    destruct (_find_chat disk uid cid) as [store found_chat]. cbn [snd] in Hfound.
    now rewrite Hfound.
Qed.

End Handler_exchange.

Section Handler_creator.

Variable cfg : Config.
Variable CREATOR_NAME : string.
Variables (uid cid : string).

(** X28.  The question who made the assistant is answered before anything
    else.  When the text of a POST passes the test of the handler, the
    answer is the line that names [CREATOR_NAME], without sources, whatever
    the knowledge base and the endpoints are; the chat remembers nothing
    more than before, also when the text states a name or an email.  Every
    text that [route_intent] calls creator passes the test. *)
Theorem creator_question_is_answered_first :
  forall (F : Fuzz) (L : Llm) (CL : ChatLlm) (kb : KB)
         (F' : Fuzz) (L' : Llm) (CL' : ChatLlm) (kb' : KB) (disk : Store)
         (text image : option string) (now : string) (c0 : Chat),
    snd (_find_chat disk uid cid) = Some c0 ->
    asks_creator (strip match text with Some t => t | None => "" end) = true ->
    let r := @chat F L CL cfg CREATOR_NAME kb disk uid cid (Post text image) now in
    let um := {| msg_role := "user"; msg_text := display_text text image; msg_sources := [] |} in
    r = @chat F' L' CL' cfg CREATOR_NAME kb' disk uid cid (Post text image) now
    /\ snd r = Redirect cid
    /\ (exists c',
          chat_replaced disk (fst r) uid cid c'
          /\ chat_memory c' = chat_memory c0
          /\ chat_messages c'
             = last_n 238 (chat_messages c0)
               ++ [um; {| msg_role := "bot";
                          msg_text := ("I was created by " ++ CREATOR_NAME ++ ".")%string;
                          msg_sources := [] |}])
    /\ (forall t, route_intent t = "creator" -> asks_creator (strip t) = true).
Proof.
  intros F L CL kb F' L' CL' kb' disk text image now c0 Hfound Hasks r um.
  destruct (find_chat_found uid cid disk c0 Hfound) as (chats & Hget & Hfind & Hfc).
  destruct (chat_post_prefix uid cid disk chats c0 text image Hget Hfind)
    as (st1 & st2 & chats2 & c2 & Happ & Htitle & Hget2 & Hfind2 & Hu2 & Hc2 & Hid2 & Hm2
        & Hcr2 & Hmem2 & Ht2).
  fold um in Hm2.
  assert (Hr : forall (F0 : Fuzz) (L0 : Llm) (CL0 : ChatLlm) (kb0 : KB),
            @chat F0 L0 CL0 cfg CREATOR_NAME kb0 disk uid cid (Post text image) now
            = bot_says st2 st2 uid cid ("I was created by " ++ CREATOR_NAME ++ ".")%string []).
  { intros F0 L0 CL0 kb0.
    rewrite (@chat_post_unfold F0 L0 CL0 cfg CREATOR_NAME kb0 uid cid disk st1 st2 chats chats2
               c0 c2 text image now Hget Hfind Happ Htitle Hget2 Hfind2).
    cbv zeta. now rewrite Hasks. }
  destruct (bot_says_exchange uid cid disk st2 st2 chats2 c2 c0 um
              ("I was created by " ++ CREATOR_NAME ++ ".")%string [] Hget2 Hfind2 Hu2 Hc2 Hm2)
    as (Hredirect & Hrep & Hmsg).
  unfold r. rewrite !Hr.
  split; [reflexivity |]. split; [exact Hredirect |]. split.
  - eexists. split; [exact Hrep |]. split; [exact Hmem2 | exact Hmsg].
  - intros t Ht. unfold route_intent in Ht. cbv zeta in Ht.
    unfold asks_creator. cbv zeta.
    destruct (found GREETING_PAT (lower (strip t))); [discriminate |].
    destruct (found CREATOR_PAT (lower (strip t)) || is_creator_query (lower (strip t))) eqn:E.
    + rewrite is_creator_query_lower in E. now rewrite E.
    + destruct (contains "confluence" (lower (strip t)) || contains "atlassian.net" (lower (strip t))
                || found ATLASSIAN_URL_PAT (lower (strip t))); [discriminate |].
      destruct (found KB_CUE_PAT (lower (strip t))); [discriminate |].
      destruct (found UI_VISIBILITY_RE (lower (strip t))); discriminate.
Qed.

End Handler_creator.

Section Handler_examples.

Lemma creator_question_is_answered_first_witness :
  let r := @chat exact_fuzz silent_llm silent_chat_llm default_config "Saish Naik"
             (preload_knowledge []) store_ann "ann" (chat_id chat_ann)
             (Post (Some "Who made you? My name is Bob") None) "2024-01-02T00:00:00" in
  snd r = Redirect (chat_id chat_ann)
  /\ (exists c',
        chat_replaced store_ann (fst r) "ann" (chat_id chat_ann) c'
        /\ chat_memory c' = chat_memory chat_ann
        /\ chat_messages c'
           = [{| msg_role := "user"; msg_text := "Who made you? My name is Bob";
                 msg_sources := [] |};
              {| msg_role := "bot"; msg_text := "I was created by Saish Naik.";
                 msg_sources := [] |}]).
Proof.
  cbv zeta.
  pose proof (creator_question_is_answered_first default_config "Saish Naik" "ann"
                (chat_id chat_ann) exact_fuzz silent_llm silent_chat_llm (preload_knowledge [])
                exact_fuzz silent_llm silent_chat_llm (preload_knowledge []) store_ann
                (Some "Who made you? My name is Bob") None "2024-01-02T00:00:00" chat_ann
                eq_refl eq_refl) as H.
  cbv zeta in H. destruct H as (_ & Hr & Hc & _). split; [exact Hr | exact Hc].
Defined.

End Handler_examples.
(* ================================================================== *)
(** ** Replies without the knowledge base *)
(* ================================================================== *)

Section Fallback_replies.

Context {CL : ChatLlm}.
Variable cfg : Config.

Lemma general_chat_response_cases (t : string) :
  general_chat_response t
  = if matches HELLO_PAT (strip (lower t)) then "Hello! How can I assist you today?"
    else if contains "how are you" (strip (lower t))
    then "I’m doing well — thanks for asking! What can I help you solve?"
    else "Happy to help! Share your error or question — I’ll search the KB first and fill gaps with general help.".
Proof. reflexivity. Qed.

Lemma general_chat_response_truthy (t : string) : truthy (general_chat_response t) = true.
Proof.
  rewrite general_chat_response_cases.
  destruct (matches HELLO_PAT _); [reflexivity |].
  destruct (contains "how are you" _); reflexivity.
Qed.

(** The default reply has the word or in it, so the filter of
    [sanitize_output] drops its only line. *)
Lemma default_reply_sanitized :
  sanitize_output cfg
    "Happy to help! Share your error or question — I’ll search the KB first and fill gaps with general help."
  = "".
Proof.
  unfold sanitize_output.
  set (line := "Happy to help! Share your error or question — I’ll search the KB first and fill gaps with general help.").
  assert (Hlines : map rstrip (splitlines line) = [line]) by (vm_compute; reflexivity).
  rewrite Hlines. cbn [filter].
  assert (Hdrop : sanitize_keeps cfg line = false).
  { unfold sanitize_keeps. cbv zeta.
    destruct (any_in (FORBIDDEN_PHRASES cfg) (strip (lower line))
              || found ESCALATE_PAT (strip (lower line))); [reflexivity |].
    assert (Halt : found ALT_PAT (strip (lower line)) && negb (matches NUMBERED_PAT line) = true)
      by (vm_compute; reflexivity).
    now rewrite Halt. }
  rewrite Hdrop. vm_compute. reflexivity.
Qed.

Lemma as_llm_message_user (d : string) :
  truthy d = true ->
  as_llm_message {| msg_role := "user"; msg_text := d; msg_sources := [] |} = [("user", d)].
Proof. intros H. unfold as_llm_message. cbn [msg_text msg_role]. now rewrite H. Qed.

Lemma flat_map_as_llm_length (msgs : list Message) :
  length (flat_map as_llm_message msgs) <= length msgs.
Proof.
  induction msgs as [| m msgs IH]; [apply Nat.le_refl |].
  cbn [flat_map]. rewrite length_app. unfold as_llm_message at 1.
  destruct (truthy (msg_text m)); cbn [length]; lia.
Qed.

(** X29.  The reply when the knowledge base has no answer.
    [llm_with_history] never returns the empty string: without the endpoint
    ([USE_LLM] false, no API key, or a failed call) it returns one of the
    three lines of [general_chat_response].  The endpoint gets the last
    twelve messages of the chat at most, and since the handler has appended
    the message of the user before, it gets the text of the user twice, as
    the last message of the history and as the query.  The handler passes
    the reply through [sanitize_output], which drops the default line of
    [general_chat_response], for it holds the word or: without the endpoint,
    a text that is no greeting is answered with the empty string. *)
Theorem fallback_reply_is_sanitized_away :
  forall (c : Chat) (q : string),
    truthy (llm_with_history cfg c q) = true
    /\ llm_with_history cfg c q
       = llm_with_history cfg (with_messages c (last_n 12 (chat_messages c))) q
    /\ (llm_enabled cfg = false -> llm_with_history cfg c q = general_chat_response q)
    /\ (forall d, truthy d = true -> llm_enabled cfg = true ->
          exists history,
            length history <= 11
            /\ llm_with_history cfg (append_message "user" d None c) q
               = (let out := llm_chat_messages (history ++ [("user", d); ("user", q)]) in
                  if truthy out then out else general_chat_response q))
    /\ (matches HELLO_PAT (strip (lower q)) = false ->
        contains "how are you" (strip (lower q)) = false ->
        sanitize_output cfg (general_chat_response q) = ""
        /\ (llm_enabled cfg = false -> sanitize_output cfg (llm_with_history cfg c q) = "")).
Proof.
  intros c q. split; [| split; [| split; [| split]]].
  - unfold llm_with_history. destruct (negb (llm_enabled cfg)).
    + apply general_chat_response_truthy.
    + cbv zeta. destruct (truthy (llm_chat_messages _)) eqn:E; [exact E |].
      apply general_chat_response_truthy.
  - unfold llm_with_history. cbn [chat_messages with_messages].
    change (FOLLOWUP_CONTEXT_TURNS * 2) with 12. now rewrite last_n_idem.
  - intros Hoff. unfold llm_with_history. now rewrite Hoff.
  - intros d Hd Hon.
    exists (flat_map as_llm_message (last_n 11 (chat_messages c))). split.
    + eapply Nat.le_trans; [apply flat_map_as_llm_length |]. rewrite last_n_length. lia.
    + unfold llm_with_history. rewrite Hon. cbn [negb]. cbv zeta.
      change (FOLLOWUP_CONTEXT_TURNS * 2) with 12.
      rewrite append_message_messages. cbn [sources_or_nil].
      change 12 with (S 11). rewrite last_n_snoc, (last_n_le 11 239) by lia.
      rewrite flat_map_app. cbn [flat_map]. rewrite app_nil_r, (as_llm_message_user d Hd).
      rewrite <- app_assoc. reflexivity.
  - intros Hhello Hhow.
    assert (Hdefault : sanitize_output cfg (general_chat_response q) = "").
    { rewrite general_chat_response_cases, Hhello, Hhow. apply default_reply_sanitized. }
    split; [exact Hdefault |].
    intros Hoff. unfold llm_with_history. now rewrite Hoff.
Qed.

End Fallback_replies.
(* ================================================================== *)
(** ** What a chat remembers *)
(* ================================================================== *)

Section Regex_positions.

(** A match ends at a position of the subject: the continuation is only
    ever called with a suffix of the string the match started at. *)
Lemma rep_go_suffix {A : Type} (p : ascii -> bool) (lo : nat) (hi : option nat) (n : nat)
    (prev : option ascii) (s : string) (k : option ascii -> string -> option A) (x : A) :
  rep_go p lo hi n prev s k = Some x ->
  exists prev' s' m, k prev' s' = Some x /\ s = (m ++ s')%string.
Proof.
  revert n prev. induction s as [| c s IH]; intros n prev; cbn [rep_go].
  - destruct (lo <=? n); [| discriminate].
    intros Hk. now exists prev, EmptyString, EmptyString.
  - assert (Hstop : (if lo <=? n then k prev (String c s) else None) = Some x ->
                    exists prev' s' m, k prev' s' = Some x /\ String c s = (m ++ s')%string).
    { destruct (lo <=? n); [| discriminate].
      intros Hk. now exists prev, (String c s), EmptyString. }
    destruct (p c && below n hi); [| exact Hstop].
    destruct (rep_go p lo hi (S n) (Some c) s k) as [y |] eqn:Hrec; [| exact Hstop].
    intros Hy. injection Hy as ->.
    destruct (IH _ _ Hrec) as (prev' & s' & m & Hk & ->).
    now exists prev', s', (String c m).
Qed.

Lemma rmatch_suffix (r : regex) : forall {A : Type} (prev : option ascii) (s : string)
    (k : option ascii -> string -> option A) (x : A),
  rmatch r prev s k = Some x ->
  exists prev' s' m, k prev' s' = Some x /\ s = (m ++ s')%string.
Proof.
  induction r as [p | | r1 IH1 r2 IH2 | r1 IH1 r2 IH2 | p lo hi | r1 IH1 | | | | r1 IH1 | p];
    intros A prev s k x; cbn [rmatch].
  - destruct s as [| c s]; [discriminate |]. destruct (p c); [| discriminate].
    intros Hk. now exists (Some c), s, (String c EmptyString).
  - intros Hk. now exists prev, s, EmptyString.
  - intros H. destruct (IH1 _ _ _ _ _ H) as (p1 & s1 & m1 & H1 & ->).
    destruct (IH2 _ _ _ _ _ H1) as (p2 & s2 & m2 & H2 & ->).
    exists p2, s2, (m1 ++ m2)%string. split; [exact H2 | now rewrite sapp_assoc].
  - destruct (rmatch r1 prev s k) as [y |] eqn:E1.
    + intros Hy. injection Hy as ->. apply (IH1 _ _ _ _ _ E1).
    + intros H. apply (IH2 _ _ _ _ _ H).
  - apply rep_go_suffix.
  - assert (Hiter : forall fuel prev s,
              (fix iter (fuel : nat) (prev : option ascii) (s : string) {struct fuel}
                 : option A :=
                 match fuel with
                 | 0 => None
                 | S f =>
                     rmatch r1 prev s (fun p' s' =>
                       if String.length s' <? String.length s then
                         match iter f p' s' with
                         | Some x => Some x
                         | None => k p' s'
                         end
                       else k p' s')
                 end) fuel prev s = Some x ->
              exists prev' s' m, k prev' s' = Some x /\ s = (m ++ s')%string).
    { induction fuel as [| fuel IHf]; intros prev0 s0 H; [discriminate H |].
      apply IH1 in H. destruct H as (p1 & s1 & m1 & H1 & ->).
      destruct (String.length s1 <? String.length (m1 ++ s1)).
      - match type of H1 with
        | match ?it with Some _ => _ | None => _ end = _ => destruct it as [y |] eqn:Hit
        end.
        + injection H1 as ->. destruct (IHf _ _ Hit) as (p2 & s2 & m2 & H2 & ->).
          exists p2, s2, (m1 ++ m2)%string. split; [exact H2 | now rewrite sapp_assoc].
        + now exists p1, s1, m1.
      - now exists p1, s1, m1. }
    intros H. apply (Hiter (S (String.length s)) prev s). exact H.
  - destruct prev; [discriminate |]. intros Hk. now exists None, s, EmptyString.
  - destruct (is_empty s || String.eqb s NL); [| discriminate].
    intros Hk. now exists prev, s, EmptyString.
  - destruct (at_wordb prev s); [| discriminate].
    intros Hk. now exists prev, s, EmptyString.
  - destruct (rmatch r1 prev s (fun _ _ => Some tt)); [| discriminate].
    intros Hk. now exists prev, s, EmptyString.
  - destruct prev as [c |]; [| discriminate]. destruct (p c); [| discriminate].
    intros Hk. now exists (Some c), s, EmptyString.
Qed.

Lemma take_app_exact (m s : string) : take (String.length m) (m ++ s)%string = m.
Proof.
  unfold take. induction m as [| c m IH]; simpl.
  - destruct s; reflexivity.
  - now rewrite IH.
Qed.

Lemma take_of_suffix (m s : string) :
  take (String.length (m ++ s)%string - String.length s) (m ++ s)%string = m.
Proof.
  rewrite length_sapp. replace (String.length m + String.length s - String.length s)
    with (String.length m) by lia.
  apply take_app_exact.
Qed.

(** The text of a group is a piece of the subject. *)
Lemma capture_contains (pre g post : regex) (prev : option ascii) (s x : string) :
  capture pre g post prev s = Some x -> contains x s = true.
Proof.
  unfold capture. intros H.
  apply rmatch_suffix in H. destruct H as (p1 & s1 & m1 & H & ->).
  apply rmatch_suffix in H. destruct H as (p2 & s2 & m2 & H & ->).
  apply rmatch_suffix in H. destruct H as (p3 & s3 & m3 & H & ->).
  injection H as <-. rewrite take_of_suffix.
  apply contains_iff. now exists m1, (m3 ++ s3)%string.
Qed.

Lemma search_capture_contains (pre g post : regex) (s x : string) :
  search_capture pre g post s = Some x -> contains x s = true.
Proof.
  unfold search_capture. generalize (@None ascii).
  induction s as [| c s IH]; intros prev; cbn [search_capture_go].
  - destruct (capture pre g post prev EmptyString) eqn:E; [| discriminate].
    intros H. injection H as ->. now apply capture_contains in E.
  - destruct (capture pre g post prev (String c s)) eqn:E.
    + intros H. injection H as ->. now apply capture_contains in E.
    + intros H. apply IH in H. cbn [contains]. rewrite H. apply orb_true_r.
Qed.

Lemma capture2_contains (pre g1 mid g2 : regex) (prev : option ascii) (s k v : string) (n : nat) :
  capture2 pre g1 mid g2 prev s = Some (k, v, n) ->
  contains k s = true /\ contains v s = true.
Proof.
  unfold capture2. intros H.
  apply rmatch_suffix in H. destruct H as (p0 & s0 & m0 & H & ->).
  apply rmatch_suffix in H. destruct H as (p1 & s1 & m1 & H & ->).
  apply rmatch_suffix in H. destruct H as (p2 & s2 & m2 & H & ->).
  apply rmatch_suffix in H. destruct H as (p3 & s3 & m3 & H & ->).
  injection H as <- <- _. rewrite !take_of_suffix. split; apply contains_iff.
  - now exists m0, (m2 ++ m3 ++ s3)%string.
  - exists (m0 ++ m1 ++ m2)%string, s3. now rewrite !sapp_assoc.
Qed.

Lemma findall2_contains (pre g1 mid g2 : regex) (s k v : string) :
  In (k, v) (findall2 pre g1 mid g2 s) -> contains k s = true /\ contains v s = true.
Proof.
  unfold findall2. generalize 0 at 1. generalize (@None ascii).
  induction s as [| c s IH]; intros prev skip; cbn [findall2_go]; [intros [] |].
  assert (Hlater : forall sk p, In (k, v) (findall2_go pre g1 mid g2 sk p s) ->
                     contains k (String c s) = true /\ contains v (String c s) = true).
  { intros sk p Hin. destruct (IH p sk Hin) as [Hk Hv].
    cbn [contains]. rewrite Hk, Hv, !orb_true_r. now split. }
  destruct skip as [| skip]; [| apply Hlater].
  destruct (capture2 pre g1 mid g2 prev (String c s)) as [[[k0 v0] [| n]] |] eqn:E;
    try apply Hlater.
  intros [Heq | Hin]; [| now apply (Hlater n (Some c))].
  injection Heq as -> ->. now apply capture2_contains in E.
Qed.

End Regex_positions.
Section Memory_contents.

Variable raw : string.
Variable c : Chat.

Lemma contains_strip_of (g : string) : contains g raw = true -> contains (strip g) raw = true.
Proof. intros H. eapply contains_trans; [apply contains_strip | exact H]. Qed.

Lemma notes_of_mem_set (c' : Chat) (key value : string) :
  notes_of (_mem_set c' key value) = notes_of c'.
Proof.
  unfold notes_of, _mem_set, memory_or_new. cbn [chat_memory with_memory mem_notes].
  destruct (chat_memory c') as [m |]; reflexivity.
Qed.

Lemma notes_of_mem_forget (c' : Chat) (key : string) :
  notes_of (_mem_forget c' key) = notes_of c'.
Proof.
  unfold notes_of, _mem_forget.
  destruct (chat_memory c') as [m |] eqn:Hm; [| now rewrite Hm].
  destruct (mem_facts m); cbn [chat_memory with_memory mem_notes]; [reflexivity |].
  now rewrite Hm.
Qed.

Lemma notes_of_mem_add_note (c' : Chat) (text now : string) :
  notes_of (_mem_add_note c' text now)
  = notes_of c' ++ [{| note_text := text; note_when := (now ++ "Z")%string |}].
Proof.
  unfold notes_of, _mem_add_note, memory_or_new. cbn [chat_memory with_memory mem_notes].
  destruct (chat_memory c') as [m |]; [destruct (mem_notes m) |]; reflexivity.
Qed.

Lemma mem_all_add_note (c' : Chat) (text now : string) :
  _mem_all (_mem_add_note c' text now) = _mem_all c'.
Proof.
  unfold _mem_all, _mem_add_note, memory_or_new. cbn [chat_memory with_memory mem_facts].
  destruct (chat_memory c') as [m |]; reflexivity.
Qed.

Lemma facts_from_set (c' : Chat) (key value : string) :
  facts_from raw c c' -> contains value raw = true ->
  facts_from raw c (_mem_set c' key value).
Proof.
  intros H Hv k v. unfold _mem_get. rewrite mem_all_set, dict_lookup_set.
  destruct (String.eqb k (lower (strip key))).
  - intros Heq. injection Heq as <-. right. split; [now apply contains_strip_of |].
    apply strip_idem.
  - apply H.
Qed.

Lemma facts_from_forget (c' : Chat) (key : string) :
  facts_from raw c c' -> facts_from raw c (_mem_forget c' key).
Proof.
  intros H k v. unfold _mem_get. rewrite mem_all_forget, dict_lookup_del.
  destruct (String.eqb k key); [discriminate | apply H].
Qed.

Lemma facts_from_add_note (c' : Chat) (text now : string) :
  facts_from raw c c' -> facts_from raw c (_mem_add_note c' text now).
Proof. intros H k v. unfold _mem_get. rewrite mem_all_add_note. apply H. Qed.

Lemma notes_from_same (c' c'' : Chat) :
  notes_of c'' = notes_of c' -> notes_from raw c c' -> notes_from raw c c''.
Proof. intros Heq (added & H & Hall). exists added. now rewrite Heq. Qed.

Lemma notes_from_add_note (c' : Chat) (text now : string) :
  notes_from raw c c' -> contains text raw = true ->
  notes_from raw c (_mem_add_note c' text now).
Proof.
  intros (added & H & Hall) Htext.
  exists (added ++ [{| note_text := text; note_when := (now ++ "Z")%string |}]).
  rewrite notes_of_mem_add_note, H, app_assoc. split; [reflexivity |].
  apply Forall_app. split; [exact Hall |]. constructor; [exact Htext | constructor].
Qed.

Lemma remember_found_keeps (key : string) (m : option string) (st : Chat * list string) :
  (forall g, m = Some g -> contains g raw = true) ->
  facts_from raw c (fst st) /\ notes_from raw c (fst st) ->
  facts_from raw c (fst (remember_found key m st))
  /\ notes_from raw c (fst (remember_found key m st)).
Proof.
  intros Hm [Hf Hn]. destruct m as [g |]; [| now split].
  cbn [remember_found remember fst]. split.
  - apply facts_from_set; [exact Hf |]. apply contains_strip_of. now apply Hm.
  - eapply notes_from_same; [apply notes_of_mem_set | exact Hn].
Qed.

Lemma remember_found_updates (key : string) (m : option string) (st : Chat * list string) :
  snd (remember_found key m st)
  = snd st ++ match m with Some g => [(key ++ ARROW ++ strip g)%string] | None => [] end.
Proof. destruct m; cbn [remember_found remember snd]; [reflexivity | now rewrite app_nil_r]. Qed.

Lemma remember_fold_updates (kvs : list (string * string)) (st : Chat * list string) :
  snd (fold_left (fun st kv => remember (canonical_key (lower (strip (fst kv))))
                                        (strip (snd kv)) st) kvs st)
  = snd st ++ map (fun kv => (canonical_key (lower (strip (fst kv))) ++ ARROW
                              ++ strip (snd kv))%string) kvs.
Proof.
  revert st. induction kvs as [| kv kvs IH]; intros st; cbn [fold_left map].
  - now rewrite app_nil_r.
  - rewrite IH. cbn [remember snd]. now rewrite <- app_assoc.
Qed.

Lemma remember_fold_keeps (kvs : list (string * string)) (st : Chat * list string) :
  (forall k v, In (k, v) kvs -> contains v raw = true) ->
  facts_from raw c (fst st) /\ notes_from raw c (fst st) ->
  facts_from raw c (fst (fold_left (fun st kv => remember (canonical_key (lower (strip (fst kv))))
                                                          (strip (snd kv)) st) kvs st))
  /\ notes_from raw c (fst (fold_left (fun st kv => remember (canonical_key (lower (strip (fst kv))))
                                                             (strip (snd kv)) st) kvs st)).
Proof.
  revert st. induction kvs as [| [k v] kvs IH]; intros st Hkvs Hst; [exact Hst |].
  cbn [fold_left]. apply IH.
  - intros k' v' Hin. apply (Hkvs k' v'). now right.
  - destruct Hst as [Hf Hn]. cbn [remember fst snd]. split.
    + apply facts_from_set; [exact Hf |]. apply contains_strip_of.
      apply (Hkvs k v). now left.
    + eapply notes_from_same; [apply notes_of_mem_set | exact Hn].
Qed.

End Memory_contents.

Section Memory_extraction.

Lemma or_else_contains (raw : string) (a b : option string) (g : string) :
  (forall x, a = Some x -> contains x raw = true) ->
  (forall x, b = Some x -> contains x raw = true) ->
  or_else a b = Some g -> contains g raw = true.
Proof. intros Ha Hb. destruct a as [x |]; cbn [or_else]; [apply Ha | apply Hb]. Qed.

(** The updates [extract_and_update_memory] reports, as a function of the
    text. *)
Lemma extract_updates (c : Chat) (now raw : string) :
  snd (extract_and_update_memory c now raw)
  = if is_empty raw then []
    else
      match or_else (search_capture NAME_PRE NAME_WORDS Eps raw)
                    (search_capture CALLME_PRE NAME_WORDS Eps raw) with
      | Some g => [("name" ++ ARROW ++ strip g)%string] | None => []
      end
      ++ match search_capture EMAIL_PRE EMAIL_ADDRESS Eps raw with
         | Some g => [("email" ++ ARROW ++ strip g)%string] | None => []
         end
      ++ match search_capture PHONE_PRE PHONE_NUMBER Eps raw with
         | Some g => [("phone" ++ ARROW ++ strip g)%string] | None => []
         end
      ++ match search_capture FORGET_PRE FORGET_KEY WordB raw with
         | Some g => [("forgot " ++ lower g)%string] | None => []
         end
      ++ match search_capture KV_PRE (plus not_nl) Eps raw with
         | Some g => [("noted: " ++ strip g)%string] | None => []
         end
      ++ map (fun kv => (canonical_key (lower (strip (fst kv))) ++ ARROW
                         ++ strip (snd kv))%string)
             (findall2 WordB COLON_KEY COLON_MID (plus not_nl) raw).
Proof.
  unfold extract_and_update_memory. destruct (is_empty raw); [reflexivity |]. cbv zeta.
  rewrite remember_fold_updates.
  destruct (search_capture KV_PRE (plus not_nl) Eps raw);
    destruct (search_capture FORGET_PRE FORGET_KEY WordB raw);
    cbn [snd]; rewrite !remember_found_updates; cbn [snd app];
    rewrite <- ?app_assoc; cbn [app]; reflexivity.
Qed.

End Memory_extraction.
Section Memory_theorem.

Lemma rep_go_total {A : Type} (p : ascii -> bool) (lo : nat) (hi : option nat) (n : nat)
    (prev : option ascii) (s : string) (k : option ascii -> string -> option A) :
  (forall p' s', exists y, k p' s' = Some y) -> lo <= n ->
  exists y, rep_go p lo hi n prev s k = Some y.
Proof.
  intros Hk. revert n prev. induction s as [| c s IH]; intros n prev Hlo; cbn [rep_go].
  - apply Nat.leb_le in Hlo. rewrite Hlo. apply Hk.
  - apply Nat.leb_le in Hlo. rewrite Hlo.
    destruct (p c && below n hi); [| apply Hk].
    destruct (rep_go p lo hi (S n) (Some c) s k) as [y |]; [now exists y | apply Hk].
Qed.

Lemma alpha_not_space (c : ascii) : is_alpha c = true -> is_space c = false.
Proof. destruct c as [[] [] [] [] [] [] [] []]; vm_compute; congruence. Qed.

Lemma i_am_saves_a_name (c1 c2 : ascii) (rest : string) :
  is_alpha c1 = true -> name_char c2 = true ->
  exists g, search_capture NAME_PRE NAME_WORDS Eps ("I am " ++ String c1 (String c2 rest)) = Some g.
Proof.
  intros H1 H2. unfold search_capture.
  cbn [append search_capture_go].
  assert (Hcap : exists g, capture NAME_PRE NAME_WORDS Eps None
                             (String "I" (String " " (String "a" (String "m" (String " "
                                (String c1 (String c2 rest))))))) = Some g).
  { unfold capture, NAME_PRE, NAME_WORDS, NAME_WORD.
    cbn -[rep_go String.length take is_space is_alpha name_char is_char_ci is_word].
    replace (is_word "I") with true by (vm_compute; reflexivity).
    replace (is_char_ci "m" "I") with false by (vm_compute; reflexivity).
    replace (is_char_ci "i" "I") with true by (vm_compute; reflexivity).
    cbn [rep_go].
    replace (is_space " ") with true by (vm_compute; reflexivity).
    replace (is_space "a") with false by (vm_compute; reflexivity).
    cbn [andb below Nat.leb].
    replace (is_char_ci "a" "a") with true by (vm_compute; reflexivity).
    replace (is_char_ci "m" "m") with true by (vm_compute; reflexivity).
    cbn [rep_go].
    replace (is_space " ") with true by (vm_compute; reflexivity).
    rewrite (alpha_not_space c1 H1).
    cbn [andb below Nat.leb].
    rewrite H1. cbn [rep_go]. rewrite H2. cbn [andb below Nat.leb].
    match goal with
    | |- exists g, match match match match ?X with Some _ => _ | None => _ end
                               with Some _ => _ | None => _ end
                         with Some _ => _ | None => _ end
                   with Some _ => _ | None => _ end = Some g =>
        assert (Hx : exists y, X = Some y)
    end.
    { apply rep_go_total; [| lia]. intros p' s'.
      match goal with
      | |- exists y, match ?Y with Some _ => _ | None => _ end = Some y => destruct Y
      end; eexists; reflexivity. }
    destruct Hx as [y Hy]. rewrite Hy. now exists y. }
  destruct Hcap as [g Hg]. exists g. now rewrite Hg.
Qed.


Lemma mem_get_set_canonical (ch : Chat) (key value : string) :
  In key (map fst MEM_KEY_ALIASES) ->
  _mem_get (_mem_set ch key value) key = Some (strip value).
Proof.
  intros Hkey. unfold _mem_get. rewrite mem_all_set, dict_lookup_set.
  assert (Hnorm : lower (strip key) = key).
  { cbn in Hkey. repeat (destruct Hkey as [<- | Hkey]; [reflexivity |]). destruct Hkey. }
  now rewrite Hnorm, String.eqb_refl.
Qed.

(** X30.  The memory of a chat.  [extract_and_update_memory] changes
    nothing of the chat but its memory.  Every fact the chat has afterwards
    is a fact it had before or a stripped piece of the text, and every note
    added has a piece of the text as its text: nothing is saved that the
    user did not write.  The updates it reports depend on the text only,
    not on the chat, and when it reports none the chat is as before.  A
    [key: value] line whose key is an alias is saved under the key the alias
    is listed under, which is a key [memory_answer] has a question for; and
    what is saved under such a key is what [memory_answer] gives to the
    question for that key.  Under the flag [I] the class [A-Z] of
    [NAME_PAT] is the class of all letters: a text that begins with I am
    and goes on with a letter and one more character of a name, as I am not
    sure does, is reported as a name saved. *)
Theorem memory_holds_what_the_user_wrote :
  forall (c : Chat) (now raw : string),
    let r := extract_and_update_memory c now raw in
    same_thread c (fst r)
    /\ facts_from raw c (fst r)
    /\ notes_from raw c (fst r)
    /\ (forall c' now', snd (extract_and_update_memory c' now' raw) = snd r)
    /\ (snd r = [] -> fst r = c)
    /\ (forall key aliases a,
          In (key, aliases) MEM_KEY_ALIASES -> In a aliases ->
          canonical_key a = key /\ In key (map fst MEMORY_CHECKS))
    /\ (forall key pat value q,
          In key (map fst MEM_KEY_ALIASES) ->
          truthy (strip value) = true ->
          found SAVED_PAT (lower q) = false ->
          List.find (fun kp => found (snd kp) (lower q)) MEMORY_CHECKS = Some (key, pat) ->
          memory_answer (_mem_set c key value) q
          = Some ("Your " ++ key ++ " is " ++ strip value ++ ".")%string)
    /\ (forall c1 c2 rest,
          is_alpha c1 = true -> name_char c2 = true ->
          exists v more,
            snd (extract_and_update_memory c now ("I am " ++ String c1 (String c2 rest)))
            = ("name" ++ ARROW ++ v)%string :: more).
Proof.
  intros c now raw r. split; [apply extract_same_thread |].
  assert (Hstart : facts_from raw c c /\ notes_from raw c c).
  { split.
    - intros k v H. now left.
    - exists []. split; [now rewrite app_nil_r | constructor]. }
  assert (Hboth : facts_from raw c (fst r) /\ notes_from raw c (fst r));
    [| split; [apply Hboth | split; [apply Hboth | split; [| split; [| split; [| split]]]]]].
  - unfold r, extract_and_update_memory. destruct (is_empty raw); [apply Hstart |]. cbv zeta.
    apply remember_fold_keeps.
    { intros k v Hin. now apply findall2_contains in Hin. }
    assert (H3 : let st := remember_found "phone" (search_capture PHONE_PRE PHONE_NUMBER Eps raw)
                   (remember_found "email" (search_capture EMAIL_PRE EMAIL_ADDRESS Eps raw)
                      (remember_found "name"
                         (or_else (search_capture NAME_PRE NAME_WORDS Eps raw)
                                  (search_capture CALLME_PRE NAME_WORDS Eps raw)) (c, []))) in
                 facts_from raw c (fst st) /\ notes_from raw c (fst st)).
    { cbv zeta. apply remember_found_keeps; [intros g; apply search_capture_contains |].
      apply remember_found_keeps; [intros g; apply search_capture_contains |].
      apply remember_found_keeps; [| exact Hstart].
      intros g. apply or_else_contains; intros x; apply search_capture_contains. }
    cbv zeta in H3. destruct H3 as [Hf Hn].
    assert (H4 : forall st : Chat * list string,
              facts_from raw c (fst st) /\ notes_from raw c (fst st) ->
              facts_from raw c
                (fst match search_capture FORGET_PRE FORGET_KEY WordB raw with
                     | Some g => (_mem_forget (fst st) (lower g),
                                  snd st ++ [("forgot " ++ lower g)%string])
                     | None => st
                     end)
              /\ notes_from raw c
                   (fst match search_capture FORGET_PRE FORGET_KEY WordB raw with
                        | Some g => (_mem_forget (fst st) (lower g),
                                     snd st ++ [("forgot " ++ lower g)%string])
                        | None => st
                        end)).
    { intros st [Hf' Hn']. destruct (search_capture FORGET_PRE FORGET_KEY WordB raw); [| now split].
      cbn [fst]. split; [now apply facts_from_forget |].
      eapply notes_from_same; [apply notes_of_mem_forget | exact Hn']. }
    specialize (H4 _ (conj Hf Hn)). destruct H4 as [Hf4 Hn4].
    destruct (search_capture KV_PRE (plus not_nl) Eps raw) as [g |] eqn:Ekv; [| now split].
    cbn [fst]. split; [now apply facts_from_add_note |].
    apply notes_from_add_note; [exact Hn4 |].
    apply contains_strip_of. now apply search_capture_contains in Ekv.
  - intros c' now'. unfold r. now rewrite !extract_updates.
  - unfold r. rewrite extract_updates. unfold extract_and_update_memory.
    destruct (is_empty raw); [reflexivity |]. cbv zeta.
    destruct (or_else _ _); [discriminate |].
    destruct (search_capture EMAIL_PRE EMAIL_ADDRESS Eps raw); [discriminate |].
    destruct (search_capture PHONE_PRE PHONE_NUMBER Eps raw); [discriminate |].
    destruct (search_capture FORGET_PRE FORGET_KEY WordB raw); [discriminate |].
    destruct (search_capture KV_PRE (plus not_nl) Eps raw); [discriminate |].
    destruct (findall2 WordB COLON_KEY COLON_MID (plus not_nl) raw); [reflexivity | discriminate].
  - intros key aliases a Hkey Ha. cbn in Hkey.
    repeat (destruct Hkey as [Hkey | Hkey];
            [injection Hkey as <- <-; cbn in Ha;
             repeat (destruct Ha as [<- | Ha]; [split; [reflexivity | cbn; tauto] |]);
             destruct Ha |]).
    destruct Hkey.
  - intros key pat value q Hkey Hvalue Hsaved Hfind.
    unfold memory_answer. cbv zeta. rewrite Hsaved, Hfind.
    rewrite (mem_get_set_canonical c key value Hkey), Hvalue. reflexivity.
  - intros c1 c2 rest H1 H2. rewrite extract_updates.
    destruct (i_am_saves_a_name c1 c2 rest H1 H2) as [g Hg]. rewrite Hg.
    cbn [append is_empty or_else app]. eexists. eexists. reflexivity.
Qed.

Lemma memory_holds_what_the_user_wrote_witness :
  let r := extract_and_update_memory chat_ann "2024-01-02T00:00:00" "I am not sure" in
  _mem_get (fst r) "name" = Some "not sure"
  /\ same_thread chat_ann (fst r)
  /\ facts_from "I am not sure" chat_ann (fst r)
  /\ memory_answer (_mem_set chat_ann "name" "Bob") "What's my name?"
     = Some "Your name is Bob.".
Proof.
  cbv zeta. split; [reflexivity |].
  pose proof (memory_holds_what_the_user_wrote chat_ann "2024-01-02T00:00:00" "I am not sure")
    as H.
  cbv zeta in H. destruct H as (Hthread & Hfacts & _ & _ & _ & _ & Hanswer & _).
  split; [exact Hthread |]. split; [exact Hfacts |].
  apply (Hanswer "name" (snd (nth 0 MEMORY_CHECKS ("", Eps))) "Bob" "What's my name?");
    [cbn; tauto | reflexivity | reflexivity | reflexivity].
Defined.

End Memory_theorem.
